(** * gopus: the CELT inverse-transform kernels and the reference-decoder harnesses

    A shallow embedding of the six ARM NEON kernels under
    [internal/celt/asmgen]:

    - [imdct_prerotate_f32], [imdct_postrotate_f32]: the two rotation
      stages around the complex FFT of the inverse MDCT;
    - [kf_bfly3_m1], [kf_bfly4_m1], [kf_bfly4_mx], [kf_bfly5_m1]: the
      radix-3/4/5 butterflies.

    Modelling choices.

    - Single-precision arithmetic is an interface ([FloatOps]): one rounded
      operation per C operator and per lane of a NEON arithmetic intrinsic
      (no contraction of a product and a sum into a fused operation;
      [vmla_f32 a b c] is the product then the sum), nothing assumed about
      it.  Two results are "bit-identical" when they are the same expression
      over that interface.  The few identities of IEEE-754 that the
      statements of some claims rely on (multiplication by the constants
      [1.0f] and [-1.0f], commutativity, [x - y = x + (-y)]; NaNs are not
      told apart) are a second interface ([FloatLaws]).  Both are
      instantiated by the binary32 format of the Standard Library's
      [SpecFloat] ([Binary32], [Binary32Laws]).
    - A buffer reached through a C pointer is a [list]; an index is a [Z]
      ([int] arithmetic without overflow: signed overflow is undefined in C
      and every index that is used is also checked against the buffer).  A
      read or a write outside the buffer is undefined behaviour in C and is
      [None] here, so every kernel returns an [option].
    - A NEON register is a record of its lanes, an intrinsic of
      [arm_neon.h] is the function on lanes that the ACLE documents.
    - A [for] loop is [while_loop]: the condition is tested on the loop
      state before each execution of the body, as in C; the fuel given by
      each kernel is an upper bound of its number of iterations.

    The two programs under [tools/csrc] that run the reference decoder of
    libopus on a stream of packets are embedded in the module [Harness],
    with the choices made for them. *)

From Stdlib Require Import ZArith Lia Bool SpecFloat.
From Stdlib Require Strings.Byte.
From stdpp Require Import base tactics option numbers list.

Open Scope Z_scope.

(** ** Single-precision arithmetic *)

(** The operations of C on [float] that the kernels use.  [f_one] and
    [f_half] are the literals [1.0f] and [0.5f]; [-1.0f] is [fneg f_one];
    [fneg] flips the sign bit. *)
Class FloatOps (F : Type) : Type := {
  fadd : F → F → F;
  fsub : F → F → F;
  fmul : F → F → F;
  fneg : F → F;
  f_one : F;
  f_half : F
}.

(** The conversion [(float)x] of a [double]. *)
Class Narrow (D F : Type) : Type := narrow : D → F.

(** Identities of IEEE-754 arithmetic in round-to-nearest (NaNs identified). *)
Class FloatLaws (F : Type) `{FloatOps F} : Prop := {
  fadd_comm : ∀ x y : F, fadd x y = fadd y x;
  fmul_comm : ∀ x y : F, fmul x y = fmul y x;
  fmul_one_r : ∀ x : F, fmul x f_one = x;
  fmul_neg_l : ∀ x y : F, fmul (fneg x) y = fneg (fmul x y);
  fneg_involutive : ∀ x : F, fneg (fneg x) = x;
  fsub_fadd_neg : ∀ x y : F, fsub x y = fadd x (fneg y)
}.

(** ** Buffers *)

Section Buffers.
Context {A : Type}.
Implicit Types (b : list A) (i j : Z) (v : A).

(** [p[i]] as an rvalue. *)
Definition ld b i : option A :=
  if decide (0 ≤ i) then b !! Z.to_nat i else None.

(** [p[i] = v]. *)
Definition st b i v : option (list A) :=
  if decide (0 ≤ i < Z.of_nat (length b)) then Some (<[Z.to_nat i := v]> b) else None.

(** The buffer after a write that is known to be in range. *)
Definition upd b i v : list A := <[Z.to_nat i := v]> b.

Definition inb b i : Prop := 0 ≤ i < Z.of_nat (length b).
End Buffers.

(** ** Loops *)

(** [for (; cond; ) body] on the loop state [s]. *)
Fixpoint while_loop {S : Type} (fuel : nat) (cond : S → bool) (body : S → option S)
    (s : S) : option S :=
  if cond s then
    match fuel with
    | O => None
    | Datatypes.S fuel' => s' ← body s; while_loop fuel' cond body s'
    end
  else Some s.

(** [k] executions of [body], one after the other. *)
Fixpoint iterate {S : Type} (k : nat) (body : S → option S) (s : S) : option S :=
  match k with
  | O => Some s
  | Datatypes.S k' => s' ← body s; iterate k' body s'
  end.

(** ** NEON registers and intrinsics *)

Record float32x2_t (F : Type) : Type := V2 { d0 : F; d1 : F }.
Record float32x4_t (F : Type) : Type := V4 { q0 : F; q1 : F; q2 : F; q3 : F }.
Arguments V2 {F} _ _.
Arguments d0 {F} _.
Arguments d1 {F} _.
Arguments V4 {F} _ _ _ _.
Arguments q0 {F} _.
Arguments q1 {F} _.
Arguments q2 {F} _.
Arguments q3 {F} _.

(** [kissCpx]: a complex sample, real part first.  The members [r] and [i]
    are [cpx_r] and [cpx_i] here ([i] is also the loop counter of every
    kernel). *)
Record kissCpx (F : Type) : Type := Cpx { cpx_r : F; cpx_i : F }.
Arguments Cpx {F} _ _.
Arguments cpx_r {F} _.
Arguments cpx_i {F} _.

Section Neon.
Context {F : Type} `{FloatOps F}.
Implicit Types (a b c : float32x2_t F) (x y z : float32x4_t F).

Definition vdup_n_f32 (v : F) : float32x2_t F := V2 v v.
Definition vset_lane_f32 (v : F) a (lane : Z) : float32x2_t F :=
  if decide (lane = 0) then V2 v (d1 a) else V2 (d0 a) v.
Definition vdup_lane_f32 a (lane : Z) : float32x2_t F :=
  if decide (lane = 0) then V2 (d0 a) (d0 a) else V2 (d1 a) (d1 a).

Definition vadd_f32 a b := V2 (fadd (d0 a) (d0 b)) (fadd (d1 a) (d1 b)).
Definition vsub_f32 a b := V2 (fsub (d0 a) (d0 b)) (fsub (d1 a) (d1 b)).
Definition vmul_f32 a b := V2 (fmul (d0 a) (d0 b)) (fmul (d1 a) (d1 b)).
Definition vneg_f32 a := V2 (fneg (d0 a)) (fneg (d1 a)).
(** [vmla_f32 a b c] is [a + b * c], the product rounded before the sum. *)
Definition vmla_f32 a b c := vadd_f32 a (vmul_f32 b c).

Definition vaddq_f32 x y :=
  V4 (fadd (q0 x) (q0 y)) (fadd (q1 x) (q1 y)) (fadd (q2 x) (q2 y)) (fadd (q3 x) (q3 y)).
Definition vsubq_f32 x y :=
  V4 (fsub (q0 x) (q0 y)) (fsub (q1 x) (q1 y)) (fsub (q2 x) (q2 y)) (fsub (q3 x) (q3 y)).
Definition vmulq_f32 x y :=
  V4 (fmul (q0 x) (q0 y)) (fmul (q1 x) (q1 y)) (fmul (q2 x) (q2 y)) (fmul (q3 x) (q3 y)).

Definition vrev64_f32 a := V2 (d1 a) (d0 a).
Definition vrev64q_f32 x := V4 (q1 x) (q0 x) (q3 x) (q2 x).
Definition vget_low_f32 x := V2 (q0 x) (q1 x).
Definition vget_high_f32 x := V2 (q2 x) (q3 x).
Definition vcombine_f32 a b := V4 (d0 a) (d1 a) (d0 b) (d1 b).
(** [vzip_f32 a b]: the pair [(val[0], val[1])]. *)
Definition vzip_f32 a b : float32x2_t F * float32x2_t F :=
  (V2 (d0 a) (d0 b), V2 (d1 a) (d1 b)).
Definition vuzp1q_f32 x y := V4 (q0 x) (q2 x) (q0 y) (q2 y).
Definition vuzp2q_f32 x y := V4 (q1 x) (q3 x) (q1 y) (q3 y).
(** [vextq_f32 x y 2]. *)
Definition vextq_f32_2 x y := V4 (q2 x) (q3 x) (q0 y) (q1 y).

(** [vreinterpret_f32_u32 (veor_u32 (vreinterpret_u32_f32 a) mask)] for a
    mask whose lanes are [0u] ([false]) or [0x80000000u] ([true]): the
    exclusive or flips the sign bit of the lanes marked [true]. *)
Definition veor_sign a (m0 m1 : bool) :=
  V2 (if m0 then fneg (d0 a) else d0 a) (if m1 then fneg (d1 a) else d1 a).

(** Loads and stores through a [float *]. *)
Definition vld1_f32 (p : list F) (k : Z) : option (float32x2_t F) :=
  a0 ← ld p k; a1 ← ld p (k + 1); Some (V2 a0 a1).
Definition vld1q_f32 (p : list F) (k : Z) : option (float32x4_t F) :=
  a0 ← ld p k; a1 ← ld p (k + 1); a2 ← ld p (k + 2); a3 ← ld p (k + 3);
  Some (V4 a0 a1 a2 a3).
Definition vst1q_f32 (p : list F) (k : Z) x : option (list F) :=
  p ← st p k (q0 x); p ← st p (k + 1) (q1 x);
  p ← st p (k + 2) (q2 x); st p (k + 3) (q3 x).

(** Loads and stores through [(float * )&f[k]] for [kissCpx *f]: the two
    lanes are the members [r] and [i] of the sample, in this order. *)
Definition vld1_cpx (f : list (kissCpx F)) (k : Z) : option (float32x2_t F) :=
  c ← ld f k; Some (V2 (cpx_r c) (cpx_i c)).
Definition vst1_cpx (f : list (kissCpx F)) (k : Z) a : option (list (kissCpx F)) :=
  st f k (Cpx (d0 a) (d1 a)).
Definition vld1q_cpx (f : list (kissCpx F)) (k : Z) : option (float32x4_t F) :=
  c0 ← ld f k; c1 ← ld f (k + 1); Some (V4 (cpx_r c0) (cpx_i c0) (cpx_r c1) (cpx_i c1)).
Definition vst1q_cpx (f : list (kissCpx F)) (k : Z) x : option (list (kissCpx F)) :=
  f ← st f k (Cpx (q0 x) (q1 x)); st f (k + 1) (Cpx (q2 x) (q3 x)).
End Neon.

(** ** [imdct_prerotate_f32.c] *)

Section Prerotate.
Context {F D : Type} `{FloatOps F} `{Narrow D F}.
Variables (spec : list D) (trig : list F) (n2 n4 : Z).

(** Body of the vector loop (lines 10-27): two indices at once. *)
Definition prerotate_vec_body (s : Z * list F) : option (Z * list F) :=
  let '(i, out) := s in
  let front := 2 * i in
  let back := n2 - 1 - 2 * i in
  s0 ← ld spec front;
  let x1 := vdup_n_f32 (narrow s0) in
  s1 ← ld spec (front + 2);
  let x1 := vset_lane_f32 (narrow s1) x1 1 in
  s2 ← ld spec back;
  let x2 := vdup_n_f32 (narrow s2) in
  s3 ← ld spec (back - 2);
  let x2 := vset_lane_f32 (narrow s3) x2 1 in
  t0 ← vld1_f32 trig i;
  t1 ← vld1_f32 trig (n4 + i);
  let yr := vadd_f32 (vmul_f32 x2 t0) (vmul_f32 x1 t1) in
  let yi := vsub_f32 (vmul_f32 x1 t0) (vmul_f32 x2 t1) in
  let zip := vzip_f32 yi yr in
  let outv := vcombine_f32 (fst zip) (snd zip) in
  out ← vst1q_f32 out (2 * i) outv;
  Some (i + 2, out).

(** Body of the scalar loop (lines 31-38). *)
Definition prerotate_scalar_body (s : Z * list F) : option (Z * list F) :=
  let '(i, out) := s in
  s0 ← ld spec (2 * i);
  let x1 := narrow s0 in
  s1 ← ld spec (n2 - 1 - 2 * i);
  let x2 := narrow s1 in
  t0 ← ld trig i;
  t1 ← ld trig (n4 + i);
  let yr := fadd (fmul x2 t0) (fmul x1 t1) in
  let yi := fsub (fmul x1 t0) (fmul x2 t1) in
  out ← st out (2 * i) yi;
  out ← st out (2 * i + 1) yr;
  Some (i + 1, out).

Definition imdct_prerotate_f32 (out : list F) : option (list F) :=
  if decide (n4 ≤ 0) then Some out
  else
    s ← while_loop (Z.to_nat n4) (λ s, bool_decide (fst s + 1 < n4))
          prerotate_vec_body (0, out);
    s ← while_loop (Z.to_nat n4) (λ s, bool_decide (fst s < n4))
          prerotate_scalar_body s;
    Some (snd s).

(** The scalar loop alone, run over the whole index range. *)
Definition imdct_prerotate_scalar (out : list F) : option (list F) :=
  if decide (n4 ≤ 0) then Some out
  else
    s ← while_loop (Z.to_nat n4) (λ s, bool_decide (fst s < n4))
          prerotate_scalar_body (0, out);
    Some (snd s).

(** What the specification writes at index [k]: [(yi, yr)]. *)
Definition prerotate_yi (k : Z) : option F :=
  s0 ← ld spec (2 * k); s1 ← ld spec (n2 - 1 - 2 * k);
  t0 ← ld trig k; t1 ← ld trig (n4 + k);
  Some (fsub (fmul (narrow s0) t0) (fmul (narrow s1) t1)).
Definition prerotate_yr (k : Z) : option F :=
  s0 ← ld spec (2 * k); s1 ← ld spec (n2 - 1 - 2 * k);
  t0 ← ld trig k; t1 ← ld trig (n4 + k);
  Some (fadd (fmul (narrow s1) t0) (fmul (narrow s0) t1)).
End Prerotate.

(** ** [imdct_postrotate_f32.c] *)

(** The locals that live across the two loops: [i], [yp0], [yp1], and the
    buffer. *)
Record post_state (F : Type) : Type :=
  PS { ps_i : Z; ps_yp0 : Z; ps_yp1 : Z; ps_buf : list F }.
Arguments PS {F} _ _ _ _.
Arguments ps_i {F} _.
Arguments ps_yp0 {F} _.
Arguments ps_yp1 {F} _.
Arguments ps_buf {F} _.

Section Postrotate.
Context {F : Type} `{FloatOps F}.
Variables (trig : list F) (n2 n4 : Z).

(** The arithmetic of the vector loop (lines 17-43) on the registers that
    were loaded: the two registers [out_lo] and [out_hi] that are stored. *)
Definition postrotate_vec_arith (vlow vhi : float32x4_t F)
    (t0 t1 t0b t1b : float32x2_t F) : float32x4_t F * float32x4_t F :=
  let low_im := vget_low_f32 (vuzp1q_f32 vlow vlow) in
  let low_re := vget_low_f32 (vuzp2q_f32 vlow vlow) in
  let high_im := vget_low_f32 (vuzp1q_f32 vhi vhi) in
  let high_re := vget_low_f32 (vuzp2q_f32 vhi vhi) in
  let high_im := vrev64_f32 high_im in
  let high_re := vrev64_f32 high_re in
  let t0b := vrev64_f32 t0b in
  let t1b := vrev64_f32 t1b in
  let low_yr := vadd_f32 (vmul_f32 low_re t0) (vmul_f32 low_im t1) in
  let low_yi := vsub_f32 (vmul_f32 low_re t1) (vmul_f32 low_im t0) in
  let high_yr := vadd_f32 (vmul_f32 high_re t0b) (vmul_f32 high_im t1b) in
  let high_yi := vsub_f32 (vmul_f32 high_re t1b) (vmul_f32 high_im t0b) in
  let zip0 := vzip_f32 low_yr high_yi in
  let out_lo := vcombine_f32 (fst zip0) (snd zip0) in
  let zip1 := vzip_f32 high_yr low_yi in
  let out_hi := vcombine_f32 (snd zip1) (fst zip1) in
  (out_lo, out_hi).

(** Body of the vector loop (lines 14-49): two paired iterations at once. *)
Definition postrotate_vec_body (s : post_state F) : option (post_state F) :=
  let '(PS i yp0 yp1 buf) := s in
  vlow ← vld1q_f32 buf yp0;
  vhi ← vld1q_f32 buf (yp1 - 2);
  t0 ← vld1_f32 trig i;
  t1 ← vld1_f32 trig (n4 + i);
  t0b ← vld1_f32 trig (n4 - i - 2);
  t1b ← vld1_f32 trig (n2 - i - 2);
  let '(out_lo, out_hi) := postrotate_vec_arith vlow vhi t0 t1 t0b t1b in
  buf ← vst1q_f32 buf yp0 out_lo;
  buf ← vst1q_f32 buf (yp1 - 2) out_hi;
  Some (PS (i + 2) (yp0 + 4) (yp1 - 4) buf).

(** Lines 53-62 of the scalar loop: the low half is read and rotated, the
    high half is read, the low half's two results are written.  Returns
    the buffer and [(re2, im2)]. *)
Definition postrotate_low_half (i yp0 yp1 : Z) (buf : list F)
    : option (list F * (F * F)) :=
  re ← ld buf (yp0 + 1);
  im ← ld buf yp0;
  t0 ← ld trig i;
  t1 ← ld trig (n4 + i);
  let yr := fadd (fmul re t0) (fmul im t1) in
  let yi := fsub (fmul re t1) (fmul im t0) in
  re2 ← ld buf (yp1 + 1);
  im2 ← ld buf yp1;
  buf ← st buf yp0 yr;
  buf ← st buf (yp1 + 1) yi;
  Some (buf, (re2, im2)).

(** Lines 64-69: the high half is rotated and its two results written. *)
Definition postrotate_high_half (i yp0 yp1 : Z) (re2 im2 : F) (buf : list F)
    : option (list F) :=
  t0 ← ld trig (n4 - i - 1);
  t1 ← ld trig (n2 - i - 1);
  let yr := fadd (fmul re2 t0) (fmul im2 t1) in
  let yi := fsub (fmul re2 t1) (fmul im2 t0) in
  buf ← st buf yp1 yr;
  st buf (yp0 + 1) yi.

(** Body of the scalar loop (lines 53-71). *)
Definition postrotate_scalar_body (s : post_state F) : option (post_state F) :=
  let '(PS i yp0 yp1 buf) := s in
  '(buf, (re2, im2)) ← postrotate_low_half i yp0 yp1 buf;
  buf ← postrotate_high_half i yp0 yp1 re2 im2 buf;
  Some (PS (i + 1) (yp0 + 2) (yp1 - 2) buf).

Definition postrotate_limit : Z := Z.shiftr (n4 + 1) 1.

Definition imdct_postrotate_f32 (buf : list F) : option (list F) :=
  let limit := postrotate_limit in
  if decide (limit ≤ 0) then Some buf
  else
    let yp0 := 0 in
    let yp1 := n2 - 2 in
    let i := 0 in
    s ← while_loop (Z.to_nat limit) (λ s, bool_decide (ps_i s + 1 < limit))
          postrotate_vec_body (PS i yp0 yp1 buf);
    s ← while_loop (Z.to_nat limit) (λ s, bool_decide (ps_i s < limit))
          postrotate_scalar_body s;
    Some (ps_buf s).

(** The scalar loop alone, run over the whole index range. *)
Definition imdct_postrotate_scalar (buf : list F) : option (list F) :=
  let limit := postrotate_limit in
  if decide (limit ≤ 0) then Some buf
  else
    s ← while_loop (Z.to_nat limit) (λ s, bool_decide (ps_i s < limit))
          postrotate_scalar_body (PS 0 0 (n2 - 2) buf);
    Some (ps_buf s).

(** The specification's reading of the loop: [ceil (n4 / 2)] paired
    iterations, cursors [low] from [0] and [high] from [n2 - 2], one
    iteration rotating the low and the high sample and moving the cursors
    by [+2] and [-2]. *)
Definition ceil_half (n : Z) : Z := - ((- n) / 2).

Definition postrotate_paired_iterations (buf : list F) : option (post_state F) :=
  iterate (Z.to_nat (ceil_half n4)) postrotate_scalar_body (PS 0 0 (n2 - 2) buf).

(** The four values of paired iteration [k], from the buffer [buf] that the
    kernel received. *)
Definition post_low_yr (buf : list F) (k : Z) : option F :=
  im ← ld buf (2 * k); re ← ld buf (2 * k + 1);
  t0 ← ld trig k; t1 ← ld trig (n4 + k);
  Some (fadd (fmul re t0) (fmul im t1)).
Definition post_low_yi (buf : list F) (k : Z) : option F :=
  im ← ld buf (2 * k); re ← ld buf (2 * k + 1);
  t0 ← ld trig k; t1 ← ld trig (n4 + k);
  Some (fsub (fmul re t1) (fmul im t0)).
Definition post_high_yr (buf : list F) (k : Z) : option F :=
  im2 ← ld buf (n2 - 2 - 2 * k); re2 ← ld buf (n2 - 2 - 2 * k + 1);
  t0 ← ld trig (n4 - k - 1); t1 ← ld trig (n2 - k - 1);
  Some (fadd (fmul re2 t0) (fmul im2 t1)).
Definition post_high_yi (buf : list F) (k : Z) : option F :=
  im2 ← ld buf (n2 - 2 - 2 * k); re2 ← ld buf (n2 - 2 - 2 * k + 1);
  t0 ← ld trig (n4 - k - 1); t1 ← ld trig (n2 - k - 1);
  Some (fsub (fmul re2 t1) (fmul im2 t0)).
End Postrotate.

(** ** [kf_bfly3_m1.c] *)

Section Bfly3.
Context {F : Type} `{FloatOps F}.
Variables (tw : list (kissCpx F)) (fstride n mm : Z).

(** The arithmetic of one group (lines 23-33): the new values of [f[0]],
    [f[1]] and [f[2]]. *)
Definition kf_bfly3_m1_arith (epi half sign f0 f1 f2 : float32x2_t F)
    : float32x2_t F * float32x2_t F * float32x2_t F :=
  let scratch3 := vadd_f32 f1 f2 in
  let scratch0 := vsub_f32 f1 f2 in
  let f1out := vsub_f32 f0 (vmul_f32 scratch3 half) in
  let scratch0 := vmul_f32 scratch0 epi in
  let f0 := vadd_f32 f0 scratch3 in
  let scratch0swap := vrev64_f32 scratch0 in
  let scratch0rot := vmul_f32 scratch0swap sign in
  let f2out := vadd_f32 f1out scratch0rot in
  let f1out := vsub_f32 f1out scratch0rot in
  (f0, f1out, f2out).

(** Body of the loop (lines 18-37) for the loop state [(i, fout)]. *)
Definition kf_bfly3_m1_body (epi half sign : float32x2_t F)
    (s : Z * list (kissCpx F)) : option (Z * list (kissCpx F)) :=
  let '(i, fout) := s in
  let f := i * mm in
  f0 ← vld1_cpx fout (f + 0);
  f1 ← vld1_cpx fout (f + 1);
  f2 ← vld1_cpx fout (f + 2);
  let '(f0, f1out, f2out) := kf_bfly3_m1_arith epi half sign f0 f1 f2 in
  fout ← vst1_cpx fout (f + 0) f0;
  fout ← vst1_cpx fout (f + 1) f1out;
  fout ← vst1_cpx fout (f + 2) f2out;
  Some (i + 1, fout).

Definition kf_bfly3_m1 (fout : list (kissCpx F)) : option (list (kissCpx F)) :=
  if decide (n ≤ 0) then Some fout
  else
    t ← ld tw fstride;
    let epi := vdup_n_f32 (cpx_i t) in
    let half := vdup_n_f32 f_half in
    let sign := V2 f_one (fneg f_one) in
    s ← while_loop (Z.to_nat n) (λ s, bool_decide (fst s < n))
          (kf_bfly3_m1_body epi half sign) (0, fout);
    Some (snd s).
End Bfly3.

(** ** [kf_bfly4_m1.c] *)

Section Bfly4M1.
Context {F : Type} `{FloatOps F}.
Variable (n : Z).

(** The arithmetic of one group (lines 13-35): the two registers that
    are stored at [fout] and at [fout + 2]. *)
Definition kf_bfly4_m1_arith (a b : float32x4_t F) : float32x4_t F * float32x4_t F :=
  let t0 := vaddq_f32 a b in
  let t1 := vsubq_f32 a b in
  let t0swap := vextq_f32_2 t0 t0 in
  let aout := vaddq_f32 t0 t0swap in
  let cout := vsubq_f32 t0 t0swap in
  let s0 := vget_low_f32 t1 in
  let s1 := vget_high_f32 t1 in
  let s1swap := vrev64_f32 s1 in
  let rotpos := veor_sign s1swap false true in
  let rotneg := veor_sign s1swap true false in
  let bout := vadd_f32 s0 rotpos in
  let dout := vadd_f32 s0 rotneg in
  let out0 := vcombine_f32 (vget_low_f32 aout) bout in
  let out1 := vcombine_f32 (vget_low_f32 cout) dout in
  (out0, out1).

(** Body of the loop (lines 10-39) for the loop state [(i, fout, mem)]:
    [fout] is the pointer, an offset into the caller's buffer [mem]. *)
Definition kf_bfly4_m1_body (s : Z * Z * list (kissCpx F))
    : option (Z * Z * list (kissCpx F)) :=
  let '(i, fout, mem) := s in
  a ← vld1q_cpx mem fout;
  b ← vld1q_cpx mem (fout + 2);
  let '(out0, out1) := kf_bfly4_m1_arith a b in
  mem ← vst1q_cpx mem fout out0;
  mem ← vst1q_cpx mem (fout + 2) out1;
  Some (i + 1, fout + 4, mem).

Definition kf_bfly4_m1 (fout : list (kissCpx F)) : option (list (kissCpx F)) :=
  s ← while_loop (Z.to_nat n) (λ s, bool_decide (fst (fst s) < n))
        kf_bfly4_m1_body (0, 0, fout);
  Some (snd s).
End Bfly4M1.

(** ** [kf_bfly4_mx.c] *)

(** The locals of an inner loop: [j], [tw1], [tw2], [tw3], the pointer [f]
    (an offset into the buffer) and the buffer. *)
Record mx_state (F : Type) : Type :=
  MX { mx_j : Z; mx_tw1 : Z; mx_tw2 : Z; mx_tw3 : Z; mx_f : Z;
       mx_mem : list (kissCpx F) }.
Arguments MX {F} _ _ _ _ _ _.
Arguments mx_j {F} _.
Arguments mx_tw1 {F} _.
Arguments mx_tw2 {F} _.
Arguments mx_tw3 {F} _.
Arguments mx_f {F} _.
Arguments mx_mem {F} _.

Section Bfly4Mx.
Context {F : Type} `{FloatOps F}.
Implicit Types (a b : float32x2_t F) (x y : float32x4_t F).

Definition cmul2 a b : float32x2_t F :=
  let br := vdup_lane_f32 b 0 in
  let bi := vdup_lane_f32 b 1 in
  let a_sw := vrev64_f32 a in
  let t0 := vmul_f32 a br in
  let t1 := vmul_f32 a_sw bi in
  let sign := V2 (fneg f_one) f_one in
  let t1 := vmul_f32 t1 sign in
  vadd_f32 t0 t1.

Definition cmul2x x y : float32x4_t F :=
  let bl := vget_low_f32 y in
  let bh := vget_high_f32 y in
  let br := vcombine_f32 (vdup_lane_f32 bl 0) (vdup_lane_f32 bh 0) in
  let bi := vcombine_f32 (vdup_lane_f32 bl 1) (vdup_lane_f32 bh 1) in
  let a_sw := vrev64q_f32 x in
  let t0 := vmulq_f32 x br in
  let t1 := vmulq_f32 a_sw bi in
  let sign := V4 (fneg f_one) f_one (fneg f_one) f_one in
  let t1 := vmulq_f32 t1 sign in
  vaddq_f32 t0 t1.

Definition cadd2 a b := vadd_f32 a b.
Definition csub2 a b := vsub_f32 a b.

Variables (tw : list (kissCpx F)) (m n mm : Z).

(** The arithmetic of one pair of positions (lines 60-75): the four
    registers that are stored at [f[0]], [f[m]], [f[2 * m]], [f[3 * m]]. *)
Definition kf_bfly4_mx_pair_arith (sign4 f0 f1 f2 f3 tw1v tw2v tw3v : float32x4_t F)
    : float32x4_t F * float32x4_t F * float32x4_t F * float32x4_t F :=
  let scratch0 := cmul2x f1 tw1v in
  let scratch1 := cmul2x f2 tw2v in
  let scratch2 := cmul2x f3 tw3v in
  let scratch5 := vsubq_f32 f0 scratch1 in
  let f0 := vaddq_f32 f0 scratch1 in
  let scratch3 := vaddq_f32 scratch0 scratch2 in
  let scratch4 := vsubq_f32 scratch0 scratch2 in
  let f2out := vsubq_f32 f0 scratch3 in
  let f0 := vaddq_f32 f0 scratch3 in
  let sc4swap := vrev64q_f32 scratch4 in
  let sc4i := vmulq_f32 sc4swap sign4 in
  let fmout := vsubq_f32 scratch5 sc4i in
  let f3out := vaddq_f32 scratch5 sc4i in
  (f0, fmout, f2out, f3out).

(** Body of the pair loop of the fast path (lines 47-85). *)
Definition kf_bfly4_mx_pair_body (sign4 : float32x4_t F) (s : mx_state F)
    : option (mx_state F) :=
  let '(MX j tw1 tw2 tw3 f mem) := s in
  f0 ← vld1q_cpx mem (f + 0);
  f1 ← vld1q_cpx mem (f + m);
  f2 ← vld1q_cpx mem (f + 2 * m);
  f3 ← vld1q_cpx mem (f + 3 * m);
  tw1v ← vld1q_cpx tw tw1;
  tw2a ← vld1_cpx tw tw2;
  tw2b ← vld1_cpx tw (tw2 + 2);
  let tw2v := vcombine_f32 tw2a tw2b in
  tw3a ← vld1_cpx tw tw3;
  tw3b ← vld1_cpx tw (tw3 + 3);
  let tw3v := vcombine_f32 tw3a tw3b in
  let '(f0, fmout, f2out, f3out) :=
    kf_bfly4_mx_pair_arith sign4 f0 f1 f2 f3 tw1v tw2v tw3v in
  mem ← vst1q_cpx mem (f + 0) f0;
  mem ← vst1q_cpx mem (f + m) fmout;
  mem ← vst1q_cpx mem (f + 2 * m) f2out;
  mem ← vst1q_cpx mem (f + 3 * m) f3out;
  Some (MX (j + 2) (tw1 + 2) (tw2 + 4) (tw3 + 6) (f + 2) mem).

(** The arithmetic of one position (lines 97-113, and again 144-160):
    the new values of [f[0]], [f[m]], [f[2 * m]] and [f[3 * m]]. *)
Definition kf_bfly4_mx_position (f0 f1 f2 f3 tw1v tw2v tw3v : float32x2_t F)
    : float32x2_t F * float32x2_t F * float32x2_t F * float32x2_t F :=
  let scratch0 := cmul2 f1 tw1v in
  let scratch1 := cmul2 f2 tw2v in
  let scratch2 := cmul2 f3 tw3v in
  let scratch5 := csub2 f0 scratch1 in
  let f0 := cadd2 f0 scratch1 in
  let scratch3 := cadd2 scratch0 scratch2 in
  let scratch4 := csub2 scratch0 scratch2 in
  let f2out := csub2 f0 scratch3 in
  let f0 := cadd2 f0 scratch3 in
  let sc4swap := vrev64_f32 scratch4 in
  let sign2 := V2 (fneg f_one) f_one in
  let sc4i := vmul_f32 sc4swap sign2 in
  let fmout := csub2 scratch5 sc4i in
  let f3out := cadd2 scratch5 sc4i in
  (f0, fmout, f2out, f3out).

(** Body of the one-position loops: lines 88-123 of the fast path with
    the increments [1], [2], [3], and lines 135-170 of the general path,
    the same statements with the increments [fstride], [fstride * 2],
    [fstride * 3]. *)
Definition kf_bfly4_mx_scalar_body (inc1 inc2 inc3 : Z) (s : mx_state F)
    : option (mx_state F) :=
  let '(MX j tw1 tw2 tw3 f mem) := s in
  f0 ← vld1_cpx mem (f + 0);
  f1 ← vld1_cpx mem (f + m);
  f2 ← vld1_cpx mem (f + 2 * m);
  f3 ← vld1_cpx mem (f + 3 * m);
  tw1v ← vld1_cpx tw tw1;
  tw2v ← vld1_cpx tw tw2;
  tw3v ← vld1_cpx tw tw3;
  let '(f0, fmout, f2out, f3out) := kf_bfly4_mx_position f0 f1 f2 f3 tw1v tw2v tw3v in
  mem ← vst1_cpx mem (f + 0) f0;
  mem ← vst1_cpx mem (f + m) fmout;
  mem ← vst1_cpx mem (f + 2 * m) f2out;
  mem ← vst1_cpx mem (f + 3 * m) f3out;
  Some (MX (j + 1) (tw1 + inc1) (tw2 + inc2) (tw3 + inc3) (f + 1) mem).

(** One group of the fast path (lines 41-124), loop state [(i, mem)]. *)
Definition kf_bfly4_mx_fast_group (sign4 : float32x4_t F)
    (s : Z * list (kissCpx F)) : option (Z * list (kissCpx F)) :=
  let '(i, mem) := s in
  let f := i * mm in
  s ← while_loop (Z.to_nat m) (λ s, bool_decide (mx_j s + 1 < m))
        (kf_bfly4_mx_pair_body sign4) (MX 0 0 0 0 f mem);
  s ← while_loop (Z.to_nat m) (λ s, bool_decide (mx_j s < m))
        (kf_bfly4_mx_scalar_body 1 2 3) s;
  Some (i + 1, mx_mem s).

(** The branch [fstride == 1] (lines 39-126). *)
Definition kf_bfly4_mx_fast (fout : list (kissCpx F)) : option (list (kissCpx F)) :=
  let sign4 := V4 (fneg f_one) f_one (fneg f_one) f_one in
  s ← while_loop (Z.to_nat n) (λ s, bool_decide (fst s < n))
        (kf_bfly4_mx_fast_group sign4) (0, fout);
  Some (snd s).

(** One group of the general path (lines 130-171). *)
Definition kf_bfly4_mx_general_group (fstride : Z)
    (s : Z * list (kissCpx F)) : option (Z * list (kissCpx F)) :=
  let '(i, mem) := s in
  let f := i * mm in
  s ← while_loop (Z.to_nat m) (λ s, bool_decide (mx_j s < m))
        (kf_bfly4_mx_scalar_body fstride (fstride * 2) (fstride * 3))
        (MX 0 0 0 0 f mem);
  Some (i + 1, mx_mem s).

(** The general path (lines 129-172). *)
Definition kf_bfly4_mx_general (fstride : Z) (fout : list (kissCpx F))
    : option (list (kissCpx F)) :=
  s ← while_loop (Z.to_nat n) (λ s, bool_decide (fst s < n))
        (kf_bfly4_mx_general_group fstride) (0, fout);
  Some (snd s).

Definition kf_bfly4_mx (fstride : Z) (fout : list (kissCpx F))
    : option (list (kissCpx F)) :=
  if decide (fstride = 1) then kf_bfly4_mx_fast fout
  else kf_bfly4_mx_general fstride fout.
End Bfly4Mx.

(** ** [kf_bfly5_m1.c] *)

Section Bfly5.
Context {F : Type} `{FloatOps F}.
Variables (tw : list (kissCpx F)) (fstride n mm : Z).

(** The arithmetic of one group (lines 30-56): the new values of [f[0]]
    to [f[4]]. *)
Definition kf_bfly5_m1_arith (ya_r yb_r ya_i yb_i sign f0 f1 f2 f3 f4 : float32x2_t F)
    : float32x2_t F * float32x2_t F * float32x2_t F * float32x2_t F * float32x2_t F :=
  let scratch7 := vadd_f32 f1 f4 in
  let scratch10 := vsub_f32 f1 f4 in
  let scratch8 := vadd_f32 f2 f3 in
  let scratch9 := vsub_f32 f2 f3 in
  let f0orig := f0 in
  let f0 := vadd_f32 f0 (vadd_f32 scratch7 scratch8) in
  let scratch5 := vmla_f32 (vmul_f32 scratch7 ya_r) scratch8 yb_r in
  let scratch5 := vadd_f32 scratch5 f0orig in
  let s10swap := vrev64_f32 scratch10 in
  let s9swap := vrev64_f32 scratch9 in
  let scratch6 := vmla_f32 (vmul_f32 s10swap ya_i) s9swap yb_i in
  let scratch6 := vmul_f32 scratch6 sign in
  let f1out := vsub_f32 scratch5 scratch6 in
  let f4out := vadd_f32 scratch5 scratch6 in
  let scratch11 := vmla_f32 (vmul_f32 scratch7 yb_r) scratch8 ya_r in
  let scratch11 := vadd_f32 scratch11 f0orig in
  let scratch12 := vmla_f32 (vmul_f32 s9swap ya_i) (vneg_f32 s10swap) yb_i in
  let scratch12 := vmul_f32 scratch12 sign in
  let f2out := vadd_f32 scratch11 scratch12 in
  let f3out := vsub_f32 scratch11 scratch12 in
  (f0, f1out, f2out, f3out, f4out).

(** Body of the loop (lines 23-62) for the loop state [(i, fout)]. *)
Definition kf_bfly5_m1_body (ya_r yb_r ya_i yb_i sign : float32x2_t F)
    (s : Z * list (kissCpx F)) : option (Z * list (kissCpx F)) :=
  let '(i, fout) := s in
  let f := i * mm in
  f0 ← vld1_cpx fout (f + 0);
  f1 ← vld1_cpx fout (f + 1);
  f2 ← vld1_cpx fout (f + 2);
  f3 ← vld1_cpx fout (f + 3);
  f4 ← vld1_cpx fout (f + 4);
  let '(f0, f1out, f2out, f3out, f4out) :=
    kf_bfly5_m1_arith ya_r yb_r ya_i yb_i sign f0 f1 f2 f3 f4 in
  fout ← vst1_cpx fout (f + 0) f0;
  fout ← vst1_cpx fout (f + 1) f1out;
  fout ← vst1_cpx fout (f + 2) f2out;
  fout ← vst1_cpx fout (f + 3) f3out;
  fout ← vst1_cpx fout (f + 4) f4out;
  Some (i + 1, fout).

Definition kf_bfly5_m1 (fout : list (kissCpx F)) : option (list (kissCpx F)) :=
  if decide (n ≤ 0) then Some fout
  else
    ya ← ld tw fstride;
    yb ← ld tw (2 * fstride);
    let ya_r := vdup_n_f32 (cpx_r ya) in
    let yb_r := vdup_n_f32 (cpx_r yb) in
    let ya_i := vdup_n_f32 (cpx_i ya) in
    let yb_i := vdup_n_f32 (cpx_i yb) in
    let sign := V2 f_one (fneg f_one) in
    s ← while_loop (Z.to_nat n) (λ s, bool_decide (fst s < n))
          (kf_bfly5_m1_body ya_r yb_r ya_i yb_i sign) (0, fout);
    Some (snd s).
End Bfly5.

(** ** Complex arithmetic of the specification *)

Section Complex.
Context {F : Type} `{FloatOps F}.
Implicit Types (a b : kissCpx F) (s : F).

Definition c_add a b : kissCpx F :=
  Cpx (fadd (cpx_r a) (cpx_r b)) (fadd (cpx_i a) (cpx_i b)).
Definition c_sub a b : kissCpx F :=
  Cpx (fsub (cpx_r a) (cpx_r b)) (fsub (cpx_i a) (cpx_i b)).
(** [s * a] and [a * s] for a real [s]. *)
Definition c_scale_l s a : kissCpx F := Cpx (fmul s (cpx_r a)) (fmul s (cpx_i a)).
Definition c_scale_r a s : kissCpx F := Cpx (fmul (cpx_r a) s) (fmul (cpx_i a) s).
(** [(a.re*b.re - a.im*b.im, a.re*b.im + a.im*b.re)]. *)
Definition c_mul a b : kissCpx F :=
  Cpx (fsub (fmul (cpx_r a) (cpx_r b)) (fmul (cpx_i a) (cpx_i b)))
      (fadd (fmul (cpx_r a) (cpx_i b)) (fmul (cpx_i a) (cpx_r b))).
(** The lanes swapped. *)
Definition c_swap a : kissCpx F := Cpx (cpx_i a) (cpx_r a).
(** The two quarter turns: the lanes swapped and one lane negated.  The
    names follow the kernels ([rotpos] negates the second lane of the
    swapped sample, [rotneg] the first). *)
Definition rot_pos a : kissCpx F := Cpx (cpx_i a) (fneg (cpx_r a)).
Definition rot_neg a : kissCpx F := Cpx (fneg (cpx_i a)) (cpx_r a).

(** The radix-4 butterfly of section 4.4 on four samples: the outputs in
    the order of the four slots. *)
Definition radix4 (f0 f1 f2 f3 : kissCpx F)
    : kissCpx F * kissCpx F * kissCpx F * kissCpx F :=
  let a := c_add f0 f2 in
  let b := c_add f1 f3 in
  let s0 := c_sub f0 f2 in
  let s1 := c_sub f1 f3 in
  (c_add a b, c_add s0 (rot_pos s1), c_sub a b, c_add s0 (rot_neg s1)).

(** The radix-3 butterfly of section 4.3. *)
Definition radix3 (epi : F) (f0 f1 f2 : kissCpx F)
    : kissCpx F * kissCpx F * kissCpx F :=
  let sum := c_add f1 f2 in
  let diff := c_sub f1 f2 in
  let mid := c_sub f0 (c_scale_l f_half sum) in
  let rot := c_scale_r (rot_pos diff) epi in
  (c_add f0 sum, c_sub mid rot, c_add mid rot).

(** The radix-5 butterfly of section 4.6: [(f0', f1', f2', f3', f4')]. *)
Definition radix5 (ya yb : kissCpx F) (f0 f1 f2 f3 f4 : kissCpx F)
    : kissCpx F * kissCpx F * kissCpx F * kissCpx F * kissCpx F :=
  let s_a := c_add f1 f4 in
  let d_a := c_sub f1 f4 in
  let s_b := c_add f2 f3 in
  let d_b := c_sub f2 f3 in
  let centre1 :=
    c_add f0 (c_add (c_scale_l (cpx_r ya) s_a) (c_scale_l (cpx_r yb) s_b)) in
  let centre2 :=
    c_add f0 (c_add (c_scale_l (cpx_r yb) s_a) (c_scale_l (cpx_r ya) s_b)) in
  let w1 :=
    c_add (c_scale_r (c_swap d_a) (cpx_i ya)) (c_scale_r (c_swap d_b) (cpx_i yb)) in
  let w2 :=
    c_sub (c_scale_r (c_swap d_b) (cpx_i ya)) (c_scale_r (c_swap d_a) (cpx_i yb)) in
  let offset1 := Cpx (cpx_r w1) (fneg (cpx_i w1)) in
  let offset2 := Cpx (cpx_r w2) (fneg (cpx_i w2)) in
  (c_add f0 (c_add s_a s_b),
   c_sub centre1 offset1, c_add centre2 offset2,
   c_sub centre2 offset2, c_add centre1 offset1).
End Complex.

(** ** The callers' contracts *)

(** The rotations: [n2 = 2 * n4] and buffers that cover the indices the
    kernel touches (section 3 of the specification). *)
Definition prerotate_valid {F D : Type} (out : list F) (spec : list D) (trig : list F)
    (n2 n4 : Z) : Prop :=
  n2 = 2 * n4 ∧ n2 ≤ Z.of_nat (length spec) ∧ n2 ≤ Z.of_nat (length trig) ∧
  n2 ≤ Z.of_nat (length out).

Definition postrotate_valid {F : Type} (buf : list F) (trig : list F) (n2 n4 : Z) : Prop :=
  n2 = 2 * n4 ∧ n2 ≤ Z.of_nat (length trig) ∧ n2 ≤ Z.of_nat (length buf).

(** Groups that are intervals: group [g] is the [w] cells from [g * mm]. *)
Definition interval_cells (mm w : Z) (g c : Z) : Prop := g * mm ≤ c < g * mm + w.

(** The caller's contract for [n] groups of [w] cells spaced [mm] apart:
    the groups do not overlap and lie inside the buffer. *)
Definition groups_valid {A : Type} (buf : list A) (n mm w : Z) : Prop :=
  0 ≤ mm ∧ (n ≤ 1 ∨ w ≤ mm) ∧ (n - 1) * mm + w ≤ Z.of_nat (length buf).

(** The radix-4 butterfly of general multiplicity: the buffer covers the
    [n] groups and the table the twiddles of the [m] positions. *)
Definition mx_bounds {F : Type} (fout tw : list (kissCpx F)) (m n fstride mm : Z) : Prop :=
  0 ≤ m ∧ 0 ≤ mm ∧ (n - 1) * mm + 4 * m ≤ Z.of_nat (length fout) ∧
  ∀ j, 0 ≤ j < m →
    inb tw (j * fstride) ∧ inb tw (j * (fstride * 2)) ∧ inb tw (j * (fstride * 3)).

(** ** The binary32 and binary64 formats *)

(** IEEE-754 numbers as the Standard Library specifies them ([SpecFloat],
    round to nearest even, one NaN).  A [float] is a number that is valid in
    binary32 (24 bits of precision, [emax = 128]), a [double] one that is
    valid in binary64.  Every operation is the one of [SpecFloat] at the
    format; [canon32] gives its result the type of the valid numbers, and
    changes none ([Binary32Laws.f32_add_exact] and the lemmas after it). *)
Module Binary32.
Definition prec32 : Z := 24.
Definition emax32 : Z := 128.
Definition prec64 : Z := 53.
Definition emax64 : Z := 1024.

Definition valid32 (x : spec_float) : bool := valid_binary prec32 emax32 x.
Definition valid64 (x : spec_float) : bool := valid_binary prec64 emax64 x.

Definition canon32 (x : spec_float) : spec_float :=
  if valid32 x then x else S754_nan.

Definition float32 : Type := { x : spec_float | valid32 x = true }.
Definition float64 : Type := { x : spec_float | valid64 x = true }.

Definition canon32_valid (x : spec_float) : valid32 (canon32 x) = true :=
  match valid32 x as b return (valid32 x = b → valid32 (if b then x else S754_nan) = true) with
  | true => λ E, E
  | false => λ _, eq_refl
  end eq_refl.

Definition mk32 (x : spec_float) : float32 := exist _ (canon32 x) (canon32_valid x).

Definition canon64 (x : spec_float) : spec_float :=
  if valid64 x then x else S754_nan.

Definition canon64_valid (x : spec_float) : valid64 (canon64 x) = true :=
  match valid64 x as b return (valid64 x = b → valid64 (if b then x else S754_nan) = true) with
  | true => λ E, E
  | false => λ _, eq_refl
  end eq_refl.

Definition mk64 (x : spec_float) : float64 := exist _ (canon64 x) (canon64_valid x).

Definition f32_add (a b : float32) : float32 := mk32 (SFadd prec32 emax32 (`a) (`b)).
Definition f32_sub (a b : float32) : float32 := mk32 (SFsub prec32 emax32 (`a) (`b)).
Definition f32_mul (a b : float32) : float32 := mk32 (SFmul prec32 emax32 (`a) (`b)).
Definition f32_neg (a : float32) : float32 := mk32 (SFopp (`a)).

(** [1.0f] is [2^23 * 2^-23] and [0.5f] is [2^23 * 2^-24]. *)
Definition f32_one : float32 := mk32 (S754_finite false 8388608 (-23)).
Definition f32_half : float32 := mk32 (S754_finite false 8388608 (-24)).

(** The integer [z] as a [float] and as a [double] (rounded if needed). *)
Definition f32_of_Z (z : Z) : float32 := mk32 (binary_normalize prec32 emax32 z 0 false).
Definition f64_of_Z (z : Z) : float64 := mk64 (binary_normalize prec64 emax64 z 0 false).

(** [(float)d]: the number rounded to binary32. *)
Definition f32_of_f64 (d : float64) : float32 :=
  mk32 match `d with
       | S754_finite s m e =>
           binary_normalize prec32 emax32 (cond_Zopp s (Zpos m)) e s
       | x => x
       end.

#[export] Instance float32_ops : FloatOps float32 := {
  fadd := f32_add;
  fsub := f32_sub;
  fmul := f32_mul;
  fneg := f32_neg;
  f_one := f32_one;
  f_half := f32_half
}.

#[export] Instance float32_narrow : Narrow float64 float32 := f32_of_f64.
End Binary32.

(** ** Sample inputs *)

(** Small buffers of binary32 numbers on which the kernels are run. *)
Module Samples.
Import Binary32.

Definition fl (z : Z) : float32 := f32_of_Z z.
Definition db (z : Z) : float64 := f64_of_Z z.
Definition cx (a b : Z) : kissCpx float32 := Cpx (fl a) (fl b).
(** The sample [(a / 2, b / 2)]. *)
Definition cx_halves (a b : Z) : kissCpx float32 :=
  Cpx (mk32 (binary_normalize prec32 emax32 a (-1) false))
      (mk32 (binary_normalize prec32 emax32 b (-1) false)).

(** [n4 = 3], [n2 = 6]: one vector iteration, which covers the middle
    sample. *)
Definition spec6 : list float64 := db <$> [1; -2; 3; 5; -7; 11].
Definition trig6 : list float32 := fl <$> [1; 2; 3; -1; 4; 2].
Definition buf6 : list float32 := fl <$> [3; 1; -4; 1; 5; -9].
Definition out6 : list float32 := fl <$> [0; 0; 0; 0; 0; 0].

(** [n4 = 5], [n2 = 10]: one vector iteration, then the scalar loop on
    the middle sample. *)
Definition trig10 : list float32 := fl <$> [1; 2; 3; -1; 4; 2; -3; 1; 5; -2].
Definition buf10 : list float32 := fl <$> [3; 1; -4; 1; 5; -9; 2; 6; -5; 3].

(** Complex samples and twiddles. *)
Definition cbuf8 : list (kissCpx float32) :=
  [cx 1 2; cx 3 (-1); cx (-2) 4; cx 5 0; cx 0 1; cx 2 2; cx (-3) 1; cx 4 (-4)].
Definition cbuf12 : list (kissCpx float32) :=
  cbuf8 ++ [cx 1 (-1); cx 2 3; cx (-5) 2; cx 0 (-2)].
Definition ctw : list (kissCpx float32) :=
  [cx 1 0; cx 2 (-3); cx (-1) 2; cx 3 1; cx 0 (-1); cx 1 1; cx (-2) 2].
(** The values held by a buffer of complex samples. *)
Definition cpx_values (l : option (list (kissCpx float32))) : list (spec_float * spec_float) :=
  (λ c, (proj1_sig (cpx_r c), proj1_sig (cpx_i c))) <$> default [] l.
End Samples.

(** ** [tools/csrc]: the harnesses of the reference decoders *)

(** [libopus_refdecode_single.c] and [libopus_refdecode_multistream.c]
    read a stream of packets from the standard input, decode each one with
    libopus and write the samples to the standard output.  Their helper
    functions are the same, text for text.

    Modelling choices.

    - An [unsigned char] is a [Byte.byte], a [uint32_t] or a [size_t] a [Z]
      with its wrap-around written out ([uint32], [size_t]); [size_t] is at
      least as wide as [uint32_t], [sizeof(float)] is [4] and [int] has 32
      bits.
    - The C library is the [world] the program runs in: the bytes still to
      come on [stdin], the bytes written to [stdout] and the room left
      there, the messages printed on [stderr], and what the next calls of
      the allocator will answer.  A fragment of the program is a function
      from the world to a value and the world it leaves ([prog]); undefined
      behaviour is [None].  A statement of [main] either goes on or leaves
      [main] with an exit status ([stmt]).
    - libopus is not part of the sources: its functions are the variables
      of the section [Main].  [free] and the [destroy] functions leave no
      trace. *)
Module Harness.

(** [uchar_val b] is the value of the [unsigned char] [b] and [to_uchar z]
    the conversion [(unsigned char)z]. *)
Definition uchar_val (b : Byte.byte) : Z := Z.of_N (Byte.to_N b).
Definition to_uchar (z : Z) : Byte.byte :=
  default Byte.x00 (Byte.of_N (Z.to_N (z mod 256))).

Definition UINT32_MAX : Z := 4294967295.

(** The value of a [uint32_t] expression: arithmetic modulo [2^32]. *)
Definition uint32 (z : Z) : Z := z mod (UINT32_MAX + 1).

(** [(int)u] for a [uint32_t]: the value when it fits, else, as compilers
    define it, the value minus [2^32]. *)
Definition to_int (u : Z) : Z := if decide (u ≤ 2147483647) then u else u - 4294967296.

(** The three decoders of libopus that the harnesses drive. *)
Inductive library : Type := Opus | OpusProjection | OpusMultistream.

(** The lines the harnesses print on [stderr], with the number that
    [%d] stands for. *)
Inductive message : Type :=
  | InvalidInputMagic | FailedToReadHeader | InvalidDecoderDimensions
  | FailedToReadMapping | FailedToReadDemixingMatrix
  | FrameBufferOverflow | FailedToAllocateFrameBuffer
  | DecoderCreateFailed (l : library) (err : Z)
  | FailedToReadPacketLength | FailedToReadPacketPayload
  | DecodeFloatFailed (l : library) (ret : Z)
  | FailedToAppendDecodedSamples | DecodedOutputTooLarge | FailedToWriteOutput.

(** The standard streams and the allocator, as far as the harnesses can
    tell them apart: [fread] returns fewer bytes than asked only at the end
    of [w_stdin]; [stdout] accepts [w_room] more bytes and a write beyond
    them is short; the next calls of [malloc] or [realloc] succeed or fail
    as [w_heap] says (they succeed once it is exhausted). *)
Record world : Type := World {
  w_stdin : list Byte.byte;
  w_stdout : list Byte.byte;
  w_room : nat;
  w_stderr : list message;
  w_heap : list bool
}.

Definition prog (A : Type) : Type := world → option (A * world).

#[export] Instance prog_ret : MRet prog := λ A x w, Some (x, w).
#[export] Instance prog_bind : MBind prog := λ A B f m w,
  match m w with
  | Some (x, w') => f x w'
  | None => None
  end.

(** A computation without effect, undefined where it is [None]. *)
Definition defined {A : Type} (o : option A) : prog A := λ w, (λ x, (x, w)) <$> o.

(** [fread(dst, 1, n, stdin)]: the bytes stored in [dst]; their number is
    the value returned. *)
Definition fread (n : Z) : prog (list Byte.byte) := λ w,
  Some (take (Z.to_nat n) (w_stdin w),
        World (drop (Z.to_nat n) (w_stdin w)) (w_stdout w) (w_room w) (w_stderr w)
          (w_heap w)).

(** [fwrite(src, 1, n, stdout)] for the [n] bytes [src]: the number of bytes
    written. *)
Definition fwrite (src : list Byte.byte) : prog Z := λ w,
  let k := Nat.min (length src) (w_room w) in
  Some (Z.of_nat k,
        World (w_stdin w) (w_stdout w ++ take k src) (w_room w - k)%nat (w_stderr w)
          (w_heap w)).

(** [fprintf(stderr, ...)] of one of the messages. *)
Definition fprintf_stderr (m : message) : prog unit := λ w,
  Some (tt, World (w_stdin w) (w_stdout w) (w_room w) (w_stderr w ++ [m]) (w_heap w)).

(** [malloc] and [realloc]: whether the block was obtained. *)
Definition alloc : prog bool := λ w,
  match w_heap w with
  | [] => Some (true, w)
  | ok :: heap => Some (ok, World (w_stdin w) (w_stdout w) (w_room w) (w_stderr w) heap)
  end.

(** *** The helpers *)

(** [read_exact]: [Some] of the bytes read when all [n] were there. *)
Definition read_exact (n : Z) : prog (option (list Byte.byte)) :=
  got ← fread n;
  mret (if decide (Z.of_nat (length got) = n) then Some got else None).

(** [write_exact]. *)
Definition write_exact (src : list Byte.byte) : prog bool :=
  k ← fwrite src;
  mret (bool_decide (k = Z.of_nat (length src))).

(** [read_u32]: [Some] of the value stored in [*out]. *)
Definition read_u32 : prog (option Z) :=
  b ← read_exact 4;
  match b with
  | Some [b0; b1; b2; b3] =>
      mret (Some (Z.lor (Z.lor (Z.lor (uint32 (uchar_val b0))
                                      (uint32 (Z.shiftl (uint32 (uchar_val b1)) 8)))
                               (uint32 (Z.shiftl (uint32 (uchar_val b2)) 16)))
                        (uint32 (Z.shiftl (uint32 (uchar_val b3)) 24))))
  | _ => mret None
  end.

(** [write_u32]. *)
Definition write_u32 (v : Z) : prog bool :=
  let b0 := to_uchar (Z.land v 255) in
  let b1 := to_uchar (Z.land (Z.shiftr v 8) 255) in
  let b2 := to_uchar (Z.land (Z.shiftr v 16) 255) in
  let b3 := to_uchar (Z.land (Z.shiftr v 24) 255) in
  write_exact [b0; b1; b2; b3].

(** A block of [float]s as [malloc] returns it: a cell that was never
    written is [None].  [NULL] is the block without cells. *)
Definition block (F : Type) : Type := list (option F).

(** The growing buffer of [append_floats]: the block behind [*out], with
    [*out_len] and [*out_cap]. *)
Record floats (F : Type) : Type := Floats { f_block : block F; f_len : Z; f_cap : Z }.
Arguments Floats {F} _ _ _.
Arguments f_block {F} _.
Arguments f_len {F} _.
Arguments f_cap {F} _.

Section Floats.
(** [SIZE_MAX], the largest [size_t]. *)
Variable SIZE_MAX : Z.
Context {F : Type}.

(** The value of a [size_t] expression: arithmetic modulo [SIZE_MAX + 1]. *)
Definition size_t (z : Z) : Z := z mod (SIZE_MAX + 1).

(** [realloc(b, bytes)]: the new block when there is one; it holds what
    fits of the old one. *)
Definition realloc (b : block F) (bytes : Z) : prog (option (block F)) :=
  ok ← alloc;
  mret (if ok : bool
        then Some (take (Z.to_nat (bytes / 4)) (b ++ replicate (Z.to_nat (bytes / 4)) None))
        else None).

(** [memcpy(b + off, src, bytes)] between blocks of [float]s: undefined when
    it leaves either block (or splits a [float]). *)
Definition memcpy (b : block F) (off : Z) (src : block F) (bytes : Z) : option (block F) :=
  let k := bytes / 4 in
  if decide (bytes mod 4 = 0 ∧ 0 ≤ off ∧ off + k ≤ Z.of_nat (length b) ∧
             k ≤ Z.of_nat (length src))
  then Some (take (Z.to_nat off) b ++ take (Z.to_nat k) src ++ drop (Z.to_nat (off + k)) b)
  else None.

(** One execution of the body of the loop of [append_floats] on
    [new_cap]; the flag records the [break]. *)
Definition grow_body (need : Z) (s : Z * bool) : option (Z * bool) :=
  let '(new_cap, _) := s in
  if decide (new_cap > SIZE_MAX / 2) then Some (need, true)
  else Some (size_t (new_cap * 2), false).

(** The capacity that [append_floats] asks of [realloc]. *)
Definition grow (need out_cap : Z) : option Z :=
  let new_cap := if decide (out_cap ≠ 0) then out_cap else 1024 in
  s ← while_loop (Z.to_nat need) (λ s, bool_decide (fst s < need) && negb (snd s))
        (grow_body need) (new_cap, false);
  Some (fst s).

(** [append_floats]: the value returned and the buffer. *)
Definition append_floats (v : floats F) (src : block F) (n : Z) : prog (Z * floats F) :=
  if decide (n = 0) then mret (1, v)
  else if decide (n > size_t (SIZE_MAX - f_len v)) then mret (0, v)
  else
    let need := size_t (f_len v + n) in
    r ← (if decide (need > f_cap v) then
           new_cap ← defined (grow need (f_cap v));
           resized ← realloc (f_block v) (size_t (new_cap * 4));
           mret (match resized with
                 | None => None
                 | Some b => Some (Floats b (f_len v) new_cap)
                 end)
         else mret (Some v));
    match r with
    | None => mret (0, v)
    | Some v' =>
        b ← defined (memcpy (f_block v') (f_len v') src (size_t (n * 4)));
        mret (1, Floats b need (f_cap v'))
    end.
End Floats.

(** *** The statements of [main] *)

Inductive step (A : Type) : Type :=
  | Return (status : Z)
  | Next (a : A).
Arguments Return {A} _.
Arguments Next {A} _.

Definition stmt (A : Type) : Type := prog (step A).

#[export] Instance stmt_bind : MBind stmt := λ A B f m w,
  match m w with
  | Some (Next a, w') => f a w'
  | Some (Return c, w') => Some (Return c, w')
  | None => None
  end.

(** An expression evaluated for its value. *)
Definition eval {A : Type} (m : prog A) : stmt A := λ w,
  match m w with
  | Some (a, w') => Some (Next a, w')
  | None => None
  end.

Definition next {A : Type} (a : A) : stmt A := λ w, Some (Next a, w).

(** [fprintf(stderr, m); return 1;]. *)
Definition fail {A : Type} (m : message) : stmt A := λ w,
  match fprintf_stderr m w with
  | Some (_, w') => Some (Return 1, w')
  | None => None
  end.

(** [if (!c) { fprintf(stderr, m); return 1; }]. *)
Definition unless (c : bool) (m : message) : stmt unit :=
  if c then next tt else fail m.

(** [if (!f(&x)) { fprintf(stderr, m); return 1; }] for a reader [f]. *)
Definition require {A : Type} (f : prog (option A)) (m : message) : stmt A :=
  x ← eval f;
  match x with
  | Some a => next a
  | None => fail m
  end.

(** [if (len > 0) { p = malloc(len); if (p == NULL || !read_exact(p, len))
    { fprintf(stderr, m); return 1; } }]: the bytes behind [p], [None] for
    the [NULL] it was initialised with. *)
Definition read_bytes (len : Z) (m : message) : stmt (option (list Byte.byte)) :=
  if decide (len > 0) then
    ok ← eval alloc;
    if ok : bool then data ← require (read_exact len) m; next (Some data)
    else fail m
  else next None.

(** [for (uint32_t i = 0; i < count; i++) body]: [k] executions of the
    body. *)
Fixpoint packets {S : Type} (body : S → stmt S) (k : nat) (s : S) : stmt S :=
  match k with
  | O => next s
  | Datatypes.S k' => s' ← body s; packets body k' s'
  end.

(** The exit status of a run of [main]. *)
Definition status (m : stmt Z) : prog Z := λ w,
  match m w with
  | Some (Return c, w') => Some (c, w')
  | Some (Next c, w') => Some (c, w')
  | None => None
  end.

(** [memcmp(a, b, n) == 0] for two arrays of [n] bytes. *)
Definition memcmp_eq (a b : list Byte.byte) : bool :=
  bool_decide (uchar_val <$> a = uchar_val <$> b).

Definition GOSI_MAGIC : list Byte.byte := [Byte.x47; Byte.x4f; Byte.x53; Byte.x49].
Definition GOSO_MAGIC : list Byte.byte := [Byte.x47; Byte.x4f; Byte.x53; Byte.x4f].
Definition GMSI_MAGIC : list Byte.byte := [Byte.x47; Byte.x4d; Byte.x53; Byte.x49].
Definition GMSO_MAGIC : list Byte.byte := [Byte.x47; Byte.x4d; Byte.x53; Byte.x4f].
Definition OPUS_OK : Z := 0.

Section Main.
Variable SIZE_MAX : Z.
Context {F : Type}.
(** The object representation of a [float]. *)
Variable float_bytes : F → list Byte.byte.

(** The samples a callee stores from [pcm[0]] on; writing past the block is
    undefined. *)
Definition store_pcm (pcm : list F) (frame : block F) : option (block F) :=
  if decide (length pcm ≤ length frame)%nat
  then Some ((Some <$> pcm) ++ drop (length pcm) frame)
  else None.

(** The first [bytes] bytes of a block, for [fwrite]: undefined when they
    reach past the block or a cell that was never written. *)
Definition block_bytes (b : block F) (bytes : Z) : option (list Byte.byte) :=
  if decide (bytes mod 4 = 0 ∧ bytes / 4 ≤ Z.of_nat (length b))
  then cells ← mapM id (take (Z.to_nat (bytes / 4)) b); Some (cells ≫= float_bytes)
  else None.

(** The check of the size of the frame buffer and its allocation: the
    block. *)
Definition alloc_frame (channels frame_size : Z) : stmt (block F) :=
  unless (bool_decide
            (¬ (size_t SIZE_MAX channels > SIZE_MAX / size_t SIZE_MAX frame_size ∨
                size_t SIZE_MAX (size_t SIZE_MAX channels * size_t SIZE_MAX frame_size)
                > SIZE_MAX / 4)))
    FrameBufferOverflow;;
  let frame_bytes :=
    size_t SIZE_MAX (size_t SIZE_MAX (size_t SIZE_MAX channels * size_t SIZE_MAX frame_size)
                     * 4) in
  ok ← eval alloc;
  unless ok FailedToAllocateFrameBuffer;;
  next (replicate (Z.to_nat (frame_bytes / 4)) None).

Section Packet.
(** One of the decoders of libopus: [decode_float st data len frame_size
    decode_fec] is the state the call leaves, the value returned and the
    samples it has stored from [pcm[0]] on ([data] is [None] for [NULL]). *)
Context {Dec : Type}.
Variable lib : library.
Variable decode_float : Dec → option (list Byte.byte) → Z → Z → Z → Dec * Z * list F.

(** The body of the loop over the packets (the same in [main] of
    [libopus_refdecode_single.c] and, twice, of
    [libopus_refdecode_multistream.c], but for the decoder), on the
    decoder, the frame buffer and the output. *)
Definition decode_packet (channels frame_size : Z)
    (s : Dec * block F * floats F) : stmt (Dec * block F * floats F) :=
  let '(dec, frame, decoded) := s in
  packet_len ← require read_u32 FailedToReadPacketLength;
  packet ← read_bytes packet_len FailedToReadPacketPayload;
  let '(dec, decoded_samples, pcm) :=
    decode_float dec packet (to_int packet_len) (to_int frame_size) 0 in
  frame ← eval (defined (store_pcm pcm frame));
  unless (bool_decide (¬ decoded_samples < 0)) (DecodeFloatFailed lib decoded_samples);;
  r ← eval (append_floats SIZE_MAX decoded frame
               (size_t SIZE_MAX (size_t SIZE_MAX decoded_samples * size_t SIZE_MAX channels)));
  unless (bool_decide (fst r ≠ 0)) FailedToAppendDecodedSamples;;
  next (dec, frame, snd r).

(** [if (dec == NULL || err != OPUS_OK) { ... return 1; }], then the loop:
    the decoded samples. *)
Definition decode_packets (created : option Dec * Z) (channels frame_size packet_count : Z)
    (frame : block F) : stmt (floats F) :=
  let '(dec, err) := created in
  match dec with
  | Some dec =>
      unless (bool_decide (err = OPUS_OK)) (DecoderCreateFailed lib err);;
      s ← packets (decode_packet channels frame_size) (Z.to_nat packet_count)
             (dec, frame, Floats [] 0 0);
      next (snd s)
  | None => fail (DecoderCreateFailed lib err)
  end.
End Packet.

(** *** [libopus_refdecode_single.c] *)

Section Single.
(** [opus_decoder_create Fs channels] is the decoder returned ([None]:
    [NULL]) and the value it leaves in [err]. *)
Context {Dec : Type}.
Variable opus_decoder_create : Z → Z → option Dec * Z.
Variable opus_decode_float : Dec → option (list Byte.byte) → Z → Z → Z → Dec * Z * list F.

(** [main] up to the end of the loop: the decoded samples. *)
Definition single_decode : stmt (floats F) :=
  magic ← eval (read_exact 4);
  unless (match magic with Some m => memcmp_eq m GOSI_MAGIC | None => false end)
    InvalidInputMagic;;
  version ← require read_u32 FailedToReadHeader;
  unless (bool_decide (version = 1)) FailedToReadHeader;;
  channels ← require read_u32 FailedToReadHeader;
  frame_size ← require read_u32 FailedToReadHeader;
  packet_count ← require read_u32 FailedToReadHeader;
  unless (bool_decide (¬ (channels = 0 ∨ channels > 2 ∨ frame_size = 0)))
    InvalidDecoderDimensions;;
  frame ← alloc_frame channels frame_size;
  decode_packets Opus opus_decode_float (opus_decoder_create 48000 (to_int channels))
    channels frame_size packet_count frame.

(** The output. *)
Definition single_output (decoded : floats F) : stmt Z :=
  ok ← eval (write_exact GOSO_MAGIC);
  unless ok FailedToWriteOutput;;
  unless (bool_decide (¬ f_len decoded > UINT32_MAX)) FailedToWriteOutput;;
  ok ← eval (write_u32 (uint32 (f_len decoded)));
  unless ok FailedToWriteOutput;;
  bytes ← eval (defined (block_bytes (f_block decoded)
                            (size_t SIZE_MAX (f_len decoded * 4))));
  ok ← eval (write_exact bytes);
  unless ok FailedToWriteOutput;;
  next 0.

(** [main]. *)
Definition single_main : prog Z :=
  status (decoded ← single_decode; single_output decoded).
End Single.

(** *** [libopus_refdecode_multistream.c] *)

Section Multistream.
(** [opus_projection_decoder_create Fs channels streams coupled_streams
    demixing_matrix demixing_matrix_size] and
    [opus_multistream_decoder_create Fs channels streams coupled_streams
    mapping]: the decoder returned and the value left in [err]. *)
Context {PDec MDec : Type}.
Variable opus_projection_decoder_create :
  Z → Z → Z → Z → option (list Byte.byte) → Z → option PDec * Z.
Variable opus_projection_decode_float :
  PDec → option (list Byte.byte) → Z → Z → Z → PDec * Z * list F.
Variable opus_multistream_decoder_create :
  Z → Z → Z → Z → option (list Byte.byte) → option MDec * Z.
Variable opus_multistream_decode_float :
  MDec → option (list Byte.byte) → Z → Z → Z → MDec * Z * list F.

(** [main] up to the end of the loops: the decoded samples. *)
Definition multistream_decode : stmt (floats F) :=
  magic ← eval (read_exact 4);
  unless (match magic with Some m => memcmp_eq m GMSI_MAGIC | None => false end)
    InvalidInputMagic;;
  version ← require read_u32 FailedToReadHeader;
  unless (bool_decide (version = 1)) FailedToReadHeader;;
  family ← require read_u32 FailedToReadHeader;
  channels ← require read_u32 FailedToReadHeader;
  streams ← require read_u32 FailedToReadHeader;
  coupled ← require read_u32 FailedToReadHeader;
  frame_size ← require read_u32 FailedToReadHeader;
  packet_count ← require read_u32 FailedToReadHeader;
  mapping_len ← require read_u32 FailedToReadHeader;
  demix_len ← require read_u32 FailedToReadHeader;
  unless (bool_decide (¬ (channels = 0 ∨ streams = 0 ∨ frame_size = 0)))
    InvalidDecoderDimensions;;
  mapping ← read_bytes mapping_len FailedToReadMapping;
  demixing ← read_bytes demix_len FailedToReadDemixingMatrix;
  frame ← alloc_frame channels frame_size;
  if decide (family = 3) then
    decode_packets OpusProjection opus_projection_decode_float
      (opus_projection_decoder_create 48000 (to_int channels) (to_int streams)
         (to_int coupled) demixing (to_int demix_len))
      channels frame_size packet_count frame
  else
    decode_packets OpusMultistream opus_multistream_decode_float
      (opus_multistream_decoder_create 48000 (to_int channels) (to_int streams)
         (to_int coupled) mapping)
      channels frame_size packet_count frame.

(** The output. *)
Definition multistream_output (decoded : floats F) : stmt Z :=
  unless (bool_decide (¬ f_len decoded > UINT32_MAX)) DecodedOutputTooLarge;;
  ok ← eval (write_exact GMSO_MAGIC);
  unless ok FailedToWriteOutput;;
  ok ← eval (write_u32 (uint32 (f_len decoded)));
  unless ok FailedToWriteOutput;;
  (if decide (f_len decoded > 0) then
     bytes ← eval (defined (block_bytes (f_block decoded)
                               (size_t SIZE_MAX (f_len decoded * 4))));
     ok ← eval (write_exact bytes);
     unless ok FailedToWriteOutput
   else next tt);;
  next 0.

(** [main]. *)
Definition multistream_main : prog Z :=
  status (decoded ← multistream_decode; multistream_output decoded).
End Multistream.
End Main.
End Harness.

(** ** The streams of the harnesses *)

(** What the properties of the harnesses are stated with: the layout of
    their input and of their output, and what libopus makes of the
    packets. *)
Module Streams.
Import Harness.

(** The four bytes of [v], least significant first. *)
Definition u32_bytes (v : Z) : list Byte.byte :=
  [to_uchar v; to_uchar (v / 256); to_uchar (v / 65536); to_uchar (v / 16777216)].

(** The world once the input has come down to [i], and the world after
    one more message on [stderr]. *)
Definition set_stdin (w : world) (i : list Byte.byte) : world :=
  World i (w_stdout w) (w_room w) (w_stderr w) (w_heap w).
Definition add_stderr (w : world) (m : message) : world :=
  World (w_stdin w) (w_stdout w) (w_room w) (w_stderr w ++ [m]) (w_heap w).

(** A buffer of [append_floats] whose block is the one [*out_cap]
    describes, [*out_len] cells of it in use; and the cells in use. *)
Definition floats_ok {F : Type} (v : floats F) : Prop :=
  Z.of_nat (length (f_block v)) = f_cap v ∧ 0 ≤ f_len v ≤ f_cap v.
Definition floats_data {F : Type} (v : floats F) : block F :=
  take (Z.to_nat (f_len v)) (f_block v).

(** The packets on the wire: each one its length, then its bytes. *)
Definition packets_bytes (pkts : list (list Byte.byte)) : list Byte.byte :=
  pkts ≫= λ p, u32_bytes (Z.of_nat (length p)) ++ p.

(** The pointer that bytes read by [read_bytes] are passed by: [NULL] when
    there are none. *)
Definition data_ptr (p : list Byte.byte) : option (list Byte.byte) :=
  match p with [] => None | _ => Some p end.

(** What a decoder makes of the packets, one call for each: the samples of
    all the calls, [ret * channels] of each.  There are none when a call
    fails, or stores fewer samples than it tells or more than a frame
    holds. *)
Fixpoint decode_stream {F Dec : Type}
    (decode_float : Dec → option (list Byte.byte) → Z → Z → Z → Dec * Z * list F)
    (channels frame_size : Z) (dec : Dec) (pkts : list (list Byte.byte))
    : option (list F) :=
  match pkts with
  | [] => Some []
  | p :: pkts =>
      let '(dec, ret, pcm) :=
        decode_float dec (data_ptr p) (to_int (Z.of_nat (length p))) (to_int frame_size) 0 in
      if decide (0 ≤ ret ∧ ret * channels ≤ Z.of_nat (length pcm) ≤ channels * frame_size)
      then samples ← decode_stream decode_float channels frame_size dec pkts;
           Some (take (Z.to_nat (ret * channels)) pcm ++ samples)
      else None
  end.

(** The header of an input of [libopus_refdecode_multistream.c]. *)
Definition multistream_header (family channels streams coupled frame_size packet_count
    mapping_len demix_len : Z) : list Byte.byte :=
  GMSI_MAGIC ++ u32_bytes 1 ++ u32_bytes family ++ u32_bytes channels ++
  u32_bytes streams ++ u32_bytes coupled ++ u32_bytes frame_size ++
  u32_bytes packet_count ++ u32_bytes mapping_len ++ u32_bytes demix_len.
End Streams.

(** Sample runs of the harnesses: a 64-bit [size_t], samples that are
    numbers, each written as its four bytes, and decoders that create
    without error and decode every packet to the one frame [7, 9] of a
    stereo stream. *)
Module HarnessSamples.
Import Harness Streams.

Definition SIZE_MAX : Z := 18446744073709551615.
Definition float_bytes (x : Z) : list Byte.byte := u32_bytes x.
Definition create (Fs channels : Z) : option unit * Z := (Some tt, 0).
Definition frame : list Z := [7; 9].
Definition decode (st : unit) (data : option (list Byte.byte)) (len frame_size fec : Z)
    : unit * Z * list Z := (tt, 1, frame).
Definition projection_create (Fs channels streams coupled : Z)
    (demixing : option (list Byte.byte)) (size : Z) : option unit * Z := (Some tt, 0).
Definition multistream_create (Fs channels streams coupled : Z)
    (mapping : option (list Byte.byte)) : option unit * Z := (Some tt, 0).

(** Nothing written yet, [room] bytes of room, no allocation failure to
    come. *)
Definition empty (i : list Byte.byte) (room : nat) : world := World i [] room [] [].

(** A stereo stream of frames of [960] samples with one packet of two
    bytes. *)
Definition packet : list Byte.byte := [Byte.x0a; Byte.x0b].
Definition single_input : list Byte.byte :=
  GOSI_MAGIC ++ u32_bytes 1 ++ u32_bytes 2 ++ u32_bytes 960 ++ u32_bytes 1 ++
  u32_bytes 2 ++ packet.
(** The same for the multistream decoder: family [1], one coupled stream,
    the mapping [0, 1] and no demixing matrix. *)
Definition mapping : list Byte.byte := [Byte.x00; Byte.x01].
Definition multistream_input : list Byte.byte :=
  multistream_header 1 2 1 1 960 1 2 0 ++ mapping ++ u32_bytes 2 ++ packet.
End HarnessSamples.

(** * Properties *)

(** ** Buffers and loops *)

Section BufferFacts.
Context {A : Type}.
Implicit Types (b : list A) (i j : Z) (v : A).

Lemma ld_inb b i : inb b i → is_Some (ld b i).
Proof.
  unfold inb, ld. intros Hi. rewrite decide_True by lia.
  apply lookup_lt_is_Some. lia.
Qed.

Lemma ld_Some_inb b i v : ld b i = Some v → inb b i.
Proof.
  unfold inb, ld. case_decide; [|done]. intros Hl.
  apply lookup_lt_Some in Hl. lia.
Qed.

Lemma ld_None b i : ¬ inb b i → ld b i = None.
Proof.
  intros Hn. destruct (ld b i) eqn:E; [|done].
  exfalso. eauto using ld_Some_inb.
Qed.

Lemma length_upd b i v : length (upd b i v) = length b.
Proof. apply length_insert. Qed.

Lemma inb_upd b i v j : inb (upd b i v) j ↔ inb b j.
Proof. unfold inb. by rewrite length_upd. Qed.

Lemma st_inb b i v : inb b i → st b i v = Some (upd b i v).
Proof. unfold inb, st, upd. intros Hi. by rewrite decide_True. Qed.

Lemma st_Some b i v b' : st b i v = Some b' → inb b i ∧ b' = upd b i v.
Proof.
  unfold inb, st, upd. destruct (decide _) as [Hd|]; [|done].
  by intros [= <-].
Qed.

Lemma ld_upd b i v j :
  inb b i → ld (upd b i v) j = if decide (j = i) then Some v else ld b j.
Proof.
  unfold inb, ld, upd. intros Hi. destruct (decide (j = i)) as [->|Hji].
  - rewrite decide_True by lia.
    apply list_lookup_insert_eq. lia.
  - case_decide; [|done]. apply list_lookup_insert_ne. lia.
Qed.

Lemma ld_ext b1 b2 : (∀ j, ld b1 j = ld b2 j) → b1 = b2.
Proof.
  intros Hld. apply list_eq. intros k.
  specialize (Hld (Z.of_nat k)). unfold ld in Hld.
  rewrite !decide_True, !Nat2Z.id in Hld by lia. done.
Qed.
End BufferFacts.

(** Every index is the first or the second element of a pair. *)
Lemma Z_pair_cases (j : Z) : ∃ k, j = 2 * k ∨ j = 2 * k + 1.
Proof.
  exists (j / 2). pose proof (Z.div_mod j 2). pose proof (Z.mod_pos_bound j 2). lia.
Qed.

(** Bounds of a buffer after in-range writes. *)
Ltac inb_tac :=
  unfold inb in *; rewrite ?length_upd in *; lia.

(** Reads of a buffer after in-range writes. *)
Ltac ld_upd_tac :=
  repeat (rewrite ld_upd by inb_tac);
  repeat (case_decide; try lia).

Section LoopFacts.
Context {S : Type}.
Implicit Types (cond : S → bool) (body : S → option S).

(** Total correctness of a loop from an invariant and a variant. *)
Lemma while_loop_inv (Inv : S → Prop) (mu : S → nat) cond body :
  (∀ s, Inv s → cond s = true →
        ∃ s', body s = Some s' ∧ Inv s' ∧ (mu s' < mu s)%nat) →
  ∀ fuel s, Inv s → (mu s ≤ fuel)%nat →
    ∃ s', while_loop fuel cond body s = Some s' ∧ Inv s' ∧ cond s' = false.
Proof.
  intros Hbody. induction fuel as [|fuel IH]; intros s Hs Hmu; simpl.
  - destruct (cond s) eqn:Hc; [|eauto].
    destruct (Hbody s Hs Hc) as (s' & _ & _ & Hlt). lia.
  - destruct (cond s) eqn:Hc; [|eauto].
    destruct (Hbody s Hs Hc) as (s' & -> & Hs' & Hlt). simpl.
    apply IH; [done | lia].
Qed.

(** [n] executions of a body that steps an indexed invariant. *)
Lemma iterate_inv (P : nat → S → Prop) body (n : nat) :
  (∀ k s, (k < n)%nat → P k s → ∃ s', body s = Some s' ∧ P (Datatypes.S k) s') →
  ∀ s, P O s → ∃ s', iterate n body s = Some s' ∧ P n s'.
Proof.
  intros Hbody.
  assert (∀ j k s, (j + k = n)%nat → P k s →
            ∃ s', iterate j body s = Some s' ∧ P n s') as Hgen.
  { induction j as [|j IH]; intros k s Hjk Hs; simpl.
    - replace n with k by lia. eauto.
    - destruct (Hbody k s) as (s' & -> & Hs'); [lia | done |]. simpl.
      apply (IH (Datatypes.S k)); [lia | done]. }
  intros s Hs. apply (Hgen n O); [lia | done].
Qed.
End LoopFacts.

(** ** Prerotation *)

Section PrerotateFacts.
Context {F D : Type} `{FloatOps F} `{Narrow D F}.
Variables (spec : list D) (trig : list F) (n2 n4 : Z) (out0 : list F).
Hypothesis Hvalid : prerotate_valid out0 spec trig n2 n4.

(** The output buffer once the indices below [i] are done. *)
Definition prerotate_done (i : Z) (out : list F) : Prop :=
  length out = length out0 ∧
  (∀ k, 0 ≤ k < i →
     ld out (2 * k) = prerotate_yi spec trig n2 n4 k ∧
     ld out (2 * k + 1) = prerotate_yr spec trig n2 n4 k) ∧
  (∀ j, ¬ (0 ≤ j < 2 * i) → ld out j = ld out0 j).

Definition prerotate_inv (s : Z * list F) : Prop :=
  0 ≤ fst s ≤ n4 ∧ prerotate_done (fst s) (snd s).

Lemma prerotate_done_unique i out out' :
  0 ≤ i → 2 * i ≤ Z.of_nat (length out0) →
  prerotate_done i out → prerotate_done i out' → out = out'.
Proof.
  intros Hi Hlen (Hl1 & Hw1 & Hr1) (Hl2 & Hw2 & Hr2). apply ld_ext. intros j.
  destruct (decide (0 ≤ j < 2 * i)) as [Hj|Hj]; [|by rewrite Hr1, Hr2].
  destruct (Z_pair_cases j) as [k Hk].
  destruct (Hw1 k) as [Ha1 Hb1]; [lia|].
  destruct (Hw2 k) as [Ha2 Hb2]; [lia|].
  destruct Hk as [-> | ->]; congruence.
Qed.

Lemma prerotate_scalar_step i out :
  prerotate_inv (i, out) → i < n4 →
  ∃ s', prerotate_scalar_body spec trig n2 n4 (i, out) = Some s' ∧
        prerotate_inv s' ∧ fst s' = i + 1.
Proof using Hvalid.
  destruct Hvalid as (Hn2 & Hspec & Htrig & Hout).
  intros [Hi (Hlen & Hw & Hr)] Hlt. simpl in Hi, Hlen, Hw, Hr.
  destruct (ld_inb spec (2 * i)) as [s0 Hs0]; [inb_tac|].
  destruct (ld_inb spec (n2 - 1 - 2 * i)) as [s1 Hs1]; [inb_tac|].
  destruct (ld_inb trig i) as [t0 Ht0]; [inb_tac|].
  destruct (ld_inb trig (n4 + i)) as [t1 Ht1]; [inb_tac|].
  unfold prerotate_scalar_body. rewrite Hs0, Hs1, Ht0, Ht1. simpl.
  rewrite st_inb by inb_tac. simpl. rewrite st_inb by inb_tac. simpl.
  eexists; split; [done|]. split; [|done].
  split; [simpl; lia|]. simpl. split; [by rewrite !length_upd|]. split.
  - intros k Hk. destruct (decide (k = i)) as [->|Hne].
    + unfold prerotate_yi, prerotate_yr. rewrite Hs0, Hs1, Ht0, Ht1. simpl.
      split; ld_upd_tac; done.
    + destruct (Hw k) as [Ha Hb]; [lia|]. rewrite <- Ha, <- Hb.
      split; ld_upd_tac; done.
  - intros j Hj. rewrite <- Hr by lia. ld_upd_tac; done.
Qed.

Lemma prerotate_vec_step i out :
  prerotate_inv (i, out) → i + 1 < n4 →
  ∃ s', prerotate_vec_body spec trig n2 n4 (i, out) = Some s' ∧
        prerotate_inv s' ∧ fst s' = i + 2.
Proof using Hvalid.
  destruct Hvalid as (Hn2 & Hspec & Htrig & Hout).
  intros [Hi (Hlen & Hw & Hr)] Hlt. simpl in Hi, Hlen, Hw, Hr.
  destruct (ld_inb spec (2 * i)) as [s0 Hs0]; [inb_tac|].
  destruct (ld_inb spec (2 * i + 2)) as [s1 Hs1]; [inb_tac|].
  destruct (ld_inb spec (n2 - 1 - 2 * i)) as [s2 Hs2]; [inb_tac|].
  destruct (ld_inb spec (n2 - 1 - 2 * i - 2)) as [s3 Hs3]; [inb_tac|].
  destruct (ld_inb trig i) as [t0 Ht0]; [inb_tac|].
  destruct (ld_inb trig (i + 1)) as [t0' Ht0']; [inb_tac|].
  destruct (ld_inb trig (n4 + i)) as [t1 Ht1]; [inb_tac|].
  destruct (ld_inb trig (n4 + i + 1)) as [t1' Ht1']; [inb_tac|].
  unfold prerotate_vec_body, vld1_f32, vst1q_f32.
  rewrite Hs0, Hs1, Hs2, Hs3, Ht0, Ht0', Ht1, Ht1'. simpl.
  do 4 (rewrite st_inb by inb_tac; simpl).
  eexists; split; [done|]. split; [|done].
  split; [simpl; lia|]. simpl. split; [by rewrite !length_upd|]. split.
  - intros k Hk. unfold prerotate_yi, prerotate_yr.
    destruct (decide (k = i)) as [->|Hne]; [|destruct (decide (k = i + 1)) as [->|Hne']].
    + rewrite Hs0, Hs2, Ht0, Ht1. simpl. split; ld_upd_tac; done.
    + replace (2 * (i + 1)) with (2 * i + 2) by lia.
      replace (n2 - 1 - (2 * i + 2)) with (n2 - 1 - 2 * i - 2) by lia.
      replace (n4 + (i + 1)) with (n4 + i + 1) by lia.
      rewrite Hs1, Hs3, Ht0', Ht1'. simpl. split; ld_upd_tac; done.
    + destruct (Hw k) as [Ha Hb]; [lia|].
      unfold prerotate_yi, prerotate_yr in Ha, Hb. rewrite <- Ha, <- Hb.
      split; ld_upd_tac; done.
  - intros j Hj. rewrite <- Hr by lia. ld_upd_tac; done.
Qed.
End PrerotateFacts.

Section PrerotateResults.
Context {F D : Type} `{FloatOps F} `{Narrow D F}.
Variables (spec : list D) (trig : list F) (n2 n4 : Z) (out0 : list F).
Hypothesis Hvalid : prerotate_valid out0 spec trig n2 n4.
Hypothesis Hn4 : 1 ≤ n4.

Let mu (s : Z * list F) : nat := Z.to_nat (n4 - fst s).

Lemma prerotate_inv_init : prerotate_inv spec trig n2 n4 out0 (0, out0).
Proof.
  split; [simpl; lia|]. simpl. split; [done|]. split; [intros; lia | done].
Qed.

Lemma prerotate_vec_loop s :
  prerotate_inv spec trig n2 n4 out0 s →
  ∃ s', while_loop (Z.to_nat n4) (λ s, bool_decide (fst s + 1 < n4))
          (prerotate_vec_body spec trig n2 n4) s = Some s' ∧
        prerotate_inv spec trig n2 n4 out0 s'.
Proof.
  intros Hs.
  destruct (while_loop_inv (prerotate_inv spec trig n2 n4 out0) mu
              (λ s, bool_decide (fst s + 1 < n4))
              (prerotate_vec_body spec trig n2 n4)) with (fuel := Z.to_nat n4) (s := s)
    as (s' & Hl & Hs' & _); [| done | | eauto].
  - intros [i out] Hi Hc. apply bool_decide_eq_true in Hc. simpl in Hc.
    destruct (prerotate_vec_step _ _ _ _ _ Hvalid i out Hi Hc) as (s' & Hb & Hs' & Hf).
    exists s'. split; [done|]. split; [done|].
    unfold mu. rewrite Hf. destruct Hi as [Hi _]. simpl in Hi |- *. lia.
  - unfold mu. destruct Hs as [Hi _]. lia.
Qed.

Lemma prerotate_scalar_loop s :
  prerotate_inv spec trig n2 n4 out0 s →
  ∃ out', while_loop (Z.to_nat n4) (λ s, bool_decide (fst s < n4))
            (prerotate_scalar_body spec trig n2 n4) s = Some (n4, out') ∧
          prerotate_done spec trig n2 n4 out0 n4 out'.
Proof.
  intros Hs.
  destruct (while_loop_inv (prerotate_inv spec trig n2 n4 out0) mu
              (λ s, bool_decide (fst s < n4))
              (prerotate_scalar_body spec trig n2 n4)) with (fuel := Z.to_nat n4) (s := s)
    as ([i out'] & Hl & [Hi Hd] & Hc).
  - intros [i out] Hi Hc. apply bool_decide_eq_true in Hc. simpl in Hc.
    destruct (prerotate_scalar_step _ _ _ _ _ Hvalid i out Hi Hc) as (s' & Hb & Hs' & Hf).
    exists s'. split; [done|]. split; [done|].
    unfold mu. rewrite Hf. destruct Hi as [Hi _]. simpl in Hi |- *. lia.
  - done.
  - unfold mu. destruct Hs as [Hi _]. lia.
  - apply bool_decide_eq_false in Hc. simpl in Hi, Hd, Hc.
    assert (i = n4) as -> by lia. eauto.
Qed.

Lemma prerotate_done_impl :
  ∃ out', imdct_prerotate_f32 spec trig n2 n4 out0 = Some out' ∧
          prerotate_done spec trig n2 n4 out0 n4 out'.
Proof.
  unfold imdct_prerotate_f32. rewrite decide_False by lia.
  destruct (prerotate_vec_loop _ prerotate_inv_init) as (s1 & -> & Hs1). simpl.
  destruct (prerotate_scalar_loop _ Hs1) as (out' & -> & Hd). simpl. eauto.
Qed.

Lemma prerotate_done_scalar :
  ∃ out', imdct_prerotate_scalar spec trig n2 n4 out0 = Some out' ∧
          prerotate_done spec trig n2 n4 out0 n4 out'.
Proof.
  unfold imdct_prerotate_scalar. rewrite decide_False by lia.
  destruct (prerotate_scalar_loop _ prerotate_inv_init) as (out' & -> & Hd).
  simpl. eauto.
Qed.

Lemma prerotate_impl_scalar :
  ∃ out', imdct_prerotate_f32 spec trig n2 n4 out0 = Some out' ∧
          imdct_prerotate_scalar spec trig n2 n4 out0 = Some out'.
Proof.
  destruct prerotate_done_impl as (out1 & H1 & Hd1).
  destruct prerotate_done_scalar as (out2 & H2 & Hd2).
  exists out1. split; [done|]. rewrite H2. f_equal.
  destruct Hvalid as (? & ? & ? & ?).
  eapply prerotate_done_unique; [| |exact Hd2|exact Hd1]; lia.
Qed.
End PrerotateResults.

(** ** Postrotation *)

(** Rewrites the reads of the goal with the reads that are known, up to
    linear arithmetic on the index. *)
Ltac ld_rewrite :=
  repeat match goal with
    | Hx : ld ?b ?e = Some _ |- context [ld ?b ?e'] =>
        first [ rewrite Hx | replace e' with e by lia; rewrite Hx ]
    end.

Lemma postrotate_limit_spec (n4 : Z) :
  n4 ≤ 2 * postrotate_limit n4 ≤ n4 + 1.
Proof.
  unfold postrotate_limit. rewrite Z.shiftr_div_pow2 by lia.
  change (2 ^ 1) with 2.
  pose proof (Z.div_mod (n4 + 1) 2). pose proof (Z.mod_pos_bound (n4 + 1) 2). lia.
Qed.

Lemma ceil_half_limit (n4 : Z) : ceil_half n4 = postrotate_limit n4.
Proof.
  pose proof (postrotate_limit_spec n4). unfold ceil_half.
  pose proof (Z.div_mod (- n4) 2). pose proof (Z.mod_pos_bound (- n4) 2). lia.
Qed.

Section PostrotateFacts.
Context {F : Type} `{FloatOps F}.
Variables (trig : list F) (n2 n4 : Z) (buf0 : list F).
Hypothesis Hvalid : postrotate_valid buf0 trig n2 n4.

Let L : Z := postrotate_limit n4.

(** The buffer once the paired iterations below [i] are done: their four
    cells each hold the value computed from the buffer received, the cells
    between the cursors are as received. *)
Definition postrotate_done (i : Z) (buf : list F) : Prop :=
  length buf = length buf0 ∧
  (∀ k, 0 ≤ k < i →
     ld buf (2 * k) = post_low_yr trig n4 buf0 k ∧
     ld buf (2 * k + 1) = post_high_yi trig n2 n4 buf0 k ∧
     ld buf (n2 - 2 - 2 * k) = post_high_yr trig n2 n4 buf0 k ∧
     ld buf (n2 - 2 - 2 * k + 1) = post_low_yi trig n4 buf0 k) ∧
  (∀ j, ¬ (0 ≤ j < 2 * i) → ¬ (n2 - 2 * i ≤ j < n2) → ld buf j = ld buf0 j).

Definition postrotate_inv (s : post_state F) : Prop :=
  0 ≤ ps_i s ≤ L ∧ ps_yp0 s = 2 * ps_i s ∧ ps_yp1 s = n2 - 2 - 2 * ps_i s ∧
  postrotate_done (ps_i s) (ps_buf s).

Lemma postrotate_done_unique buf buf' :
  postrotate_done L buf → postrotate_done L buf' → buf = buf'.
Proof using Hvalid.
  destruct Hvalid as (Hn2 & Htrig & Hbuf).
  pose proof (postrotate_limit_spec n4) as HL. fold L in HL.
  intros (Hl1 & Hw1 & Hr1) (Hl2 & Hw2 & Hr2). apply ld_ext. intros j.
  destruct (decide (0 ≤ j < 2 * L)) as [Hj|Hj].
  { destruct (Z_pair_cases j) as [k Hk].
    destruct (Hw1 k) as (Ha1 & Hb1 & _); [lia|].
    destruct (Hw2 k) as (Ha2 & Hb2 & _); [lia|].
    destruct Hk as [-> | ->]; congruence. }
  destruct (decide (n2 - 2 * L ≤ j < n2)) as [Hj'|Hj'].
  { destruct (Z_pair_cases (n2 - 1 - j)) as [k Hk].
    destruct (Hw1 k) as (_ & _ & Ha1 & Hb1); [lia|].
    destruct (Hw2 k) as (_ & _ & Ha2 & Hb2); [lia|].
    destruct Hk as [Hk | Hk].
    - replace j with (n2 - 2 - 2 * k + 1) by lia. congruence.
    - replace j with (n2 - 2 - 2 * k) by lia. congruence. }
  by rewrite Hr1, Hr2.
Qed.

Lemma postrotate_scalar_step s :
  postrotate_inv s → ps_i s < L →
  ∃ s', postrotate_scalar_body trig n2 n4 s = Some s' ∧
        postrotate_inv s' ∧ ps_i s' = ps_i s + 1.
Proof using Hvalid.
  destruct Hvalid as (Hn2 & Htrig & Hbuf).
  pose proof (postrotate_limit_spec n4) as HL. fold L in HL.
  destruct s as [i yp0 yp1 buf].
  intros (Hi & Hy0 & Hy1 & Hlen & Hw & Hr) Hlt.
  simpl in Hi, Hy0, Hy1, Hlen, Hw, Hr, Hlt. subst yp0 yp1.
  destruct (ld_inb buf0 (2 * i)) as [im Him]; [inb_tac|].
  destruct (ld_inb buf0 (2 * i + 1)) as [re Hre]; [inb_tac|].
  destruct (ld_inb buf0 (n2 - 2 - 2 * i)) as [im2 Him2]; [inb_tac|].
  destruct (ld_inb buf0 (n2 - 2 - 2 * i + 1)) as [re2 Hre2]; [inb_tac|].
  destruct (ld_inb trig i) as [t0 Ht0]; [inb_tac|].
  destruct (ld_inb trig (n4 + i)) as [t1 Ht1]; [inb_tac|].
  destruct (ld_inb trig (n4 - i - 1)) as [t0b Ht0b]; [inb_tac|].
  destruct (ld_inb trig (n2 - i - 1)) as [t1b Ht1b]; [inb_tac|].
  assert (ld buf (2 * i) = Some im) as Him' by (rewrite Hr by lia; done).
  assert (ld buf (2 * i + 1) = Some re) as Hre' by (rewrite Hr by lia; done).
  assert (ld buf (n2 - 2 - 2 * i) = Some im2) as Him2' by (rewrite Hr by lia; done).
  assert (ld buf (n2 - 2 - 2 * i + 1) = Some re2) as Hre2' by (rewrite Hr by lia; done).
  unfold postrotate_scalar_body, postrotate_low_half, postrotate_high_half.
  ld_rewrite. simpl. do 2 (rewrite st_inb by inb_tac; simpl).
  ld_rewrite. simpl. do 2 (rewrite st_inb by inb_tac; simpl).
  eexists; split; [done|]. split; [|done].
  split; [simpl; lia|]. split; [simpl; lia|]. split; [simpl; lia|]. simpl.
  split; [by rewrite !length_upd|]. split.
  - intros k Hk. destruct (decide (k = i)) as [->|Hne].
    + unfold post_low_yr, post_low_yi, post_high_yr, post_high_yi.
      ld_rewrite. simpl.
      destruct (decide (n2 - 2 - 2 * i = 2 * i)) as [Hmid|Hmid].
      * assert (re2 = re ∧ im2 = im ∧ t0b = t0 ∧ t1b = t1) as (-> & -> & -> & ->).
        { rewrite Hmid in Him2, Hre2.
          replace (n4 - i - 1) with i in Ht0b by lia.
          replace (n2 - i - 1) with (n4 + i) in Ht1b by lia.
          repeat split; congruence. }
        repeat split; ld_upd_tac; done.
      * repeat split; ld_upd_tac; done.
    + destruct (Hw k) as (Ha & Hb & Hc & Hd); [lia|].
      rewrite <- Ha, <- Hb, <- Hc, <- Hd.
      repeat split; ld_upd_tac; done.
  - intros j Hj Hj'. rewrite <- Hr by lia. ld_upd_tac; done.
Qed.
Lemma postrotate_vec_step s :
  postrotate_inv s → ps_i s + 1 < L →
  ∃ s', postrotate_vec_body trig n2 n4 s = Some s' ∧
        postrotate_inv s' ∧ ps_i s' = ps_i s + 2.
Proof using Hvalid.
  destruct Hvalid as (Hn2 & Htrig & Hbuf).
  pose proof (postrotate_limit_spec n4) as HL. fold L in HL.
  destruct s as [i yp0 yp1 buf].
  intros (Hi & Hy0 & Hy1 & Hlen & Hw & Hr) Hlt.
  simpl in Hi, Hy0, Hy1, Hlen, Hw, Hr, Hlt. subst yp0 yp1.
  destruct (ld_inb buf0 (2 * i)) as [im_a Him_a]; [inb_tac|].
  destruct (ld_inb buf0 (2 * i + 1)) as [re_a Hre_a]; [inb_tac|].
  destruct (ld_inb buf0 (2 * i + 2)) as [im_b Him_b]; [inb_tac|].
  destruct (ld_inb buf0 (2 * i + 3)) as [re_b Hre_b]; [inb_tac|].
  destruct (ld_inb buf0 (n2 - 4 - 2 * i)) as [im2_b Him2_b]; [inb_tac|].
  destruct (ld_inb buf0 (n2 - 3 - 2 * i)) as [re2_b Hre2_b]; [inb_tac|].
  destruct (ld_inb buf0 (n2 - 2 - 2 * i)) as [im2_a Him2_a]; [inb_tac|].
  destruct (ld_inb buf0 (n2 - 1 - 2 * i)) as [re2_a Hre2_a]; [inb_tac|].
  destruct (ld_inb trig i) as [t0_a Ht0_a]; [inb_tac|].
  destruct (ld_inb trig (i + 1)) as [t0_b Ht0_b]; [inb_tac|].
  destruct (ld_inb trig (n4 + i)) as [t1_a Ht1_a]; [inb_tac|].
  destruct (ld_inb trig (n4 + i + 1)) as [t1_b Ht1_b]; [inb_tac|].
  destruct (ld_inb trig (n4 - i - 2)) as [t0b_b Ht0b_b]; [inb_tac|].
  destruct (ld_inb trig (n4 - i - 1)) as [t0b_a Ht0b_a]; [inb_tac|].
  destruct (ld_inb trig (n2 - i - 2)) as [t1b_b Ht1b_b]; [inb_tac|].
  destruct (ld_inb trig (n2 - i - 1)) as [t1b_a Ht1b_a]; [inb_tac|].
  assert (ld buf (2 * i) = Some im_a) as Him_a' by (rewrite Hr by lia; done).
  assert (ld buf (2 * i + 1) = Some re_a) as Hre_a' by (rewrite Hr by lia; done).
  assert (ld buf (2 * i + 2) = Some im_b) as Him_b' by (rewrite Hr by lia; done).
  assert (ld buf (2 * i + 3) = Some re_b) as Hre_b' by (rewrite Hr by lia; done).
  assert (ld buf (n2 - 4 - 2 * i) = Some im2_b) as Him2_b' by (rewrite Hr by lia; done).
  assert (ld buf (n2 - 3 - 2 * i) = Some re2_b) as Hre2_b' by (rewrite Hr by lia; done).
  assert (ld buf (n2 - 2 - 2 * i) = Some im2_a) as Him2_a' by (rewrite Hr by lia; done).
  assert (ld buf (n2 - 1 - 2 * i) = Some re2_a) as Hre2_a' by (rewrite Hr by lia; done).
  unfold postrotate_vec_body, vld1q_f32, vld1_f32, vst1q_f32.
  ld_rewrite. simpl. do 8 (rewrite st_inb by inb_tac; simpl).
  eexists; split; [done|]. split; [|done].
  split; [simpl; lia|]. split; [simpl; lia|]. split; [simpl; lia|]. simpl.
  split; [by rewrite !length_upd|]. split.
  - intros k Hk.
    destruct (decide (k = i)) as [->|Hne]; [|destruct (decide (k = i + 1)) as [->|Hne']].
    + unfold post_low_yr, post_low_yi, post_high_yr, post_high_yi.
      ld_rewrite. simpl. repeat split; ld_upd_tac; done.
    + unfold post_low_yr, post_low_yi, post_high_yr, post_high_yi.
      ld_rewrite. simpl.
      destruct (decide (n2 - 4 - 2 * i = 2 * i + 2)) as [Hmid|Hmid].
      * assert (re2_b = re_b ∧ im2_b = im_b ∧ t0b_b = t0_b ∧ t1b_b = t1_b)
          as (-> & -> & -> & ->).
        { rewrite Hmid in Him2_b.
          replace (n2 - 3 - 2 * i) with (2 * i + 3) in Hre2_b by lia.
          replace (n4 - i - 2) with (i + 1) in Ht0b_b by lia.
          replace (n2 - i - 2) with (n4 + i + 1) in Ht1b_b by lia.
          repeat split; congruence. }
        repeat split; ld_upd_tac; done.
      * repeat split; ld_upd_tac; done.
    + destruct (Hw k) as (Ha & Hb & Hc & Hd); [lia|].
      rewrite <- Ha, <- Hb, <- Hc, <- Hd.
      repeat split; ld_upd_tac; done.
  - intros j Hj Hj'. rewrite <- Hr by lia. ld_upd_tac; done.
Qed.
End PostrotateFacts.

Section PostrotateResults.
Context {F : Type} `{FloatOps F}.
Variables (trig : list F) (n2 n4 : Z) (buf0 : list F).
Hypothesis Hvalid : postrotate_valid buf0 trig n2 n4.
Hypothesis Hn4 : 1 ≤ n4.

Let L : Z := postrotate_limit n4.
Let mu (s : post_state F) : nat := Z.to_nat (L - ps_i s).

Lemma postrotate_limit_pos : 1 ≤ L.
Proof. pose proof (postrotate_limit_spec n4). unfold L. lia. Qed.

Lemma postrotate_inv_init :
  postrotate_inv trig n2 n4 buf0 (PS 0 0 (n2 - 2) buf0).
Proof.
  pose proof postrotate_limit_pos.
  split; [simpl; fold L; lia|]. split; [done|]. split; [simpl; lia|]. simpl.
  split; [done|]. split; [intros; lia | done].
Qed.

Lemma postrotate_vec_loop s :
  postrotate_inv trig n2 n4 buf0 s →
  ∃ s', while_loop (Z.to_nat L) (λ s, bool_decide (ps_i s + 1 < L))
          (postrotate_vec_body trig n2 n4) s = Some s' ∧
        postrotate_inv trig n2 n4 buf0 s'.
Proof.
  intros Hs.
  destruct (while_loop_inv (postrotate_inv trig n2 n4 buf0) mu
              (λ s, bool_decide (ps_i s + 1 < L))
              (postrotate_vec_body trig n2 n4)) with (fuel := Z.to_nat L) (s := s)
    as (s' & Hl & Hs' & _); [| done | | eauto].
  - intros s1 Hi Hc. apply bool_decide_eq_true in Hc.
    destruct (postrotate_vec_step _ _ _ _ Hvalid s1 Hi Hc) as (s' & Hb & Hs' & Hf).
    exists s'. split; [done|]. split; [done|].
    unfold mu. rewrite Hf. destruct Hi as [Hi _]. lia.
  - unfold mu. destruct Hs as [Hi _]. lia.
Qed.

Lemma postrotate_scalar_loop s :
  postrotate_inv trig n2 n4 buf0 s →
  ∃ s', while_loop (Z.to_nat L) (λ s, bool_decide (ps_i s < L))
          (postrotate_scalar_body trig n2 n4) s = Some s' ∧
        postrotate_inv trig n2 n4 buf0 s' ∧ ps_i s' = L.
Proof.
  intros Hs.
  destruct (while_loop_inv (postrotate_inv trig n2 n4 buf0) mu
              (λ s, bool_decide (ps_i s < L))
              (postrotate_scalar_body trig n2 n4)) with (fuel := Z.to_nat L) (s := s)
    as (s' & Hl & Hs' & Hc).
  - intros s1 Hi Hc. apply bool_decide_eq_true in Hc.
    destruct (postrotate_scalar_step _ _ _ _ Hvalid s1 Hi Hc) as (s' & Hb & Hs' & Hf).
    exists s'. split; [done|]. split; [done|].
    unfold mu. rewrite Hf. destruct Hi as [Hi _]. lia.
  - done.
  - unfold mu. destruct Hs as [Hi _]. lia.
  - apply bool_decide_eq_false in Hc. exists s'. split; [done|]. split; [done|].
    destruct Hs' as [Hi _]. fold L in Hi. lia.
Qed.

Lemma postrotate_done_impl :
  ∃ buf', imdct_postrotate_f32 trig n2 n4 buf0 = Some buf' ∧
          postrotate_done trig n2 n4 buf0 L buf'.
Proof.
  pose proof postrotate_limit_pos.
  unfold imdct_postrotate_f32. fold L. rewrite decide_False by lia.
  destruct (postrotate_vec_loop _ postrotate_inv_init) as (s1 & -> & Hs1). simpl.
  destruct (postrotate_scalar_loop _ Hs1) as (s2 & -> & Hs2 & Hi). simpl.
  destruct Hs2 as (_ & _ & _ & Hd). rewrite Hi in Hd. eauto.
Qed.

Lemma postrotate_done_scalar :
  ∃ buf', imdct_postrotate_scalar trig n2 n4 buf0 = Some buf' ∧
          postrotate_done trig n2 n4 buf0 L buf'.
Proof.
  pose proof postrotate_limit_pos.
  unfold imdct_postrotate_scalar. fold L. rewrite decide_False by lia.
  destruct (postrotate_scalar_loop _ postrotate_inv_init) as (s2 & -> & Hs2 & Hi).
  simpl. destruct Hs2 as (_ & _ & _ & Hd). rewrite Hi in Hd. eauto.
Qed.

Lemma postrotate_done_iterations :
  ∃ buf', postrotate_paired_iterations trig n2 n4 buf0
            = Some (PS L (2 * L) (n2 - 2 - 2 * L) buf') ∧
          postrotate_done trig n2 n4 buf0 L buf'.
Proof.
  pose proof postrotate_limit_pos.
  unfold postrotate_paired_iterations. rewrite ceil_half_limit. fold L.
  destruct (iterate_inv
              (λ k s, postrotate_inv trig n2 n4 buf0 s ∧ ps_i s = Z.of_nat k)
              (postrotate_scalar_body trig n2 n4) (Z.to_nat L))
    with (s := PS 0 0 (n2 - 2) buf0) as ([i yp0 yp1 buf'] & Hit & Hs' & Hi).
  - intros k s Hk [Hs Hi].
    destruct (postrotate_scalar_step _ _ _ _ Hvalid s Hs) as (s' & Hb & Hs' & Hf);
      [fold L; lia|].
    exists s'. split; [done|]. split; [done|]. lia.
  - split; [apply postrotate_inv_init | done].
  - destruct Hs' as (_ & Hy0 & Hy1 & Hd). simpl in Hi, Hy0, Hy1, Hd.
    assert (i = L) as -> by lia. subst yp0 yp1. eauto.
Qed.

Lemma postrotate_impl_scalar :
  ∃ buf', imdct_postrotate_f32 trig n2 n4 buf0 = Some buf' ∧
          imdct_postrotate_scalar trig n2 n4 buf0 = Some buf'.
Proof.
  destruct postrotate_done_impl as (b1 & H1 & Hd1).
  destruct postrotate_done_scalar as (b2 & H2 & Hd2).
  exists b1. split; [done|]. rewrite H2. f_equal.
  by eapply postrotate_done_unique.
Qed.

Lemma postrotate_impl_iterations :
  ∃ buf', imdct_postrotate_f32 trig n2 n4 buf0 = Some buf' ∧
          postrotate_paired_iterations trig n2 n4 buf0
            = Some (PS L (2 * L) (n2 - 2 - 2 * L) buf') ∧
          postrotate_done trig n2 n4 buf0 L buf'.
Proof.
  destruct postrotate_done_impl as (b1 & H1 & Hd1).
  destruct postrotate_done_iterations as (b2 & H2 & Hd2).
  exists b1. split; [done|]. split; [|done]. rewrite H2. do 2 f_equal.
  by eapply postrotate_done_unique.
Qed.
End PostrotateResults.

(** ** The arithmetic of the butterflies *)

(** Unfolds the intrinsics down to the operations on lanes. *)
Ltac neon :=
  cbv [vdup_n_f32 vset_lane_f32 vdup_lane_f32 vadd_f32 vsub_f32 vmul_f32 vneg_f32
       vmla_f32 vaddq_f32 vsubq_f32 vmulq_f32 vrev64_f32 vrev64q_f32 vget_low_f32
       vget_high_f32 vcombine_f32 vzip_f32 vuzp1q_f32 vuzp2q_f32 vextq_f32_2 veor_sign
       d0 d1 q0 q1 q2 q3 fst snd];
  simpl.

(** A sample as a two-lane register, the way [vld1_f32] reads it. *)
Definition lanes {F : Type} (c : kissCpx F) : float32x2_t F := V2 (cpx_r c) (cpx_i c).

Section ArithFacts.
Context {F : Type} `{FloatLaws F}.
Implicit Types (x y : F) (a b : kissCpx F).

Lemma fmul_mone_r x : fmul x (fneg f_one) = fneg x.
Proof. by rewrite fmul_comm, fmul_neg_l, fmul_comm, fmul_one_r. Qed.

Lemma fsub_neg_r x y : fsub x (fneg y) = fadd x y.
Proof. by rewrite fsub_fadd_neg, fneg_involutive. Qed.

Lemma fadd_neg_r x y : fadd x (fneg y) = fsub x y.
Proof. by rewrite fsub_fadd_neg. Qed.

Lemma cmul2_c_mul a b : cmul2 (lanes a) (lanes b) = lanes (c_mul a b).
Proof.
  unfold cmul2, c_mul, lanes. neon.
  rewrite fmul_mone_r, fmul_one_r, fadd_neg_r.
  by rewrite (fadd_comm (fmul (cpx_i a) _)).
Qed.

(** The radix-3 kernel computes the butterfly of section 4.3. *)
Lemma kf_bfly3_m1_arith_radix3 (epi : F) (f0 f1 f2 : kissCpx F) :
  kf_bfly3_m1_arith (vdup_n_f32 epi) (vdup_n_f32 f_half) (V2 f_one (fneg f_one))
      (lanes f0) (lanes f1) (lanes f2)
  = let '(o0, o1, o2) := radix3 epi f0 f1 f2 in (lanes o0, lanes o1, lanes o2).
Proof.
  unfold kf_bfly3_m1_arith, radix3, c_add, c_sub, c_scale_l, c_scale_r, rot_pos, lanes. neon.
  rewrite !fmul_mone_r, !fmul_one_r, !fmul_neg_l, !(fmul_comm _ f_half). done.
Qed.

(** One position of the general radix-4 kernel: the three products, then
    the butterfly of section 4.4. *)
Lemma kf_bfly4_mx_position_radix4 (a0 a1 a2 a3 t1 t2 t3 : kissCpx F) :
  kf_bfly4_mx_position (lanes a0) (lanes a1) (lanes a2) (lanes a3)
      (lanes t1) (lanes t2) (lanes t3)
  = let '(o0, o1, o2, o3) := radix4 a0 (c_mul a1 t1) (c_mul a2 t2) (c_mul a3 t3) in
    (lanes o0, lanes o1, lanes o2, lanes o3).
Proof.
  unfold kf_bfly4_mx_position. rewrite !cmul2_c_mul.
  unfold radix4, c_add, c_sub, rot_pos, rot_neg, lanes, cadd2, csub2. neon.
  rewrite !fmul_mone_r, !fmul_one_r, !fsub_neg_r, !fadd_neg_r. done.
Qed.

Lemma radix5_centre x y ya yb f :
  fadd (fadd (fmul x ya) (fmul y yb)) f = fadd f (fadd (fmul ya x) (fmul yb y)).
Proof. by rewrite fadd_comm, (fmul_comm x), (fmul_comm y). Qed.

(** The radix-5 kernel computes the butterfly of section 4.6. *)
Lemma kf_bfly5_m1_arith_radix5 (ya yb f0 f1 f2 f3 f4 : kissCpx F) :
  kf_bfly5_m1_arith (vdup_n_f32 (cpx_r ya)) (vdup_n_f32 (cpx_r yb))
      (vdup_n_f32 (cpx_i ya)) (vdup_n_f32 (cpx_i yb)) (V2 f_one (fneg f_one))
      (lanes f0) (lanes f1) (lanes f2) (lanes f3) (lanes f4)
  = let '(o0, o1, o2, o3, o4) := radix5 ya yb f0 f1 f2 f3 f4 in
    (lanes o0, lanes o1, lanes o2, lanes o3, lanes o4).
Proof.
  unfold kf_bfly5_m1_arith, radix5, c_add, c_sub, c_scale_l, c_scale_r, c_swap, lanes. neon.
  rewrite !radix5_centre, !fmul_mone_r, !fmul_one_r, !fmul_neg_l, !fadd_neg_r. done.
Qed.
End ArithFacts.

Section ArithExact.
Context {F : Type} `{FloatOps F}.

(** The unit-multiplicity radix-4 kernel computes the butterfly of section
    4.4 with the very operations of the specification. *)
Lemma kf_bfly4_m1_arith_radix4 (f0 f1 f2 f3 : kissCpx F) :
  kf_bfly4_m1_arith (vcombine_f32 (lanes f0) (lanes f1)) (vcombine_f32 (lanes f2) (lanes f3))
  = let '(o0, o1, o2, o3) := radix4 f0 f1 f2 f3 in
    (vcombine_f32 (lanes o0) (lanes o1), vcombine_f32 (lanes o2) (lanes o3)).
Proof. reflexivity. Qed.

(** The fast path's arithmetic on a pair of positions is, lane for lane,
    the arithmetic of one position on each of them. *)
Lemma kf_bfly4_mx_pair_arith_positions
    (a0 a1 a2 a3 t1 t2 t3 b0 b1 b2 b3 u1 u2 u3 : float32x2_t F) :
  kf_bfly4_mx_pair_arith (V4 (fneg f_one) f_one (fneg f_one) f_one)
      (vcombine_f32 a0 b0) (vcombine_f32 a1 b1) (vcombine_f32 a2 b2)
      (vcombine_f32 a3 b3) (vcombine_f32 t1 u1) (vcombine_f32 t2 u2)
      (vcombine_f32 t3 u3)
  = let '(x0, x1, x2, x3) := kf_bfly4_mx_position a0 a1 a2 a3 t1 t2 t3 in
    let '(y0, y1, y2, y3) := kf_bfly4_mx_position b0 b1 b2 b3 u1 u2 u3 in
    (vcombine_f32 x0 y0, vcombine_f32 x1 y1, vcombine_f32 x2 y2, vcombine_f32 x3 y3).
Proof. reflexivity. Qed.
End ArithExact.

(** From here on the arithmetic of a kernel is used through these lemmas. *)
#[global] Opaque kf_bfly3_m1_arith kf_bfly4_m1_arith kf_bfly4_mx_position
  kf_bfly4_mx_pair_arith kf_bfly5_m1_arith.

(** ** Loops over disjoint groups of cells *)

(** Every butterfly kernel is a loop whose iteration [g] rewrites the cells
    of group [g] from their own former values.  When the groups are
    disjoint, a loop that is specified one iteration at a time is specified
    from the buffer it started with. *)
Section GroupLoop.
Context {A S : Type}.
Variables (n : Z) (cells : Z → Z → Prop) (R : Z → list A → list A → Prop).
Variables (idx : S → Z) (mem : S → list A) (J : S → Prop).
Variable (buf0 : list A).

Hypothesis Hdisj : ∀ g g' c,
  0 ≤ g < n → 0 ≤ g' < n → g ≠ g' → cells g c → cells g' c → False.
Hypothesis Hlocal : ∀ g bin bin' bout bout',
  (∀ c, cells g c → ld bin c = ld bin' c) →
  (∀ c, cells g c → ld bout c = ld bout' c) →
  R g bin bout → R g bin' bout'.

(** The groups below [i] are done. *)
Definition groups_done (i : Z) (buf : list A) : Prop :=
  length buf = length buf0 ∧
  (∀ g, 0 ≤ g < i → R g buf0 buf) ∧
  (∀ c, (∀ g, 0 ≤ g < i → ¬ cells g c) → ld buf c = ld buf0 c).

Definition groups_inv (s : S) : Prop :=
  J s ∧ 0 ≤ idx s ≤ n ∧ groups_done (idx s) (mem s).

(** What one execution of the body does, for the groups it covers. *)
Definition groups_step (body : S → option S) (s : S) : Prop :=
  ∃ s', body s = Some s' ∧ J s' ∧ idx s < idx s' ≤ n ∧
        length (mem s') = length (mem s) ∧
        (∀ c, (∀ g, idx s ≤ g < idx s' → ¬ cells g c) → ld (mem s') c = ld (mem s) c) ∧
        (∀ g, idx s ≤ g < idx s' → R g (mem s) (mem s')).

Lemma groups_step_inv body s :
  groups_inv s → groups_step body s →
  ∃ s', body s = Some s' ∧ groups_inv s' ∧ idx s < idx s'.
Proof using Hdisj Hlocal.
  intros (HJ & Hi & Hlen & Hdone & Hframe) (s' & Hb & HJ' & Hi' & Hlen' & Hframe' & HR).
  exists s'. split; [done|]. split; [|lia].
  split; [done|]. split; [lia|]. split; [congruence|]. split.
  - intros g Hg. destruct (decide (g < idx s)) as [Hlt|Hge].
    + apply (Hlocal g buf0 buf0 (mem s) (mem s')); [done| |apply Hdone; lia].
      intros c Hc. symmetry. apply Hframe'. intros g' Hg' Hc'.
      apply (Hdisj g g' c); (done || lia).
    + apply (Hlocal g (mem s) buf0 (mem s') (mem s')); [|done|apply HR; lia].
      intros c Hc. apply Hframe. intros g' Hg' Hc'.
      apply (Hdisj g g' c); (done || lia).
  - intros c Hc. rewrite Hframe'; [apply Hframe|]; intros g Hg; apply Hc; lia.
Qed.

Lemma groups_loop (cond : S → bool) body (fuel : nat) s :
  (∀ s, groups_inv s → cond s = true → groups_step body s) →
  groups_inv s → (Z.to_nat (n - idx s) ≤ fuel)%nat →
  ∃ s', while_loop fuel cond body s = Some s' ∧ groups_inv s' ∧ cond s' = false.
Proof using Hdisj Hlocal.
  intros Hbody Hs Hfuel.
  apply (while_loop_inv groups_inv (λ s, Z.to_nat (n - idx s))); [|done|done].
  intros s1 Hs1 Hc.
  destruct (groups_step_inv body s1 Hs1 (Hbody s1 Hs1 Hc)) as (s' & Hb & Hs' & Hlt).
  exists s'. split; [done|]. split; [done|].
  destruct Hs1 as (_ & Hi & _). destruct Hs' as (_ & Hi' & _). lia.
Qed.

Lemma groups_done_init : groups_done 0 buf0.
Proof. split; [done|]. split; [intros; lia | done]. Qed.

(** When the relation fixes the cells of its group, the result is unique. *)
Lemma groups_done_unique buf buf' :
  (∀ g bin bout bout' c, R g bin bout → R g bin bout' → cells g c → ld bout c = ld bout' c) →
  (∀ c, (∃ g, 0 ≤ g < n ∧ cells g c) ∨ (∀ g, 0 ≤ g < n → ¬ cells g c)) →
  groups_done n buf → groups_done n buf' → buf = buf'.
Proof.
  intros Hdet Hdec (_ & Hd1 & Hf1) (_ & Hd2 & Hf2). apply ld_ext. intros c.
  destruct (Hdec c) as [(g & Hg & Hc) | Hc].
  - eapply Hdet; [apply Hd1 | apply Hd2 |]; done.
  - by rewrite Hf1, Hf2.
Qed.
End GroupLoop.

Lemma group_base_bound (i n mm : Z) : 0 ≤ i < n → 0 ≤ mm → 0 ≤ i * mm ≤ (n - 1) * mm.
Proof. intros. nia. Qed.

Lemma group_sep (g g' mm w : Z) : 0 ≤ mm → w ≤ mm → g < g' → g * mm + w ≤ g' * mm.
Proof. intros. nia. Qed.

Lemma interval_cells_disjoint (n mm w : Z) :
  0 ≤ mm → n ≤ 1 ∨ w ≤ mm →
  ∀ g g' c, 0 ≤ g < n → 0 ≤ g' < n → g ≠ g' →
            interval_cells mm w g c → interval_cells mm w g' c → False.
Proof.
  unfold interval_cells. intros Hmm [Hn | Hw] g g' c Hg Hg' Hne Hc Hc'; [lia|].
  destruct (decide (g < g')).
  - pose proof (group_sep g g' mm w). lia.
  - pose proof (group_sep g' g mm w). lia.
Qed.

(** ** The radix-3 butterfly *)

Section Bfly3Facts.
Context {F : Type} `{FloatLaws F}.
Variables (tw : list (kissCpx F)) (fstride n mm : Z) (fout0 : list (kissCpx F)).
Variable (t : kissCpx F).
Hypothesis Hvalid : groups_valid fout0 n mm 3.

(** Group [g] of [bout] is the butterfly of group [g] of [bin]. *)
Definition bfly3_group (g : Z) (bin bout : list (kissCpx F)) : Prop :=
  ∃ f0 f1 f2,
    ld bin (g * mm) = Some f0 ∧ ld bin (g * mm + 1) = Some f1 ∧
    ld bin (g * mm + 2) = Some f2 ∧
    let '(o0, o1, o2) := radix3 (cpx_i t) f0 f1 f2 in
    ld bout (g * mm) = Some o0 ∧ ld bout (g * mm + 1) = Some o1 ∧
    ld bout (g * mm + 2) = Some o2.

Lemma bfly3_group_local g bin bin' bout bout' :
  (∀ c, interval_cells mm 3 g c → ld bin c = ld bin' c) →
  (∀ c, interval_cells mm 3 g c → ld bout c = ld bout' c) →
  bfly3_group g bin bout → bfly3_group g bin' bout'.
Proof.
  unfold interval_cells. intros Hi Ho (f0 & f1 & f2 & Hl0 & Hl1 & Hl2 & Hout).
  exists f0, f1, f2. rewrite <- !Hi, <- !Ho by lia. done.
Qed.

Lemma kf_bfly3_m1_step s :
  groups_inv n (interval_cells mm 3) bfly3_group fst snd (λ _, True) fout0 s →
  fst s < n →
  groups_step n (interval_cells mm 3) bfly3_group fst snd (λ _, True)
    (kf_bfly3_m1_body mm (vdup_n_f32 (cpx_i t)) (vdup_n_f32 f_half)
       (V2 f_one (fneg f_one))) s.
Proof.
  destruct Hvalid as (Hmm & Hsep & Hlen0).
  destruct s as [i buf]. intros (_ & Hi & Hlen & _) Hlt. simpl in Hi, Hlen, Hlt.
  pose proof (group_base_bound i n mm).
  destruct (ld_inb buf (i * mm)) as [f0 Hf0]; [inb_tac|].
  destruct (ld_inb buf (i * mm + 1)) as [f1 Hf1]; [inb_tac|].
  destruct (ld_inb buf (i * mm + 2)) as [f2 Hf2]; [inb_tac|].
  unfold groups_step, kf_bfly3_m1_body, vld1_cpx, vst1_cpx. ld_rewrite. simpl.
  change (V2 (cpx_r ?c) (cpx_i ?c)) with (lanes c).
  rewrite kf_bfly3_m1_arith_radix3. unfold radix3. simpl.
  do 3 (rewrite st_inb by inb_tac; simpl).
  eexists. split; [done|]. simpl. split; [done|]. split; [lia|].
  split; [by rewrite !length_upd|]. split.
  - intros c Hc. specialize (Hc i). unfold interval_cells in Hc.
    ld_upd_tac; done.
  - intros g Hg. assert (g = i) as -> by lia.
    exists f0, f1, f2. unfold radix3. ld_rewrite.
    repeat split; ld_upd_tac; done.
Qed.

Lemma kf_bfly3_m1_done :
  1 ≤ n → ld tw fstride = Some t →
  ∃ fout', kf_bfly3_m1 tw fstride n mm fout0 = Some fout' ∧
           groups_done (interval_cells mm 3) bfly3_group fout0 n fout'.
Proof.
  intros Hn Ht. unfold kf_bfly3_m1. rewrite decide_False by lia. rewrite Ht. simpl.
  destruct Hvalid as (Hmm & Hsep & _).
  destruct (groups_loop n (interval_cells mm 3) bfly3_group fst snd (λ _, True) fout0
              (interval_cells_disjoint n mm 3 Hmm Hsep) bfly3_group_local
              (λ s, bool_decide (fst s < n))
              (kf_bfly3_m1_body mm (vdup_n_f32 (cpx_i t)) (vdup_n_f32 f_half)
                 (V2 f_one (fneg f_one)))
              (Z.to_nat n) (0, fout0))
    as ([i fout'] & -> & (_ & Hi & Hd) & Hc).
  - intros s Hs Hc. apply bool_decide_eq_true in Hc. by apply kf_bfly3_m1_step.
  - split; [done|]. split; [simpl; lia|]. apply groups_done_init.
  - simpl. lia.
  - apply bool_decide_eq_false in Hc. simpl in Hi, Hd, Hc.
    assert (i = n) as -> by lia. simpl. eauto.
Qed.
End Bfly3Facts.

(** ** The radix-5 butterfly *)

Section Bfly5Facts.
Context {F : Type} `{FloatLaws F}.
Variables (tw : list (kissCpx F)) (fstride n mm : Z) (fout0 : list (kissCpx F)).
Variables (ya yb : kissCpx F).
Hypothesis Hvalid : groups_valid fout0 n mm 5.

(** Group [g] of [bout] is the butterfly of group [g] of [bin]. *)
Definition bfly5_group (g : Z) (bin bout : list (kissCpx F)) : Prop :=
  ∃ f0 f1 f2 f3 f4,
    ld bin (g * mm) = Some f0 ∧ ld bin (g * mm + 1) = Some f1 ∧
    ld bin (g * mm + 2) = Some f2 ∧ ld bin (g * mm + 3) = Some f3 ∧
    ld bin (g * mm + 4) = Some f4 ∧
    let '(o0, o1, o2, o3, o4) := radix5 ya yb f0 f1 f2 f3 f4 in
    ld bout (g * mm) = Some o0 ∧ ld bout (g * mm + 1) = Some o1 ∧
    ld bout (g * mm + 2) = Some o2 ∧ ld bout (g * mm + 3) = Some o3 ∧
    ld bout (g * mm + 4) = Some o4.

Lemma bfly5_group_local g bin bin' bout bout' :
  (∀ c, interval_cells mm 5 g c → ld bin c = ld bin' c) →
  (∀ c, interval_cells mm 5 g c → ld bout c = ld bout' c) →
  bfly5_group g bin bout → bfly5_group g bin' bout'.
Proof.
  unfold interval_cells. intros Hi Ho (f0 & f1 & f2 & f3 & f4 & Hl).
  exists f0, f1, f2, f3, f4. rewrite <- !Hi, <- !Ho by lia. done.
Qed.

Let body := kf_bfly5_m1_body mm (vdup_n_f32 (cpx_r ya)) (vdup_n_f32 (cpx_r yb))
              (vdup_n_f32 (cpx_i ya)) (vdup_n_f32 (cpx_i yb)) (V2 f_one (fneg f_one)).

Lemma kf_bfly5_m1_step s :
  groups_inv n (interval_cells mm 5) bfly5_group fst snd (λ _, True) fout0 s →
  fst s < n →
  groups_step n (interval_cells mm 5) bfly5_group fst snd (λ _, True) body s.
Proof.
  destruct Hvalid as (Hmm & Hsep & Hlen0).
  destruct s as [i buf]. intros (_ & Hi & Hlen & _) Hlt. simpl in Hi, Hlen, Hlt.
  pose proof (group_base_bound i n mm).
  destruct (ld_inb buf (i * mm)) as [f0 Hf0]; [inb_tac|].
  destruct (ld_inb buf (i * mm + 1)) as [f1 Hf1]; [inb_tac|].
  destruct (ld_inb buf (i * mm + 2)) as [f2 Hf2]; [inb_tac|].
  destruct (ld_inb buf (i * mm + 3)) as [f3 Hf3]; [inb_tac|].
  destruct (ld_inb buf (i * mm + 4)) as [f4 Hf4]; [inb_tac|].
  unfold groups_step, body, kf_bfly5_m1_body, vld1_cpx, vst1_cpx. ld_rewrite. simpl.
  change (V2 (cpx_r ?c) (cpx_i ?c)) with (lanes c).
  rewrite kf_bfly5_m1_arith_radix5. unfold radix5. simpl.
  do 5 (rewrite st_inb by inb_tac; simpl).
  eexists. split; [done|]. simpl. split; [done|]. split; [lia|].
  split; [by rewrite !length_upd|]. split.
  - intros c Hc. specialize (Hc i). unfold interval_cells in Hc.
    ld_upd_tac; done.
  - intros g Hg. assert (g = i) as -> by lia.
    exists f0, f1, f2, f3, f4. unfold radix5. ld_rewrite.
    repeat split; ld_upd_tac; done.
Qed.

Lemma kf_bfly5_m1_done :
  1 ≤ n → ld tw fstride = Some ya → ld tw (2 * fstride) = Some yb →
  ∃ fout', kf_bfly5_m1 tw fstride n mm fout0 = Some fout' ∧
           groups_done (interval_cells mm 5) bfly5_group fout0 n fout'.
Proof.
  intros Hn Hya Hyb. unfold kf_bfly5_m1. rewrite decide_False by lia.
  rewrite Hya, Hyb. simpl. fold body.
  destruct Hvalid as (Hmm & Hsep & _).
  destruct (groups_loop n (interval_cells mm 5) bfly5_group fst snd (λ _, True) fout0
              (interval_cells_disjoint n mm 5 Hmm Hsep) bfly5_group_local
              (λ s, bool_decide (fst s < n)) body (Z.to_nat n) (0, fout0))
    as ([i fout'] & -> & (_ & Hi & Hd) & Hc).
  - intros s Hs Hc. apply bool_decide_eq_true in Hc. by apply kf_bfly5_m1_step.
  - split; [done|]. split; [simpl; lia|]. apply groups_done_init.
  - simpl. lia.
  - apply bool_decide_eq_false in Hc. simpl in Hi, Hd, Hc.
    assert (i = n) as -> by lia. simpl. eauto.
Qed.
End Bfly5Facts.

(** ** The radix-4 butterfly, unit multiplicity *)

Section Bfly4M1Facts.
Context {F : Type} `{FloatOps F}.
Variables (n : Z) (fout0 : list (kissCpx F)).
Hypothesis Hvalid : 4 * n ≤ Z.of_nat (length fout0).

Definition bfly4_m1_group (g : Z) (bin bout : list (kissCpx F)) : Prop :=
  ∃ f0 f1 f2 f3,
    ld bin (4 * g) = Some f0 ∧ ld bin (4 * g + 1) = Some f1 ∧
    ld bin (4 * g + 2) = Some f2 ∧ ld bin (4 * g + 3) = Some f3 ∧
    let '(o0, o1, o2, o3) := radix4 f0 f1 f2 f3 in
    ld bout (4 * g) = Some o0 ∧ ld bout (4 * g + 1) = Some o1 ∧
    ld bout (4 * g + 2) = Some o2 ∧ ld bout (4 * g + 3) = Some o3.

Definition bfly4_m1_cells (g c : Z) : Prop := 4 * g ≤ c < 4 * g + 4.

(** The pointer has moved by four samples per group. *)
Definition bfly4_m1_ptr (s : Z * Z * list (kissCpx F)) : Prop :=
  snd (fst s) = 4 * fst (fst s).

Lemma bfly4_m1_group_local g bin bin' bout bout' :
  (∀ c, bfly4_m1_cells g c → ld bin c = ld bin' c) →
  (∀ c, bfly4_m1_cells g c → ld bout c = ld bout' c) →
  bfly4_m1_group g bin bout → bfly4_m1_group g bin' bout'.
Proof.
  unfold bfly4_m1_cells. intros Hi Ho (f0 & f1 & f2 & f3 & Hl).
  exists f0, f1, f2, f3. rewrite <- !Hi, <- !Ho by lia. done.
Qed.

Lemma bfly4_m1_cells_disjoint g g' c :
  0 ≤ g < n → 0 ≤ g' < n → g ≠ g' → bfly4_m1_cells g c → bfly4_m1_cells g' c → False.
Proof. unfold bfly4_m1_cells. lia. Qed.

Lemma kf_bfly4_m1_step s :
  groups_inv n bfly4_m1_cells bfly4_m1_group (λ s, fst (fst s)) snd bfly4_m1_ptr fout0 s →
  fst (fst s) < n →
  groups_step n bfly4_m1_cells bfly4_m1_group (λ s, fst (fst s)) snd bfly4_m1_ptr
    kf_bfly4_m1_body s.
Proof.
  destruct s as [[i p] buf]. intros (Hp & Hi & Hlen & _) Hlt.
  unfold bfly4_m1_ptr in Hp. simpl in Hp, Hi, Hlen, Hlt. subst p.
  destruct (ld_inb buf (4 * i)) as [f0 Hf0]; [inb_tac|].
  destruct (ld_inb buf (4 * i + 1)) as [f1 Hf1]; [inb_tac|].
  destruct (ld_inb buf (4 * i + 2)) as [f2 Hf2]; [inb_tac|].
  destruct (ld_inb buf (4 * i + 3)) as [f3 Hf3]; [inb_tac|].
  unfold groups_step, kf_bfly4_m1_body, vld1q_cpx, vst1q_cpx. ld_rewrite. simpl.
  change (V4 (cpx_r ?a) (cpx_i ?a) (cpx_r ?b) (cpx_i ?b))
    with (vcombine_f32 (lanes a) (lanes b)).
  rewrite kf_bfly4_m1_arith_radix4. unfold radix4. simpl.
  do 4 (rewrite st_inb by inb_tac; simpl).
  eexists. split; [done|]. simpl. split; [unfold bfly4_m1_ptr; simpl; lia|].
  split; [lia|]. split; [by rewrite !length_upd|]. split.
  - intros c Hc. specialize (Hc i). unfold bfly4_m1_cells in Hc.
    ld_upd_tac; done.
  - intros g Hg. assert (g = i) as -> by lia.
    exists f0, f1, f2, f3. unfold radix4. ld_rewrite.
    repeat split; ld_upd_tac; done.
Qed.

Lemma kf_bfly4_m1_done :
  0 ≤ n →
  ∃ fout', kf_bfly4_m1 n fout0 = Some fout' ∧
           groups_done bfly4_m1_cells bfly4_m1_group fout0 n fout'.
Proof.
  intros Hn. unfold kf_bfly4_m1.
  destruct (groups_loop n bfly4_m1_cells bfly4_m1_group (λ s, fst (fst s)) snd
              bfly4_m1_ptr fout0 bfly4_m1_cells_disjoint bfly4_m1_group_local
              (λ s, bool_decide (fst (fst s) < n)) kf_bfly4_m1_body
              (Z.to_nat n) (0, 0, fout0))
    as ([[i p] fout'] & -> & (_ & Hi & Hd) & Hc).
  - intros s Hs Hc. apply bool_decide_eq_true in Hc. by apply kf_bfly4_m1_step.
  - split; [done|]. split; [simpl; lia|]. apply groups_done_init.
  - simpl. lia.
  - apply bool_decide_eq_false in Hc. simpl in Hi, Hd, Hc.
    assert (i = n) as -> by lia. simpl. eauto.
Qed.
End Bfly4M1Facts.

(** ** The radix-4 butterfly, general multiplicity: one group *)

(** A two-lane register as a sample, the way [vst1_f32] writes it. *)
Definition cpx_of {F : Type} (v : float32x2_t F) : kissCpx F := Cpx (d0 v) (d1 v).

Section Bfly4MxGroup.
Context {F : Type} `{FloatOps F}.
Variables (tw : list (kissCpx F)) (m inc1 inc2 inc3 base : Z).
Variable (bin : list (kissCpx F)).
Hypothesis Hbase : 0 ≤ base.
Hypothesis Hbound : base + 4 * m ≤ Z.of_nat (length bin).
Hypothesis Htw : ∀ j, 0 ≤ j < m →
  inb tw (j * inc1) ∧ inb tw (j * inc2) ∧ inb tw (j * inc3).

(** The four cells of position [j]. *)
Definition mx_cells (j c : Z) : Prop :=
  c = base + j ∨ c = base + j + m ∨ c = base + j + 2 * m ∨ c = base + j + 3 * m.

(** Position [j] of [bo] is what the kernel computes from position [j] of
    [bi] and the twiddles [j * inc1], [j * inc2], [j * inc3]. *)
Definition mx_position (j : Z) (bi bo : list (kissCpx F)) : Prop :=
  ∃ a0 a1 a2 a3 t1 t2 t3,
    ld bi (base + j) = Some a0 ∧ ld bi (base + j + m) = Some a1 ∧
    ld bi (base + j + 2 * m) = Some a2 ∧ ld bi (base + j + 3 * m) = Some a3 ∧
    ld tw (j * inc1) = Some t1 ∧ ld tw (j * inc2) = Some t2 ∧
    ld tw (j * inc3) = Some t3 ∧
    let '(o0, o1, o2, o3) :=
      kf_bfly4_mx_position (lanes a0) (lanes a1) (lanes a2) (lanes a3)
        (lanes t1) (lanes t2) (lanes t3) in
    ld bo (base + j) = Some (cpx_of o0) ∧ ld bo (base + j + m) = Some (cpx_of o1) ∧
    ld bo (base + j + 2 * m) = Some (cpx_of o2) ∧
    ld bo (base + j + 3 * m) = Some (cpx_of o3).

(** The locals of the inner loop at position [j]. *)
Definition mx_locals (s : mx_state F) : Prop :=
  mx_f s = base + mx_j s ∧ mx_tw1 s = mx_j s * inc1 ∧
  mx_tw2 s = mx_j s * inc2 ∧ mx_tw3 s = mx_j s * inc3.

Lemma mx_cells_disjoint j j' c :
  0 ≤ j < m → 0 ≤ j' < m → j ≠ j' → mx_cells j c → mx_cells j' c → False.
Proof using Type. clear Hbase Hbound Htw. unfold mx_cells. lia. Qed.

Lemma mx_cells_dec c :
  (∃ j, 0 ≤ j < m ∧ mx_cells j c) ∨ (∀ j, 0 ≤ j < m → ¬ mx_cells j c).
Proof using Type.
  clear Hbase Hbound Htw.
  unfold mx_cells.
  destruct (decide (base ≤ c < base + m)); [left; exists (c - base); lia|].
  destruct (decide (base + m ≤ c < base + 2 * m)); [left; exists (c - base - m); lia|].
  destruct (decide (base + 2 * m ≤ c < base + 3 * m));
    [left; exists (c - base - 2 * m); lia|].
  destruct (decide (base + 3 * m ≤ c < base + 4 * m));
    [left; exists (c - base - 3 * m); lia|].
  right. lia.
Qed.

Lemma mx_position_local j bi bi' bo bo' :
  (∀ c, mx_cells j c → ld bi c = ld bi' c) →
  (∀ c, mx_cells j c → ld bo c = ld bo' c) →
  mx_position j bi bo → mx_position j bi' bo'.
Proof using Type.
  clear Hbase Hbound Htw.
  unfold mx_cells. intros Hi Ho (a0 & a1 & a2 & a3 & t1 & t2 & t3 & Hl).
  exists a0, a1, a2, a3, t1, t2, t3. rewrite <- !Hi, <- !Ho by lia. done.
Qed.

Lemma mx_position_det j bi bo bo' c :
  mx_position j bi bo → mx_position j bi bo' → mx_cells j c → ld bo c = ld bo' c.
Proof using Type.
  clear Hbase Hbound Htw.
  intros (a0 & a1 & a2 & a3 & t1 & t2 & t3 & H0 & H1 & H2 & H3 & H4 & H5 & H6 & Ho)
         (b0 & b1 & b2 & b3 & u1 & u2 & u3 & G0 & G1 & G2 & G3 & G4 & G5 & G6 & Go).
  simplify_eq. destruct (kf_bfly4_mx_position _ _ _ _ _ _ _) as [[[o0 o1] o2] o3].
  destruct Ho as (? & ? & ? & ?), Go as (? & ? & ? & ?).
  intros [-> | [-> | [-> | ->]]]; congruence.
Qed.

Lemma kf_bfly4_mx_scalar_step s :
  groups_inv m mx_cells mx_position mx_j mx_mem mx_locals bin s →
  mx_j s < m →
  groups_step m mx_cells mx_position mx_j mx_mem mx_locals
    (kf_bfly4_mx_scalar_body tw m inc1 inc2 inc3) s.
Proof.
  destruct s as [j tw1 tw2 tw3 f buf].
  intros ((Hf & Ht1 & Ht2 & Ht3) & Hj & Hlen & _) Hlt.
  simpl in Hf, Ht1, Ht2, Ht3, Hj, Hlen, Hlt. subst f tw1 tw2 tw3.
  destruct (Htw j) as (Hi1 & Hi2 & Hi3); [lia|].
  destruct (ld_inb buf (base + j)) as [a0 Ha0]; [inb_tac|].
  destruct (ld_inb buf (base + j + m)) as [a1 Ha1]; [inb_tac|].
  destruct (ld_inb buf (base + j + 2 * m)) as [a2 Ha2]; [inb_tac|].
  destruct (ld_inb buf (base + j + 3 * m)) as [a3 Ha3]; [inb_tac|].
  destruct (ld_inb tw (j * inc1)) as [t1 Ht1]; [done|].
  destruct (ld_inb tw (j * inc2)) as [t2 Ht2]; [done|].
  destruct (ld_inb tw (j * inc3)) as [t3 Ht3]; [done|].
  unfold groups_step, kf_bfly4_mx_scalar_body, vld1_cpx, vst1_cpx. ld_rewrite. simpl.
  change (V2 (cpx_r ?c) (cpx_i ?c)) with (lanes c).
  destruct (kf_bfly4_mx_position _ _ _ _ _ _ _) as [[[o0 o1] o2] o3] eqn:Epos.
  do 4 (rewrite st_inb by inb_tac; simpl).
  eexists. split; [done|]. simpl. split; [unfold mx_locals; simpl; lia|].
  split; [lia|]. split; [by rewrite !length_upd|]. split.
  - intros c Hc. specialize (Hc j). unfold mx_cells in Hc.
    ld_upd_tac; done.
  - intros g Hg. assert (g = j) as -> by lia.
    exists a0, a1, a2, a3, t1, t2, t3. rewrite Epos. unfold cpx_of. ld_rewrite.
    repeat split; ld_upd_tac; done.
Qed.

End Bfly4MxGroup.

(** The pair loop of the fast path: two positions per iteration. *)
Section Bfly4MxPair.
Context {F : Type} `{FloatOps F}.
Variables (tw : list (kissCpx F)) (m base : Z).
Variable (bin : list (kissCpx F)).
Hypothesis Hbase : 0 ≤ base.
Hypothesis Hbound : base + 4 * m ≤ Z.of_nat (length bin).
Hypothesis Htw : ∀ j, 0 ≤ j < m →
  inb tw (j * 1) ∧ inb tw (j * 2) ∧ inb tw (j * 3).

Lemma kf_bfly4_mx_pair_step s :
  groups_inv m (mx_cells m base) (mx_position tw m 1 2 3 base) mx_j mx_mem
    (mx_locals 1 2 3 base) bin s →
  mx_j s + 1 < m →
  groups_step m (mx_cells m base) (mx_position tw m 1 2 3 base) mx_j mx_mem
    (mx_locals 1 2 3 base)
    (kf_bfly4_mx_pair_body tw m (V4 (fneg f_one) f_one (fneg f_one) f_one)) s.
Proof.
  destruct s as [j tw1 tw2 tw3 f buf].
  intros ((Hf & Ht1 & Ht2 & Ht3) & Hj & Hlen & _) Hlt.
  simpl in Hf, Ht1, Ht2, Ht3, Hj, Hlen, Hlt. subst f tw1 tw2 tw3.
  destruct (Htw j) as (Hi1 & Hi2 & Hi3); [lia|].
  destruct (Htw (j + 1)) as (Hk1 & Hk2 & Hk3); [lia|].
  destruct (ld_inb buf (base + j)) as [a0 Ha0]; [inb_tac|].
  destruct (ld_inb buf (base + j + m)) as [a1 Ha1]; [inb_tac|].
  destruct (ld_inb buf (base + j + 2 * m)) as [a2 Ha2]; [inb_tac|].
  destruct (ld_inb buf (base + j + 3 * m)) as [a3 Ha3]; [inb_tac|].
  destruct (ld_inb buf (base + (j + 1))) as [b0 Hb0]; [inb_tac|].
  destruct (ld_inb buf (base + (j + 1) + m)) as [b1 Hb1]; [inb_tac|].
  destruct (ld_inb buf (base + (j + 1) + 2 * m)) as [b2 Hb2]; [inb_tac|].
  destruct (ld_inb buf (base + (j + 1) + 3 * m)) as [b3 Hb3]; [inb_tac|].
  destruct (ld_inb tw (j * 1)) as [t1 Ht1]; [done|].
  destruct (ld_inb tw (j * 2)) as [t2 Ht2]; [done|].
  destruct (ld_inb tw (j * 3)) as [t3 Ht3]; [done|].
  destruct (ld_inb tw ((j + 1) * 1)) as [u1 Hu1]; [done|].
  destruct (ld_inb tw ((j + 1) * 2)) as [u2 Hu2]; [done|].
  destruct (ld_inb tw ((j + 1) * 3)) as [u3 Hu3]; [done|].
  unfold groups_step, kf_bfly4_mx_pair_body, vld1q_cpx, vld1_cpx, vst1q_cpx.
  ld_rewrite. simpl. cbv [vcombine_f32 d0 d1].
  change (V4 (cpx_r ?a) (cpx_i ?a) (cpx_r ?b) (cpx_i ?b))
    with (vcombine_f32 (lanes a) (lanes b)).
  rewrite kf_bfly4_mx_pair_arith_positions.
  destruct (kf_bfly4_mx_position (lanes a0) _ _ _ _ _ _) as [[[x0 x1] x2] x3] eqn:Ex.
  destruct (kf_bfly4_mx_position (lanes b0) _ _ _ _ _ _) as [[[y0 y1] y2] y3] eqn:Ey.
  simpl. do 8 (rewrite st_inb by inb_tac; simpl).
  eexists. split; [done|]. simpl. split; [unfold mx_locals; simpl; lia|].
  split; [lia|]. split; [by rewrite !length_upd|]. split.
  - intros c Hc. pose proof (Hc j) as Hcj. pose proof (Hc (j + 1)) as Hcj'.
    unfold mx_cells in Hcj, Hcj'. ld_upd_tac; done.
  - intros g Hg. destruct (decide (g = j)) as [->|Hne].
    + exists a0, a1, a2, a3, t1, t2, t3. rewrite Ex. unfold cpx_of. ld_rewrite.
      repeat split; ld_upd_tac; done.
    + assert (g = j + 1) as -> by lia.
      exists b0, b1, b2, b3, u1, u2, u3. rewrite Ey. unfold cpx_of. ld_rewrite.
      repeat split; ld_upd_tac; done.
Qed.
End Bfly4MxPair.

(** The two ways through one group. *)
Section Bfly4MxGroupResults.
Context {F : Type} `{FloatOps F}.
Variables (tw : list (kissCpx F)) (m mm : Z).
Variables (i0 : Z) (bin : list (kissCpx F)).
Hypothesis Hm : 0 ≤ m.
Hypothesis Hbase : 0 ≤ i0 * mm.
Hypothesis Hbound : i0 * mm + 4 * m ≤ Z.of_nat (length bin).

Definition mx_group_done (inc1 inc2 inc3 : Z) (bout : list (kissCpx F)) : Prop :=
  groups_done (mx_cells m (i0 * mm)) (mx_position tw m inc1 inc2 inc3 (i0 * mm))
    bin m bout.

Lemma mx_group_done_unique inc1 inc2 inc3 bout bout' :
  mx_group_done inc1 inc2 inc3 bout → mx_group_done inc1 inc2 inc3 bout' → bout = bout'.
Proof.
  apply groups_done_unique.
  - intros g b bo bo' c. apply mx_position_det.
  - apply mx_cells_dec.
Qed.

Lemma kf_bfly4_mx_general_group_done fstride :
  (∀ j, 0 ≤ j < m →
     inb tw (j * fstride) ∧ inb tw (j * (fstride * 2)) ∧ inb tw (j * (fstride * 3))) →
  ∃ bout, kf_bfly4_mx_general_group tw m mm fstride (i0, bin) = Some (i0 + 1, bout) ∧
          mx_group_done fstride (fstride * 2) (fstride * 3) bout.
Proof.
  intros Htw. unfold kf_bfly4_mx_general_group.
  destruct (groups_loop m (mx_cells m (i0 * mm))
              (mx_position tw m fstride (fstride * 2) (fstride * 3) (i0 * mm))
              mx_j mx_mem (mx_locals fstride (fstride * 2) (fstride * 3) (i0 * mm)) bin
              (mx_cells_disjoint m (i0 * mm))
              (mx_position_local tw m fstride (fstride * 2) (fstride * 3) (i0 * mm))
              (λ s, bool_decide (mx_j s < m))
              (kf_bfly4_mx_scalar_body tw m fstride (fstride * 2) (fstride * 3))
              (Z.to_nat m) (MX 0 0 0 0 (i0 * mm) bin))
    as ([j t1 t2 t3 f bout] & -> & (_ & Hj & Hd) & Hc).
  - intros s Hs Hc. apply bool_decide_eq_true in Hc.
    eapply kf_bfly4_mx_scalar_step; eauto.
  - split; [unfold mx_locals; simpl; lia|]. split; [simpl; lia|].
    apply groups_done_init.
  - simpl. lia.
  - apply bool_decide_eq_false in Hc. simpl in Hj, Hd, Hc.
    assert (j = m) as -> by lia. simpl. eauto.
Qed.

Lemma kf_bfly4_mx_fast_group_done :
  (∀ j, 0 ≤ j < m → inb tw (j * 1) ∧ inb tw (j * 2) ∧ inb tw (j * 3)) →
  ∃ bout, kf_bfly4_mx_fast_group tw m mm (V4 (fneg f_one) f_one (fneg f_one) f_one)
            (i0, bin) = Some (i0 + 1, bout) ∧
          mx_group_done 1 2 3 bout.
Proof.
  intros Htw. unfold kf_bfly4_mx_fast_group.
  destruct (groups_loop m (mx_cells m (i0 * mm)) (mx_position tw m 1 2 3 (i0 * mm))
              mx_j mx_mem (mx_locals 1 2 3 (i0 * mm)) bin
              (mx_cells_disjoint m (i0 * mm))
              (mx_position_local tw m 1 2 3 (i0 * mm))
              (λ s, bool_decide (mx_j s + 1 < m))
              (kf_bfly4_mx_pair_body tw m (V4 (fneg f_one) f_one (fneg f_one) f_one))
              (Z.to_nat m) (MX 0 0 0 0 (i0 * mm) bin))
    as (s1 & -> & Hs1 & _).
  { intros s Hs Hc. apply bool_decide_eq_true in Hc.
    eapply kf_bfly4_mx_pair_step; eauto. }
  { split; [unfold mx_locals; simpl; lia|]. split; [simpl; lia|].
    apply groups_done_init. }
  { simpl. lia. }
  simpl.
  destruct (groups_loop m (mx_cells m (i0 * mm)) (mx_position tw m 1 2 3 (i0 * mm))
              mx_j mx_mem (mx_locals 1 2 3 (i0 * mm)) bin
              (mx_cells_disjoint m (i0 * mm))
              (mx_position_local tw m 1 2 3 (i0 * mm))
              (λ s, bool_decide (mx_j s < m))
              (kf_bfly4_mx_scalar_body tw m 1 2 3)
              (Z.to_nat m) s1)
    as ([j t1 t2 t3 f bout] & -> & (_ & Hj & Hd) & Hc).
  - intros s Hs Hc. apply bool_decide_eq_true in Hc.
    eapply kf_bfly4_mx_scalar_step; eauto.
  - done.
  - destruct Hs1 as (_ & Hj & _). lia.
  - apply bool_decide_eq_false in Hc. simpl in Hj, Hd, Hc.
    assert (j = m) as -> by lia. simpl. eauto.
Qed.

(** On one group the fast path and the general path with [fstride = 1]
    return the same buffer. *)
Lemma kf_bfly4_mx_group_paths :
  (∀ j, 0 ≤ j < m → inb tw (j * 1) ∧ inb tw (j * 2) ∧ inb tw (j * 3)) →
  ∃ bout, kf_bfly4_mx_fast_group tw m mm (V4 (fneg f_one) f_one (fneg f_one) f_one)
            (i0, bin) = Some (i0 + 1, bout) ∧
          kf_bfly4_mx_general_group tw m mm 1 (i0, bin) = Some (i0 + 1, bout) ∧
          length bout = length bin.
Proof.
  intros Htw.
  destruct (kf_bfly4_mx_fast_group_done Htw) as (b1 & Hf & Hd1).
  destruct (kf_bfly4_mx_general_group_done 1 Htw) as (b2 & Hg & Hd2).
  exists b1. split; [done|]. split; [|by destruct Hd1].
  rewrite Hg. do 2 f_equal. symmetry. by eapply mx_group_done_unique.
Qed.
End Bfly4MxGroupResults.

(** ** The radix-4 butterfly, general multiplicity: all groups *)

Section LoopExt.
Context {S : Type}.

(** Two loops whose bodies agree on the states of an invariant. *)
Lemma while_loop_ext (Inv : S → Prop) (mu : S → nat) (cond : S → bool)
    (body1 body2 : S → option S) :
  (∀ s, Inv s → cond s = true →
        ∃ s', body1 s = Some s' ∧ body2 s = Some s' ∧ Inv s' ∧ (mu s' < mu s)%nat) →
  ∀ fuel s, Inv s → (mu s ≤ fuel)%nat →
    ∃ s', while_loop fuel cond body1 s = Some s' ∧
          while_loop fuel cond body2 s = Some s' ∧ Inv s'.
Proof.
  intros Hbody. induction fuel as [|fuel IH]; intros s Hs Hmu; simpl.
  - destruct (cond s) eqn:Hc; [|eauto].
    destruct (Hbody s Hs Hc) as (s' & _ & _ & _ & Hlt). lia.
  - destruct (cond s) eqn:Hc; [|eauto].
    destruct (Hbody s Hs Hc) as (s' & -> & -> & Hs' & Hlt). simpl.
    apply IH; [done | lia].
Qed.
End LoopExt.

Section Bfly4MxPaths.
Context {F : Type} `{FloatOps F}.
Variables (tw : list (kissCpx F)) (m n mm : Z) (fout0 : list (kissCpx F)).
Hypothesis Hbounds : mx_bounds fout0 tw m n 1 mm.

Lemma kf_bfly4_mx_paths :
  ∃ fout', kf_bfly4_mx_fast tw m n mm fout0 = Some fout' ∧
           kf_bfly4_mx_general tw m n mm 1 fout0 = Some fout' ∧
           length fout' = length fout0.
Proof.
  destruct Hbounds as (Hm & Hmm & Hlen & Htw).
  unfold kf_bfly4_mx_fast, kf_bfly4_mx_general.
  destruct (while_loop_ext
              (λ s : Z * list (kissCpx F), 0 ≤ fst s ∧ length (snd s) = length fout0)
              (λ s, Z.to_nat (n - fst s))
              (λ s, bool_decide (fst s < n))
              (kf_bfly4_mx_fast_group tw m mm (V4 (fneg f_one) f_one (fneg f_one) f_one))
              (kf_bfly4_mx_general_group tw m mm 1))
    with (fuel := Z.to_nat n) (s := (0, fout0)) as (s' & -> & -> & _ & Hl).
  - intros [i buf] [Hi Hl] Hc. apply bool_decide_eq_true in Hc. simpl in Hi, Hl, Hc.
    pose proof (group_base_bound i n mm).
    destruct (kf_bfly4_mx_group_paths tw m mm i buf) as (bout & Hf & Hg & Hlb);
      [lia | lia | lia | done |].
    exists (i + 1, bout). simpl. repeat split; try done; lia.
  - simpl. split; [lia | done].
  - simpl. lia.
  - simpl. eauto.
Qed.
End Bfly4MxPaths.

Section Bfly4MxFacts.
Context {F : Type} `{FloatLaws F}.
Variables (tw : list (kissCpx F)) (m n fstride mm : Z) (fout0 : list (kissCpx F)).
Hypothesis Hm : 0 ≤ m.
Hypothesis Hvalid : groups_valid fout0 n mm (4 * m).
Hypothesis Htw : ∀ j, 0 ≤ j < m →
  inb tw (j * fstride) ∧ inb tw (j * 2 * fstride) ∧ inb tw (j * 3 * fstride).

(** Position [j] of group [g]: the samples [1], [2], [3] multiplied by
    their twiddles, then the radix-4 butterfly. *)
Definition bfly4_mx_position (g j : Z) (bin bout : list (kissCpx F)) : Prop :=
  ∃ a0 a1 a2 a3 t1 t2 t3,
    ld bin (g * mm + j) = Some a0 ∧ ld bin (g * mm + j + m) = Some a1 ∧
    ld bin (g * mm + j + 2 * m) = Some a2 ∧ ld bin (g * mm + j + 3 * m) = Some a3 ∧
    ld tw (j * fstride) = Some t1 ∧ ld tw (j * 2 * fstride) = Some t2 ∧
    ld tw (j * 3 * fstride) = Some t3 ∧
    let '(o0, o1, o2, o3) := radix4 a0 (c_mul a1 t1) (c_mul a2 t2) (c_mul a3 t3) in
    ld bout (g * mm + j) = Some o0 ∧ ld bout (g * mm + j + m) = Some o1 ∧
    ld bout (g * mm + j + 2 * m) = Some o2 ∧ ld bout (g * mm + j + 3 * m) = Some o3.

Definition bfly4_mx_group (g : Z) (bin bout : list (kissCpx F)) : Prop :=
  ∀ j, 0 ≤ j < m → bfly4_mx_position g j bin bout.

Lemma bfly4_mx_group_local g bin bin' bout bout' :
  (∀ c, interval_cells mm (4 * m) g c → ld bin c = ld bin' c) →
  (∀ c, interval_cells mm (4 * m) g c → ld bout c = ld bout' c) →
  bfly4_mx_group g bin bout → bfly4_mx_group g bin' bout'.
Proof.
  unfold interval_cells. intros Hi Ho Hg j Hj.
  destruct (Hg j Hj) as (a0 & a1 & a2 & a3 & t1 & t2 & t3 & Hl).
  exists a0, a1, a2, a3, t1, t2, t3. rewrite <- !Hi, <- !Ho by lia. done.
Qed.

Lemma mx_position_spec g j bin bout :
  mx_position tw m fstride (fstride * 2) (fstride * 3) (g * mm) j bin bout →
  bfly4_mx_position g j bin bout.
Proof.
  intros (a0 & a1 & a2 & a3 & t1 & t2 & t3 & H0' & H1' & H2' & H3' & H4' & H5' & H6' & Ho).
  exists a0, a1, a2, a3, t1, t2, t3.
  replace (j * 2 * fstride) with (j * (fstride * 2)) by lia.
  replace (j * 3 * fstride) with (j * (fstride * 3)) by lia.
  repeat (split; [done|]).
  rewrite kf_bfly4_mx_position_radix4 in Ho.
  destruct (radix4 _ _ _ _) as [[[[o0r o0i] [o1r o1i]] [o2r o2i]] [o3r o3i]]. done.
Qed.

Lemma kf_bfly4_mx_general_group_step s :
  groups_inv n (interval_cells mm (4 * m)) bfly4_mx_group fst snd (λ _, True) fout0 s →
  fst s < n →
  groups_step n (interval_cells mm (4 * m)) bfly4_mx_group fst snd (λ _, True)
    (kf_bfly4_mx_general_group tw m mm fstride) s.
Proof.
  destruct Hvalid as (Hmm & Hsep & Hlen0).
  destruct s as [i buf]. intros (_ & Hi & Hlen & _) Hlt. simpl in Hi, Hlen, Hlt.
  pose proof (group_base_bound i n mm).
  destruct (kf_bfly4_mx_general_group_done tw m mm i buf) with (fstride := fstride)
    as (bout & Hg & Hlb & Hpos & Hframe); [lia | lia | lia | |].
  { intros j Hj. destruct (Htw j Hj) as (? & ? & ?).
    replace (j * (fstride * 2)) with (j * 2 * fstride) by lia.
    replace (j * (fstride * 3)) with (j * 3 * fstride) by lia. done. }
  exists (i + 1, bout). split; [done|]. simpl. split; [done|]. split; [lia|].
  split; [done|]. split.
  - intros c Hc. apply Hframe. intros j Hj Hcell. apply (Hc i); [lia|].
    unfold mx_cells in Hcell. unfold interval_cells. lia.
  - intros g Hg' j Hj. assert (g = i) as -> by lia.
    apply mx_position_spec. by apply Hpos.
Qed.

Lemma kf_bfly4_mx_general_done :
  ∃ fout', kf_bfly4_mx_general tw m n mm fstride fout0 = Some fout' ∧
           groups_done (interval_cells mm (4 * m)) bfly4_mx_group fout0 (Z.max 0 n) fout'.
Proof.
  unfold kf_bfly4_mx_general.
  destruct (decide (n ≤ 0)) as [Hn|Hn].
  { destruct (Z.to_nat n); simpl; rewrite bool_decide_false by lia;
      (eexists; split; [done|]); replace (Z.max 0 n) with 0 by lia;
      apply groups_done_init. }
  destruct Hvalid as (Hmm & Hsep & _).
  destruct (groups_loop n (interval_cells mm (4 * m)) bfly4_mx_group fst snd (λ _, True)
              fout0 (interval_cells_disjoint n mm (4 * m) Hmm Hsep) bfly4_mx_group_local
              (λ s, bool_decide (fst s < n)) (kf_bfly4_mx_general_group tw m mm fstride)
              (Z.to_nat n) (0, fout0))
    as ([i fout'] & -> & (_ & Hi & Hd) & Hc).
  - intros s Hs Hc. apply bool_decide_eq_true in Hc.
    by apply kf_bfly4_mx_general_group_step.
  - split; [done|]. split; [simpl; lia|]. apply groups_done_init.
  - simpl. lia.
  - apply bool_decide_eq_false in Hc. simpl in Hi, Hd, Hc.
    assert (i = n) as -> by lia. replace (Z.max 0 n) with n by lia. simpl. eauto.
Qed.
End Bfly4MxFacts.

(** ** The middle sample of the postrotation *)

Section PostrotateMiddle.
Context {F : Type} `{FloatOps F}.
Variables (trig : list F) (n2 n4 : Z) (buf0 : list F).
Hypothesis Hvalid : postrotate_valid buf0 trig n2 n4.
Variable (i : Z).
Hypothesis Hi : 0 ≤ i.
Hypothesis Hodd : n4 = 2 * i + 1.

Lemma postrotate_middle_limit : postrotate_limit n4 = i + 1.
Proof. pose proof (postrotate_limit_spec n4). lia. Qed.

(** The state after the first [k] paired iterations. *)
Lemma postrotate_iterations_prefix (k : Z) :
  0 ≤ k ≤ i + 1 →
  ∃ b, iterate (Z.to_nat k) (postrotate_scalar_body trig n2 n4) (PS 0 0 (n2 - 2) buf0)
         = Some (PS k (2 * k) (n2 - 2 - 2 * k) b) ∧
       postrotate_inv trig n2 n4 buf0 (PS k (2 * k) (n2 - 2 - 2 * k) b).
Proof.
  intros Hk.
  destruct (iterate_inv
              (λ j s, postrotate_inv trig n2 n4 buf0 s ∧ ps_i s = Z.of_nat j)
              (postrotate_scalar_body trig n2 n4) (Z.to_nat k))
    with (s := PS 0 0 (n2 - 2) buf0) as ([i' yp0 yp1 b] & Hit & Hs' & Hi').
  - intros j s Hj [Hs Hij].
    destruct (postrotate_scalar_step _ _ _ _ Hvalid s Hs) as (s' & Hb & Hs' & Hf);
      [rewrite postrotate_middle_limit; lia|].
    exists s'. split; [done|]. split; [done|]. lia.
  - split; [|done]. apply postrotate_inv_init; lia.
  - pose proof Hs' as (_ & Hy0 & Hy1 & _). simpl in Hi', Hy0, Hy1.
    assert (i' = k) as -> by lia. subst yp0 yp1. eauto.
Qed.

(** The paired iterations before the middle one leave the cursors on the
    middle sample. *)
Lemma postrotate_iterations_middle :
  ∃ b, iterate (Z.to_nat i) (postrotate_scalar_body trig n2 n4) (PS 0 0 (n2 - 2) buf0)
         = Some (PS i (n4 - 1) (n4 - 1) b) ∧
       postrotate_done trig n2 n4 buf0 i b.
Proof.
  destruct Hvalid as (Hn2 & _).
  destruct (postrotate_iterations_prefix i) as (b & Hit & _ & _ & _ & Hd); [lia|].
  exists b. split; [|done]. rewrite Hit. do 2 f_equal; lia.
Qed.

(** The middle iteration of the scalar loop: the sample is read before
    any write, and the high half writes again what the low half wrote. *)
Lemma postrotate_middle_scalar b :
  postrotate_done trig n2 n4 buf0 i b →
  ∃ im re t0 t1 b1,
    ld buf0 (n4 - 1) = Some im ∧ ld buf0 (n4 - 1 + 1) = Some re ∧
    ld trig i = Some t0 ∧ ld trig (n4 + i) = Some t1 ∧
    postrotate_low_half trig n4 i (n4 - 1) (n4 - 1) b = Some (b1, (re, im)) ∧
    ld b1 (n4 - 1) = Some (fadd (fmul re t0) (fmul im t1)) ∧
    ld b1 (n4 - 1 + 1) = Some (fsub (fmul re t1) (fmul im t0)) ∧
    postrotate_high_half trig n2 n4 i (n4 - 1) (n4 - 1) re im b1 = Some b1.
Proof.
  destruct Hvalid as (Hn2 & Htrig & Hbuf). intros (Hlen & _ & Hr).
  destruct (ld_inb buf0 (n4 - 1)) as [im Him]; [inb_tac|].
  destruct (ld_inb buf0 (n4 - 1 + 1)) as [re Hre]; [inb_tac|].
  destruct (ld_inb trig i) as [t0 Ht0]; [inb_tac|].
  destruct (ld_inb trig (n4 + i)) as [t1 Ht1]; [inb_tac|].
  assert (ld b (n4 - 1) = Some im) as Him' by (rewrite Hr by lia; done).
  assert (ld b (n4 - 1 + 1) = Some re) as Hre' by (rewrite Hr by lia; done).
  exists im, re, t0, t1.
  exists (upd (upd b (n4 - 1) (fadd (fmul re t0) (fmul im t1)))
            (n4 - 1 + 1) (fsub (fmul re t1) (fmul im t0))).
  do 4 (split; [done|]).
  unfold postrotate_low_half, postrotate_high_half. ld_rewrite. simpl.
  do 2 (rewrite st_inb by inb_tac; simpl). split; [done|].
  split; [ld_upd_tac; done|]. split; [ld_upd_tac; done|].
  ld_rewrite. simpl. do 2 (rewrite st_inb by inb_tac; simpl).
  f_equal. apply ld_ext. intros j. ld_upd_tac; done.
Qed.

(** The vector iteration that covers the middle sample as its second
    pair: the registers [vlow] and [vhi] overlap on the middle sample, and
    so do the registers that are stored, with identical lanes. *)
Lemma postrotate_middle_vec b im re t0 t1 :
  1 ≤ i → length b = length buf0 →
  ld b (n4 - 1) = Some im → ld b (n4 - 1 + 1) = Some re →
  ld trig i = Some t0 → ld trig (n4 + i) = Some t1 →
  ∃ vlow vhi t0v t1v t0b t1b,
    vld1q_f32 b (n4 - 3) = Some vlow ∧ vld1q_f32 b (n4 + 1 - 2) = Some vhi ∧
    vld1_f32 trig (i - 1) = Some t0v ∧ vld1_f32 trig (n4 + (i - 1)) = Some t1v ∧
    vld1_f32 trig (n4 - (i - 1) - 2) = Some t0b ∧
    vld1_f32 trig (n2 - (i - 1) - 2) = Some t1b ∧
    q2 vlow = q0 vhi ∧ q3 vlow = q1 vhi ∧
    let '(out_lo, out_hi) := postrotate_vec_arith vlow vhi t0v t1v t0b t1b in
    q2 out_lo = q0 out_hi ∧ q3 out_lo = q1 out_hi ∧
    q0 out_hi = fadd (fmul re t0) (fmul im t1) ∧
    q1 out_hi = fsub (fmul re t1) (fmul im t0).
Proof.
  destruct Hvalid as (Hn2 & Htrig & Hbuf). intros Hi1 Hlen Hmi Hmr Htm Hum.
  destruct (ld_inb b (n4 - 3)) as [a0 Ha0]; [inb_tac|].
  destruct (ld_inb b (n4 - 2)) as [a1 Ha1]; [inb_tac|].
  destruct (ld_inb b (n4 + 1)) as [h2 Hh2]; [inb_tac|].
  destruct (ld_inb b (n4 + 2)) as [h3 Hh3]; [inb_tac|].
  destruct (ld_inb trig (i - 1)) as [ta Hta]; [inb_tac|].
  destruct (ld_inb trig (n4 + i - 1)) as [ua Hua]; [inb_tac|].
  destruct (ld_inb trig (n4 - i)) as [tz Htz]; [inb_tac|].
  destruct (ld_inb trig (n2 - i)) as [uz Huz]; [inb_tac|].
  exists (V4 a0 a1 im re), (V4 im re h2 h3), (V2 ta t0), (V2 ua t1), (V2 t0 tz), (V2 t1 uz).
  unfold vld1q_f32, vld1_f32. ld_rewrite. simpl. done.
Qed.

(** The same iteration as a whole: the middle sample ends rotated once. *)
Lemma postrotate_middle_vec_body b :
  1 ≤ i →
  postrotate_inv trig n2 n4 buf0 (PS (i - 1) (2 * (i - 1)) (n2 - 2 - 2 * (i - 1)) b) →
  ∃ b' im re t0 t1,
    postrotate_vec_body trig n2 n4 (PS (i - 1) (2 * (i - 1)) (n2 - 2 - 2 * (i - 1)) b)
      = Some (PS (i + 1) (2 * (i + 1)) (n2 - 2 - 2 * (i + 1)) b') ∧
    ld buf0 (n4 - 1) = Some im ∧ ld buf0 (n4 - 1 + 1) = Some re ∧
    ld trig i = Some t0 ∧ ld trig (n4 + i) = Some t1 ∧
    ld b' (n4 - 1) = Some (fadd (fmul re t0) (fmul im t1)) ∧
    ld b' (n4 - 1 + 1) = Some (fsub (fmul re t1) (fmul im t0)).
Proof.
  intros Hi1 Hinv. pose proof Hvalid as (Hn2 & Htrig & Hbuf).
  destruct (postrotate_vec_step _ _ _ _ Hvalid _ Hinv) as ([i' yp0 yp1 b'] & Hb & Hs' & Hf).
  { simpl. rewrite postrotate_middle_limit. lia. }
  simpl in Hf. assert (i' = i + 1) as -> by lia.
  destruct Hs' as (_ & Hy0 & Hy1 & _ & Hw & _). simpl in Hy0, Hy1, Hw. subst yp0 yp1.
  destruct (Hw i) as (Ha & _ & _ & Hd); [lia|].
  destruct (ld_inb buf0 (n4 - 1)) as [im Him]; [inb_tac|].
  destruct (ld_inb buf0 (n4 - 1 + 1)) as [re Hre]; [inb_tac|].
  destruct (ld_inb trig i) as [t0 Ht0]; [inb_tac|].
  destruct (ld_inb trig (n4 + i)) as [t1 Ht1]; [inb_tac|].
  exists b', im, re, t0, t1. do 5 (split; [done|]).
  unfold post_low_yr, post_low_yi in Ha, Hd.
  replace (2 * i) with (n4 - 1) in Ha, Hd by lia.
  replace (n2 - 2 - (n4 - 1) + 1) with (n4 - 1 + 1) in Hd by lia.
  rewrite Him, Hre, Ht0, Ht1 in Ha, Hd. done.
Qed.
End PostrotateMiddle.

Section Bfly4MxResults.
Context {F : Type} `{FloatLaws F}.
Variables (tw : list (kissCpx F)) (m n fstride mm : Z) (fout0 : list (kissCpx F)).
Hypothesis Hm : 0 ≤ m.
Hypothesis Hn : 0 ≤ n.
Hypothesis Hvalid : groups_valid fout0 n mm (4 * m).
Hypothesis Htw : ∀ j, 0 ≤ j < m →
  inb tw (j * fstride) ∧ inb tw (j * 2 * fstride) ∧ inb tw (j * 3 * fstride).

(** The kernel, whichever path it takes. *)
Lemma kf_bfly4_mx_done :
  ∃ fout', kf_bfly4_mx tw m n mm fstride fout0 = Some fout' ∧
           groups_done (interval_cells mm (4 * m)) (bfly4_mx_group tw m fstride mm)
             fout0 n fout'.
Proof.
  destruct (kf_bfly4_mx_general_done tw m n fstride mm fout0 Hm Hvalid Htw)
    as (fout' & Hgen & Hdone).
  replace (Z.max 0 n) with n in Hdone by lia.
  exists fout'. split; [|done]. unfold kf_bfly4_mx.
  destruct (decide (fstride = 1)) as [->|Hne]; [|done].
  destruct (kf_bfly4_mx_paths tw m n mm fout0) as (fout'' & Hfast & Hgen' & _).
  { destruct Hvalid as (Hmm & _ & Hlen). do 3 (split; [done|]).
    intros j Hj. destruct (Htw j Hj) as (Hj1 & Hj2 & Hj3). unfold inb in *. lia. }
  congruence.
Qed.
End Bfly4MxResults.

(** ** Rounding stays inside the format *)

(** The operations of [SpecFloat] return valid numbers of the format: the
    mantissa that [binary_round_aux] returns is canonical and its exponent is
    bounded, whatever was rounded.  First the number of digits of a mantissa
    through the shifts of the rounding. *)

Lemma digits2_pos_log2 (m : positive) : Zpos (digits2_pos m) = Z.log2 (Zpos m) + 1.
Proof.
  assert (∀ p, Zpos (digits2_pos p) = Zpos (Pos.size p)) as Hsize.
  { induction p as [p IH|p IH|]; simpl; rewrite ?Pos2Z.inj_succ, ?IH; reflexivity. }
  rewrite Hsize. destruct m; simpl; rewrite ?Pos2Z.inj_succ; lia.
Qed.

Lemma Zdigits2_log2 z : 0 < z → Zdigits2 z = Z.log2 z + 1.
Proof. destruct z; try lia. intros _. apply digits2_pos_log2. Qed.

Lemma Zdigits2_nonneg z : 0 ≤ Zdigits2 z.
Proof. destruct z; simpl; lia. Qed.

Lemma Zdigits2_pos z : 0 < z → 1 ≤ Zdigits2 z.
Proof. destruct z; simpl; lia. Qed.

Lemma Zdigits2_shiftr z n :
  0 ≤ z → 0 ≤ n → Zdigits2 (Z.shiftr z n) = Z.max 0 (Zdigits2 z - n).
Proof.
  intros Hz Hn. destruct (decide (z = 0)) as [->|Hz0].
  { rewrite Z.shiftr_0_l. simpl. lia. }
  pose proof (Z.shiftr_nonneg z n) as Hs.
  destruct (decide (Z.shiftr z n = 0)) as [E|E].
  - rewrite E. apply Z.shiftr_eq_0_iff in E as [->|[_ Hlog]]; [done|].
    rewrite (Zdigits2_log2 z) by lia. change (Zdigits2 0) with 0. lia.
  - rewrite !Zdigits2_log2 by lia. rewrite Z.log2_shiftr by lia.
    assert (¬ Z.log2 z < n) as Hlog.
    { intros Hlt. apply E. apply Z.shiftr_eq_0_iff. right. lia. }
    lia.
Qed.

Lemma Zdigits2_succ z : 0 ≤ z → Zdigits2 z ≤ Zdigits2 (z + 1) ≤ Zdigits2 z + 1.
Proof.
  intros Hz. destruct (decide (z = 0)) as [->|Hz0]; [simpl; lia|].
  rewrite !Zdigits2_log2 by lia.
  pose proof (Z.log2_succ_or z). pose proof (Z.log2_le_mono z (z + 1)).
  unfold Z.succ in *. lia.
Qed.

Lemma round_nearest_even_cases z l :
  round_nearest_even z l = z ∨ round_nearest_even z l = z + 1.
Proof. destruct l as [|[]]; simpl; auto. destruct (Z.even z); auto. Qed.

Lemma iter_pos_iter {A} (f : A → A) n x : SpecFloat.iter_pos f n x = Pos.iter f x n.
Proof.
  revert x. induction n as [n IH|n IH|]; intros x; simpl.
  - rewrite !IH. by rewrite !Pos.iter_swap.
  - by rewrite !IH.
  - done.
Qed.

Lemma shr_1_m mrs : 0 ≤ shr_m mrs → shr_m (shr_1 mrs) = Z.div2 (shr_m mrs).
Proof. destruct mrs as [[|[p|p|]|p] r s]; simpl; intros; (done || lia). Qed.

Lemma shr_m_iter n mrs :
  0 ≤ shr_m mrs → shr_m (Pos.iter shr_1 mrs n) = Z.shiftr (shr_m mrs) (Zpos n).
Proof.
  intros Hm. induction n as [|n IH] using Pos.peano_ind.
  - simpl. rewrite shr_1_m by done. apply Z.div2_spec.
  - rewrite Pos.iter_succ, shr_1_m; rewrite IH.
    + rewrite Z.div2_spec, Z.shiftr_shiftr by lia. f_equal. lia.
    + by apply Z.shiftr_nonneg.
Qed.

Lemma shr_spec mrs e n :
  0 ≤ shr_m mrs →
  shr_m (fst (shr mrs e n)) = Z.shiftr (shr_m mrs) (Z.max 0 n) ∧
  snd (shr mrs e n) = e + Z.max 0 n.
Proof.
  intros Hm. destruct n as [|p|p]; simpl.
  - rewrite Z.shiftr_0_r. lia.
  - rewrite iter_pos_iter, shr_m_iter by done. done.
  - rewrite Z.shiftr_0_r. lia.
Qed.

Lemma shr_record_of_loc_m m l : shr_m (shr_record_of_loc m l) = m.
Proof. by destruct l as [|[]]. Qed.

Lemma digits2_pos_iter (m k : positive) :
  Zpos (digits2_pos (Pos.iter xO m k)) = Zpos (digits2_pos m) + Zpos k.
Proof.
  induction k as [|k IH] using Pos.peano_ind.
  - simpl. rewrite Pos2Z.inj_succ. lia.
  - rewrite Pos.iter_succ. simpl digits2_pos. rewrite !Pos2Z.inj_succ, IH. lia.
Qed.

Section Format.
Variables prec emax : Z.
Hypothesis Hprec : 0 < prec.
Hypothesis Hemax : prec < emax.

Lemma fexp_max x : fexp prec emax x = Z.max (x - prec) (3 - emax - prec).
Proof. reflexivity. Qed.

Lemma binary_round_aux_valid s (m : positive) e l :
  (fexp prec emax (Zpos (digits2_pos m) + e) ≤ e →
   fexp prec emax (Zpos (digits2_pos m) + e) = e ∧ l = loc_Exact) →
  valid_binary prec emax (binary_round_aux prec emax s (Zpos m) e l) = true.
Proof.
  intros Hpre. unfold binary_round_aux, shr_fexp.
  set (d := Zpos (digits2_pos m)) in *.
  change (Zdigits2 (Zpos m)) with d.
  set (n1 := fexp prec emax (d + e) - e).
  pose proof (shr_spec (shr_record_of_loc (Zpos m) l) e n1) as [Hm1 He1].
  { rewrite shr_record_of_loc_m. lia. }
  rewrite shr_record_of_loc_m in Hm1.
  destruct (shr (shr_record_of_loc (Zpos m) l) e n1) as [mrs1 e1] eqn:Es1.
  simpl in Hm1, He1.
  set (m1 := round_nearest_even (shr_m mrs1) (loc_of_shr_record mrs1)).
  assert (0 ≤ shr_m mrs1) as Hm1pos by (rewrite Hm1; apply Z.shiftr_nonneg; lia).
  assert (0 ≤ m1) as Hm1'
    by (destruct (round_nearest_even_cases (shr_m mrs1) (loc_of_shr_record mrs1)); lia).
  set (n2 := fexp prec emax (Zdigits2 m1 + e1) - e1).
  pose proof (shr_spec (shr_record_of_loc m1 loc_Exact) e1 n2) as [Hm2 He2].
  { simpl. lia. }
  destruct (shr (shr_record_of_loc m1 loc_Exact) e1 n2) as [mrs2 e2] eqn:Es2.
  simpl in Hm2, He2.
  assert (Zdigits2 (shr_m mrs1) = Z.max 0 (d - Z.max 0 n1)) as Hd1.
  { rewrite Hm1, Zdigits2_shiftr by lia. reflexivity. }
  assert (Zdigits2 (shr_m mrs1) ≤ Zdigits2 m1 ≤ Zdigits2 (shr_m mrs1) + 1) as Hdm1.
  { destruct (round_nearest_even_cases (shr_m mrs1) (loc_of_shr_record mrs1)) as [E|E];
      fold m1 in E; rewrite E; [lia|]. by apply Zdigits2_succ. }
  assert (n1 ≤ 0 → m1 = Zpos m) as Hexact.
  { intros Hn1. destruct Hpre as [_ ->]; [unfold n1 in Hn1; lia|].
    unfold m1. destruct n1; try lia; simpl in Es1; by simplify_eq. }
  assert (Zdigits2 (shr_m mrs2) = Z.max 0 (Zdigits2 m1 - Z.max 0 n2)) as Hd2.
  { rewrite Hm2, Zdigits2_shiftr by lia. reflexivity. }
  assert (1 ≤ d) as Hd by (unfold d; lia).
  destruct (shr_m mrs2) as [|q|q] eqn:Eq; [done| |done].
  assert (fexp prec emax (Zpos (digits2_pos q) + e2) = e2) as Hcanon.
  { change (Zpos (digits2_pos q)) with (Zdigits2 (Zpos q)).
    rewrite fexp_max in *. unfold n2, n1 in *. rewrite !fexp_max in *.
    destruct (decide (fexp prec emax (d + e) - e ≤ 0)) as [Hle|Hgt].
    - rewrite fexp_max in Hle. rewrite Hexact in * by lia.
      change (Zdigits2 (Zpos m)) with d in *. lia.
    - rewrite fexp_max in Hgt. clear Hexact Hpre. lia. }
  destruct (Z.leb e2 (emax - prec)) eqn:Ele; [|done].
  simpl. unfold bounded, canonical_mantissa.
  rewrite Hcanon, Z.eqb_refl. simpl. done.
Qed.

Lemma valid_binary_finite s m e :
  valid_binary prec emax (S754_finite s m e) = true ↔
  fexp prec emax (Zpos (digits2_pos m) + e) = e ∧ e ≤ emax - prec.
Proof.
  simpl. unfold bounded, canonical_mantissa.
  rewrite andb_true_iff, Z.eqb_eq, Z.leb_le. reflexivity.
Qed.

Lemma binary_round_valid s m e : valid_binary prec emax (binary_round prec emax s m e) = true.
Proof.
  unfold binary_round, shl_align.
  destruct (fexp prec emax (Zpos (digits2_pos m) + e) - e) as [|p|p] eqn:En;
    apply binary_round_aux_valid.
  - intros _. split; [lia | done].
  - lia.
  - intros _. split; [|done]. rewrite digits2_pos_iter.
    replace (Zpos (digits2_pos m) + Zpos p + fexp prec emax (Zpos (digits2_pos m) + e))
      with (Zpos (digits2_pos m) + e) by lia.
    done.
Qed.

Lemma binary_normalize_valid z e sz :
  valid_binary prec emax (binary_normalize prec emax z e sz) = true.
Proof. destruct z; simpl; [done | apply binary_round_valid ..]. Qed.

Lemma SFmul_valid x y :
  valid_binary prec emax x = true → valid_binary prec emax y = true →
  valid_binary prec emax (SFmul prec emax x y) = true.
Proof.
  destruct x as [sx|sx| |sx mx ex], y as [sy|sy| |sy my ey]; try done.
  intros [Hx Hxb]%valid_binary_finite [Hy Hyb]%valid_binary_finite. simpl.
  apply binary_round_aux_valid. intros Hle.
  pose proof (digits2_pos_log2 mx) as Hdx. pose proof (digits2_pos_log2 my) as Hdy.
  pose proof (digits2_pos_log2 (mx * my)) as Hd.
  pose proof (Z.log2_mul_below (Zpos mx) (Zpos my)) as Hb.
  pose proof (Z.log2_nonneg (Zpos mx)). pose proof (Z.log2_nonneg (Zpos my)).
  rewrite Pos2Z.inj_mul in Hd. rewrite fexp_max in *. split; [lia | done].
Qed.

Lemma SFadd_valid x y :
  valid_binary prec emax x = true → valid_binary prec emax y = true →
  valid_binary prec emax (SFadd prec emax x y) = true.
Proof.
  destruct x as [sx|sx| |sx mx ex], y as [sy|sy| |sy my ey]; simpl; try done;
    try (by destruct sx, sy).
  intros _ _. apply binary_normalize_valid.
Qed.

Lemma SFsub_valid x y :
  valid_binary prec emax x = true → valid_binary prec emax y = true →
  valid_binary prec emax (SFsub prec emax x y) = true.
Proof.
  destruct x as [sx|sx| |sx mx ex], y as [sy|sy| |sy my ey]; simpl; try done;
    try (by destruct sx, sy).
  intros _ _. apply binary_normalize_valid.
Qed.
End Format.

(** ** The binary32 format satisfies the identities *)

Module Binary32Laws.
Import Binary32.

Lemma SFadd_comm x y : SFadd prec32 emax32 x y = SFadd prec32 emax32 y x.
Proof.
  destruct x as [s| s| |s m e], y as [s'|s'| |s' m' e']; simpl; try reflexivity;
    try (destruct s, s'; reflexivity).
  rewrite (Z.min_comm e' e), Z.add_comm. reflexivity.
Qed.

Lemma SFmul_comm x y : SFmul prec32 emax32 x y = SFmul prec32 emax32 y x.
Proof.
  destruct x as [s| s| |s m e], y as [s'|s'| |s' m' e']; simpl; try reflexivity;
    try (destruct s, s'; reflexivity).
  rewrite xorb_comm, Pos.mul_comm, Z.add_comm. reflexivity.
Qed.

Lemma SFsub_add_opp x y : SFsub prec32 emax32 x y = SFadd prec32 emax32 x (SFopp y).
Proof.
  destruct x as [s| s| |s m e], y as [s'|s'| |s' m' e']; simpl; try reflexivity;
    try (destruct s, s'; reflexivity).
  all: f_equal; destruct s'; simpl; lia.
Qed.

Lemma binary_round_aux_opp s m e l :
  binary_round_aux prec32 emax32 (negb s) m e l = SFopp (binary_round_aux prec32 emax32 s m e l).
Proof.
  unfold binary_round_aux. destruct (shr_fexp _ _ _ _ _) as [mrs e1].
  destruct (shr_fexp _ _ _ _ _) as [mrs' e2]. destruct (shr_m mrs'); try reflexivity.
  destruct (Z.leb _ _); reflexivity.
Qed.

Lemma SFmul_opp_l x y : SFmul prec32 emax32 (SFopp x) y = SFopp (SFmul prec32 emax32 x y).
Proof.
  destruct x as [s| s| |s m e], y as [s'|s'| |s' m' e']; simpl; try reflexivity;
    try (destruct s, s'; reflexivity).
  rewrite <- binary_round_aux_opp. f_equal. destruct s, s'; reflexivity.
Qed.

Lemma digits2_pos_shift (m : positive) :
  Zpos (digits2_pos (m * 8388608)) = Zpos (digits2_pos m) + 23.
Proof.
  replace (m * 8388608)%positive with (Pos.iter xO m 23)
    by (rewrite Pos.mul_comm; reflexivity).
  apply digits2_pos_iter.
Qed.

Lemma SFmul_one_r x :
  valid32 x = true → SFmul prec32 emax32 x (S754_finite false 8388608 (-23)) = x.
Proof.
  destruct x as [s| s| |s m e]; simpl; intros Hv;
    [by destruct s | by destruct s | done |].
  unfold bounded, canonical_mantissa in Hv. apply andb_true_iff in Hv as [Hc Hb].
  apply Z.eqb_eq in Hc. apply Z.leb_le in Hb.
  unfold binary_round_aux.
  assert (shr_fexp prec32 emax32 (Zpos (m * 8388608)) (e + -23) loc_Exact
          = ({| shr_m := Zpos m; shr_r := false; shr_s := false |}, e)) as ->.
  { unfold shr_fexp. unfold Zdigits2. rewrite digits2_pos_shift.
    replace (Zpos (digits2_pos m) + 23 + (e + -23)) with (Zpos (digits2_pos m) + e) by lia.
    rewrite Hc. replace (e - (e + -23)) with 23 by lia.
    unfold shr. replace (e + -23 + 23) with e by lia. f_equal.
    rewrite Pos.mul_comm. reflexivity. }
  simpl.
  assert (shr_fexp prec32 emax32 (Zpos m) e loc_Exact
          = ({| shr_m := Zpos m; shr_r := false; shr_s := false |}, e)) as ->.
  { unfold shr_fexp. unfold Zdigits2. rewrite Hc. rewrite Z.sub_diag. reflexivity. }
  simpl. unfold prec32, emax32 in *. rewrite (proj2 (Z.leb_le _ _)) by lia.
  destruct s; reflexivity.
Qed.

Lemma valid32_opp x : valid32 (SFopp x) = valid32 x.
Proof. by destruct x. Qed.

Lemma canon32_valid_id x : valid32 x = true → canon32 x = x.
Proof. unfold canon32. by intros ->. Qed.

Lemma canon32_opp x : canon32 (SFopp x) = SFopp (canon32 x).
Proof. unfold canon32. rewrite valid32_opp. by destruct (valid32 x). Qed.

Lemma canon32_idemp x : canon32 (canon32 x) = canon32 x.
Proof. apply canon32_valid_id, canon32_valid. Qed.

Lemma mk32_eq x y : canon32 x = canon32 y → mk32 x = mk32 y.
Proof. intros Heq. by apply (sig_eq_pi (λ x, valid32 x = true)). Qed.

Lemma mk32_proj (a : float32) : mk32 (`a) = a.
Proof.
  apply (sig_eq_pi (λ x, valid32 x = true)). simpl.
  apply canon32_valid_id, (proj2_sig a).
Qed.

(** Addition, subtraction and multiplication at binary32 and the conversions
    return numbers of the format, so [canon32] changes none of their
    results: each operation on [float] is the operation of [SpecFloat]. *)
Lemma f32_add_exact (a b : float32) :
  proj1_sig (f32_add a b) = SFadd prec32 emax32 (`a) (`b).
Proof.
  apply canon32_valid_id, SFadd_valid; try done;
    first [apply (proj2_sig a) | apply (proj2_sig b)].
Qed.

Lemma f32_sub_exact (a b : float32) :
  proj1_sig (f32_sub a b) = SFsub prec32 emax32 (`a) (`b).
Proof.
  apply canon32_valid_id, SFsub_valid; try done;
    first [apply (proj2_sig a) | apply (proj2_sig b)].
Qed.

Lemma f32_mul_exact (a b : float32) :
  proj1_sig (f32_mul a b) = SFmul prec32 emax32 (`a) (`b).
Proof.
  apply canon32_valid_id, SFmul_valid; try done;
    first [apply (proj2_sig a) | apply (proj2_sig b)].
Qed.

Lemma f32_neg_exact (a : float32) : proj1_sig (f32_neg a) = SFopp (`a).
Proof. apply canon32_valid_id. rewrite valid32_opp. apply (proj2_sig a). Qed.

Lemma f32_of_Z_exact z : proj1_sig (f32_of_Z z) = binary_normalize prec32 emax32 z 0 false.
Proof. by apply canon32_valid_id, binary_normalize_valid. Qed.

Lemma f64_of_Z_exact z : proj1_sig (f64_of_Z z) = binary_normalize prec64 emax64 z 0 false.
Proof.
  unfold f64_of_Z, mk64, canon64, valid64. simpl.
  by rewrite binary_normalize_valid by done.
Qed.

Lemma f32_of_f64_exact (d : float64) :
  proj1_sig (f32_of_f64 d) = match `d with
                    | S754_finite s m e =>
                        binary_normalize prec32 emax32 (cond_Zopp s (Zpos m)) e s
                    | x => x
                    end.
Proof.
  apply canon32_valid_id. destruct (`d) as [s|s| |s m e]; try done.
  by apply binary_normalize_valid.
Qed.

Lemma f32_one_proj : `f32_one = S754_finite false 8388608 (-23).
Proof. reflexivity. Qed.

#[export] Instance float32_laws : FloatLaws float32.
Proof.
  split.
  - intros x y. apply mk32_eq. by rewrite SFadd_comm.
  - intros x y. apply mk32_eq. by rewrite SFmul_comm.
  - intros x. simpl. unfold f32_mul. rewrite f32_one_proj.
    rewrite SFmul_one_r by apply (proj2_sig x). apply mk32_proj.
  - intros x y. apply mk32_eq. simpl.
    rewrite (canon32_valid_id (SFopp (`x))) by (rewrite valid32_opp; apply (proj2_sig x)).
    by rewrite SFmul_opp_l, !canon32_opp, canon32_idemp.
  - intros x. simpl. unfold f32_neg. simpl.
    rewrite canon32_opp, (canon32_valid_id (`x)) by apply (proj2_sig x).
    rewrite <- (mk32_proj x) at 2. apply mk32_eq. f_equal.
    by destruct (`x) as [[]|[]| |[] ? ?].
  - intros x y. apply mk32_eq. simpl.
    rewrite (canon32_valid_id (SFopp (`y))) by (rewrite valid32_opp; apply (proj2_sig y)).
    by rewrite SFsub_add_opp.
Qed.
End Binary32Laws.

(** * The claims *)

(** The witnesses run the kernels on binary32 numbers. *)
Import Binary32 Binary32Laws.

(** C1.  [imdct_prerotate_f32] with [n4 <= 0] returns the output buffer as it
    received it.  With [n4 >= 1], on buffers that satisfy the caller's
    contract, it returns a buffer of the same length in which, for every
    index [i] of [[0, n4)], with [x1 = (float)spec[2*i]],
    [x2 = (float)spec[n2 - 1 - 2*i]], [t0 = trig[i]] and [t1 = trig[n4 + i]],
    the cell [2*i] holds [yi = x1*t0 - x2*t1] and the cell [2*i + 1] holds
    [yr = x2*t0 + x1*t1], each one product, one product and one sum or
    difference in single precision; no other cell has changed. *)
Theorem imdct_prerotate_f32_writes {F D : Type} `{FloatOps F} `{Narrow D F}
    (out : list F) (spec : list D) (trig : list F) (n2 n4 : Z) :
  (n4 ≤ 0 → imdct_prerotate_f32 spec trig n2 n4 out = Some out) ∧
  (1 ≤ n4 → prerotate_valid out spec trig n2 n4 →
   ∃ out', imdct_prerotate_f32 spec trig n2 n4 out = Some out' ∧
     length out' = length out ∧
     (∀ i, 0 ≤ i < n4 →
        ∃ s1 s2 t0 t1,
          ld spec (2 * i) = Some s1 ∧ ld spec (n2 - 1 - 2 * i) = Some s2 ∧
          ld trig i = Some t0 ∧ ld trig (n4 + i) = Some t1 ∧
          let x1 := narrow s1 in
          let x2 := narrow s2 in
          ld out' (2 * i) = Some (fsub (fmul x1 t0) (fmul x2 t1)) ∧
          ld out' (2 * i + 1) = Some (fadd (fmul x2 t0) (fmul x1 t1))) ∧
     (∀ j, ¬ (0 ≤ j < 2 * n4) → ld out' j = ld out j)).
Proof.
  split.
  - intros Hn4. unfold imdct_prerotate_f32. by rewrite decide_True.
  - intros Hn4 Hvalid.
    destruct (prerotate_done_impl spec trig n2 n4 out Hvalid Hn4)
      as (out' & Hrun & Hlen & Hw & Hr).
    exists out'. split; [done|]. split; [done|]. split; [|done].
    intros i Hi. destruct Hvalid as (Hn2 & Hspec & Htrig & Hout).
    destruct (ld_inb spec (2 * i)) as [s1 Hs1]; [inb_tac|].
    destruct (ld_inb spec (n2 - 1 - 2 * i)) as [s2 Hs2]; [inb_tac|].
    destruct (ld_inb trig i) as [t0 Ht0]; [inb_tac|].
    destruct (ld_inb trig (n4 + i)) as [t1 Ht1]; [inb_tac|].
    exists s1, s2, t0, t1. do 4 (split; [done|]).
    destruct (Hw i Hi) as [Ha Hb]. unfold prerotate_yi, prerotate_yr in Ha, Hb.
    rewrite Hs1, Hs2, Ht0, Ht1 in Ha, Hb. done.
Qed.

Lemma imdct_prerotate_f32_writes_witness :
  1 ≤ 3 ∧ prerotate_valid Samples.out6 Samples.spec6 Samples.trig6 6 3 ∧
  ∃ out', imdct_prerotate_f32 Samples.spec6 Samples.trig6 6 3 Samples.out6 = Some out' ∧
    length out' = length Samples.out6 ∧
    (∀ i, 0 ≤ i < 3 →
       ∃ s1 s2 t0 t1,
         ld Samples.spec6 (2 * i) = Some s1 ∧ ld Samples.spec6 (6 - 1 - 2 * i) = Some s2 ∧
         ld Samples.trig6 i = Some t0 ∧ ld Samples.trig6 (3 + i) = Some t1 ∧
         let x1 := narrow s1 in
         let x2 := narrow s2 in
         ld out' (2 * i) = Some (fsub (fmul x1 t0) (fmul x2 t1)) ∧
         ld out' (2 * i + 1) = Some (fadd (fmul x2 t0) (fmul x1 t1))) ∧
    (∀ j, ¬ (0 ≤ j < 2 * 3) → ld out' j = ld Samples.out6 j).
Proof.
  assert (prerotate_valid Samples.out6 Samples.spec6 Samples.trig6 6 3) as Hv.
  { unfold prerotate_valid. simpl. lia. }
  split; [lia|]. split; [exact Hv|].
  apply (proj2 (imdct_prerotate_f32_writes Samples.out6 Samples.spec6 Samples.trig6 6 3));
    [lia | exact Hv].
Defined.

(** The prerotation of the sample input, on binary32 numbers. *)
Example imdct_prerotate_f32_sample :
  (fmap (M := list) proj1_sig) <$>
    imdct_prerotate_f32 Samples.spec6 Samples.trig6 6 3 Samples.out6
  = Some (proj1_sig <$> (Samples.fl <$> [12; 10; -14; 22; -17; -20])).
Proof. vm_compute. reflexivity. Qed.

(** C9.  On buffers that satisfy the caller's contract, [imdct_prerotate_f32]
    and [imdct_postrotate_f32] as implemented (the vector loop, then the
    scalar loop on what remains) return the very buffer that the scalar loop
    alone returns when it runs over the whole index range: the same
    single-precision operations on the same operands, in every cell. *)
Theorem imdct_vector_scalar_agree {F D : Type} `{FloatOps F} `{Narrow D F}
    (out : list F) (spec : list D) (trig : list F) (n2 n4 : Z)
    (buf trig' : list F) (n2' n4' : Z) :
  prerotate_valid out spec trig n2 n4 →
  postrotate_valid buf trig' n2' n4' →
  (∃ out', imdct_prerotate_f32 spec trig n2 n4 out = Some out' ∧
           imdct_prerotate_scalar spec trig n2 n4 out = Some out') ∧
  (∃ buf', imdct_postrotate_f32 trig' n2' n4' buf = Some buf' ∧
           imdct_postrotate_scalar trig' n2' n4' buf = Some buf').
Proof.
  intros Hpre Hpost. split.
  - destruct (decide (n4 ≤ 0)) as [Hn|Hn].
    + exists out. unfold imdct_prerotate_f32, imdct_prerotate_scalar.
      by rewrite !decide_True.
    + apply prerotate_impl_scalar; [done | lia].
  - destruct (decide (n4' ≤ 0)) as [Hn|Hn].
    + exists buf. pose proof (postrotate_limit_spec n4').
      unfold imdct_postrotate_f32, imdct_postrotate_scalar.
      by rewrite !decide_True by lia.
    + apply postrotate_impl_scalar; [done | lia].
Qed.

Lemma imdct_vector_scalar_agree_witness :
  prerotate_valid Samples.out6 Samples.spec6 Samples.trig6 6 3 ∧
  postrotate_valid Samples.buf10 Samples.trig10 10 5 ∧
  (∃ out', imdct_prerotate_f32 Samples.spec6 Samples.trig6 6 3 Samples.out6 = Some out' ∧
           imdct_prerotate_scalar Samples.spec6 Samples.trig6 6 3 Samples.out6 = Some out') ∧
  (∃ buf', imdct_postrotate_f32 Samples.trig10 10 5 Samples.buf10 = Some buf' ∧
           imdct_postrotate_scalar Samples.trig10 10 5 Samples.buf10 = Some buf').
Proof.
  assert (prerotate_valid Samples.out6 Samples.spec6 Samples.trig6 6 3) as Hpre.
  { unfold prerotate_valid. simpl. lia. }
  assert (postrotate_valid Samples.buf10 Samples.trig10 10 5) as Hpost.
  { unfold postrotate_valid. simpl. lia. }
  split; [exact Hpre|]. split; [exact Hpost|].
  exact (imdct_vector_scalar_agree _ _ _ _ _ _ _ _ _ Hpre Hpost).
Defined.

(** C2.  [imdct_postrotate_f32] with [n4 <= 0], so with [n4 = 0], runs no
    iteration and returns the buffer as it received it.  With [n4 >= 1], on
    buffers that satisfy the caller's contract, it returns what
    [ceil (n4 / 2)] paired iterations return, started with the cursors
    [low = 0] and [high = n2 - 2] and each moving them by [+2] and [-2]; and
    for every iteration [i], with [(im, re) = (buf[low], buf[low + 1])] at
    [low = 2*i], [t0 = trig[i]] and [t1 = trig[n4 + i]], the cell [low] of
    the result holds [yr = re*t0 + im*t1] and the cell [high + 1], at
    [high = n2 - 2 - 2*i], holds [yi = re*t1 - im*t0]. *)
Theorem imdct_postrotate_f32_low_half {F : Type} `{FloatOps F}
    (buf trig : list F) (n2 n4 : Z) :
  (n4 ≤ 0 →
   imdct_postrotate_f32 trig n2 n4 buf = Some buf ∧
   postrotate_paired_iterations trig n2 n4 buf = Some (PS 0 0 (n2 - 2) buf)) ∧
  (1 ≤ n4 → postrotate_valid buf trig n2 n4 →
   ∃ buf', imdct_postrotate_f32 trig n2 n4 buf = Some buf' ∧
     postrotate_paired_iterations trig n2 n4 buf
       = Some (PS (ceil_half n4) (2 * ceil_half n4) (n2 - 2 - 2 * ceil_half n4) buf') ∧
     ∀ i, 0 ≤ i < ceil_half n4 →
       let low := 2 * i in
       let high := n2 - 2 - 2 * i in
       ∃ im re t0 t1,
         ld buf low = Some im ∧ ld buf (low + 1) = Some re ∧
         ld trig i = Some t0 ∧ ld trig (n4 + i) = Some t1 ∧
         ld buf' low = Some (fadd (fmul re t0) (fmul im t1)) ∧
         ld buf' (high + 1) = Some (fsub (fmul re t1) (fmul im t0))).
Proof.
  split.
  - intros Hn4. pose proof (postrotate_limit_spec n4) as HL. split.
    + unfold imdct_postrotate_f32. by rewrite decide_True by lia.
    + unfold postrotate_paired_iterations. rewrite ceil_half_limit.
      by replace (Z.to_nat (postrotate_limit n4)) with O by lia.
  - intros Hn4 Hvalid.
    destruct (postrotate_impl_iterations trig n2 n4 buf Hvalid Hn4)
      as (buf' & Hrun & Hit & Hlen & Hw & Hr).
    exists buf'. split; [done|]. rewrite ceil_half_limit. split; [done|].
    intros i Hi low high. destruct Hvalid as (Hn2 & Htrig & Hbuf).
    pose proof (postrotate_limit_spec n4) as HL.
    destruct (ld_inb buf low) as [im Him]; [subst low; inb_tac|].
    destruct (ld_inb buf (low + 1)) as [re Hre]; [subst low; inb_tac|].
    destruct (ld_inb trig i) as [t0 Ht0]; [inb_tac|].
    destruct (ld_inb trig (n4 + i)) as [t1 Ht1]; [inb_tac|].
    exists im, re, t0, t1. do 4 (split; [done|]).
    destruct (Hw i Hi) as (Ha & _ & _ & Hd). unfold post_low_yr, post_low_yi in Ha, Hd.
    subst low high. rewrite Him, Hre, Ht0, Ht1 in Ha, Hd. done.
Qed.

Lemma imdct_postrotate_f32_low_half_witness :
  1 ≤ 3 ∧ postrotate_valid Samples.buf6 Samples.trig6 6 3 ∧
  ∃ buf', imdct_postrotate_f32 Samples.trig6 6 3 Samples.buf6 = Some buf' ∧
    postrotate_paired_iterations Samples.trig6 6 3 Samples.buf6
      = Some (PS (ceil_half 3) (2 * ceil_half 3) (6 - 2 - 2 * ceil_half 3) buf') ∧
    ∀ i, 0 ≤ i < ceil_half 3 →
      let low := 2 * i in
      let high := 6 - 2 - 2 * i in
      ∃ im re t0 t1,
        ld Samples.buf6 low = Some im ∧ ld Samples.buf6 (low + 1) = Some re ∧
        ld Samples.trig6 i = Some t0 ∧ ld Samples.trig6 (3 + i) = Some t1 ∧
        ld buf' low = Some (fadd (fmul re t0) (fmul im t1)) ∧
        ld buf' (high + 1) = Some (fsub (fmul re t1) (fmul im t0)).
Proof.
  assert (postrotate_valid Samples.buf6 Samples.trig6 6 3) as Hv.
  { unfold postrotate_valid. simpl. lia. }
  split; [lia|]. split; [exact Hv|].
  apply (proj2 (imdct_postrotate_f32_low_half Samples.buf6 Samples.trig6 6 3));
    [lia | exact Hv].
Defined.

(** C3.  In every paired iteration [i] of the postrotation the high sample,
    read at the cursor [high = n2 - 2 - 2*i] as
    [(im, re) = (buf[high], buf[high + 1])] (the cursor runs downwards, so
    the vector loop reverses its lanes), is rotated by the formula of the
    low half with [t0 = trig[n4 - i - 1]] and [t1 = trig[n2 - i - 1]]: in the
    result [yi = re*t1 - im*t0] is in the cell [low + 1] of the low slot and
    [yr = re*t0 + im*t1] in the cell [high] of the high slot, while the low
    half's results are in [low] and [high + 1] (C2): the results cross. *)
Theorem imdct_postrotate_f32_high_half {F : Type} `{FloatOps F}
    (buf trig : list F) (n2 n4 : Z) :
  1 ≤ n4 → postrotate_valid buf trig n2 n4 →
  ∃ buf', imdct_postrotate_f32 trig n2 n4 buf = Some buf' ∧
    ∀ i, 0 ≤ i < ceil_half n4 →
      let low := 2 * i in
      let high := n2 - 2 - 2 * i in
      ∃ im re t0 t1,
        ld buf high = Some im ∧ ld buf (high + 1) = Some re ∧
        ld trig (n4 - i - 1) = Some t0 ∧ ld trig (n2 - i - 1) = Some t1 ∧
        ld buf' (low + 1) = Some (fsub (fmul re t1) (fmul im t0)) ∧
        ld buf' high = Some (fadd (fmul re t0) (fmul im t1)).
Proof.
  intros Hn4 Hvalid.
  destruct (postrotate_done_impl trig n2 n4 buf Hvalid Hn4)
    as (buf' & Hrun & Hlen & Hw & Hr).
  exists buf'. split; [done|]. rewrite ceil_half_limit.
  intros i Hi low high. destruct Hvalid as (Hn2 & Htrig & Hbuf).
  pose proof (postrotate_limit_spec n4) as HL.
  destruct (ld_inb buf high) as [im Him]; [subst high; inb_tac|].
  destruct (ld_inb buf (high + 1)) as [re Hre]; [subst high; inb_tac|].
  destruct (ld_inb trig (n4 - i - 1)) as [t0 Ht0]; [inb_tac|].
  destruct (ld_inb trig (n2 - i - 1)) as [t1 Ht1]; [inb_tac|].
  exists im, re, t0, t1. do 4 (split; [done|]).
  destruct (Hw i Hi) as (_ & Hb & Hc & _). unfold post_high_yr, post_high_yi in Hb, Hc.
  subst low high. rewrite Him, Hre, Ht0, Ht1 in Hb, Hc. done.
Qed.

Lemma imdct_postrotate_f32_high_half_witness :
  1 ≤ 5 ∧ postrotate_valid Samples.buf10 Samples.trig10 10 5 ∧
  ∃ buf', imdct_postrotate_f32 Samples.trig10 10 5 Samples.buf10 = Some buf' ∧
    ∀ i, 0 ≤ i < ceil_half 5 →
      let low := 2 * i in
      let high := 10 - 2 - 2 * i in
      ∃ im re t0 t1,
        ld Samples.buf10 high = Some im ∧ ld Samples.buf10 (high + 1) = Some re ∧
        ld Samples.trig10 (5 - i - 1) = Some t0 ∧ ld Samples.trig10 (10 - i - 1) = Some t1 ∧
        ld buf' (low + 1) = Some (fsub (fmul re t1) (fmul im t0)) ∧
        ld buf' high = Some (fadd (fmul re t0) (fmul im t1)).
Proof.
  assert (postrotate_valid Samples.buf10 Samples.trig10 10 5) as Hv.
  { unfold postrotate_valid. simpl. lia. }
  split; [lia|]. split; [exact Hv|].
  apply (imdct_postrotate_f32_high_half Samples.buf10 Samples.trig10 10 5); [lia | exact Hv].
Defined.

(** The postrotation of the sample inputs, on binary32 numbers. *)
Example imdct_postrotate_f32_sample6 :
  (fmap (M := list) proj1_sig) <$> imdct_postrotate_f32 Samples.trig6 6 3 Samples.buf6
  = Some (proj1_sig <$> (Samples.fl <$> [-2; -33; -14; 12; -17; -4])).
Proof. vm_compute. reflexivity. Qed.

(** C10.  When [n4 = 2*i + 1] is odd, the last paired iteration, [i], of the
    postrotation finds both cursors on the middle sample,
    [low = high = n4 - 1], and its high half uses the trig entries of its low
    half ([n4 - i - 1 = i], [n2 - i - 1 = n4 + i]).  With
    [(im, re) = (buf[n4 - 1], buf[n4])], [t0 = trig[i]], [t1 = trig[n4 + i]]:
    - the kernel as implemented leaves [yr = re*t0 + im*t1] and
      [yi = re*t1 - im*t0] in the two cells of the middle sample;
    - in the scalar loop the iteration reads the sample, [(re2, im2)]
      included, before it writes, the low half writes [yr] and [yi], and
      the high half's writes leave the buffer as it is: they store the same
      values again;
    - when the vector loop covers the iteration ([i >= 1], second pair of
      the vector iteration [i - 1]), the registers [vlow] and [vhi] overlap
      on the middle sample, the lanes of [out_lo] and [out_hi] that go to
      the same cells are identical, [yr] and [yi], and these are the values
      that the iteration leaves there. *)
Theorem imdct_postrotate_f32_middle {F : Type} `{FloatOps F}
    (buf trig : list F) (n2 n4 i : Z) :
  postrotate_valid buf trig n2 n4 → 0 ≤ i → n4 = 2 * i + 1 →
  n4 - i - 1 = i ∧ n2 - i - 1 = n4 + i ∧
  ∃ im re t0 t1,
    ld buf (n4 - 1) = Some im ∧ ld buf (n4 - 1 + 1) = Some re ∧
    ld trig i = Some t0 ∧ ld trig (n4 + i) = Some t1 ∧
    let yr := fadd (fmul re t0) (fmul im t1) in
    let yi := fsub (fmul re t1) (fmul im t0) in
    (∃ buf', imdct_postrotate_f32 trig n2 n4 buf = Some buf' ∧
       ld buf' (n4 - 1) = Some yr ∧ ld buf' (n4 - 1 + 1) = Some yi) ∧
    (∃ b b1,
       iterate (Z.to_nat i) (postrotate_scalar_body trig n2 n4) (PS 0 0 (n2 - 2) buf)
         = Some (PS i (n4 - 1) (n4 - 1) b) ∧
       postrotate_low_half trig n4 i (n4 - 1) (n4 - 1) b = Some (b1, (re, im)) ∧
       ld b1 (n4 - 1) = Some yr ∧ ld b1 (n4 - 1 + 1) = Some yi ∧
       postrotate_high_half trig n2 n4 i (n4 - 1) (n4 - 1) re im b1 = Some b1) ∧
    (1 ≤ i →
     ∃ b b' vlow vhi t0v t1v t0b t1b,
       iterate (Z.to_nat (i - 1)) (postrotate_scalar_body trig n2 n4) (PS 0 0 (n2 - 2) buf)
         = Some (PS (i - 1) (n4 - 3) (n4 + 1) b) ∧
       vld1q_f32 b (n4 - 3) = Some vlow ∧ vld1q_f32 b (n4 + 1 - 2) = Some vhi ∧
       vld1_f32 trig (i - 1) = Some t0v ∧ vld1_f32 trig (n4 + (i - 1)) = Some t1v ∧
       vld1_f32 trig (n4 - (i - 1) - 2) = Some t0b ∧
       vld1_f32 trig (n2 - (i - 1) - 2) = Some t1b ∧
       q2 vlow = q0 vhi ∧ q3 vlow = q1 vhi ∧
       (let '(out_lo, out_hi) := postrotate_vec_arith vlow vhi t0v t1v t0b t1b in
        q2 out_lo = q0 out_hi ∧ q3 out_lo = q1 out_hi ∧
        q0 out_hi = yr ∧ q1 out_hi = yi) ∧
       postrotate_vec_body trig n2 n4 (PS (i - 1) (n4 - 3) (n4 + 1) b)
         = Some (PS (i + 1) (n4 + 1) (n4 - 3) b') ∧
       ld b' (n4 - 1) = Some yr ∧ ld b' (n4 - 1 + 1) = Some yi).
Proof.
  intros Hvalid Hi Hodd. pose proof Hvalid as (Hn2 & Htrig & Hbuf).
  split; [lia|]. split; [lia|].
  destruct (postrotate_iterations_middle trig n2 n4 buf Hvalid i Hi Hodd)
    as (b & Hit & Hdone).
  destruct (postrotate_middle_scalar trig n2 n4 buf Hvalid i Hi Hodd b Hdone)
    as (im & re & t0 & t1 & b1 & Him & Hre & Ht0 & Ht1 & Hlow & Hyr & Hyi & Hhigh).
  exists im, re, t0, t1. do 4 (split; [done|]). intros yr yi. split; [|split].
  - destruct (postrotate_done_impl trig n2 n4 buf Hvalid) as (buf' & Hrun & _ & Hw & _);
      [lia|].
    exists buf'. split; [done|].
    destruct (Hw i) as (Ha & Hb & _ & _);
      [rewrite (postrotate_middle_limit n4 i); lia|].
    unfold post_low_yr, post_high_yi in Ha, Hb.
    replace (2 * i) with (n4 - 1) in Ha, Hb by lia.
    replace (n2 - 2 - (n4 - 1)) with (n4 - 1) in Hb by lia.
    replace (n4 - i - 1) with i in Hb by lia.
    replace (n2 - i - 1) with (n4 + i) in Hb by lia.
    rewrite Him, Hre, Ht0, Ht1 in Ha, Hb. done.
  - by exists b, b1.
  - intros Hi1.
    destruct (postrotate_iterations_prefix trig n2 n4 buf Hvalid i Hi Hodd (i - 1))
      as (b0 & Hit0 & Hinv0); [lia|].
    destruct (postrotate_middle_vec_body trig n2 n4 buf Hvalid i Hi Hodd b0 Hi1 Hinv0)
      as (b' & im' & re' & t0' & t1' & Hbody & Him' & Hre' & Ht0' & Ht1' & Hyr' & Hyi').
    assert (im' = im ∧ re' = re ∧ t0' = t0 ∧ t1' = t1) as (-> & -> & -> & ->)
      by (repeat split; congruence).
    pose proof Hinv0 as (_ & _ & _ & Hlen0 & _ & Hr0). simpl in Hlen0, Hr0.
    destruct (postrotate_middle_vec trig n2 n4 buf Hvalid i Hodd b0 im re t0 t1)
      as (vlow & vhi & t0v & t1v & t0b & t1b & Hl); try done.
    { rewrite Hr0 by lia. done. }
    { rewrite Hr0 by lia. done. }
    assert (2 * (i - 1) = n4 - 3) as E1 by lia.
    assert (n2 - 2 - 2 * (i - 1) = n4 + 1) as E2 by lia.
    assert (2 * (i + 1) = n4 + 1) as E3 by lia.
    assert (n2 - 2 - 2 * (i + 1) = n4 - 3) as E4 by lia.
    rewrite E2, E1 in Hit0, Hbody. rewrite E4, E3 in Hbody.
    exists b0, b', vlow, vhi, t0v, t1v, t0b, t1b.
    split; [done|]. destruct Hl as (? & ? & ? & ? & ? & ? & ? & ? & Harith).
    repeat (split; [done|]). done.
Qed.

Lemma imdct_postrotate_f32_middle_witness :
  postrotate_valid Samples.buf6 Samples.trig6 6 3 ∧ 0 ≤ 1 ∧ 3 = 2 * 1 + 1 ∧
  3 - 1 - 1 = 1 ∧ 6 - 1 - 1 = 3 + 1 ∧
  ∃ im re t0 t1,
    ld Samples.buf6 (3 - 1) = Some im ∧ ld Samples.buf6 (3 - 1 + 1) = Some re ∧
    ld Samples.trig6 1 = Some t0 ∧ ld Samples.trig6 (3 + 1) = Some t1 ∧
    let yr := fadd (fmul re t0) (fmul im t1) in
    let yi := fsub (fmul re t1) (fmul im t0) in
    (∃ buf', imdct_postrotate_f32 Samples.trig6 6 3 Samples.buf6 = Some buf' ∧
       ld buf' (3 - 1) = Some yr ∧ ld buf' (3 - 1 + 1) = Some yi) ∧
    (∃ b b1,
       iterate (Z.to_nat 1) (postrotate_scalar_body Samples.trig6 6 3)
         (PS 0 0 (6 - 2) Samples.buf6)
         = Some (PS 1 (3 - 1) (3 - 1) b) ∧
       postrotate_low_half Samples.trig6 3 1 (3 - 1) (3 - 1) b = Some (b1, (re, im)) ∧
       ld b1 (3 - 1) = Some yr ∧ ld b1 (3 - 1 + 1) = Some yi ∧
       postrotate_high_half Samples.trig6 6 3 1 (3 - 1) (3 - 1) re im b1 = Some b1) ∧
    (1 ≤ 1 →
     ∃ b b' vlow vhi t0v t1v t0b t1b,
       iterate (Z.to_nat (1 - 1)) (postrotate_scalar_body Samples.trig6 6 3)
         (PS 0 0 (6 - 2) Samples.buf6)
         = Some (PS (1 - 1) (3 - 3) (3 + 1) b) ∧
       vld1q_f32 b (3 - 3) = Some vlow ∧ vld1q_f32 b (3 + 1 - 2) = Some vhi ∧
       vld1_f32 Samples.trig6 (1 - 1) = Some t0v ∧
       vld1_f32 Samples.trig6 (3 + (1 - 1)) = Some t1v ∧
       vld1_f32 Samples.trig6 (3 - (1 - 1) - 2) = Some t0b ∧
       vld1_f32 Samples.trig6 (6 - (1 - 1) - 2) = Some t1b ∧
       q2 vlow = q0 vhi ∧ q3 vlow = q1 vhi ∧
       (let '(out_lo, out_hi) := postrotate_vec_arith vlow vhi t0v t1v t0b t1b in
        q2 out_lo = q0 out_hi ∧ q3 out_lo = q1 out_hi ∧
        q0 out_hi = yr ∧ q1 out_hi = yi) ∧
       postrotate_vec_body Samples.trig6 6 3 (PS (1 - 1) (3 - 3) (3 + 1) b)
         = Some (PS (1 + 1) (3 + 1) (3 - 3) b') ∧
       ld b' (3 - 1) = Some yr ∧ ld b' (3 - 1 + 1) = Some yi).
Proof.
  assert (postrotate_valid Samples.buf6 Samples.trig6 6 3) as Hv.
  { unfold postrotate_valid. simpl. lia. }
  split; [exact Hv|]. split; [lia|]. split; [lia|].
  apply (imdct_postrotate_f32_middle Samples.buf6 Samples.trig6 6 3 1 Hv); lia.
Defined.

(** ** The butterflies *)

(** C6.  With [n >= 1] groups of three samples, group [i] at [fout + i*mm],
    that do not overlap and lie inside the buffer, [kf_bfly3_m1] with
    [epi = tw[fstride].i] replaces each group [(f0, f1, f2)] by
    [f0' = f0 + sum], [f1' = mid - rot], [f2' = mid + rot], where
    [sum = f1 + f2], [diff = f1 - f2], [mid = f0 - 0.5 * sum] and
    [rot = rotate90 diff * epi], [rotate90] being the swap of the two lanes
    with the second one negated.  The values are those of IEEE-754
    arithmetic: the kernel multiplies by the constants [1.0f] and [-1.0f]
    where the formula negates, and by [0.5f] on the other side. *)
Theorem kf_bfly3_m1_butterfly {F : Type} `{FloatLaws F}
    (fout tw : list (kissCpx F)) (fstride n mm : Z) :
  1 ≤ n → groups_valid fout n mm 3 → inb tw fstride →
  ∃ t fout',
    ld tw fstride = Some t ∧
    kf_bfly3_m1 tw fstride n mm fout = Some fout' ∧
    length fout' = length fout ∧
    ∀ i, 0 ≤ i < n →
      ∃ f0 f1 f2,
        ld fout (i * mm) = Some f0 ∧ ld fout (i * mm + 1) = Some f1 ∧
        ld fout (i * mm + 2) = Some f2 ∧
        let epi := cpx_i t in
        let sum := c_add f1 f2 in
        let diff := c_sub f1 f2 in
        let mid := c_sub f0 (c_scale_l f_half sum) in
        let rot := c_scale_r (rot_pos diff) epi in
        ld fout' (i * mm) = Some (c_add f0 sum) ∧
        ld fout' (i * mm + 1) = Some (c_sub mid rot) ∧
        ld fout' (i * mm + 2) = Some (c_add mid rot).
Proof.
  intros Hn Hvalid Htw. destruct (ld_inb tw fstride Htw) as [t Ht].
  destruct (kf_bfly3_m1_done tw fstride n mm fout t Hvalid Hn Ht)
    as (fout' & Hrun & Hlen & Hg & _).
  exists t, fout'. do 3 (split; [done|]). intros i Hi. exact (Hg i Hi).
Qed.

Lemma kf_bfly3_m1_butterfly_witness :
  1 ≤ 2 ∧ groups_valid Samples.cbuf8 2 4 3 ∧ inb Samples.ctw 1 ∧
  ∃ t fout',
    ld Samples.ctw 1 = Some t ∧
    kf_bfly3_m1 Samples.ctw 1 2 4 Samples.cbuf8 = Some fout' ∧
    length fout' = length Samples.cbuf8 ∧
    ∀ i, 0 ≤ i < 2 →
      ∃ f0 f1 f2,
        ld Samples.cbuf8 (i * 4) = Some f0 ∧ ld Samples.cbuf8 (i * 4 + 1) = Some f1 ∧
        ld Samples.cbuf8 (i * 4 + 2) = Some f2 ∧
        let epi := cpx_i t in
        let sum := c_add f1 f2 in
        let diff := c_sub f1 f2 in
        let mid := c_sub f0 (c_scale_l f_half sum) in
        let rot := c_scale_r (rot_pos diff) epi in
        ld fout' (i * 4) = Some (c_add f0 sum) ∧
        ld fout' (i * 4 + 1) = Some (c_sub mid rot) ∧
        ld fout' (i * 4 + 2) = Some (c_add mid rot).
Proof.
  assert (groups_valid Samples.cbuf8 2 4 3) as Hv.
  { unfold groups_valid. simpl. lia. }
  assert (inb Samples.ctw 1) as Ht.
  { unfold inb. simpl. lia. }
  split; [lia|]. split; [exact Hv|]. split; [exact Ht|].
  apply (kf_bfly3_m1_butterfly Samples.cbuf8 Samples.ctw 1 2 4); [lia | exact Hv | exact Ht].
Defined.

(** C7.  With [n >= 0] contiguous groups of four samples inside the buffer,
    [kf_bfly4_m1] replaces each group [(f0, f1, f2, f3)] as follows: with
    the sums [a = f0 + f2], [b = f1 + f3] and the differences
    [s0 = f0 - f2], [s1 = f1 - f3], the slots [0] and [2] receive [a + b]
    and [a - b], the slots [1] and [3] receive [s0] plus a quarter turn of
    [s1], one turn in each direction: [s1] with its lanes swapped and the
    second lane negated (the kernel's [rotpos]) for slot [1], the first
    lane negated ([rotneg]) for slot [3]. *)
Theorem kf_bfly4_m1_butterfly {F : Type} `{FloatOps F}
    (fout : list (kissCpx F)) (n : Z) :
  0 ≤ n → 4 * n ≤ Z.of_nat (length fout) →
  ∃ fout',
    kf_bfly4_m1 n fout = Some fout' ∧
    length fout' = length fout ∧
    ∀ i, 0 ≤ i < n →
      ∃ f0 f1 f2 f3,
        ld fout (4 * i) = Some f0 ∧ ld fout (4 * i + 1) = Some f1 ∧
        ld fout (4 * i + 2) = Some f2 ∧ ld fout (4 * i + 3) = Some f3 ∧
        let a := c_add f0 f2 in
        let b := c_add f1 f3 in
        let s0 := c_sub f0 f2 in
        let s1 := c_sub f1 f3 in
        ld fout' (4 * i) = Some (c_add a b) ∧
        ld fout' (4 * i + 1) = Some (c_add s0 (rot_pos s1)) ∧
        ld fout' (4 * i + 2) = Some (c_sub a b) ∧
        ld fout' (4 * i + 3) = Some (c_add s0 (rot_neg s1)).
Proof.
  intros Hn Hvalid.
  destruct (kf_bfly4_m1_done n fout Hvalid Hn) as (fout' & Hrun & Hlen & Hg & _).
  exists fout'. do 2 (split; [done|]). intros i Hi. exact (Hg i Hi).
Qed.

Lemma kf_bfly4_m1_butterfly_witness :
  0 ≤ 2 ∧ 4 * 2 ≤ Z.of_nat (length Samples.cbuf8) ∧
  ∃ fout',
    kf_bfly4_m1 2 Samples.cbuf8 = Some fout' ∧
    length fout' = length Samples.cbuf8 ∧
    ∀ i, 0 ≤ i < 2 →
      ∃ f0 f1 f2 f3,
        ld Samples.cbuf8 (4 * i) = Some f0 ∧ ld Samples.cbuf8 (4 * i + 1) = Some f1 ∧
        ld Samples.cbuf8 (4 * i + 2) = Some f2 ∧ ld Samples.cbuf8 (4 * i + 3) = Some f3 ∧
        let a := c_add f0 f2 in
        let b := c_add f1 f3 in
        let s0 := c_sub f0 f2 in
        let s1 := c_sub f1 f3 in
        ld fout' (4 * i) = Some (c_add a b) ∧
        ld fout' (4 * i + 1) = Some (c_add s0 (rot_pos s1)) ∧
        ld fout' (4 * i + 2) = Some (c_sub a b) ∧
        ld fout' (4 * i + 3) = Some (c_add s0 (rot_neg s1)).
Proof.
  assert (4 * 2 ≤ Z.of_nat (length Samples.cbuf8)) as Hv by (simpl; lia).
  split; [lia|]. split; [exact Hv|].
  apply (kf_bfly4_m1_butterfly Samples.cbuf8 2); [lia | exact Hv].
Defined.

(** C8.  With [n >= 1] groups of five samples, group [i] at [fout + i*mm],
    that do not overlap and lie inside the buffer, [kf_bfly5_m1] with
    [ya = tw[fstride]] and [yb = tw[2*fstride]] computes
    [s_a = f1 + f4], [d_a = f1 - f4], [s_b = f2 + f3], [d_b = f2 - f3] and
    writes [f0' = f0 + (s_a + s_b)]; [f1'] and [f4'] are
    [centre1 - offset1] and [centre1 + offset1] around
    [centre1 = f0 + (ya.r*s_a + yb.r*s_b)]; [f2'] and [f3'] are
    [centre2 + offset2] and [centre2 - offset2] around
    [centre2 = f0 + (yb.r*s_a + ya.r*s_b)].  Each offset is a combination of
    [d_a] and [d_b] with their lanes swapped, weighted by [ya.i] and [yb.i],
    its second lane negated: [swap d_a * ya.i + swap d_b * yb.i] for
    [offset1], [swap d_b * ya.i - swap d_a * yb.i] for [offset2].  The sums
    are grouped as written here; the values are those of IEEE-754
    arithmetic. *)
Theorem kf_bfly5_m1_butterfly {F : Type} `{FloatLaws F}
    (fout tw : list (kissCpx F)) (fstride n mm : Z) :
  1 ≤ n → groups_valid fout n mm 5 → inb tw fstride → inb tw (2 * fstride) →
  ∃ ya yb fout',
    ld tw fstride = Some ya ∧ ld tw (2 * fstride) = Some yb ∧
    kf_bfly5_m1 tw fstride n mm fout = Some fout' ∧
    length fout' = length fout ∧
    ∀ i, 0 ≤ i < n →
      ∃ f0 f1 f2 f3 f4,
        ld fout (i * mm) = Some f0 ∧ ld fout (i * mm + 1) = Some f1 ∧
        ld fout (i * mm + 2) = Some f2 ∧ ld fout (i * mm + 3) = Some f3 ∧
        ld fout (i * mm + 4) = Some f4 ∧
        let s_a := c_add f1 f4 in
        let d_a := c_sub f1 f4 in
        let s_b := c_add f2 f3 in
        let d_b := c_sub f2 f3 in
        let centre1 :=
          c_add f0 (c_add (c_scale_l (cpx_r ya) s_a) (c_scale_l (cpx_r yb) s_b)) in
        let centre2 :=
          c_add f0 (c_add (c_scale_l (cpx_r yb) s_a) (c_scale_l (cpx_r ya) s_b)) in
        let w1 :=
          c_add (c_scale_r (c_swap d_a) (cpx_i ya)) (c_scale_r (c_swap d_b) (cpx_i yb)) in
        let w2 :=
          c_sub (c_scale_r (c_swap d_b) (cpx_i ya)) (c_scale_r (c_swap d_a) (cpx_i yb)) in
        let offset1 := Cpx (cpx_r w1) (fneg (cpx_i w1)) in
        let offset2 := Cpx (cpx_r w2) (fneg (cpx_i w2)) in
        ld fout' (i * mm) = Some (c_add f0 (c_add s_a s_b)) ∧
        ld fout' (i * mm + 1) = Some (c_sub centre1 offset1) ∧
        ld fout' (i * mm + 2) = Some (c_add centre2 offset2) ∧
        ld fout' (i * mm + 3) = Some (c_sub centre2 offset2) ∧
        ld fout' (i * mm + 4) = Some (c_add centre1 offset1).
Proof.
  intros Hn Hvalid Hta Htb.
  destruct (ld_inb tw fstride Hta) as [ya Hya].
  destruct (ld_inb tw (2 * fstride) Htb) as [yb Hyb].
  destruct (kf_bfly5_m1_done tw fstride n mm fout ya yb Hvalid Hn Hya Hyb)
    as (fout' & Hrun & Hlen & Hg & _).
  exists ya, yb, fout'. do 4 (split; [done|]). intros i Hi. exact (Hg i Hi).
Qed.

Lemma kf_bfly5_m1_butterfly_witness :
  1 ≤ 2 ∧ groups_valid Samples.cbuf12 2 6 5 ∧ inb Samples.ctw 2 ∧ inb Samples.ctw (2 * 2) ∧
  ∃ ya yb fout',
    ld Samples.ctw 2 = Some ya ∧ ld Samples.ctw (2 * 2) = Some yb ∧
    kf_bfly5_m1 Samples.ctw 2 2 6 Samples.cbuf12 = Some fout' ∧
    length fout' = length Samples.cbuf12 ∧
    ∀ i, 0 ≤ i < 2 →
      ∃ f0 f1 f2 f3 f4,
        ld Samples.cbuf12 (i * 6) = Some f0 ∧ ld Samples.cbuf12 (i * 6 + 1) = Some f1 ∧
        ld Samples.cbuf12 (i * 6 + 2) = Some f2 ∧ ld Samples.cbuf12 (i * 6 + 3) = Some f3 ∧
        ld Samples.cbuf12 (i * 6 + 4) = Some f4 ∧
        let s_a := c_add f1 f4 in
        let d_a := c_sub f1 f4 in
        let s_b := c_add f2 f3 in
        let d_b := c_sub f2 f3 in
        let centre1 :=
          c_add f0 (c_add (c_scale_l (cpx_r ya) s_a) (c_scale_l (cpx_r yb) s_b)) in
        let centre2 :=
          c_add f0 (c_add (c_scale_l (cpx_r yb) s_a) (c_scale_l (cpx_r ya) s_b)) in
        let w1 :=
          c_add (c_scale_r (c_swap d_a) (cpx_i ya)) (c_scale_r (c_swap d_b) (cpx_i yb)) in
        let w2 :=
          c_sub (c_scale_r (c_swap d_b) (cpx_i ya)) (c_scale_r (c_swap d_a) (cpx_i yb)) in
        let offset1 := Cpx (cpx_r w1) (fneg (cpx_i w1)) in
        let offset2 := Cpx (cpx_r w2) (fneg (cpx_i w2)) in
        ld fout' (i * 6) = Some (c_add f0 (c_add s_a s_b)) ∧
        ld fout' (i * 6 + 1) = Some (c_sub centre1 offset1) ∧
        ld fout' (i * 6 + 2) = Some (c_add centre2 offset2) ∧
        ld fout' (i * 6 + 3) = Some (c_sub centre2 offset2) ∧
        ld fout' (i * 6 + 4) = Some (c_add centre1 offset1).
Proof.
  assert (groups_valid Samples.cbuf12 2 6 5) as Hv.
  { unfold groups_valid. simpl. lia. }
  assert (inb Samples.ctw 2) as Hta by (unfold inb; simpl; lia).
  assert (inb Samples.ctw (2 * 2)) as Htb by (unfold inb; simpl; lia).
  split; [lia|]. split; [exact Hv|]. split; [exact Hta|]. split; [exact Htb|].
  apply (kf_bfly5_m1_butterfly Samples.cbuf12 Samples.ctw 2 2 6);
    [lia | exact Hv | exact Hta | exact Htb].
Defined.

(** C5.  On a buffer that covers the [n] groups and a twiddle table that
    covers the [m] positions, the fast path of [kf_bfly4_mx] (the branch
    [fstride == 1]: the pair loop, then the one-position loop on what
    remains) and the general path run with [fstride = 1] return the same
    buffer; the kernel called with [fstride = 1] returns it. *)
Theorem kf_bfly4_mx_fast_path_agrees {F : Type} `{FloatOps F}
    (fout tw : list (kissCpx F)) (m n mm : Z) :
  mx_bounds fout tw m n 1 mm →
  ∃ fout',
    kf_bfly4_mx_fast tw m n mm fout = Some fout' ∧
    kf_bfly4_mx_general tw m n mm 1 fout = Some fout' ∧
    kf_bfly4_mx tw m n mm 1 fout = Some fout'.
Proof.
  intros Hbounds.
  destruct (kf_bfly4_mx_paths tw m n mm fout Hbounds) as (fout' & Hfast & Hgen & _).
  exists fout'. do 2 (split; [done|]). unfold kf_bfly4_mx. by rewrite decide_True.
Qed.

Lemma kf_bfly4_mx_fast_path_agrees_witness :
  mx_bounds Samples.cbuf12 Samples.ctw 3 1 1 12 ∧
  ∃ fout',
    kf_bfly4_mx_fast Samples.ctw 3 1 12 Samples.cbuf12 = Some fout' ∧
    kf_bfly4_mx_general Samples.ctw 3 1 12 1 Samples.cbuf12 = Some fout' ∧
    kf_bfly4_mx Samples.ctw 3 1 12 1 Samples.cbuf12 = Some fout'.
Proof.
  assert (mx_bounds Samples.cbuf12 Samples.ctw 3 1 1 12) as Hb.
  { unfold mx_bounds, inb. simpl. repeat split; lia. }
  split; [exact Hb|].
  exact (kf_bfly4_mx_fast_path_agrees Samples.cbuf12 Samples.ctw 3 1 12 Hb).
Defined.

(** The two paths on the sample input, on binary32 numbers. *)
Example kf_bfly4_mx_sample :
  kf_bfly4_mx_fast Samples.ctw 3 1 12 Samples.cbuf12
  = kf_bfly4_mx_general Samples.ctw 3 1 12 1 Samples.cbuf12
  ∧ (λ c, (proj1_sig (cpx_r c), proj1_sig (cpx_i c))) <$>
      default [] (kf_bfly4_mx Samples.ctw 3 1 12 1 Samples.cbuf12)
    = (λ c, (proj1_sig (cpx_r c), proj1_sig (cpx_i c))) <$>
      [Samples.cx 5 6; Samples.cx (-7) 14; Samples.cx (-5) 9; Samples.cx 1 (-2);
       Samples.cx 0 (-33); Samples.cx (-3) 15; Samples.cx (-9) 0; Samples.cx 21 8;
       Samples.cx (-1) (-3); Samples.cx 7 4; Samples.cx (-2) 7; Samples.cx 1 (-5)].
Proof. vm_compute. split; reflexivity. Qed.

(** C4.  With [n >= 1] groups and [m >= 1] positions, the groups
    ([4 * m] samples from [fout + i*mm]) not overlapping and inside the
    buffer, the twiddles inside their table, and any [fstride],
    [kf_bfly4_mx] replaces, at every position [j] of every group [i], the
    four samples [f[j]], [f[j + m]], [f[j + 2*m]], [f[j + 3*m]] by the
    radix-4 butterfly of section 4.4 (the one that [kf_bfly4_m1] computes,
    C7) of [f[j]] and the three products of the samples [1], [2], [3] with
    the twiddles [tw[j*fstride]], [tw[j*2*fstride]], [tw[j*3*fstride]], a
    product being [(a.re*b.re - a.im*b.im, a.re*b.im + a.im*b.re)].  The
    values are those of IEEE-754 arithmetic: the kernel multiplies by the
    constants [1.0f] and [-1.0f] where the formulas negate. *)
Theorem kf_bfly4_mx_butterfly {F : Type} `{FloatLaws F}
    (fout tw : list (kissCpx F)) (m n fstride mm : Z) :
  1 ≤ n → 1 ≤ m → groups_valid fout n mm (4 * m) →
  (∀ j, 0 ≤ j < m →
     inb tw (j * fstride) ∧ inb tw (j * 2 * fstride) ∧ inb tw (j * 3 * fstride)) →
  ∃ fout',
    kf_bfly4_mx tw m n mm fstride fout = Some fout' ∧
    length fout' = length fout ∧
    ∀ i j, 0 ≤ i < n → 0 ≤ j < m →
      let f := i * mm in
      ∃ a0 a1 a2 a3 t1 t2 t3,
        ld fout (f + j) = Some a0 ∧ ld fout (f + j + m) = Some a1 ∧
        ld fout (f + j + 2 * m) = Some a2 ∧ ld fout (f + j + 3 * m) = Some a3 ∧
        ld tw (j * fstride) = Some t1 ∧ ld tw (j * 2 * fstride) = Some t2 ∧
        ld tw (j * 3 * fstride) = Some t3 ∧
        let '(o0, o1, o2, o3) := radix4 a0 (c_mul a1 t1) (c_mul a2 t2) (c_mul a3 t3) in
        ld fout' (f + j) = Some o0 ∧ ld fout' (f + j + m) = Some o1 ∧
        ld fout' (f + j + 2 * m) = Some o2 ∧ ld fout' (f + j + 3 * m) = Some o3.
Proof.
  intros Hn Hm Hvalid Htw.
  destruct (kf_bfly4_mx_done tw m n fstride mm fout) as (fout' & Hrun & Hlen & Hg & _);
    [lia | lia | done | done |].
  exists fout'. do 2 (split; [done|]). intros i j Hi Hj. exact (Hg i Hi j Hj).
Qed.

Lemma kf_bfly4_mx_butterfly_witness :
  1 ≤ 1 ∧ 1 ≤ 2 ∧ groups_valid Samples.cbuf8 1 8 (4 * 2) ∧
  (∀ j, 0 ≤ j < 2 →
     inb Samples.ctw (j * 2) ∧ inb Samples.ctw (j * 2 * 2) ∧ inb Samples.ctw (j * 3 * 2)) ∧
  ∃ fout',
    kf_bfly4_mx Samples.ctw 2 1 8 2 Samples.cbuf8 = Some fout' ∧
    length fout' = length Samples.cbuf8 ∧
    ∀ i j, 0 ≤ i < 1 → 0 ≤ j < 2 →
      let f := i * 8 in
      ∃ a0 a1 a2 a3 t1 t2 t3,
        ld Samples.cbuf8 (f + j) = Some a0 ∧ ld Samples.cbuf8 (f + j + 2) = Some a1 ∧
        ld Samples.cbuf8 (f + j + 2 * 2) = Some a2 ∧
        ld Samples.cbuf8 (f + j + 3 * 2) = Some a3 ∧
        ld Samples.ctw (j * 2) = Some t1 ∧ ld Samples.ctw (j * 2 * 2) = Some t2 ∧
        ld Samples.ctw (j * 3 * 2) = Some t3 ∧
        let '(o0, o1, o2, o3) := radix4 a0 (c_mul a1 t1) (c_mul a2 t2) (c_mul a3 t3) in
        ld fout' (f + j) = Some o0 ∧ ld fout' (f + j + 2) = Some o1 ∧
        ld fout' (f + j + 2 * 2) = Some o2 ∧ ld fout' (f + j + 3 * 2) = Some o3.
Proof.
  assert (groups_valid Samples.cbuf8 1 8 (4 * 2)) as Hv.
  { unfold groups_valid. simpl. lia. }
  assert (∀ j, 0 ≤ j < 2 →
            inb Samples.ctw (j * 2) ∧ inb Samples.ctw (j * 2 * 2) ∧
            inb Samples.ctw (j * 3 * 2)) as Ht.
  { intros j Hj. unfold inb. simpl. lia. }
  split; [lia|]. split; [lia|]. split; [exact Hv|]. split; [exact Ht|].
  apply (kf_bfly4_mx_butterfly Samples.cbuf8 Samples.ctw 2 1 2 8);
    [lia | lia | exact Hv | exact Ht].
Defined.

(** The butterflies on the sample inputs, on binary32 numbers. *)
Example kf_bfly3_m1_sample :
  Samples.cpx_values (kf_bfly3_m1 Samples.ctw 1 2 4 Samples.cbuf8)
  = Samples.cpx_values (Some [Samples.cx_halves 4 10; Samples.cx_halves (-29) (-29);
                      Samples.cx_halves 31 31; Samples.cx_halves 10 0;
                      Samples.cx_halves (-2) 8; Samples.cx_halves 7 (-31);
                      Samples.cx_halves (-5) 29; Samples.cx_halves 8 (-8)]).
Proof. vm_compute. reflexivity. Qed.

Example kf_bfly4_m1_sample :
  Samples.cpx_values (kf_bfly4_m1 2 Samples.cbuf8)
  = Samples.cpx_values (Some [Samples.cx 7 5; Samples.cx 2 0; Samples.cx (-9) 7;
                              Samples.cx 4 (-4);
                      Samples.cx 3 0; Samples.cx 9 2; Samples.cx (-9) 4;
                      Samples.cx (-3) (-2)]).
Proof. vm_compute. reflexivity. Qed.

Example kf_bfly5_m1_sample :
  Samples.cpx_values (kf_bfly5_m1 Samples.ctw 2 2 6 Samples.cbuf12)
  = Samples.cpx_values (Some [Samples.cx 7 6; Samples.cx 6 15; Samples.cx 4 9;
                      Samples.cx (-8) (-13); Samples.cx (-10) (-11); Samples.cx 2 2;
                      Samples.cx (-1) 1; Samples.cx 6 22; Samples.cx (-20) (-8);
                      Samples.cx 8 6; Samples.cx (-10) (-16); Samples.cx 0 (-2)]).
Proof. vm_compute. reflexivity. Qed.

(** * Further properties *)

(** ** The cells the kernels touch *)

(** *** The cells a loop touches *)

Section Footprint.
Context {S A : Type}.
Variables (idx : S → Z) (mem : S → list A) (J : S → Prop).
Variables (need : Z → nat → Prop) (cells : Z → Z → Prop).
Variables (k n : Z) (cond : S → bool) (body : S → option S).

Definition fp_range (lo hi : Z) (len : nat) : Prop := ∀ g, lo ≤ g < hi → need g len.

Definition fp_frame (lo hi : Z) (b b' : list A) : Prop :=
  length b' = length b ∧
  ∀ c, (∀ g, lo ≤ g < hi → ¬ cells g c) → ld b' c = ld b c.

Hypothesis Hk : 1 ≤ k.
Hypothesis Hcond : ∀ s, cond s = true ↔ idx s + k - 1 < n.
Hypothesis Hsuff : ∀ s, J s → fp_range (idx s) (idx s + k) (length (mem s)) →
  is_Some (body s).
Hypothesis Hnec : ∀ s s', J s → body s = Some s' →
  fp_range (idx s) (idx s + k) (length (mem s)) ∧ J s' ∧ idx s' = idx s + k ∧
  fp_frame (idx s) (idx s + k) (mem s) (mem s').

Lemma fp_loop_some fuel s s' :
  J s → while_loop fuel cond body s = Some s' →
  J s' ∧ cond s' = false ∧ idx s ≤ idx s' ∧ (idx s' = idx s ∨ idx s' ≤ n) ∧
  fp_range (idx s) (idx s') (length (mem s)) ∧
  fp_frame (idx s) (idx s') (mem s) (mem s').
Proof using Hk Hcond Hnec.
  revert s. induction fuel as [|fuel IH]; intros s HJ Hrun; simpl in Hrun.
  - destruct (cond s) eqn:Hc; [done|]. simplify_eq.
    split; [done|]. split; [done|]. split; [lia|]. split; [by left|].
    split; [intros g Hg; lia|]. split; [done|]. done.
  - destruct (cond s) eqn:Hc.
    + destruct (body s) as [s1|] eqn:Hb; [|done]. simpl in Hrun.
      destruct (Hnec s s1 HJ Hb) as (Hr & HJ1 & Hi1 & Hl1 & Hf1).
      destruct (IH s1 HJ1 Hrun) as (HJ' & Hc' & Hle & Hn & Hr' & Hl' & Hf').
      apply Hcond in Hc.
      split; [done|]. split; [done|]. split; [lia|]. split.
      { right. destruct Hn as [Hn|Hn]; lia. }
      split.
      { intros g Hg. destruct (decide (g < idx s + k)) as [Hlt|Hge].
        - apply Hr. lia.
        - rewrite <- Hl1. apply Hr'. lia. }
      split; [congruence|].
      intros c Hc1. rewrite Hf', Hf1; [done| |].
      * intros g Hg. apply Hc1. lia.
      * intros g Hg. apply Hc1. lia.
    + simplify_eq.
      split; [done|]. split; [done|]. split; [lia|]. split; [by left|].
      split; [intros g Hg; lia|]. split; [done|]. done.
Qed.

Lemma fp_loop_defined fuel s :
  J s → fp_range (idx s) n (length (mem s)) → (Z.to_nat (n - idx s) ≤ fuel)%nat →
  is_Some (while_loop fuel cond body s).
Proof using Hk Hcond Hsuff Hnec.
  intros HJ Hr Hfuel.
  destruct (while_loop_inv
              (λ s1, J s1 ∧ length (mem s1) = length (mem s) ∧ idx s ≤ idx s1)
              (λ s1, Z.to_nat (n - idx s1)) cond body) with (fuel := fuel) (s := s)
    as (s' & Hrun & _); [| done | done | by rewrite Hrun].
  intros s1 (HJ1 & Hl1 & Hi1) Hc. apply Hcond in Hc.
  destruct (Hsuff s1 HJ1) as [s2 Hb].
  { intros g Hg. rewrite Hl1. apply Hr. lia. }
  destruct (Hnec s1 s2 HJ1 Hb) as (_ & HJ2 & Hi2 & Hl2 & _).
  exists s2. split; [done|]. split; [|lia].
  split; [done|]. split; [congruence | lia].
Qed.

End Footprint.

(** A loop that covers one iteration at a time is defined exactly when
    its iterations are. *)
Section FootprintScalar.
Context {S A : Type}.
Variables (idx : S → Z) (mem : S → list A) (J : S → Prop).
Variables (need : Z → nat → Prop) (cells : Z → Z → Prop).
Variables (n : Z) (cond : S → bool) (body : S → option S).
Hypothesis Hcond : ∀ s, cond s = true ↔ idx s + 1 - 1 < n.
Hypothesis Hsuff : ∀ s, J s → fp_range need (idx s) (idx s + 1) (length (mem s)) →
  is_Some (body s).
Hypothesis Hnec : ∀ s s', J s → body s = Some s' →
  fp_range need (idx s) (idx s + 1) (length (mem s)) ∧ J s' ∧ idx s' = idx s + 1 ∧
  fp_frame cells (idx s) (idx s + 1) (mem s) (mem s').

Lemma fp_loop fuel s :
  J s → (Z.to_nat (n - idx s) ≤ fuel)%nat →
  (is_Some (while_loop fuel cond body s) ↔ fp_range need (idx s) n (length (mem s))) ∧
  (∀ s', while_loop fuel cond body s = Some s' →
     J s' ∧ idx s' = Z.max (idx s) n ∧ fp_frame cells (idx s) n (mem s) (mem s')).
Proof using All.
  intros HJ Hfuel.
  pose proof (fp_loop_some idx mem J need cells 1 n cond body ltac:(lia) Hcond Hnec fuel s)
    as Hsome.
  split; [split|].
  - intros [s' Hrun]. destruct (Hsome s' HJ Hrun) as (_ & Hc & _ & _ & Hr & _).
    assert (¬ idx s' + 1 - 1 < n) by (rewrite <- Hcond; congruence).
    intros g Hg. apply Hr. lia.
  - intros Hr. by apply (fp_loop_defined idx mem J need cells 1 n cond body).
  - intros s' Hrun. destruct (Hsome s' HJ Hrun) as (HJ' & Hc & Hi & Hn & _ & Hl & Hf).
    assert (¬ idx s' + 1 - 1 < n) by (rewrite <- Hcond; congruence).
    split; [done|]. split; [lia|]. split; [done|].
    intros c Hc1. apply Hf. intros g Hg. apply Hc1. lia.
Qed.
End FootprintScalar.

(** A vector loop that covers [k] iterations at a time, then the scalar
    loop on what remains. *)
Section FootprintVectorScalar.
Context {S A : Type}.
Variables (idx : S → Z) (mem : S → list A) (J : S → Prop).
Variables (need : Z → nat → Prop) (cells : Z → Z → Prop).
Variables (k n : Z) (condv conds : S → bool) (bodyv bodys : S → option S).
Hypothesis Hk : 1 ≤ k.
Hypothesis Hcondv : ∀ s, condv s = true ↔ idx s + k - 1 < n.
Hypothesis Hconds : ∀ s, conds s = true ↔ idx s + 1 - 1 < n.
Hypothesis Hsuffv : ∀ s, J s → fp_range need (idx s) (idx s + k) (length (mem s)) →
  is_Some (bodyv s).
Hypothesis Hnecv : ∀ s s', J s → bodyv s = Some s' →
  fp_range need (idx s) (idx s + k) (length (mem s)) ∧ J s' ∧ idx s' = idx s + k ∧
  fp_frame cells (idx s) (idx s + k) (mem s) (mem s').
Hypothesis Hsuffs : ∀ s, J s → fp_range need (idx s) (idx s + 1) (length (mem s)) →
  is_Some (bodys s).
Hypothesis Hnecs : ∀ s s', J s → bodys s = Some s' →
  fp_range need (idx s) (idx s + 1) (length (mem s)) ∧ J s' ∧ idx s' = idx s + 1 ∧
  fp_frame cells (idx s) (idx s + 1) (mem s) (mem s').

Lemma fp_loops fuel s :
  J s → (Z.to_nat (n - idx s) ≤ fuel)%nat →
  let run := s1 ← while_loop fuel condv bodyv s; while_loop fuel conds bodys s1 in
  (is_Some run ↔ fp_range need (idx s) n (length (mem s))) ∧
  (∀ s', run = Some s' →
     J s' ∧ idx s' = Z.max (idx s) n ∧ fp_frame cells (idx s) n (mem s) (mem s')).
Proof using All.
  intros HJ Hfuel run.
  pose proof (fp_loop_some idx mem J need cells k n condv bodyv Hk Hcondv Hnecv fuel s)
    as Hv.
  assert (∀ s1, while_loop fuel condv bodyv s = Some s1 →
            J s1 ∧ idx s ≤ idx s1 ∧ (idx s1 = idx s ∨ idx s1 ≤ n) ∧
            fp_range need (idx s) (idx s1) (length (mem s)) ∧
            fp_frame cells (idx s) (idx s1) (mem s) (mem s1) ∧
            (is_Some (while_loop fuel conds bodys s1) ↔
             fp_range need (idx s1) n (length (mem s1))) ∧
            (∀ s', while_loop fuel conds bodys s1 = Some s' →
               J s' ∧ idx s' = Z.max (idx s1) n ∧
               fp_frame cells (idx s1) n (mem s1) (mem s'))) as Hmid.
  { intros s1 E1. destruct (Hv s1 HJ E1) as (HJ1 & _ & Hi1 & Hn1 & Hr1 & Hf1).
    do 5 (split; [done|]).
    apply (fp_loop idx mem J need cells n conds bodys); (done || lia). }
  subst run. split; [split|].
  - intros [s' Hrun]. destruct (while_loop fuel condv bodyv s) as [s1|] eqn:E1; [|done].
    simpl in Hrun. destruct (Hmid s1 eq_refl) as (_ & Hi1 & _ & Hr1 & [Hl1 _] & Hds & _).
    intros g Hg. destruct (decide (g < idx s1)).
    + apply Hr1. lia.
    + rewrite <- Hl1. apply (proj1 Hds); [by eexists | lia].
  - intros Hr.
    destruct (fp_loop_defined idx mem J need cells k n condv bodyv Hk Hcondv Hsuffv Hnecv
                fuel s HJ Hr Hfuel) as [s1 E1].
    rewrite E1. simpl.
    destruct (Hmid s1 E1) as (_ & Hi1 & _ & _ & [Hl1 _] & Hds & _).
    apply Hds. intros g Hg. rewrite Hl1. apply Hr. lia.
  - intros s' Hrun. destruct (while_loop fuel condv bodyv s) as [s1|] eqn:E1; [|done].
    simpl in Hrun.
    destruct (Hmid s1 eq_refl) as (_ & Hi1 & Hn1 & _ & [Hl1 Hf1] & _ & Hrs).
    destruct (Hrs s' Hrun) as (HJ' & Hi' & Hl' & Hf').
    split; [done|]. split; [lia|]. split; [congruence|].
    intros c Hc. rewrite Hf', Hf1; [done| |]; intros g Hg; apply Hc; lia.
Qed.
End FootprintVectorScalar.

Lemma is_Some_bind_ret {A B : Type} (m : option A) (f : A → B) :
  is_Some (m ≫= λ s, Some (f s)) ↔ is_Some m.
Proof. destruct m; simpl; split; intros [? ?]; eauto; done. Qed.

(** Reads and writes that succeeded were in range. *)
Ltac footprint_inv :=
  simplify_option_eq;
  repeat match goal with
    | Hx : ld _ _ = Some _ |- _ => apply ld_Some_inb in Hx
    | Hx : st _ _ _ = Some _ |- _ => apply st_Some in Hx as [? ->]
    end.

(** Reads and writes in range succeed. *)
Ltac footprint_run :=
  repeat match goal with
    | |- context [ld ?b ?i] =>
        let v := fresh "v" in
        let E := fresh "E" in
        destruct (ld_inb b i) as [v E]; [inb_tac|]; rewrite E; simpl
    | |- context [st ?b ?i ?v] => rewrite (st_inb b i v) by inb_tac; simpl
    end.

Section PrerotateFootprint.
Context {F D : Type} `{FloatOps F} `{Narrow D F}.
Variables (spec : list D) (trig : list F) (n2 n4 : Z).

(** What iteration [i] reads and writes, for an output buffer of [len]
    cells. *)
Definition prerotate_need (i : Z) (len : nat) : Prop :=
  inb spec (2 * i) ∧ inb spec (n2 - 1 - 2 * i) ∧ inb trig i ∧ inb trig (n4 + i) ∧
  0 ≤ 2 * i ∧ 2 * i + 1 < Z.of_nat len.

Definition prerotate_cells (i c : Z) : Prop := 2 * i ≤ c ≤ 2 * i + 1.

Lemma prerotate_scalar_suff (s : Z * list F) :
  True → fp_range prerotate_need (fst s) (fst s + 1) (length (snd s)) →
  is_Some (prerotate_scalar_body spec trig n2 n4 s).
Proof.
  destruct s as [i out]. intros _ Hr.
  destruct (Hr i) as (? & ? & ? & ? & ? & ?); [simpl; lia|].
  simpl in *. unfold prerotate_scalar_body. footprint_run. done.
Qed.

Lemma prerotate_scalar_nec (s s' : Z * list F) :
  True → prerotate_scalar_body spec trig n2 n4 s = Some s' →
  fp_range prerotate_need (fst s) (fst s + 1) (length (snd s)) ∧ True ∧
  fst s' = fst s + 1 ∧
  fp_frame prerotate_cells (fst s) (fst s + 1) (snd s) (snd s').
Proof.
  destruct s as [i out]. intros _ Hb. unfold prerotate_scalar_body in Hb.
  footprint_inv. simpl. split; [|split; [done|split; [done|split]]].
  - intros g Hg. assert (g = i) as -> by lia. unfold prerotate_need.
    repeat split; (done || inb_tac).
  - by rewrite !length_upd.
  - intros c Hc. specialize (Hc i). unfold prerotate_cells in Hc. ld_upd_tac; done.
Qed.

Lemma prerotate_vec_suff (s : Z * list F) :
  True → fp_range prerotate_need (fst s) (fst s + 2) (length (snd s)) →
  is_Some (prerotate_vec_body spec trig n2 n4 s).
Proof.
  destruct s as [i out]. intros _ Hr.
  destruct (Hr i) as (? & ? & ? & ? & ? & ?); [simpl; lia|].
  destruct (Hr (i + 1)) as (? & ? & ? & ? & ? & ?); [simpl; lia|].
  simpl in *. unfold prerotate_vec_body, vld1_f32, vst1q_f32. footprint_run. done.
Qed.

Lemma prerotate_vec_nec (s s' : Z * list F) :
  True → prerotate_vec_body spec trig n2 n4 s = Some s' →
  fp_range prerotate_need (fst s) (fst s + 2) (length (snd s)) ∧ True ∧
  fst s' = fst s + 2 ∧
  fp_frame prerotate_cells (fst s) (fst s + 2) (snd s) (snd s').
Proof.
  destruct s as [i out]. intros _ Hb.
  unfold prerotate_vec_body, vld1_f32, vst1q_f32 in Hb.
  footprint_inv. simpl. split; [|split; [done|split; [done|split]]].
  - intros g Hg. assert (g = i ∨ g = i + 1) as [-> | ->] by lia; unfold prerotate_need;
      repeat split; inb_tac.
  - by rewrite !length_upd.
  - intros c Hc. pose proof (Hc i). pose proof (Hc (i + 1)).
    unfold prerotate_cells in *. ld_upd_tac; done.
Qed.

(** The kernel is defined exactly when every iteration's cells are in
    range; it then changes no cell of another index. *)
Lemma prerotate_footprint (out : list F) :
  1 ≤ n4 →
  (is_Some (imdct_prerotate_f32 spec trig n2 n4 out) ↔
   fp_range prerotate_need 0 n4 (length out)) ∧
  (∀ out', imdct_prerotate_f32 spec trig n2 n4 out = Some out' →
     fp_frame prerotate_cells 0 n4 out out').
Proof.
  intros Hn4. unfold imdct_prerotate_f32. rewrite decide_False by lia.
  destruct (fp_loops fst snd (λ _, True) prerotate_need prerotate_cells 2 n4
              (λ s : Z * list F, bool_decide (fst s + 1 < n4))
              (λ s : Z * list F, bool_decide (fst s < n4))
              (prerotate_vec_body spec trig n2 n4) (prerotate_scalar_body spec trig n2 n4))
    with (fuel := Z.to_nat n4) (s := (0, out)) as [Hd Hr];
    try (done || apply prerotate_vec_suff || apply prerotate_vec_nec
         || apply prerotate_scalar_suff || apply prerotate_scalar_nec).
  - intros s. rewrite bool_decide_eq_true. lia.
  - intros s. rewrite bool_decide_eq_true. lia.
  - simpl. lia.
  - simpl in Hd, Hr. split.
    + rewrite <- Hd. destruct (while_loop _ _ _ (0, out)) as [s1|]; simpl; [|done].
      apply is_Some_bind_ret.
    + intros out' Hrun.
      destruct (while_loop _ _ _ (0, out)) as [s1|]; simpl in *; [|done].
      destruct (while_loop _ _ _ s1) as [s2|] eqn:E2; simpl in *; [|done].
      simplify_eq. by destruct (Hr s2 eq_refl) as (_ & _ & ?).
Qed.
End PrerotateFootprint.

Section PostrotateFootprint.
Context {F : Type} `{FloatOps F}.
Variables (trig : list F) (n2 n4 : Z).

(** What paired iteration [i] reads and writes, for a buffer of [len]
    cells. *)
Definition postrotate_need (i : Z) (len : nat) : Prop :=
  inb trig i ∧ inb trig (n4 + i) ∧ inb trig (n4 - i - 1) ∧ inb trig (n2 - i - 1) ∧
  0 ≤ 2 * i ∧ 2 * i + 1 < Z.of_nat len ∧
  0 ≤ n2 - 2 - 2 * i ∧ n2 - 2 - 2 * i + 1 < Z.of_nat len.

Definition postrotate_cells (i c : Z) : Prop :=
  2 * i ≤ c ≤ 2 * i + 1 ∨ n2 - 2 - 2 * i ≤ c ≤ n2 - 2 - 2 * i + 1.

(** The cursors follow the counter. *)
Definition postrotate_cursors (s : post_state F) : Prop :=
  ps_yp0 s = 2 * ps_i s ∧ ps_yp1 s = n2 - 2 - 2 * ps_i s.

Lemma postrotate_scalar_suff (s : post_state F) :
  postrotate_cursors s →
  fp_range postrotate_need (ps_i s) (ps_i s + 1) (length (ps_buf s)) →
  is_Some (postrotate_scalar_body trig n2 n4 s).
Proof.
  destruct s as [i yp0 yp1 buf]. intros [Hy0 Hy1] Hr. simpl in *. subst yp0 yp1.
  destruct (Hr i) as (? & ? & ? & ? & ? & ? & ? & ?); [lia|].
  unfold postrotate_scalar_body, postrotate_low_half, postrotate_high_half.
  footprint_run. done.
Qed.

Lemma postrotate_scalar_nec (s s' : post_state F) :
  postrotate_cursors s → postrotate_scalar_body trig n2 n4 s = Some s' →
  fp_range postrotate_need (ps_i s) (ps_i s + 1) (length (ps_buf s)) ∧
  postrotate_cursors s' ∧ ps_i s' = ps_i s + 1 ∧
  fp_frame postrotate_cells (ps_i s) (ps_i s + 1) (ps_buf s) (ps_buf s').
Proof.
  destruct s as [i yp0 yp1 buf]. intros [Hy0 Hy1] Hb. simpl in *. subst yp0 yp1.
  unfold postrotate_scalar_body, postrotate_low_half, postrotate_high_half in Hb.
  footprint_inv. simpl. split; [|split; [|split; [done|split]]].
  - intros g Hg. assert (g = i) as -> by lia. unfold postrotate_need.
    repeat split; inb_tac.
  - unfold postrotate_cursors. simpl. lia.
  - by rewrite !length_upd.
  - intros c Hc. specialize (Hc i). unfold postrotate_cells in Hc. ld_upd_tac; done.
Qed.

Lemma postrotate_vec_suff (s : post_state F) :
  postrotate_cursors s →
  fp_range postrotate_need (ps_i s) (ps_i s + 2) (length (ps_buf s)) →
  is_Some (postrotate_vec_body trig n2 n4 s).
Proof.
  destruct s as [i yp0 yp1 buf]. intros [Hy0 Hy1] Hr. simpl in *. subst yp0 yp1.
  destruct (Hr i) as (? & ? & ? & ? & ? & ? & ? & ?); [lia|].
  destruct (Hr (i + 1)) as (? & ? & ? & ? & ? & ? & ? & ?); [lia|].
  unfold postrotate_vec_body, vld1q_f32, vld1_f32, vst1q_f32.
  footprint_run. done.
Qed.

Lemma postrotate_vec_nec (s s' : post_state F) :
  postrotate_cursors s → postrotate_vec_body trig n2 n4 s = Some s' →
  fp_range postrotate_need (ps_i s) (ps_i s + 2) (length (ps_buf s)) ∧
  postrotate_cursors s' ∧ ps_i s' = ps_i s + 2 ∧
  fp_frame postrotate_cells (ps_i s) (ps_i s + 2) (ps_buf s) (ps_buf s').
Proof.
  destruct s as [i yp0 yp1 buf]. intros [Hy0 Hy1] Hb. simpl in *. subst yp0 yp1.
  unfold postrotate_vec_body, vld1q_f32, vld1_f32, vst1q_f32 in Hb.
  footprint_inv. simpl. split; [|split; [|split; [done|split]]].
  - intros g Hg. assert (g = i ∨ g = i + 1) as [-> | ->] by lia; unfold postrotate_need;
      repeat split; inb_tac.
  - unfold postrotate_cursors. simpl. lia.
  - by rewrite !length_upd.
  - intros c Hc. pose proof (Hc i). pose proof (Hc (i + 1)).
    unfold postrotate_cells in *. ld_upd_tac; done.
Qed.

Lemma postrotate_footprint (buf : list F) :
  1 ≤ n4 →
  (is_Some (imdct_postrotate_f32 trig n2 n4 buf) ↔
   fp_range postrotate_need 0 (postrotate_limit n4) (length buf)) ∧
  (∀ buf', imdct_postrotate_f32 trig n2 n4 buf = Some buf' →
     fp_frame postrotate_cells 0 (postrotate_limit n4) buf buf').
Proof.
  intros Hn4. pose proof (postrotate_limit_spec n4) as HL.
  unfold imdct_postrotate_f32. rewrite decide_False by lia.
  set (L := postrotate_limit n4) in *.
  destruct (fp_loops ps_i ps_buf postrotate_cursors postrotate_need postrotate_cells 2 L
              (λ s : post_state F, bool_decide (ps_i s + 1 < L))
              (λ s : post_state F, bool_decide (ps_i s < L))
              (postrotate_vec_body trig n2 n4) (postrotate_scalar_body trig n2 n4))
    with (fuel := Z.to_nat L) (s := PS 0 0 (n2 - 2) buf) as [Hd Hr];
    try (done || apply postrotate_vec_suff || apply postrotate_vec_nec
         || apply postrotate_scalar_suff || apply postrotate_scalar_nec).
  - intros s. rewrite bool_decide_eq_true. lia.
  - intros s. rewrite bool_decide_eq_true. lia.
  - split; simpl; lia.
  - simpl. lia.
  - simpl in Hd, Hr. split.
    + rewrite <- Hd.
      destruct (while_loop _ _ _ (PS 0 0 (n2 - 2) buf)) as [s1|]; simpl; [|done].
      apply is_Some_bind_ret.
    + intros buf' Hrun.
      destruct (while_loop _ _ _ (PS 0 0 (n2 - 2) buf)) as [s1|]; simpl in *; [|done].
      destruct (while_loop _ _ _ s1) as [s2|] eqn:E2; simpl in *; [|done].
      simplify_eq. by destruct (Hr s2 eq_refl) as (_ & _ & ?).
Qed.
End PostrotateFootprint.

(** *** The butterflies *)

Lemma interval_range (n mm w : Z) (len : nat) :
  1 ≤ n → 0 ≤ mm → 1 ≤ w →
  (∀ g, 0 ≤ g < n → 0 ≤ g * mm ∧ g * mm + (w - 1) < Z.of_nat len) ↔
  (n - 1) * mm + w ≤ Z.of_nat len.
Proof.
  intros Hn Hmm Hw. split.
  - intros Hr. destruct (Hr (n - 1)); lia.
  - intros Hlen g Hg. pose proof (group_base_bound g n mm Hg Hmm). lia.
Qed.

Section Bfly3Footprint.
Context {F : Type} `{FloatOps F}.
Variables (tw : list (kissCpx F)) (fstride n mm : Z).

Definition bfly3_need (i : Z) (len : nat) : Prop :=
  0 ≤ i * mm ∧ i * mm + (3 - 1) < Z.of_nat len.

Lemma kf_bfly3_m1_suff epi half sign (s : Z * list (kissCpx F)) :
  True → fp_range bfly3_need (fst s) (fst s + 1) (length (snd s)) →
  is_Some (kf_bfly3_m1_body mm epi half sign s).
Proof.
  destruct s as [i buf]. intros _ Hr. destruct (Hr i) as [? ?]; [simpl; lia|]. simpl in *.
  unfold kf_bfly3_m1_body, vld1_cpx, vst1_cpx. footprint_run.
  destruct (kf_bfly3_m1_arith _ _ _ _ _ _) as [[o0 o1] o2]. footprint_run. done.
Qed.

Lemma kf_bfly3_m1_nec epi half sign (s s' : Z * list (kissCpx F)) :
  True → kf_bfly3_m1_body mm epi half sign s = Some s' →
  fp_range bfly3_need (fst s) (fst s + 1) (length (snd s)) ∧ True ∧
  fst s' = fst s + 1 ∧
  fp_frame (interval_cells mm 3) (fst s) (fst s + 1) (snd s) (snd s').
Proof.
  destruct s as [i buf]. intros _ Hb.
  unfold kf_bfly3_m1_body, vld1_cpx, vst1_cpx in Hb. footprint_inv.
  destruct (kf_bfly3_m1_arith _ _ _ _ _ _) as [[o0 o1] o2]. footprint_inv.
  simpl. split; [|split; [done|split; [done|split]]].
  - intros g Hg. assert (g = i) as -> by lia. unfold bfly3_need. inb_tac.
  - by rewrite !length_upd.
  - intros c Hc. specialize (Hc i). unfold interval_cells in Hc. ld_upd_tac; done.
Qed.

Lemma kf_bfly3_m1_footprint (fout : list (kissCpx F)) :
  1 ≤ n →
  (is_Some (kf_bfly3_m1 tw fstride n mm fout) ↔
   inb tw fstride ∧ fp_range bfly3_need 0 n (length fout)) ∧
  (∀ fout', kf_bfly3_m1 tw fstride n mm fout = Some fout' →
     fp_frame (interval_cells mm 3) 0 n fout fout').
Proof.
  intros Hn. unfold kf_bfly3_m1. rewrite decide_False by lia.
  destruct (ld tw fstride) as [t|] eqn:Ht; simpl.
  - set (body := kf_bfly3_m1_body mm _ _ _).
    destruct (fp_loop fst snd (λ _, True) bfly3_need (interval_cells mm 3) n
                (λ s : Z * list (kissCpx F), bool_decide (fst s < n)) body)
      with (fuel := Z.to_nat n) (s := (0, fout)) as [Hd Hr];
      try (done || apply kf_bfly3_m1_suff || apply kf_bfly3_m1_nec).
    + intros s. rewrite bool_decide_eq_true. lia.
    + simpl. lia.
    + simpl in Hd, Hr. split.
      * rewrite is_Some_bind_ret, Hd. apply ld_Some_inb in Ht. tauto.
      * intros fout' Hrun.
        destruct (while_loop _ _ _ _) as [s1|]; simpl in *; [|done].
        simplify_eq. by destruct (Hr s1 eq_refl) as (_ & _ & ?).
  - split; [|done]. split; [by intros [? ?]|]. intros [Hi _].
    apply ld_inb in Hi. rewrite Ht in Hi. by destruct Hi.
Qed.
End Bfly3Footprint.

Section Bfly5Footprint.
Context {F : Type} `{FloatOps F}.
Variables (tw : list (kissCpx F)) (fstride n mm : Z).

Definition bfly5_need (i : Z) (len : nat) : Prop :=
  0 ≤ i * mm ∧ i * mm + (5 - 1) < Z.of_nat len.

Lemma kf_bfly5_m1_suff ya_r yb_r ya_i yb_i sign (s : Z * list (kissCpx F)) :
  True → fp_range bfly5_need (fst s) (fst s + 1) (length (snd s)) →
  is_Some (kf_bfly5_m1_body mm ya_r yb_r ya_i yb_i sign s).
Proof.
  destruct s as [i buf]. intros _ Hr. destruct (Hr i) as [? ?]; [simpl; lia|]. simpl in *.
  unfold kf_bfly5_m1_body, vld1_cpx, vst1_cpx. footprint_run.
  destruct (kf_bfly5_m1_arith _ _ _ _ _ _ _ _ _ _) as [[[[o0 o1] o2] o3] o4].
  footprint_run. done.
Qed.

Lemma kf_bfly5_m1_nec ya_r yb_r ya_i yb_i sign (s s' : Z * list (kissCpx F)) :
  True → kf_bfly5_m1_body mm ya_r yb_r ya_i yb_i sign s = Some s' →
  fp_range bfly5_need (fst s) (fst s + 1) (length (snd s)) ∧ True ∧
  fst s' = fst s + 1 ∧
  fp_frame (interval_cells mm 5) (fst s) (fst s + 1) (snd s) (snd s').
Proof.
  destruct s as [i buf]. intros _ Hb.
  unfold kf_bfly5_m1_body, vld1_cpx, vst1_cpx in Hb. footprint_inv.
  destruct (kf_bfly5_m1_arith _ _ _ _ _ _ _ _ _ _) as [[[[o0 o1] o2] o3] o4].
  footprint_inv.
  simpl. split; [|split; [done|split; [done|split]]].
  - intros g Hg. assert (g = i) as -> by lia. unfold bfly5_need. inb_tac.
  - by rewrite !length_upd.
  - intros c Hc. specialize (Hc i). unfold interval_cells in Hc. ld_upd_tac; done.
Qed.

Lemma kf_bfly5_m1_footprint (fout : list (kissCpx F)) :
  1 ≤ n →
  (is_Some (kf_bfly5_m1 tw fstride n mm fout) ↔
   inb tw fstride ∧ inb tw (2 * fstride) ∧ fp_range bfly5_need 0 n (length fout)) ∧
  (∀ fout', kf_bfly5_m1 tw fstride n mm fout = Some fout' →
     fp_frame (interval_cells mm 5) 0 n fout fout').
Proof.
  intros Hn. unfold kf_bfly5_m1. rewrite decide_False by lia.
  destruct (ld tw fstride) as [ya|] eqn:Hya; simpl;
    [destruct (ld tw (2 * fstride)) as [yb|] eqn:Hyb; simpl|].
  - set (body := kf_bfly5_m1_body mm _ _ _ _ _).
    destruct (fp_loop fst snd (λ _, True) bfly5_need (interval_cells mm 5) n
                (λ s : Z * list (kissCpx F), bool_decide (fst s < n)) body)
      with (fuel := Z.to_nat n) (s := (0, fout)) as [Hd Hr];
      try (done || apply kf_bfly5_m1_suff || apply kf_bfly5_m1_nec).
    + intros s. rewrite bool_decide_eq_true. lia.
    + simpl. lia.
    + simpl in Hd, Hr. split.
      * rewrite is_Some_bind_ret, Hd. apply ld_Some_inb in Hya, Hyb. tauto.
      * intros fout' Hrun.
        destruct (while_loop _ _ _ _) as [s1|]; simpl in *; [|done].
        simplify_eq. by destruct (Hr s1 eq_refl) as (_ & _ & ?).
  - split; [|done]. split; [by intros [? ?]|]. intros (_ & Hi & _).
    apply ld_inb in Hi. rewrite Hyb in Hi. by destruct Hi.
  - split; [|done]. split; [by intros [? ?]|]. intros [Hi _].
    apply ld_inb in Hi. rewrite Hya in Hi. by destruct Hi.
Qed.
End Bfly5Footprint.

Section Bfly4M1Footprint.
Context {F : Type} `{FloatOps F}.
Variable (n : Z).

Definition bfly4_m1_need (i : Z) (len : nat) : Prop :=
  0 ≤ 4 * i ∧ 4 * i + 3 < Z.of_nat len.

Lemma kf_bfly4_m1_suff (s : Z * Z * list (kissCpx F)) :
  bfly4_m1_ptr s → fp_range bfly4_m1_need (fst (fst s)) (fst (fst s) + 1) (length (snd s)) →
  is_Some (kf_bfly4_m1_body s).
Proof.
  destruct s as [[i p] buf]. unfold bfly4_m1_ptr. simpl. intros -> Hr.
  destruct (Hr i) as [? ?]; [lia|].
  unfold kf_bfly4_m1_body, vld1q_cpx, vst1q_cpx. footprint_run.
  destruct (kf_bfly4_m1_arith _ _) as [out0 out1]. footprint_run. done.
Qed.

Lemma kf_bfly4_m1_nec (s s' : Z * Z * list (kissCpx F)) :
  bfly4_m1_ptr s → kf_bfly4_m1_body s = Some s' →
  fp_range bfly4_m1_need (fst (fst s)) (fst (fst s) + 1) (length (snd s)) ∧
  bfly4_m1_ptr s' ∧ fst (fst s') = fst (fst s) + 1 ∧
  fp_frame bfly4_m1_cells (fst (fst s)) (fst (fst s) + 1) (snd s) (snd s').
Proof.
  destruct s as [[i p] buf]. unfold bfly4_m1_ptr. simpl. intros -> Hb.
  unfold kf_bfly4_m1_body, vld1q_cpx, vst1q_cpx in Hb. footprint_inv.
  destruct (kf_bfly4_m1_arith _ _) as [out0 out1]. footprint_inv.
  simpl. split; [|split; [lia|split; [done|split]]].
  - intros g Hg. assert (g = i) as -> by lia. unfold bfly4_m1_need. inb_tac.
  - by rewrite !length_upd.
  - intros c Hc. specialize (Hc i). unfold bfly4_m1_cells in Hc. ld_upd_tac; done.
Qed.

Lemma kf_bfly4_m1_footprint (fout : list (kissCpx F)) :
  (is_Some (kf_bfly4_m1 n fout) ↔ fp_range bfly4_m1_need 0 n (length fout)) ∧
  (∀ fout', kf_bfly4_m1 n fout = Some fout' → fp_frame bfly4_m1_cells 0 n fout fout').
Proof.
  unfold kf_bfly4_m1.
  destruct (fp_loop (λ s : Z * Z * list (kissCpx F), fst (fst s)) snd bfly4_m1_ptr
              bfly4_m1_need bfly4_m1_cells n
              (λ s : Z * Z * list (kissCpx F), bool_decide (fst (fst s) < n))
              kf_bfly4_m1_body)
    with (fuel := Z.to_nat n) (s := (0, 0, fout)) as [Hd Hr];
    try (done || apply kf_bfly4_m1_suff || apply kf_bfly4_m1_nec).
  - intros s. rewrite bool_decide_eq_true. lia.
  - simpl. lia.
  - simpl in Hd, Hr. split.
    + by rewrite is_Some_bind_ret, Hd.
    + intros fout' Hrun.
      destruct (while_loop _ _ _ _) as [s1|]; simpl in *; [|done].
      simplify_eq. by destruct (Hr s1 eq_refl) as (_ & _ & ?).
Qed.
End Bfly4M1Footprint.

Section Bfly4MxFootprintGroup.
Context {F : Type} `{FloatOps F}.
Variables (tw : list (kissCpx F)) (m inc1 inc2 inc3 base : Z).

(** What position [j] of the group at [base] reads and writes. *)
Definition mx_need (j : Z) (len : nat) : Prop :=
  inb tw (j * inc1) ∧ inb tw (j * inc2) ∧ inb tw (j * inc3) ∧
  0 ≤ base + j < Z.of_nat len ∧ 0 ≤ base + j + m < Z.of_nat len ∧
  0 ≤ base + j + 2 * m < Z.of_nat len ∧ 0 ≤ base + j + 3 * m < Z.of_nat len.

Lemma kf_bfly4_mx_scalar_suff (s : mx_state F) :
  mx_locals inc1 inc2 inc3 base s →
  fp_range mx_need (mx_j s) (mx_j s + 1) (length (mx_mem s)) →
  is_Some (kf_bfly4_mx_scalar_body tw m inc1 inc2 inc3 s).
Proof.
  destruct s as [j tw1 tw2 tw3 f buf]. intros (Hf & Ht1 & Ht2 & Ht3) Hr.
  simpl in *. subst f tw1 tw2 tw3.
  destruct (Hr j) as (? & ? & ? & ? & ? & ? & ?); [lia|].
  unfold kf_bfly4_mx_scalar_body, vld1_cpx, vst1_cpx. footprint_run.
  destruct (kf_bfly4_mx_position _ _ _ _ _ _ _) as [[[o0 o1] o2] o3]. footprint_run. done.
Qed.

Lemma kf_bfly4_mx_scalar_nec (s s' : mx_state F) :
  mx_locals inc1 inc2 inc3 base s →
  kf_bfly4_mx_scalar_body tw m inc1 inc2 inc3 s = Some s' →
  fp_range mx_need (mx_j s) (mx_j s + 1) (length (mx_mem s)) ∧
  mx_locals inc1 inc2 inc3 base s' ∧ mx_j s' = mx_j s + 1 ∧
  fp_frame (mx_cells m base) (mx_j s) (mx_j s + 1) (mx_mem s) (mx_mem s').
Proof.
  destruct s as [j tw1 tw2 tw3 f buf]. intros (Hf & Ht1 & Ht2 & Ht3) Hb.
  simpl in *. subst f tw1 tw2 tw3.
  unfold kf_bfly4_mx_scalar_body, vld1_cpx, vst1_cpx in Hb. footprint_inv.
  destruct (kf_bfly4_mx_position _ _ _ _ _ _ _) as [[[o0 o1] o2] o3]. footprint_inv.
  simpl. split; [|split; [|split; [done|split]]].
  - intros g Hg. assert (g = j) as -> by lia. unfold mx_need.
    repeat split; (done || inb_tac).
  - unfold mx_locals. simpl. lia.
  - by rewrite !length_upd.
  - intros c Hc. specialize (Hc j). unfold mx_cells in Hc. ld_upd_tac; done.
Qed.
End Bfly4MxFootprintGroup.

Section Bfly4MxFootprintPair.
Context {F : Type} `{FloatOps F}.
Variables (tw : list (kissCpx F)) (m base : Z).

Lemma kf_bfly4_mx_pair_suff sign4 (s : mx_state F) :
  mx_locals 1 2 3 base s →
  fp_range (mx_need tw m 1 2 3 base) (mx_j s) (mx_j s + 2) (length (mx_mem s)) →
  is_Some (kf_bfly4_mx_pair_body tw m sign4 s).
Proof.
  destruct s as [j tw1 tw2 tw3 f buf]. intros (Hf & Ht1 & Ht2 & Ht3) Hr.
  simpl in *. subst f tw1 tw2 tw3.
  destruct (Hr j) as (? & ? & ? & ? & ? & ? & ?); [lia|].
  destruct (Hr (j + 1)) as (? & ? & ? & ? & ? & ? & ?); [lia|].
  unfold kf_bfly4_mx_pair_body, vld1q_cpx, vld1_cpx, vst1q_cpx. footprint_run.
  destruct (kf_bfly4_mx_pair_arith _ _ _ _ _ _ _ _) as [[[o0 o1] o2] o3]. footprint_run.
  done.
Qed.

Lemma kf_bfly4_mx_pair_nec sign4 (s s' : mx_state F) :
  mx_locals 1 2 3 base s →
  kf_bfly4_mx_pair_body tw m sign4 s = Some s' →
  fp_range (mx_need tw m 1 2 3 base) (mx_j s) (mx_j s + 2) (length (mx_mem s)) ∧
  mx_locals 1 2 3 base s' ∧ mx_j s' = mx_j s + 2 ∧
  fp_frame (mx_cells m base) (mx_j s) (mx_j s + 2) (mx_mem s) (mx_mem s').
Proof.
  destruct s as [j tw1 tw2 tw3 f buf]. intros (Hf & Ht1 & Ht2 & Ht3) Hb.
  simpl in *. subst f tw1 tw2 tw3.
  unfold kf_bfly4_mx_pair_body, vld1q_cpx, vld1_cpx, vst1q_cpx in Hb. footprint_inv.
  destruct (kf_bfly4_mx_pair_arith _ _ _ _ _ _ _ _) as [[[o0 o1] o2] o3]. footprint_inv.
  simpl. split; [|split; [|split; [done|split]]].
  - intros g Hg. assert (g = j ∨ g = j + 1) as [-> | ->] by lia; unfold mx_need;
      repeat split; inb_tac.
  - unfold mx_locals. simpl. lia.
  - by rewrite !length_upd.
  - intros c Hc. pose proof (Hc j). pose proof (Hc (j + 1)).
    unfold mx_cells in *. ld_upd_tac; done.
Qed.
End Bfly4MxFootprintPair.

Section Bfly4MxFootprint.
Context {F : Type} `{FloatOps F}.
Variables (tw : list (kissCpx F)) (m n mm : Z).

(** What group [i] reads and writes: every position of it. *)
Definition mx_group_need (inc1 inc2 inc3 : Z) (i : Z) (len : nat) : Prop :=
  fp_range (mx_need tw m inc1 inc2 inc3 (i * mm)) 0 m len.

Definition mx_group_cells (i c : Z) : Prop :=
  ∃ j, 0 ≤ j < m ∧ mx_cells m (i * mm) j c.

Lemma fp_frame_group i (b b' : list (kissCpx F)) :
  fp_frame (mx_cells m (i * mm)) 0 m b b' → fp_frame mx_group_cells i (i + 1) b b'.
Proof.
  intros [Hl Hf]. split; [done|]. intros c Hc. apply Hf. intros j Hj Hcell.
  apply (Hc i); [lia|]. by exists j.
Qed.

Lemma kf_bfly4_mx_general_group_footprint fstride (s : Z * list (kissCpx F)) :
  (is_Some (kf_bfly4_mx_general_group tw m mm fstride s) ↔
   mx_group_need fstride (fstride * 2) (fstride * 3) (fst s) (length (snd s))) ∧
  (∀ s', kf_bfly4_mx_general_group tw m mm fstride s = Some s' →
     fst s' = fst s + 1 ∧ fp_frame mx_group_cells (fst s) (fst s + 1) (snd s) (snd s')).
Proof.
  destruct s as [i mem]. unfold kf_bfly4_mx_general_group. simpl.
  destruct (fp_loop mx_j mx_mem (mx_locals fstride (fstride * 2) (fstride * 3) (i * mm))
              (mx_need tw m fstride (fstride * 2) (fstride * 3) (i * mm))
              (mx_cells m (i * mm)) m
              (λ s : mx_state F, bool_decide (mx_j s < m))
              (kf_bfly4_mx_scalar_body tw m fstride (fstride * 2) (fstride * 3)))
    with (fuel := Z.to_nat m) (s := MX 0 0 0 0 (i * mm) mem) as [Hd Hr];
    try (done || apply kf_bfly4_mx_scalar_suff || apply kf_bfly4_mx_scalar_nec).
  - intros s. rewrite bool_decide_eq_true. lia.
  - unfold mx_locals. simpl. lia.
  - simpl. lia.
  - simpl in Hd, Hr. split.
    + by rewrite is_Some_bind_ret, Hd.
    + intros s' Hrun. destruct (while_loop _ _ _ _) as [s1|]; simpl in *; [|done].
      simplify_eq. destruct (Hr s1 eq_refl) as (_ & _ & Hf). simpl.
      split; [done|]. by apply fp_frame_group.
Qed.

Lemma kf_bfly4_mx_fast_group_footprint sign4 (s : Z * list (kissCpx F)) :
  (is_Some (kf_bfly4_mx_fast_group tw m mm sign4 s) ↔
   mx_group_need 1 2 3 (fst s) (length (snd s))) ∧
  (∀ s', kf_bfly4_mx_fast_group tw m mm sign4 s = Some s' →
     fst s' = fst s + 1 ∧ fp_frame mx_group_cells (fst s) (fst s + 1) (snd s) (snd s')).
Proof.
  destruct s as [i mem]. unfold kf_bfly4_mx_fast_group. simpl.
  destruct (fp_loops mx_j mx_mem (mx_locals 1 2 3 (i * mm))
              (mx_need tw m 1 2 3 (i * mm)) (mx_cells m (i * mm)) 2 m
              (λ s : mx_state F, bool_decide (mx_j s + 1 < m))
              (λ s : mx_state F, bool_decide (mx_j s < m))
              (kf_bfly4_mx_pair_body tw m sign4) (kf_bfly4_mx_scalar_body tw m 1 2 3))
    with (fuel := Z.to_nat m) (s := MX 0 0 0 0 (i * mm) mem) as [Hd Hr];
    try (done || apply kf_bfly4_mx_scalar_suff || apply kf_bfly4_mx_scalar_nec
         || apply kf_bfly4_mx_pair_suff || apply kf_bfly4_mx_pair_nec).
  - intros s. rewrite bool_decide_eq_true. lia.
  - intros s. rewrite bool_decide_eq_true. lia.
  - unfold mx_locals. simpl. lia.
  - simpl. lia.
  - simpl in Hd, Hr. split.
    + rewrite <- Hd. destruct (while_loop _ _ _ (MX 0 0 0 0 (i * mm) mem)) as [s1|]; simpl;
        [|done].
      apply is_Some_bind_ret.
    + intros s' Hrun.
      destruct (while_loop _ _ _ (MX 0 0 0 0 (i * mm) mem)) as [s1|]; simpl in *; [|done].
      destruct (while_loop _ _ _ s1) as [s2|]; simpl in *; [|done].
      simplify_eq. destruct (Hr s2 eq_refl) as (_ & _ & Hf). simpl.
      split; [done|]. by apply fp_frame_group.
Qed.

(** A loop over the groups, whichever way a group is processed. *)
Lemma kf_bfly4_mx_groups_footprint (inc1 inc2 inc3 : Z)
    (group : Z * list (kissCpx F) → option (Z * list (kissCpx F)))
    (fout : list (kissCpx F)) :
  (∀ s, (is_Some (group s) ↔ mx_group_need inc1 inc2 inc3 (fst s) (length (snd s))) ∧
        (∀ s', group s = Some s' →
           fst s' = fst s + 1 ∧
           fp_frame mx_group_cells (fst s) (fst s + 1) (snd s) (snd s'))) →
  let run := s ← while_loop (Z.to_nat n) (λ s, bool_decide (fst s < n)) group (0, fout);
             Some (snd s) in
  (is_Some run ↔ fp_range (mx_group_need inc1 inc2 inc3) 0 n (length fout)) ∧
  (∀ fout', run = Some fout' → fp_frame mx_group_cells 0 n fout fout').
Proof.
  intros Hgroup run.
  destruct (fp_loop fst snd (λ _, True) (mx_group_need inc1 inc2 inc3) mx_group_cells n
              (λ s : Z * list (kissCpx F), bool_decide (fst s < n)) group)
    with (fuel := Z.to_nat n) (s := (0, fout)) as [Hd Hr]; try done.
  - intros s. rewrite bool_decide_eq_true. lia.
  - intros s _ Hr. apply (Hgroup s). apply Hr. lia.
  - intros s s' _ Hb. destruct (Hgroup s) as [Hd Hf].
    destruct (Hf s' Hb) as [Hi Hfr]. split; [|done].
    intros g Hg. assert (g = fst s) as -> by lia. apply Hd. by eexists.
  - simpl. lia.
  - subst run. simpl in Hd, Hr. split.
    + by rewrite is_Some_bind_ret, Hd.
    + intros fout' Hrun. destruct (while_loop _ _ _ _) as [s1|]; simpl in *; [|done].
      simplify_eq. by destruct (Hr s1 eq_refl) as (_ & _ & ?).
Qed.

Lemma kf_bfly4_mx_footprint fstride (fout : list (kissCpx F)) :
  (is_Some (kf_bfly4_mx tw m n mm fstride fout) ↔
   fp_range (mx_group_need fstride (fstride * 2) (fstride * 3)) 0 n (length fout)) ∧
  (∀ fout', kf_bfly4_mx tw m n mm fstride fout = Some fout' →
     fp_frame mx_group_cells 0 n fout fout').
Proof.
  unfold kf_bfly4_mx. destruct (decide (fstride = 1)) as [->|Hne].
  - apply (kf_bfly4_mx_groups_footprint 1 2 3). apply kf_bfly4_mx_fast_group_footprint.
  - apply kf_bfly4_mx_groups_footprint. apply kf_bfly4_mx_general_group_footprint.
Qed.
End Bfly4MxFootprint.

(** *** Memory safety and frame of the six kernels *)

(** X1.  For [n4 >= 1] and [n2 = 2 * n4], [imdct_prerotate_f32] stays
    inside its buffers exactly when each of [spec], [trig] and [out] has
    [n2] cells: with fewer cells in one of them it reads or writes outside
    (undefined behaviour), with that many it returns.  It leaves [out] its
    length and every cell from [n2] on. *)
Theorem imdct_prerotate_f32_memory {F D : Type} `{FloatOps F} `{Narrow D F}
    (out : list F) (spec : list D) (trig : list F) (n2 n4 : Z) :
  1 ≤ n4 → n2 = 2 * n4 →
  (is_Some (imdct_prerotate_f32 spec trig n2 n4 out) ↔
   prerotate_valid out spec trig n2 n4) ∧
  (∀ out', imdct_prerotate_f32 spec trig n2 n4 out = Some out' →
     length out' = length out ∧ ∀ c, n2 ≤ c → ld out' c = ld out c).
Proof.
  intros Hn4 Hn2.
  destruct (prerotate_footprint spec trig n2 n4 out Hn4) as [Hd Hf]. split.
  - rewrite Hd. unfold prerotate_valid, fp_range, prerotate_need, inb. split.
    + intros Hr. destruct (Hr 0) as (? & ? & ? & ? & ? & ?); [lia|].
      destruct (Hr (n4 - 1)) as (? & ? & ? & ? & ? & ?); [lia|]. lia.
    + intros (_ & ? & ? & ?) g Hg. lia.
  - intros out' Hrun. destruct (Hf out' Hrun) as [Hlen Hfr]. split; [done|].
    intros c Hc. apply Hfr. intros g Hg. unfold prerotate_cells. lia.
Qed.

Lemma imdct_prerotate_f32_memory_witness :
  1 ≤ 3 ∧ 6 = 2 * 3 ∧
  (is_Some (imdct_prerotate_f32 Samples.spec6 Samples.trig6 6 3 Samples.out6) ↔
   prerotate_valid Samples.out6 Samples.spec6 Samples.trig6 6 3) ∧
  (∀ out', imdct_prerotate_f32 Samples.spec6 Samples.trig6 6 3 Samples.out6 = Some out' →
     length out' = length Samples.out6 ∧ ∀ c, 6 ≤ c → ld out' c = ld Samples.out6 c).
Proof.
  split; [lia|]. split; [lia|].
  apply (imdct_prerotate_f32_memory Samples.out6 Samples.spec6 Samples.trig6 6 3); lia.
Defined.

(** X2.  For [n4 >= 1] and [n2 = 2 * n4], [imdct_postrotate_f32] stays
    inside its buffers exactly when each of [trig] and [buf] has [n2]
    cells.  It leaves [buf] its length and every cell from [n2] on. *)
Theorem imdct_postrotate_f32_memory {F : Type} `{FloatOps F}
    (buf trig : list F) (n2 n4 : Z) :
  1 ≤ n4 → n2 = 2 * n4 →
  (is_Some (imdct_postrotate_f32 trig n2 n4 buf) ↔ postrotate_valid buf trig n2 n4) ∧
  (∀ buf', imdct_postrotate_f32 trig n2 n4 buf = Some buf' →
     length buf' = length buf ∧ ∀ c, n2 ≤ c → ld buf' c = ld buf c).
Proof.
  intros Hn4 Hn2. pose proof (postrotate_limit_spec n4) as HL.
  destruct (postrotate_footprint trig n2 n4 buf Hn4) as [Hd Hf]. split.
  - rewrite Hd. unfold postrotate_valid, fp_range, postrotate_need, inb. split.
    + intros Hr. destruct (Hr 0) as (? & ? & ? & ? & ? & ? & ? & ?); [lia|]. lia.
    + intros (_ & ? & ?) g Hg. lia.
  - intros buf' Hrun. destruct (Hf buf' Hrun) as [Hlen Hfr]. split; [done|].
    intros c Hc. apply Hfr. intros g Hg. unfold postrotate_cells. lia.
Qed.

Lemma imdct_postrotate_f32_memory_witness :
  1 ≤ 3 ∧ 6 = 2 * 3 ∧
  (is_Some (imdct_postrotate_f32 Samples.trig6 6 3 Samples.buf10) ↔
   postrotate_valid Samples.buf10 Samples.trig6 6 3) ∧
  (∀ buf', imdct_postrotate_f32 Samples.trig6 6 3 Samples.buf10 = Some buf' →
     length buf' = length Samples.buf10 ∧
     ∀ c, 6 ≤ c → ld buf' c = ld Samples.buf10 c).
Proof.
  split; [lia|]. split; [lia|].
  apply (imdct_postrotate_f32_memory Samples.buf10 Samples.trig6 6 3); lia.
Defined.

(** X3.  For [n >= 1] groups spaced [mm >= 0] apart, [kf_bfly3_m1] stays
    inside its buffers exactly when the table has the twiddle [tw[fstride]]
    and the buffer holds the three samples of the last group, whether or
    not the groups overlap.  It leaves the buffer its length and every cell
    outside the groups. *)
Theorem kf_bfly3_m1_memory {F : Type} `{FloatOps F}
    (fout tw : list (kissCpx F)) (fstride n mm : Z) :
  1 ≤ n → 0 ≤ mm →
  (is_Some (kf_bfly3_m1 tw fstride n mm fout) ↔
   inb tw fstride ∧ (n - 1) * mm + 3 ≤ Z.of_nat (length fout)) ∧
  (∀ fout', kf_bfly3_m1 tw fstride n mm fout = Some fout' →
     length fout' = length fout ∧
     ∀ c, (∀ i, 0 ≤ i < n → ¬ interval_cells mm 3 i c) → ld fout' c = ld fout c).
Proof.
  intros Hn Hmm. destruct (kf_bfly3_m1_footprint tw fstride n mm fout Hn) as [Hd Hf].
  split; [|exact Hf].
  rewrite Hd. unfold fp_range, bfly3_need.
  by rewrite (interval_range n mm 3) by lia.
Qed.

Lemma kf_bfly3_m1_memory_witness :
  1 ≤ 3 ∧ 0 ≤ 2 ∧
  (is_Some (kf_bfly3_m1 Samples.ctw 1 3 2 Samples.cbuf8) ↔
   inb Samples.ctw 1 ∧ (3 - 1) * 2 + 3 ≤ Z.of_nat (length Samples.cbuf8)) ∧
  (∀ fout', kf_bfly3_m1 Samples.ctw 1 3 2 Samples.cbuf8 = Some fout' →
     length fout' = length Samples.cbuf8 ∧
     ∀ c, (∀ i, 0 ≤ i < 3 → ¬ interval_cells 2 3 i c) → ld fout' c = ld Samples.cbuf8 c).
Proof.
  split; [lia|]. split; [lia|].
  apply (kf_bfly3_m1_memory Samples.cbuf8 Samples.ctw 1 3 2); lia.
Defined.

(** X4.  For [n >= 1] groups spaced [mm >= 0] apart, [kf_bfly5_m1] stays
    inside its buffers exactly when the table has the twiddles
    [tw[fstride]] and [tw[2 * fstride]] and the buffer holds the five
    samples of the last group.  It leaves the buffer its length and every
    cell outside the groups. *)
Theorem kf_bfly5_m1_memory {F : Type} `{FloatOps F}
    (fout tw : list (kissCpx F)) (fstride n mm : Z) :
  1 ≤ n → 0 ≤ mm →
  (is_Some (kf_bfly5_m1 tw fstride n mm fout) ↔
   inb tw fstride ∧ inb tw (2 * fstride) ∧
   (n - 1) * mm + 5 ≤ Z.of_nat (length fout)) ∧
  (∀ fout', kf_bfly5_m1 tw fstride n mm fout = Some fout' →
     length fout' = length fout ∧
     ∀ c, (∀ i, 0 ≤ i < n → ¬ interval_cells mm 5 i c) → ld fout' c = ld fout c).
Proof.
  intros Hn Hmm. destruct (kf_bfly5_m1_footprint tw fstride n mm fout Hn) as [Hd Hf].
  split; [|exact Hf].
  rewrite Hd. unfold fp_range, bfly5_need.
  by rewrite (interval_range n mm 5) by lia.
Qed.

Lemma kf_bfly5_m1_memory_witness :
  1 ≤ 2 ∧ 0 ≤ 6 ∧
  (is_Some (kf_bfly5_m1 Samples.ctw 2 2 6 Samples.cbuf12) ↔
   inb Samples.ctw 2 ∧ inb Samples.ctw (2 * 2) ∧
   (2 - 1) * 6 + 5 ≤ Z.of_nat (length Samples.cbuf12)) ∧
  (∀ fout', kf_bfly5_m1 Samples.ctw 2 2 6 Samples.cbuf12 = Some fout' →
     length fout' = length Samples.cbuf12 ∧
     ∀ c, (∀ i, 0 ≤ i < 2 → ¬ interval_cells 6 5 i c) → ld fout' c = ld Samples.cbuf12 c).
Proof.
  split; [lia|]. split; [lia|].
  apply (kf_bfly5_m1_memory Samples.cbuf12 Samples.ctw 2 2 6); lia.
Defined.

(** X5.  [kf_bfly4_m1] stays inside its buffer exactly when there is no
    group ([n <= 0]) or the buffer holds the [4 * n] samples of the groups.
    It leaves the buffer its length and every cell from [4 * n] on. *)
Theorem kf_bfly4_m1_memory {F : Type} `{FloatOps F} (fout : list (kissCpx F)) (n : Z) :
  (is_Some (kf_bfly4_m1 n fout) ↔ n ≤ 0 ∨ 4 * n ≤ Z.of_nat (length fout)) ∧
  (∀ fout', kf_bfly4_m1 n fout = Some fout' →
     length fout' = length fout ∧ ∀ c, 4 * n ≤ c → ld fout' c = ld fout c).
Proof.
  destruct (kf_bfly4_m1_footprint n fout) as [Hd Hf]. split.
  - rewrite Hd. unfold fp_range, bfly4_m1_need. split.
    + intros Hr. destruct (decide (n ≤ 0)); [by left|]. right.
      destruct (Hr (n - 1)); lia.
    + intros Hn g Hg. lia.
  - intros fout' Hrun. destruct (Hf fout' Hrun) as [Hlen Hfr]. split; [done|].
    intros c Hc. apply Hfr. intros g Hg. unfold bfly4_m1_cells. lia.
Qed.

(** X6.  For [n >= 1] groups of [m >= 1] positions spaced [mm >= 0] apart,
    [kf_bfly4_mx] stays inside its buffers exactly when the buffer holds
    the [4 * m] samples of the last group and the table the three twiddles
    of each position, [tw[j * fstride]], [tw[2 * j * fstride]] and
    [tw[3 * j * fstride]]: the fast path for [fstride = 1], which reads the
    twiddles of two positions at once, asks for no more than the general
    path.  It leaves the buffer its length and every cell outside the
    groups. *)
Theorem kf_bfly4_mx_memory {F : Type} `{FloatOps F}
    (fout tw : list (kissCpx F)) (m n fstride mm : Z) :
  1 ≤ n → 1 ≤ m → 0 ≤ mm →
  (is_Some (kf_bfly4_mx tw m n mm fstride fout) ↔ mx_bounds fout tw m n fstride mm) ∧
  (∀ fout', kf_bfly4_mx tw m n mm fstride fout = Some fout' →
     length fout' = length fout ∧
     ∀ c, (∀ i, 0 ≤ i < n → ¬ interval_cells mm (4 * m) i c) → ld fout' c = ld fout c).
Proof.
  intros Hn Hm Hmm. destruct (kf_bfly4_mx_footprint tw m n mm fstride fout) as [Hd Hf].
  split.
  - rewrite Hd. unfold fp_range, mx_group_need, fp_range, mx_need, mx_bounds. split.
    + intros Hr. split; [lia|]. split; [done|]. split.
      * destruct (Hr (n - 1) ltac:(lia) (m - 1) ltac:(lia)) as (_ & _ & _ & ? & ? & ? & ?).
        lia.
      * intros j Hj. destruct (Hr 0 ltac:(lia) j Hj) as (? & ? & ? & _). done.
    + intros (_ & _ & Hlen & Htw) i Hi j Hj.
      destruct (Htw j Hj) as (? & ? & ?). pose proof (group_base_bound i n mm Hi Hmm).
      do 3 (split; [done|]). lia.
  - intros fout' Hrun. destruct (Hf fout' Hrun) as [Hlen Hfr]. split; [done|].
    intros c Hc. apply Hfr. intros i Hi (j & Hj & Hcell). apply (Hc i Hi).
    unfold mx_cells in Hcell. unfold interval_cells. lia.
Qed.

Lemma kf_bfly4_mx_memory_witness :
  1 ≤ 1 ∧ 1 ≤ 3 ∧ 0 ≤ 12 ∧
  (is_Some (kf_bfly4_mx Samples.ctw 3 1 12 1 Samples.cbuf12) ↔
   mx_bounds Samples.cbuf12 Samples.ctw 3 1 1 12) ∧
  (∀ fout', kf_bfly4_mx Samples.ctw 3 1 12 1 Samples.cbuf12 = Some fout' →
     length fout' = length Samples.cbuf12 ∧
     ∀ c, (∀ i, 0 ≤ i < 1 → ¬ interval_cells 12 (4 * 3) i c) →
          ld fout' c = ld Samples.cbuf12 c).
Proof.
  split; [lia|]. split; [lia|]. split; [lia|].
  apply (kf_bfly4_mx_memory Samples.cbuf12 Samples.ctw 3 1 1 12); lia.
Defined.

(** X7.  Without groups ([n <= 0]) or without positions ([m <= 0]),
    [kf_bfly4_mx] returns the buffer as it is and reads no twiddle: the
    table may be empty. *)
Theorem kf_bfly4_mx_no_work {F : Type} `{FloatOps F}
    (fout tw : list (kissCpx F)) (m n fstride mm : Z) :
  n ≤ 0 ∨ m ≤ 0 → kf_bfly4_mx tw m n mm fstride fout = Some fout.
Proof.
  intros Hnm. destruct (kf_bfly4_mx_footprint tw m n mm fstride fout) as [Hd Hf].
  destruct (proj2 Hd) as [fout' Hrun].
  { intros i Hi j Hj. lia. }
  rewrite Hrun. f_equal. destruct (Hf fout' Hrun) as [_ Hfr].
  apply ld_ext. intros c. apply Hfr. intros i Hi (j & Hj & _). lia.
Qed.

Lemma kf_bfly4_mx_no_work_witness :
  (2 ≤ 0 ∨ 0 ≤ 0) ∧
  kf_bfly4_mx (F := float32) [] 0 2 5 7 Samples.cbuf8 = Some Samples.cbuf8.
Proof.
  split; [right; lia|].
  apply (kf_bfly4_mx_no_work Samples.cbuf8 [] 0 2 7 5). right. lia.
Defined.

(** X8.  [cmul2x] is the complex product, twice: on two samples and two
    twiddles packed in registers it returns the two products
    [(a.re*b.re - a.im*b.im, a.re*b.im + a.im*b.re)], as [cmul2] does for
    one of them.  (The kernel multiplies by [1.0f] and [-1.0f] where the
    formula subtracts; the values are those of IEEE-754 arithmetic.) *)
Theorem cmul2x_products {F : Type} `{FloatLaws F} (a a' b b' : kissCpx F) :
  cmul2x (vcombine_f32 (lanes a) (lanes a')) (vcombine_f32 (lanes b) (lanes b'))
  = vcombine_f32 (lanes (c_mul a b)) (lanes (c_mul a' b')) ∧
  cmul2 (lanes a) (lanes b) = lanes (c_mul a b).
Proof.
  split; [|apply cmul2_c_mul].
  rewrite <- !cmul2_c_mul. reflexivity.
Qed.

Lemma cmul2x_products_witness :
  cmul2x (vcombine_f32 (lanes (Samples.cx 1 2)) (lanes (Samples.cx 3 (-1))))
         (vcombine_f32 (lanes (Samples.cx 2 (-3))) (lanes (Samples.cx 0 1)))
  = vcombine_f32 (lanes (c_mul (Samples.cx 1 2) (Samples.cx 2 (-3))))
                 (lanes (c_mul (Samples.cx 3 (-1)) (Samples.cx 0 1))) ∧
  cmul2 (lanes (Samples.cx 1 2)) (lanes (Samples.cx 2 (-3)))
  = lanes (c_mul (Samples.cx 1 2) (Samples.cx 2 (-3))).
Proof.
  exact (cmul2x_products (Samples.cx 1 2) (Samples.cx 3 (-1)) (Samples.cx 2 (-3))
           (Samples.cx 0 1)).
Defined.

(** ** The harnesses of the reference decoders *)

Import Harness Streams.

(** *** Four bytes and the number they spell *)

(** The number that four bytes spell, least significant first. *)
Definition u32_value (b0 b1 b2 b3 : Byte.byte) : Z :=
  uchar_val b0 + 256 * uchar_val b1 + 65536 * uchar_val b2 + 16777216 * uchar_val b3.

Lemma uchar_val_range b : 0 ≤ uchar_val b < 256.
Proof. unfold uchar_val. pose proof (Byte.to_N_bounded b). lia. Qed.

Lemma uchar_val_to_uchar z : uchar_val (to_uchar z) = z mod 256.
Proof.
  unfold uchar_val, to_uchar. pose proof (Z.mod_pos_bound z 256 ltac:(lia)) as Hm.
  destruct (Byte.of_N (Z.to_N (z mod 256))) as [b|] eqn:E; simpl.
  - apply Byte.to_of_N in E. rewrite E. lia.
  - apply Byte.of_N_None_iff in E. lia.
Qed.

Lemma to_uchar_val b : to_uchar (uchar_val b) = b.
Proof.
  unfold to_uchar. pose proof (uchar_val_range b).
  rewrite Z.mod_small by done. unfold uchar_val. rewrite N2Z.id, Byte.of_to_N. done.
Qed.

Lemma to_uchar_mod z : to_uchar (z mod 256) = to_uchar z.
Proof. unfold to_uchar. by rewrite Z.mod_mod by lia. Qed.

Lemma lor_shiftl_add a b k :
  0 ≤ k → 0 ≤ a < 2 ^ k → Z.lor a (Z.shiftl b k) = a + b * 2 ^ k.
Proof.
  intros Hk Ha. rewrite <- Z.add_lor_land, Z.shiftl_mul_pow2 by done.
  assert (Z.land a (b * 2 ^ k) = 0) as ->; [|lia].
  apply Z.bits_inj_0. intros n. rewrite Z.land_spec.
  destruct (decide (n < k)).
  - rewrite Z.mul_pow2_bits_low by done. apply andb_false_r.
  - rewrite <- (Z.mod_small a (2 ^ k)) by done.
    rewrite Z.mod_pow2_bits_high by lia. done.
Qed.

Lemma read_u32_expr b0 b1 b2 b3 :
  Z.lor (Z.lor (Z.lor (uint32 (uchar_val b0))
                      (uint32 (Z.shiftl (uint32 (uchar_val b1)) 8)))
               (uint32 (Z.shiftl (uint32 (uchar_val b2)) 16)))
        (uint32 (Z.shiftl (uint32 (uchar_val b3)) 24))
  = u32_value b0 b1 b2 b3.
Proof.
  pose proof (uchar_val_range b0). pose proof (uchar_val_range b1).
  pose proof (uchar_val_range b2). pose proof (uchar_val_range b3).
  unfold uint32, UINT32_MAX, u32_value.
  rewrite !Z.shiftl_mul_pow2 by lia.
  rewrite !(Z.mod_small (uchar_val _)) by lia.
  rewrite !Z.mod_small by lia.
  rewrite <- !Z.shiftl_mul_pow2 by lia.
  rewrite (lor_shiftl_add _ _ 8) by lia.
  rewrite (lor_shiftl_add _ _ 16) by lia.
  rewrite (lor_shiftl_add _ _ 24) by lia. lia.
Qed.

Lemma write_u32_bytes v :
  [to_uchar (Z.land v 255); to_uchar (Z.land (Z.shiftr v 8) 255);
   to_uchar (Z.land (Z.shiftr v 16) 255); to_uchar (Z.land (Z.shiftr v 24) 255)]
  = u32_bytes v.
Proof.
  unfold u32_bytes. change 255 with (Z.ones 8). rewrite !Z.land_ones by lia.
  rewrite !Z.shiftr_div_pow2 by lia. change (2 ^ 8) with 256.
  by rewrite !to_uchar_mod.
Qed.




Lemma u32_value_bytes v :
  0 ≤ v ≤ UINT32_MAX →
  ∃ b0 b1 b2 b3, u32_bytes v = [b0; b1; b2; b3] ∧ u32_value b0 b1 b2 b3 = v.
Proof.
  intros Hv. unfold UINT32_MAX in Hv. eexists _, _, _, _. split; [done|].
  unfold u32_value. rewrite !uchar_val_to_uchar.
  pose proof (Z.div_mod v 256 ltac:(lia)). pose proof (Z.mod_pos_bound v 256 ltac:(lia)).
  pose proof (Z.div_mod (v / 256) 256 ltac:(lia)).
  pose proof (Z.mod_pos_bound (v / 256) 256 ltac:(lia)).
  pose proof (Z.div_mod (v / 256 / 256) 256 ltac:(lia)).
  pose proof (Z.mod_pos_bound (v / 256 / 256) 256 ltac:(lia)).
  replace (v / 65536) with (v / 256 / 256) by (rewrite Z.div_div by lia; done).
  replace (v / 16777216) with (v / 256 / 256 / 256) by (rewrite !Z.div_div by lia; done).
  assert (v / 256 / 256 / 256 < 256).
  { rewrite !Z.div_div by lia. apply Z.div_lt_upper_bound; lia. }
  assert (0 ≤ v / 256 / 256 / 256) by (rewrite !Z.div_div by lia; apply Z.div_pos; lia).
  rewrite (Z.mod_small (v / 256 / 256 / 256)) by lia. lia.
Qed.

(** *** The growing buffer *)

Section FloatsFacts.
Variable SIZE_MAX : Z.
Context {F : Type}.
Implicit Types (v : floats F) (b src : block F).

Lemma size_t_small z : 0 ≤ z ≤ SIZE_MAX → size_t SIZE_MAX z = z.
Proof. intros Hz. unfold size_t. apply Z.mod_small. lia. Qed.

Lemma grow_spec need out_cap :
  1024 ≤ SIZE_MAX → 0 ≤ out_cap < need → need ≤ SIZE_MAX →
  ∃ new_cap, grow SIZE_MAX need out_cap = Some new_cap ∧
    need ≤ new_cap ≤ SIZE_MAX ∧
    (out_cap = 0 ∧ new_cap = 1024 ∨ new_cap < 2 * need).
Proof.
  intros Hmax Hcap Hneed. unfold grow.
  set (c0 := if decide (out_cap ≠ 0) then out_cap else 1024).
  assert (1 ≤ c0 ≤ SIZE_MAX ∧ (out_cap = 0 ∧ c0 = 1024 ∨ c0 < 2 * need)) as Hc0.
  { unfold c0. destruct (decide (out_cap ≠ 0)); lia. }
  destruct (while_loop_inv
              (λ s : Z * bool, 1 ≤ fst s ≤ SIZE_MAX ∧
                               (out_cap = 0 ∧ fst s = 1024 ∨ fst s < 2 * need) ∧
                               (snd s = true → fst s = need))
              (λ s, if snd s then O else Z.to_nat (need - fst s))
              (λ s, bool_decide (fst s < need) && negb (snd s))
              (grow_body SIZE_MAX need))
    with (fuel := Z.to_nat need) (s := (c0, false)) as ([nc br] & -> & Hinv & Hc).
  - intros [nc br] (H1 & H2 & H3) Hc. apply andb_true_iff in Hc as [Hlt Hbr].
    apply bool_decide_eq_true in Hlt. apply negb_true_iff in Hbr. simpl in *. subst br.
    unfold grow_body. destruct (decide (nc > SIZE_MAX / 2)) as [Hbig|Hsmall].
    + eexists. split; [done|]. simpl. split; [|lia].
      split; [lia|]. split; [lia|]. done.
    + assert (2 * nc ≤ SIZE_MAX).
      { pose proof (Z.div_mod SIZE_MAX 2 ltac:(lia)).
        pose proof (Z.mod_pos_bound SIZE_MAX 2 ltac:(lia)). lia. }
      eexists. split; [done|]. simpl. rewrite size_t_small by lia.
      split; [|lia]. split; [lia|]. split; [lia|]. done.
  - simpl. split; [lia|]. split; [lia|]. done.
  - simpl. lia.
  - simpl in *. destruct Hinv as (H1 & H2 & H3).
    exists nc. split; [done|]. apply andb_false_iff in Hc as [Hc|Hc].
    + apply bool_decide_eq_false in Hc. simpl in Hc. lia.
    + apply negb_false_iff in Hc. simpl in Hc. specialize (H3 Hc). lia.
Qed.

Lemma memcpy_append b src len n :
  0 ≤ len → 0 < n ≤ Z.of_nat (length src) → len + n ≤ Z.of_nat (length b) →
  ∃ b', memcpy b len src (n * 4) = Some b' ∧ length b' = length b ∧
        take (Z.to_nat (len + n)) b' = take (Z.to_nat len) b ++ take (Z.to_nat n) src.
Proof.
  intros Hlen Hn Hfit. unfold memcpy.
  rewrite Z.div_mul, Z.mod_mul by lia. rewrite decide_True by lia.
  eexists. split; [done|].
  assert (length (take (Z.to_nat len) b) = Z.to_nat len) as Hl1
    by (rewrite length_take; lia).
  assert (length (take (Z.to_nat n) src) = Z.to_nat n) as Hl2
    by (rewrite length_take; lia).
  split.
  - rewrite !length_app, Hl1, Hl2, length_drop. lia.
  - rewrite app_assoc. rewrite take_app_length'; [done|].
    rewrite length_app, Hl1, Hl2. lia.
Qed.

Lemma append_floats_spec v src n w :
  4096 ≤ SIZE_MAX → floats_ok v → 0 < n ≤ Z.of_nat (length src) →
  8 * (f_len v + n) ≤ SIZE_MAX →
  let need := f_len v + n in
  ∃ r v' w', append_floats SIZE_MAX v src n w = Some ((r, v'), w') ∧
    (need ≤ f_cap v → r = 1 ∧ w' = w ∧ f_cap v' = f_cap v) ∧
    (f_cap v < need → alloc w = Some (bool_decide (r = 1), w')) ∧
    (r = 0 ∨ r = 1) ∧ (r = 0 → v' = v) ∧
    (r = 1 →
       floats_ok v' ∧ f_len v' = need ∧
       floats_data v' = floats_data v ++ take (Z.to_nat n) src ∧
       (f_cap v' = f_cap v ∨ f_cap v' = 1024 ∨ f_cap v' < 2 * need)).
Proof.
  intros Hmax [Hblock Hlen] Hn Hfit need. unfold append_floats.
  rewrite decide_False by lia.
  rewrite !size_t_small by lia. rewrite decide_False by lia. fold need.
  destruct (decide (need > f_cap v)) as [Hgrow|Hfits].
  - destruct (grow_spec need (f_cap v)) as (nc & Hg & Hnc & Hbound); [lia..|].
    unfold mbind, prog_bind, defined, realloc. rewrite Hg. simpl.
    rewrite size_t_small by lia. rewrite Z.div_mul by lia.
    unfold mbind, prog_bind. destruct (alloc w) as [[[] w1]|] eqn:Ha; simpl.
    + set (b1 := take (Z.to_nat nc) (f_block v ++ replicate (Z.to_nat nc) None)).
      assert (length b1 = Z.to_nat nc) as Hb1.
      { unfold b1. rewrite length_take, length_app, length_replicate. lia. }
      destruct (memcpy_append b1 src (f_len v) n) as (b' & Hm & Hlb & Htake); [lia..|].
      rewrite Hm. simpl. eexists 1, _, w1. split; [done|].
      split; [lia|]. split; [done|]. split; [by right|]. split; [done|]. intros _. simpl.
      split; [split; simpl; lia|]. split; [done|]. split; [|lia].
      unfold floats_data. simpl. fold need in Htake. rewrite Htake. f_equal.
      unfold b1. rewrite take_take, take_app_le by lia. f_equal. lia.
    + eexists 0, v, w1. split; [done|]. split; [lia|]. split; [done|].
      split; [by left|]. done.
    + unfold alloc in Ha. destruct (w_heap w); done.
  - unfold mbind, prog_bind, mret, prog_ret, defined. simpl.
    destruct (memcpy_append (f_block v) src (f_len v) n) as (b' & Hm & Hlb & Htake);
      [lia..|].
    rewrite Hm. simpl. eexists 1, _, w. split; [done|].
    split; [done|]. split; [lia|]. split; [by right|]. split; [done|]. intros _. simpl.
    split; [split; simpl; lia|]. split; [done|]. split; [|by left].
    unfold floats_data. simpl. fold need in Htake. by rewrite Htake.
Qed.

(** Whatever the arguments, a call that returns [0] has changed nothing of
    the buffer; so has a call with [n = 0], which returns [1]. *)
Lemma append_floats_failure v src n w r v' w' :
  append_floats SIZE_MAX v src n w = Some ((r, v'), w') →
  (r = 0 ∨ r = 1) ∧ (r = 0 → v' = v) ∧ (n = 0 → r = 1 ∧ v' = v ∧ w' = w).
Proof.
  unfold append_floats. intros Hrun.
  unfold mbind, prog_bind, mret, prog_ret, defined, realloc in Hrun.
  destruct (decide (n = 0)) as [Hn|Hn].
  { simplify_eq. split; [by right|]. done. }
  destruct (decide (n > _)).
  { simplify_eq. split; [by left|]. done. }
  destruct (decide (_ > f_cap v)).
  - destruct (grow _ _ _) as [nc|]; simpl in Hrun; [|done].
    unfold mbind, prog_bind in Hrun.
    destruct (alloc w) as [[[] w1]|]; simpl in Hrun; [| |done].
    + destruct (memcpy _ _ _ _); simpl in Hrun; [|done]. simplify_eq.
      split; [by right|]. done.
    + simplify_eq. split; [by left|]. done.
  - destruct (memcpy _ _ _ _); simpl in Hrun; [|done]. simplify_eq.
    split; [by right|]. done.
Qed.
End FloatsFacts.

(** *** Reading and writing *)

Lemma prog_bind_inv {A B : Type} (m : prog A) (f : A → prog B) w b w' :
  (m ≫= f) w = Some (b, w') → ∃ a w1, m w = Some (a, w1) ∧ f a w1 = Some (b, w').
Proof.
  unfold mbind, prog_bind. destruct (m w) as [[a w1]|]; [|done]. eauto.
Qed.

Lemma prog_ret_inv {A : Type} (a b : A) w w' :
  mret (M := prog) a w = Some (b, w') → b = a ∧ w' = w.
Proof. unfold mret, prog_ret. by intros [= -> ->]. Qed.

Lemma stmt_bind_inv {A B : Type} (m : stmt A) (f : A → stmt B) w r w' :
  (m ≫= f) w = Some (r, w') →
  (∃ c, m w = Some (Return c, w') ∧ r = Return c) ∨
  (∃ a w1, m w = Some (Next a, w1) ∧ f a w1 = Some (r, w')).
Proof.
  unfold mbind, stmt_bind. destruct (m w) as [[[c|a] w1]|]; [| |done].
  - intros [= <- <-]. left. eauto.
  - right. eauto.
Qed.


Lemma read_exact_ok (bs rest : list Byte.byte) w :
  w_stdin w = bs ++ rest →
  read_exact (Z.of_nat (length bs)) w = Some (Some bs, set_stdin w rest).
Proof.
  intros Hin. unfold read_exact, fread, mbind, prog_bind, mret, prog_ret.
  rewrite Hin, Nat2Z.id, take_app_length, drop_app_length.
  by rewrite decide_True by done.
Qed.

Lemma read_exact_short n w :
  Z.of_nat (length (w_stdin w)) < n →
  read_exact n w = Some (None, set_stdin w []).
Proof.
  intros Hin. unfold read_exact, fread, mbind, prog_bind, mret, prog_ret.
  rewrite take_ge, drop_ge by lia. by rewrite decide_False by lia.
Qed.


Lemma read_u32_ok v rest w :
  0 ≤ v ≤ UINT32_MAX → w_stdin w = u32_bytes v ++ rest →
  read_u32 w = Some (Some v, set_stdin w rest).
Proof.
  intros Hv Hin. destruct (u32_value_bytes v Hv) as (b0 & b1 & b2 & b3 & Hb & Hval).
  rewrite Hb in Hin. unfold read_u32, mbind, prog_bind.
  pose proof (read_exact_ok [b0; b1; b2; b3] rest w Hin) as Hr.
  change (Z.of_nat (length [b0; b1; b2; b3])) with 4 in Hr. rewrite Hr.
  unfold mret, prog_ret. by rewrite read_u32_expr, Hval.
Qed.

Lemma read_u32_short w :
  (length (w_stdin w) < 4)%nat → read_u32 w = Some (None, set_stdin w []).
Proof.
  intros Hin. unfold read_u32, mbind, prog_bind. by rewrite read_exact_short by lia.
Qed.


Lemma write_exact_inv src w ok w' :
  write_exact src w = Some (ok, w') →
  w_stdin w' = w_stdin w ∧ w_stderr w' = w_stderr w ∧ w_heap w' = w_heap w ∧
  (ok = true → w_stdout w' = w_stdout w ++ src ∧
               (w_room w' + length src = w_room w)%nat).
Proof.
  unfold write_exact, fwrite, mbind, prog_bind, mret, prog_ret. intros [= <- <-]. simpl.
  do 3 (split; [done|]). intros Hok%bool_decide_eq_true.
  assert (length src ≤ w_room w)%nat by lia.
  rewrite Nat.min_l, firstn_all by done. split; [done | lia].
Qed.

Lemma write_exact_ok src w :
  (length src ≤ w_room w)%nat →
  write_exact src w
  = Some (true, World (w_stdin w) (w_stdout w ++ src) (w_room w - length src)
                  (w_stderr w) (w_heap w)).
Proof.
  intros Hroom. unfold write_exact, fwrite, mbind, prog_bind, mret, prog_ret.
  rewrite Nat.min_l, firstn_all by done. by rewrite bool_decide_eq_true_2.
Qed.

Lemma write_exact_short src w :
  (w_room w < length src)%nat →
  write_exact src w
  = Some (false, World (w_stdin w) (w_stdout w ++ take (w_room w) src) 0
                   (w_stderr w) (w_heap w)).
Proof.
  intros Hroom. unfold write_exact, fwrite, mbind, prog_bind, mret, prog_ret.
  rewrite Nat.min_r, Nat.sub_diag by lia. by rewrite bool_decide_eq_false_2 by lia.
Qed.

Lemma write_u32_unfold v : write_u32 v = write_exact (u32_bytes v).
Proof. unfold write_u32. by rewrite write_u32_bytes. Qed.

(** *** The statements, one by one *)

Lemma eval_inv {A : Type} (m : prog A) w r w' :
  eval m w = Some (r, w') → ∃ a, r = Next a ∧ m w = Some (a, w').
Proof. unfold eval. destruct (m w) as [[a w1]|]; [|done]. intros [= <- <-]. eauto. Qed.

Lemma next_inv {A : Type} (a : A) w r w' :
  next a w = Some (r, w') → r = Next a ∧ w' = w.
Proof. unfold next. by intros [= <- <-]. Qed.

Lemma fail_inv {A : Type} msg w (r : step A) w' :
  fail msg w = Some (r, w') → r = Return 1 ∧ w' = add_stderr w msg.
Proof. unfold fail, fprintf_stderr. by intros [= <- <-]. Qed.

Lemma unless_inv c msg w r w' :
  unless c msg w = Some (r, w') →
  (c = true ∧ r = Next tt ∧ w' = w) ∨ (c = false ∧ r = Return 1 ∧ w' = add_stderr w msg).
Proof.
  destruct c; simpl.
  - intros [-> ->]%next_inv. by left.
  - intros [-> ->]%fail_inv. by right.
Qed.


(** *** Statements that leave the standard output alone *)

(** The world [w'] differs from [w] by what was read and allocated only. *)
Definition same_output (w w' : world) : Prop :=
  w_stdout w' = w_stdout w ∧ w_room w' = w_room w ∧ w_stderr w' = w_stderr w.

(** An expression that writes nothing. *)
Definition prog_quiet {A : Type} (m : prog A) : Prop :=
  ∀ w a w', m w = Some (a, w') → same_output w w'.

(** A statement that writes nothing, but one message when it leaves
    [main], which it does with status [1]. *)
Definition stmt_quiet {A : Type} (m : stmt A) : Prop :=
  ∀ w r w', m w = Some (r, w') →
    w_stdout w' = w_stdout w ∧ w_room w' = w_room w ∧
    match r with
    | Next _ => w_stderr w' = w_stderr w
    | Return c =>
        c = 1 ∧ ∃ msg, msg ≠ FailedToWriteOutput ∧ w_stderr w' = w_stderr w ++ [msg]
    end.

Lemma same_output_refl w : same_output w w.
Proof. done. Qed.

Lemma same_output_trans w1 w2 w3 :
  same_output w1 w2 → same_output w2 w3 → same_output w1 w3.
Proof. unfold same_output. intros (? & ? & ?) (? & ? & ?). repeat split; congruence. Qed.

Lemma prog_quiet_bind {A B : Type} (m : prog A) (f : A → prog B) :
  prog_quiet m → (∀ a, prog_quiet (f a)) → prog_quiet (m ≫= f).
Proof.
  intros Hm Hf w b w' (a & w1 & H1 & H2)%prog_bind_inv.
  eapply same_output_trans; [by eapply Hm | by eapply Hf].
Qed.

Lemma prog_quiet_ret {A : Type} (a : A) : prog_quiet (mret a).
Proof. intros w b w' [_ ->]%prog_ret_inv. done. Qed.

Lemma prog_quiet_defined {A : Type} (o : option A) : prog_quiet (defined o).
Proof. intros w a w'. unfold defined. destruct o; simpl; [|done]. by intros [= _ <-]. Qed.

Lemma prog_quiet_fread n : prog_quiet (fread n).
Proof. intros w a w'. unfold fread. by intros [= _ <-]. Qed.

Lemma prog_quiet_alloc : prog_quiet alloc.
Proof. intros w a w'. unfold alloc. destruct (w_heap w); by intros [= _ <-]. Qed.

Lemma prog_quiet_read_exact n : prog_quiet (read_exact n).
Proof.
  apply prog_quiet_bind; [apply prog_quiet_fread|]. intros a. apply prog_quiet_ret.
Qed.

Lemma prog_quiet_read_u32 : prog_quiet read_u32.
Proof.
  apply prog_quiet_bind; [apply prog_quiet_read_exact|].
  intros [[|b0 [|b1 [|b2 [|b3 [|]]]]]|]; apply prog_quiet_ret.
Qed.

Lemma stmt_quiet_bind {A B : Type} (m : stmt A) (f : A → stmt B) :
  stmt_quiet m → (∀ a, stmt_quiet (f a)) → stmt_quiet (m ≫= f).
Proof.
  intros Hm Hf w r w' [(c & H1 & ->) | (a & w1 & H1 & H2)]%stmt_bind_inv.
  - exact (Hm w (Return c) w' H1).
  - destruct (Hm w _ w1 H1) as (? & ? & ?). destruct (Hf a w1 r w' H2) as (? & ? & Hr).
    split; [congruence|]. split; [congruence|].
    destruct r as [c|b]; [|congruence].
    destruct Hr as [-> (msg & ? & ?)]. split; [done|]. exists msg. split; [done|]. congruence.
Qed.

Lemma stmt_quiet_eval {A : Type} (m : prog A) : prog_quiet m → stmt_quiet (eval m).
Proof.
  intros Hm w r w'. unfold eval. destruct (m w) as [[a w1]|] eqn:E; [|done].
  intros [= <- <-]. by destruct (Hm w a w1 E) as (? & ? & ?).
Qed.

Lemma stmt_quiet_next {A : Type} (a : A) : stmt_quiet (next a).
Proof. intros w r w'. unfold next. by intros [= <- <-]. Qed.

Lemma stmt_quiet_fail {A : Type} msg :
  msg ≠ FailedToWriteOutput → stmt_quiet (fail (A := A) msg).
Proof.
  intros Hmsg w r w'. unfold fail, fprintf_stderr. intros [= <- <-]. simpl.
  repeat split; eauto.
Qed.

Lemma stmt_quiet_unless c msg : msg ≠ FailedToWriteOutput → stmt_quiet (unless c msg).
Proof. intros Hmsg. destruct c; [apply stmt_quiet_next | by apply stmt_quiet_fail]. Qed.

Lemma stmt_quiet_require {A : Type} (f : prog (option A)) msg :
  prog_quiet f → msg ≠ FailedToWriteOutput → stmt_quiet (require f msg).
Proof.
  intros Hf Hmsg. apply stmt_quiet_bind; [by apply stmt_quiet_eval|].
  intros [a|]; [apply stmt_quiet_next | by apply stmt_quiet_fail].
Qed.

Lemma stmt_quiet_packets {S : Type} (body : S → stmt S) k s :
  (∀ s, stmt_quiet (body s)) → stmt_quiet (packets body k s).
Proof.
  intros Hbody. revert s. induction k as [|k IH]; intros s; simpl.
  - apply stmt_quiet_next.
  - apply stmt_quiet_bind; [apply Hbody | apply IH].
Qed.

Create HintDb quiet.
#[local] Hint Resolve prog_quiet_ret prog_quiet_defined prog_quiet_fread prog_quiet_alloc
  prog_quiet_read_exact prog_quiet_read_u32 stmt_quiet_eval stmt_quiet_next
  stmt_quiet_fail stmt_quiet_unless stmt_quiet_require : quiet.

(** *** Statements that run *)

Lemma stmt_bind_next {A B : Type} (m : stmt A) (f : A → stmt B) w a w1 :
  m w = Some (Next a, w1) → (m ≫= f) w = f a w1.
Proof. intros Hm. unfold mbind, stmt_bind. by rewrite Hm. Qed.

Lemma stmt_bind_return {A B : Type} (m : stmt A) (f : A → stmt B) w c w1 :
  m w = Some (Return c, w1) → (m ≫= f) w = Some (Return c, w1).
Proof. intros Hm. unfold mbind, stmt_bind. by rewrite Hm. Qed.

Lemma eval_run {A : Type} (m : prog A) w a w1 :
  m w = Some (a, w1) → eval m w = Some (Next a, w1).
Proof. intros Hm. unfold eval. by rewrite Hm. Qed.

Lemma require_some {A : Type} (f : prog (option A)) msg w a w1 :
  f w = Some (Some a, w1) → require f msg w = Some (Next a, w1).
Proof. intros Hf. unfold require. by rewrite (stmt_bind_next _ _ w (Some a) w1 (eval_run _ _ _ _ Hf)). Qed.

Lemma require_none {A : Type} (f : prog (option A)) msg w w1 :
  f w = Some (None, w1) → require f msg w = Some (Return 1, add_stderr w1 msg).
Proof. intros Hf. unfold require. by rewrite (stmt_bind_next _ _ w None w1 (eval_run _ _ _ _ Hf)). Qed.

Lemma read_u32_run v rest o r e h :
  0 ≤ v ≤ UINT32_MAX →
  read_u32 (World (u32_bytes v ++ rest) o r e h) = Some (Some v, World rest o r e h).
Proof. intros Hv. by rewrite (read_u32_ok v rest). Qed.

Lemma read_exact_run bs rest o r e h :
  read_exact (Z.of_nat (length bs)) (World (bs ++ rest) o r e h)
  = Some (Some bs, World rest o r e h).
Proof. by rewrite (read_exact_ok bs rest). Qed.

Lemma read_bytes_run (p : list Byte.byte) msg rest o r e :
  read_bytes (Z.of_nat (length p)) msg (World (p ++ rest) o r e [])
  = Some (Next (match p with [] => None | _ => Some p end), World rest o r e []).
Proof.
  unfold read_bytes. destruct p as [|b p]; [done|].
  rewrite decide_True by (simpl; lia).
  rewrite (stmt_bind_next _ _ _ true (World ((b :: p) ++ rest) o r e [])) by done.
  by rewrite (stmt_bind_next _ _ _ (b :: p) (World rest o r e []))
    by (apply require_some, read_exact_run).
Qed.

(** *** What a successful read tells *)


Section MainFacts.
Variable SIZE_MAX : Z.
Context {F : Type}.
Variable float_bytes : F → list Byte.byte.

Lemma prog_quiet_append_floats (v : floats F) src n :
  prog_quiet (append_floats SIZE_MAX v src n).
Proof.
  unfold append_floats. destruct (decide (n = 0)); [apply prog_quiet_ret|].
  destruct (decide (n > _)); [apply prog_quiet_ret|].
  apply prog_quiet_bind.
  - destruct (decide (_ > f_cap v)); [|apply prog_quiet_ret].
    apply prog_quiet_bind; [apply prog_quiet_defined|]. intros nc.
    apply prog_quiet_bind; [|intros ?; apply prog_quiet_ret].
    apply prog_quiet_bind; [apply prog_quiet_alloc | intros ?; apply prog_quiet_ret].
  - intros [v'|]; [|apply prog_quiet_ret].
    apply prog_quiet_bind; [apply prog_quiet_defined | intros ?; apply prog_quiet_ret].
Qed.

Lemma stmt_quiet_read_bytes len msg :
  msg ≠ FailedToWriteOutput → stmt_quiet (read_bytes len msg).
Proof.
  intros Hmsg. unfold read_bytes. destruct (decide (len > 0)); [|auto with quiet].
  apply stmt_quiet_bind; [auto with quiet|]. intros [|]; [|auto with quiet].
  apply stmt_quiet_bind; [auto with quiet|]. intros data. auto with quiet.
Qed.

Lemma stmt_quiet_alloc_frame channels frame_size :
  stmt_quiet (alloc_frame (F := F) SIZE_MAX channels frame_size).
Proof.
  unfold alloc_frame.
  apply stmt_quiet_bind; [auto with quiet|]. intros _.
  apply stmt_quiet_bind; [auto with quiet|]. intros ok.
  apply stmt_quiet_bind; [auto with quiet|]. intros _. auto with quiet.
Qed.



Lemma memcmp_eq_true a b : memcmp_eq a b = true → a = b.
Proof.
  unfold memcmp_eq. intros Heq%bool_decide_eq_true. revert b Heq.
  induction a as [|x a IH]; intros [|y b] Heq; simplify_eq/=; [done|].
  match goal with Hxy : uchar_val x = uchar_val y |- _ =>
    f_equal; [by rewrite <- (to_uchar_val x), <- (to_uchar_val y), Hxy | by apply IH]
  end.
Qed.

Lemma memcmp_eq_refl a : memcmp_eq a a = true.
Proof. unfold memcmp_eq. by apply bool_decide_eq_true. Qed.

Section PacketFacts.
Context {Dec : Type}.
Variable lib : library.
Variable decode_float : Dec → option (list Byte.byte) → Z → Z → Z → Dec * Z * list F.

Lemma stmt_quiet_decode_packet channels frame_size s :
  stmt_quiet (decode_packet SIZE_MAX lib decode_float channels frame_size s).
Proof.
  destruct s as [[dec frame] decoded]. unfold decode_packet.
  apply stmt_quiet_bind; [auto with quiet|]. intros packet_len.
  apply stmt_quiet_bind; [by apply stmt_quiet_read_bytes|].
  intros packet. destruct (decode_float _ _ _ _ _) as [[dec' ret] pcm].
  apply stmt_quiet_bind; [auto with quiet|]. intros frame'.
  apply stmt_quiet_bind; [auto with quiet|]. intros _.
  apply stmt_quiet_bind; [apply stmt_quiet_eval, prog_quiet_append_floats|]. intros r.
  apply stmt_quiet_bind; [auto with quiet|]. intros _. auto with quiet.
Qed.

Lemma stmt_quiet_decode_packets created channels frame_size packet_count frame :
  stmt_quiet (decode_packets SIZE_MAX lib decode_float created channels frame_size
                packet_count frame).
Proof.
  unfold decode_packets. destruct created as [[dec|] err]; [|auto with quiet].
  apply stmt_quiet_bind; [auto with quiet|]. intros _.
  apply stmt_quiet_bind; [|auto with quiet].
  apply stmt_quiet_packets. intros s. apply stmt_quiet_decode_packet.
Qed.



End PacketFacts.
End MainFacts.

(** *** The two programs, stage by stage *)

Section ProgramFacts.
Variable SIZE_MAX : Z.
Context {F : Type}.
Variable float_bytes : F → list Byte.byte.


Section SingleFacts.
Context {Dec : Type}.
Variable opus_decoder_create : Z → Z → option Dec * Z.
Variable opus_decode_float : Dec → option (list Byte.byte) → Z → Z → Z → Dec * Z * list F.

Lemma stmt_quiet_single_decode :
  stmt_quiet (single_decode SIZE_MAX opus_decoder_create opus_decode_float).
Proof.
  unfold single_decode.
  apply stmt_quiet_bind; [auto with quiet|]. intros magic.
  apply stmt_quiet_bind; [auto with quiet|]. intros _.
  apply stmt_quiet_bind; [auto with quiet|]. intros version.
  apply stmt_quiet_bind; [auto with quiet|]. intros _.
  apply stmt_quiet_bind; [auto with quiet|]. intros channels.
  apply stmt_quiet_bind; [auto with quiet|]. intros frame_size.
  apply stmt_quiet_bind; [auto with quiet|]. intros packet_count.
  apply stmt_quiet_bind; [auto with quiet|]. intros _.
  apply stmt_quiet_bind; [apply stmt_quiet_alloc_frame|]. intros frame.
  apply stmt_quiet_decode_packets.
Qed.


Lemma single_output_inv (d : floats F) w r w' :
  single_output SIZE_MAX float_bytes d w = Some (r, w') →
  (r = Next 0 ∧ w_stderr w' = w_stderr w ∧ f_len d ≤ UINT32_MAX ∧
   ∃ bytes, block_bytes float_bytes (f_block d) (size_t SIZE_MAX (f_len d * 4)) = Some bytes ∧
            w_stdout w' = w_stdout w ++ GOSO_MAGIC ++ u32_bytes (uint32 (f_len d)) ++ bytes) ∨
  (r = Return 1 ∧ w_stderr w' = w_stderr w ++ [FailedToWriteOutput]).
Proof.
  unfold single_output. intros Hrun.
  apply stmt_bind_inv in Hrun as [(c & (a & [=] & _)%eval_inv & _) |
                                  (ok1 & w1 & (? & [= <-] & H1)%eval_inv & Hrun)].
  apply write_exact_inv in H1 as (_ & He1 & _ & Ho1).
  apply stmt_bind_inv in Hrun as [(c & Hu & ->) | ([] & w2 & Hu & Hrun)];
    apply unless_inv in Hu as [(-> & [=] & ->) | (-> & [=] & ->)]; subst;
    [right; split; [done|]; simpl; congruence|].
  destruct (Ho1 eq_refl) as [Hout1 _].
  apply stmt_bind_inv in Hrun as [(c & Hu & ->) | ([] & w2 & Hu & Hrun)];
    apply unless_inv in Hu as [(Hlen & [=] & ->) | (Hlen & [=] & ->)]; subst;
    [right; split; [done|]; simpl; congruence|].
  apply bool_decide_eq_true in Hlen.
  apply stmt_bind_inv in Hrun as [(c & (a & [=] & _)%eval_inv & _) |
                                  (ok2 & w2 & (? & [= <-] & H2)%eval_inv & Hrun)].
  rewrite write_u32_unfold in H2. apply write_exact_inv in H2 as (_ & He2 & _ & Ho2).
  apply stmt_bind_inv in Hrun as [(c & Hu & ->) | ([] & w3 & Hu & Hrun)];
    apply unless_inv in Hu as [(-> & [=] & ->) | (-> & [=] & ->)]; subst;
    [right; split; [done|]; simpl; congruence|].
  destruct (Ho2 eq_refl) as [Hout2 _].
  apply stmt_bind_inv in Hrun as [(c & (a & [=] & _)%eval_inv & _) |
                                  (bytes & w3 & (? & [= <-] & H3)%eval_inv & Hrun)].
  unfold defined in H3.
  destruct (block_bytes _ _ _) as [bs|] eqn:Hbytes; simpl in H3; [|done].
  injection H3 as <- <-.
  apply stmt_bind_inv in Hrun as [(c & (a & [=] & _)%eval_inv & _) |
                                  (ok3 & w4 & (? & [= <-] & H4)%eval_inv & Hrun)].
  apply write_exact_inv in H4 as (_ & He4 & _ & Ho4).
  apply stmt_bind_inv in Hrun as [(c & Hu & ->) | ([] & w5 & Hu & Hrun)];
    apply unless_inv in Hu as [(-> & [=] & ->) | (-> & [=] & ->)]; subst;
    [right; split; [done|]; simpl; congruence|].
  destruct (Ho4 eq_refl) as [Hout4 _].
  apply next_inv in Hrun as [-> ->]. left.
  split; [done|]. split; [congruence|]. split; [lia|].
  exists bs. split; [done|]. rewrite Hout4, Hout2, Hout1. by rewrite <- !app_assoc.
Qed.
End SingleFacts.

Section MultistreamFacts.
Context {PDec MDec : Type}.
Variable opus_projection_decoder_create :
  Z → Z → Z → Z → option (list Byte.byte) → Z → option PDec * Z.
Variable opus_projection_decode_float :
  PDec → option (list Byte.byte) → Z → Z → Z → PDec * Z * list F.
Variable opus_multistream_decoder_create :
  Z → Z → Z → Z → option (list Byte.byte) → option MDec * Z.
Variable opus_multistream_decode_float :
  MDec → option (list Byte.byte) → Z → Z → Z → MDec * Z * list F.



End MultistreamFacts.
End ProgramFacts.

(** *** A well-formed stream, from the first byte to the last *)

Section StreamFacts.
Variable SIZE_MAX : Z.
Context {F : Type}.
Variable float_bytes : F → list Byte.byte.

Section DecodeStream.
Context {Dec : Type}.
Variable lib : library.
Variable decode_float : Dec → option (list Byte.byte) → Z → Z → Z → Dec * Z * list F.

Lemma floats_data_len (v : floats F) (acc : list F) :
  floats_ok v → floats_data v = Some <$> acc → f_len v = Z.of_nat (length acc).
Proof.
  intros [Hb Hl] Hd. apply (f_equal length) in Hd.
  unfold floats_data in Hd. rewrite length_take, length_fmap in Hd. lia.
Qed.

Lemma decode_packet_run channels frame_size dec frame (v : floats F) p rest o r e acc
    dec' ret pcm :
  4096 ≤ SIZE_MAX → 1 ≤ channels ≤ SIZE_MAX →
  Z.of_nat (length p) ≤ UINT32_MAX →
  floats_ok v → floats_data v = Some <$> acc →
  decode_float dec (data_ptr p) (to_int (Z.of_nat (length p))) (to_int frame_size) 0
    = (dec', ret, pcm) →
  0 ≤ ret → ret * channels ≤ Z.of_nat (length pcm) → (length pcm ≤ length frame)%nat →
  8 * (Z.of_nat (length acc) + ret * channels) ≤ SIZE_MAX →
  ∃ frame' v',
    decode_packet SIZE_MAX lib decode_float channels frame_size (dec, frame, v)
      (World (u32_bytes (Z.of_nat (length p)) ++ p ++ rest) o r e [])
    = Some (Next (dec', frame', v'), World rest o r e []) ∧
    length frame' = length frame ∧ floats_ok v' ∧
    floats_data v' = Some <$> (acc ++ take (Z.to_nat (ret * channels)) pcm).
Proof.
  intros Hmax Hch Hp Hok Hdata Hdec Hret Hpcm Hframe Hfit.
  pose proof (floats_data_len v acc Hok Hdata) as Hlen.
  unfold decode_packet.
  rewrite (stmt_bind_next _ _ _ (Z.of_nat (length p)) (World (p ++ rest) o r e []))
    by (apply require_some, read_u32_run; lia).
  rewrite (stmt_bind_next _ _ _ _ _ (read_bytes_run p _ rest o r e)).
  fold (data_ptr p). rewrite Hdec.
  set (frame' := (Some <$> pcm) ++ drop (length pcm) frame).
  assert (length frame' = length frame) as Hlf.
  { unfold frame'. rewrite length_app, length_fmap, length_drop. lia. }
  rewrite (stmt_bind_next _ _ _ frame' (World rest o r e [])); last first.
  { apply eval_run. unfold defined, store_pcm. by rewrite decide_True by done. }
  rewrite (stmt_bind_next _ _ _ tt (World rest o r e [])); last first.
  { by rewrite bool_decide_eq_true_2 by lia. }
  assert (ret ≤ ret * channels) by nia.
  rewrite (size_t_small _ ret), (size_t_small _ channels) by lia.
  set (n := ret * channels) in *. rewrite size_t_small by lia.
  assert (take (Z.to_nat n) frame' = Some <$> take (Z.to_nat n) pcm) as Htake.
  { unfold frame'. rewrite take_app_le by (rewrite length_fmap; lia). by rewrite fmap_take. }
  destruct (decide (n = 0)) as [Hn|Hn].
  - exists frame', v.
    rewrite (stmt_bind_next _ _ _ (1, v) (World rest o r e [])); last first.
    { apply eval_run. unfold append_floats. by rewrite decide_True. }
    rewrite (stmt_bind_next _ _ _ tt (World rest o r e [])) by done.
    split; [done|]. split; [done|]. split; [done|].
    rewrite Hn. simpl. by rewrite app_nil_r.
  - destruct (append_floats_spec SIZE_MAX v frame' n (World rest o r e []))
      as (r1 & v' & w' & Hrun & Hfits & Hgrows & _ & _ & Hv'); [lia|done|lia|lia|].
    assert (r1 = 1 ∧ w' = World rest o r e []) as [-> ->].
    { destruct (decide (f_len v + n ≤ f_cap v)) as [Hc|Hc].
      - by destruct (Hfits Hc) as (-> & -> & _).
      - specialize (Hgrows ltac:(lia)). unfold alloc in Hgrows. simpl in Hgrows.
        injection Hgrows as Hr <-. symmetry in Hr. by apply bool_decide_eq_true in Hr. }
    destruct (Hv' eq_refl) as (Hok' & _ & Hdata' & _).
    exists frame', v'.
    rewrite (stmt_bind_next _ _ _ (1, v') (World rest o r e [])) by by apply eval_run.
    rewrite (stmt_bind_next _ _ _ tt (World rest o r e [])) by done.
    split; [done|]. split; [done|]. split; [done|].
    by rewrite Hdata', Hdata, Htake, fmap_app.
Qed.

Lemma packets_run channels frame_size pkts :
  ∀ dec frame (v : floats F) acc samples rest o r e,
  4096 ≤ SIZE_MAX → 1 ≤ channels ≤ SIZE_MAX →
  Forall (λ p, Z.of_nat (length p) ≤ UINT32_MAX) pkts →
  Z.of_nat (length frame) = channels * frame_size →
  floats_ok v → floats_data v = Some <$> acc →
  decode_stream decode_float channels frame_size dec pkts = Some samples →
  8 * (Z.of_nat (length acc) + Z.of_nat (length samples)) ≤ SIZE_MAX →
  ∃ s, packets (decode_packet SIZE_MAX lib decode_float channels frame_size) (length pkts)
         (dec, frame, v) (World (packets_bytes pkts ++ rest) o r e [])
       = Some (Next s, World rest o r e []) ∧
       floats_ok (snd s) ∧ floats_data (snd s) = Some <$> (acc ++ samples).
Proof.
  induction pkts as [|p pkts IH];
    intros dec frame v acc samples rest o r e Hmax Hch Hp Hframe Hok Hdata Hdec Hfit.
  - simpl in *. injection Hdec as <-. exists (dec, frame, v).
    split; [done|]. split; [done|]. by rewrite app_nil_r.
  - apply Forall_cons in Hp as [Hp Hps]. simpl in Hdec.
    destruct (decode_float dec _ _ _ _) as [[dec' ret] pcm] eqn:Hcall.
    case_decide as Hret; [|done].
    destruct (decode_stream _ _ _ dec' pkts) as [samples'|] eqn:Hrest; simpl in Hdec; [|done].
    injection Hdec as <-. rewrite length_app in Hfit.
    assert (length (take (Z.to_nat (ret * channels)) pcm) = Z.to_nat (ret * channels))
      as Hchunk by (rewrite length_take; lia).
    destruct (decode_packet_run channels frame_size dec frame v p
                (packets_bytes pkts ++ rest) o r e acc dec' ret pcm)
      as (frame' & v' & Hrun & Hlf & Hok' & Hdata'); [done..|lia|lia|lia|lia|].
    destruct (IH dec' frame' v' (acc ++ take (Z.to_nat (ret * channels)) pcm) samples'
                rest o r e) as (s & Hs & Hoks & Hdatas); [done..|lia|done|done|done| |].
    { rewrite length_app. lia. }
    exists s. split; [|split; [done|by rewrite Hdatas, <- app_assoc]].
    simpl. unfold packets_bytes. simpl. rewrite <- !app_assoc.
    by rewrite (stmt_bind_next _ _ _ _ _ Hrun).
Qed.

Lemma alloc_frame_run channels frame_size i o r e :
  1 ≤ channels → 1 ≤ frame_size → 4 * (channels * frame_size) ≤ SIZE_MAX →
  alloc_frame (F := F) SIZE_MAX channels frame_size (World i o r e [])
  = Some (Next (replicate (Z.to_nat (channels * frame_size)) None), World i o r e []).
Proof.
  intros Hch Hfs Hfit. unfold alloc_frame.
  assert (channels ≤ channels * frame_size ∧ frame_size ≤ channels * frame_size) by nia.
  rewrite (size_t_small _ channels), (size_t_small _ frame_size) by lia.
  rewrite (size_t_small _ (channels * frame_size)) by lia.
  rewrite size_t_small by lia.
  rewrite (stmt_bind_next _ _ _ tt (World i o r e [])); last first.
  { rewrite bool_decide_eq_true_2; [done|]. intros [Hc|Hc].
    - assert (channels ≤ SIZE_MAX / frame_size); [|lia].
      apply Z.div_le_lower_bound; lia.
    - assert (channels * frame_size ≤ SIZE_MAX / 4); [|lia].
      apply Z.div_le_lower_bound; lia. }
  rewrite (stmt_bind_next _ _ _ true (World i o r e [])) by done.
  rewrite (stmt_bind_next _ _ _ tt (World i o r e [])) by done.
  by rewrite Z.div_mul by lia.
Qed.

Lemma decode_packets_run channels frame_size pkts dec samples rest o r e :
  4096 ≤ SIZE_MAX → 1 ≤ channels ≤ SIZE_MAX → 0 ≤ frame_size →
  Forall (λ p, Z.of_nat (length p) ≤ UINT32_MAX) pkts →
  decode_stream decode_float channels frame_size dec pkts = Some samples →
  8 * Z.of_nat (length samples) ≤ SIZE_MAX →
  ∃ v, decode_packets SIZE_MAX lib decode_float (Some dec, OPUS_OK) channels frame_size
         (Z.of_nat (length pkts)) (replicate (Z.to_nat (channels * frame_size)) None)
         (World (packets_bytes pkts ++ rest) o r e [])
       = Some (Next v, World rest o r e []) ∧
       floats_ok v ∧ floats_data v = Some <$> samples.
Proof.
  intros Hmax Hch Hfs Hp Hdec Hfit. unfold decode_packets.
  rewrite (stmt_bind_next _ _ _ tt (World (packets_bytes pkts ++ rest) o r e [])) by done.
  rewrite Nat2Z.id.
  destruct (packets_run channels frame_size pkts dec
              (replicate (Z.to_nat (channels * frame_size)) None) (Floats [] 0 0) []
              samples rest o r e) as (s & Hs & Hok & Hdata);
    [done|done|done|rewrite length_replicate; nia|unfold floats_ok; simpl; lia|done|done
    |simpl; lia|].
  exists (snd s). by rewrite (stmt_bind_next _ _ _ _ _ Hs).
Qed.
End DecodeStream.

Lemma mapM_id_Some (l : list F) : mapM id (Some <$> l) = Some l.
Proof.
  induction l as [|x l IH]; [done|].
  change (mapM id (Some <$> x :: l)) with (y ← Some x; k ← mapM id (Some <$> l); mret (y :: k)).
  by rewrite IH.
Qed.

Lemma block_bytes_run (v : floats F) samples :
  floats_ok v → floats_data v = Some <$> samples →
  Z.of_nat (length samples) ≤ UINT32_MAX → 4 * UINT32_MAX ≤ SIZE_MAX →
  block_bytes float_bytes (f_block v) (size_t SIZE_MAX (f_len v * 4))
  = Some (samples ≫= float_bytes).
Proof.
  intros Hok Hdata Hlen Hmax. pose proof (floats_data_len v samples Hok Hdata) as Hl.
  destruct Hok as [Hb Hc]. rewrite size_t_small by lia. unfold block_bytes.
  rewrite Z.mod_mul, Z.div_mul by lia. rewrite decide_True by lia.
  fold (floats_data v). by rewrite Hdata, mapM_id_Some.
Qed.

Lemma write_exact_run src i o r e h :
  (length src ≤ r)%nat →
  write_exact src (World i o r e h) = Some (true, World i (o ++ src) (r - length src) e h).
Proof. intros Hr. by rewrite write_exact_ok. Qed.

Lemma single_output_run (v : floats F) samples i o r e h :
  floats_ok v → floats_data v = Some <$> samples →
  Z.of_nat (length samples) ≤ UINT32_MAX → 4 * UINT32_MAX ≤ SIZE_MAX →
  let out := GOSO_MAGIC ++ u32_bytes (Z.of_nat (length samples)) ++ (samples ≫= float_bytes) in
  (length out ≤ r)%nat →
  single_output SIZE_MAX float_bytes v (World i o r e h)
  = Some (Next 0, World i (o ++ out) (r - length out) e h).
Proof.
  intros Hok Hdata Hlen Hmax out Hroom. unfold out in *.
  rewrite !length_app in Hroom. simpl in Hroom.
  pose proof (floats_data_len v samples Hok Hdata) as Hl.
  unfold single_output.
  erewrite stmt_bind_next; last first.
  { apply eval_run, write_exact_run. simpl. lia. }
  erewrite stmt_bind_next by done.
  erewrite stmt_bind_next; last first.
  { rewrite bool_decide_eq_true_2 by lia. done. }
  erewrite stmt_bind_next; last first.
  { apply eval_run. rewrite write_u32_unfold. apply write_exact_run. simpl. lia. }
  erewrite stmt_bind_next by done.
  erewrite stmt_bind_next; last first.
  { apply eval_run. unfold defined. by rewrite (block_bytes_run v samples). }
  erewrite stmt_bind_next; last first.
  { apply eval_run, write_exact_run. simpl. lia. }
  erewrite stmt_bind_next by done.
  unfold next. unfold uint32. rewrite Z.mod_small by (unfold UINT32_MAX in *; lia).
  rewrite Hl. do 3 f_equal.
  - by rewrite <- !app_assoc.
  - rewrite !length_app. simpl. lia.
Qed.

Lemma multistream_output_run (v : floats F) samples i o r e h :
  floats_ok v → floats_data v = Some <$> samples →
  Z.of_nat (length samples) ≤ UINT32_MAX → 4 * UINT32_MAX ≤ SIZE_MAX →
  let out := GMSO_MAGIC ++ u32_bytes (Z.of_nat (length samples)) ++ (samples ≫= float_bytes) in
  (length out ≤ r)%nat →
  multistream_output SIZE_MAX float_bytes v (World i o r e h)
  = Some (Next 0, World i (o ++ out) (r - length out) e h).
Proof.
  intros Hok Hdata Hlen Hmax out Hroom. unfold out in *.
  rewrite !length_app in Hroom. simpl in Hroom.
  pose proof (floats_data_len v samples Hok Hdata) as Hl.
  unfold multistream_output.
  erewrite stmt_bind_next; last first.
  { rewrite bool_decide_eq_true_2 by lia. done. }
  erewrite stmt_bind_next; last first.
  { apply eval_run, write_exact_run. simpl. lia. }
  erewrite stmt_bind_next by done.
  erewrite stmt_bind_next; last first.
  { apply eval_run. rewrite write_u32_unfold. apply write_exact_run. simpl. lia. }
  erewrite stmt_bind_next by done.
  unfold uint32. rewrite Z.mod_small by (unfold UINT32_MAX in *; lia). rewrite Hl.
  destruct (decide (Z.of_nat (length samples) > 0)) as [Hpos|Hzero].
  - erewrite stmt_bind_next; last first.
    { erewrite stmt_bind_next; last first.
      { apply eval_run. unfold defined. rewrite <- Hl.
        by rewrite (block_bytes_run v samples). }
      erewrite stmt_bind_next; last first.
      { apply eval_run, write_exact_run. simpl. lia. }
      done. }
    unfold next. rewrite Hl. do 3 f_equal.
    + by rewrite <- !app_assoc.
    + rewrite !length_app. simpl. lia.
  - destruct samples; [|simpl in Hzero; lia]. simpl.
    erewrite stmt_bind_next by done. unfold next. do 3 f_equal.
    + by rewrite <- !app_assoc.
    + simpl. lia.
Qed.
End StreamFacts.

(** *** The helpers *)

(** X9.  [read_u32] takes four bytes from the input and returns the number
    they spell, least significant byte first; with fewer than four bytes
    left it fails, and the input is used up. *)
Theorem read_u32_little_endian (w : world) :
  read_u32 w =
  match w_stdin w with
  | b0 :: b1 :: b2 :: b3 :: rest =>
      Some (Some (uchar_val b0 + 256 * uchar_val b1 + 65536 * uchar_val b2
                  + 16777216 * uchar_val b3), set_stdin w rest)
  | _ => Some (None, set_stdin w [])
  end.
Proof.
  destruct (w_stdin w) as [|b0 [|b1 [|b2 [|b3 rest]]]] eqn:Hin;
    try (apply read_u32_short; rewrite Hin; simpl; lia).
  unfold read_u32, mbind, prog_bind.
  pose proof (read_exact_ok [b0; b1; b2; b3] rest w Hin) as Hr.
  change (Z.of_nat (length [b0; b1; b2; b3])) with 4 in Hr. rewrite Hr.
  unfold mret, prog_ret. by rewrite read_u32_expr.
Qed.

(** X10.  What [write_u32] writes, [read_u32] reads back: with room for
    four bytes on the output, [write_u32 v] succeeds and appends four
    bytes, and [read_u32] on an input that starts with them returns [v] and
    leaves the rest of the input. *)
Theorem write_u32_read_u32 (v : Z) (w : world) :
  0 ≤ v ≤ UINT32_MAX → (4 ≤ w_room w)%nat →
  ∃ bs w', write_u32 v w = Some (true, w') ∧ length bs = 4%nat ∧
    w_stdout w' = w_stdout w ++ bs ∧ w_stdin w' = w_stdin w ∧
    ∀ wi rest, w_stdin wi = bs ++ rest → read_u32 wi = Some (Some v, set_stdin wi rest).
Proof.
  intros Hv Hroom. exists (u32_bytes v). eexists. rewrite write_u32_unfold.
  split; [by apply write_exact_ok|]. split; [done|]. split; [done|]. split; [done|].
  intros wi rest Hin. by apply read_u32_ok.
Qed.

Lemma write_u32_read_u32_witness :
  0 ≤ 960 ≤ UINT32_MAX ∧ (4 ≤ w_room (HarnessSamples.empty [] 8))%nat ∧
  ∃ bs w', write_u32 960 (HarnessSamples.empty [] 8) = Some (true, w') ∧ length bs = 4%nat ∧
    w_stdout w' = w_stdout (HarnessSamples.empty [] 8) ++ bs ∧
    w_stdin w' = w_stdin (HarnessSamples.empty [] 8) ∧
    ∀ wi rest, w_stdin wi = bs ++ rest → read_u32 wi = Some (Some 960, set_stdin wi rest).
Proof.
  assert (0 ≤ 960 ≤ UINT32_MAX) as Hv by (unfold UINT32_MAX; lia).
  assert (4 ≤ w_room (HarnessSamples.empty [] 8))%nat as Hroom by (simpl; lia).
  split; [exact Hv|]. split; [exact Hroom|].
  exact (write_u32_read_u32 960 (HarnessSamples.empty [] 8) Hv Hroom).
Defined.

(** X11.  [append_floats] appends: on a buffer whose block has [*out_cap]
    cells, [*out_len] of them in use, and for [n > 0] samples that the
    source holds, no size running over [SIZE_MAX], the call returns [1] or
    [0].  It returns [1] without allocating when the samples fit, and
    otherwise as the allocator answers.  After [1] the buffer holds the old
    samples followed by the [n] new ones, and its capacity is the old one,
    [1024], or less than twice what is in use.  After [0] it is as it
    was. *)
Theorem append_floats_appends {F : Type} (SIZE_MAX : Z) (v : floats F) (src : block F)
    (n : Z) (w : world) :
  4096 ≤ SIZE_MAX → floats_ok v → 0 < n ≤ Z.of_nat (length src) →
  8 * (f_len v + n) ≤ SIZE_MAX →
  ∃ r v' w', append_floats SIZE_MAX v src n w = Some ((r, v'), w') ∧
    (f_len v + n ≤ f_cap v → r = 1 ∧ w' = w ∧ f_cap v' = f_cap v) ∧
    (f_cap v < f_len v + n → alloc w = Some (bool_decide (r = 1), w')) ∧
    (r = 0 ∨ r = 1) ∧ (r = 0 → v' = v) ∧
    (r = 1 →
       floats_ok v' ∧ f_len v' = f_len v + n ∧
       floats_data v' = floats_data v ++ take (Z.to_nat n) src ∧
       (f_cap v' = f_cap v ∨ f_cap v' = 1024 ∨ f_cap v' < 2 * (f_len v + n))).
Proof. intros Hmax Hok Hn Hfit. by apply append_floats_spec. Qed.

Lemma append_floats_appends_witness :
  4096 ≤ HarnessSamples.SIZE_MAX ∧ floats_ok (Floats (F := Z) [] 0 0) ∧
  0 < 2 ≤ Z.of_nat (length [Some 7; Some 9]) ∧ 8 * (0 + 2) ≤ HarnessSamples.SIZE_MAX ∧
  ∃ r v' w',
    append_floats HarnessSamples.SIZE_MAX (Floats [] 0 0) [Some 7; Some 9] 2
      (HarnessSamples.empty [] 0) = Some ((r, v'), w') ∧
    (0 + 2 ≤ 0 → r = 1 ∧ w' = HarnessSamples.empty [] 0 ∧ f_cap v' = 0) ∧
    (0 < 0 + 2 → alloc (HarnessSamples.empty [] 0) = Some (bool_decide (r = 1), w')) ∧
    (r = 0 ∨ r = 1) ∧ (r = 0 → v' = Floats [] 0 0) ∧
    (r = 1 →
       floats_ok v' ∧ f_len v' = 0 + 2 ∧
       floats_data v' = floats_data (Floats [] 0 0) ++ take (Z.to_nat 2) [Some 7; Some 9] ∧
       (f_cap v' = 0 ∨ f_cap v' = 1024 ∨ f_cap v' < 2 * (0 + 2))).
Proof.
  assert (4096 ≤ HarnessSamples.SIZE_MAX) as H1 by (unfold HarnessSamples.SIZE_MAX; lia).
  assert (floats_ok (Floats (F := Z) [] 0 0)) as H2 by (unfold floats_ok; simpl; lia).
  assert (0 < 2 ≤ Z.of_nat (length [Some 7; Some 9])) as H3 by (simpl; lia).
  assert (8 * (0 + 2) ≤ HarnessSamples.SIZE_MAX) as H4
    by (unfold HarnessSamples.SIZE_MAX; lia).
  split; [exact H1|]. split; [exact H2|]. split; [exact H3|]. split; [exact H4|].
  exact (append_floats_appends HarnessSamples.SIZE_MAX (Floats [] 0 0) [Some 7; Some 9] 2
           (HarnessSamples.empty [] 0) H1 H2 H3 H4).
Defined.

(** X12.  A call of [append_floats] that returns [0] leaves the buffer, its
    length and its capacity as they were, whatever the arguments; so does a
    call with [n = 0], which returns [1] and allocates nothing.  No call
    returns anything but [0] or [1]. *)
Theorem append_floats_failure_keeps {F : Type} (SIZE_MAX : Z) (v : floats F) (src : block F)
    (n : Z) (w : world) r v' w' :
  append_floats SIZE_MAX v src n w = Some ((r, v'), w') →
  (r = 0 ∨ r = 1) ∧ (r = 0 → v' = v) ∧ (n = 0 → r = 1 ∧ v' = v ∧ w' = w).
Proof. apply append_floats_failure. Qed.

Lemma append_floats_failure_keeps_witness :
  append_floats HarnessSamples.SIZE_MAX (Floats [Some 7] 1 1) [Some 8; Some 9] 2
    (World [] [] 0 [] [false])
  = Some ((0, Floats [Some 7] 1 1), World [] [] 0 [] []) ∧
  (0 = 0 ∨ 0 = 1) ∧ (0 = 0 → Floats [Some 7] 1 1 = Floats [Some 7] 1 1) ∧
  (2 = 0 → 0 = 1 ∧ Floats [Some 7] 1 1 = Floats [Some 7] 1 1 ∧
           World [] [] 0 [] [] = World [] [] 0 [] [false]).
Proof.
  assert (append_floats HarnessSamples.SIZE_MAX (Floats [Some 7] 1 1) [Some 8; Some 9] 2
            (World [] [] 0 [] [false])
          = Some ((0, Floats [Some 7] 1 1), World [] [] 0 [] [])) as Hrun by reflexivity.
  split; [exact Hrun|].
  exact (append_floats_failure_keeps HarnessSamples.SIZE_MAX (Floats [Some 7] 1 1)
           [Some 8; Some 9] 2 (World [] [] 0 [] [false]) _ _ _ Hrun).
Defined.

(** *** [main] of [libopus_refdecode_single.c] *)

Section SingleMain.
Variable SIZE_MAX : Z.
Context {F Dec : Type}.
Variable float_bytes : F → list Byte.byte.
Variable opus_decoder_create : Z → Z → option Dec * Z.
Variable opus_decode_float : Dec → option (list Byte.byte) → Z → Z → Z → Dec * Z * list F.

(** X13.  [main] exits with [0] or [1].  With [0] it has printed nothing on
    [stderr].  With [1] it has printed exactly one message, and unless that
    message is "failed to write output" it has written nothing to
    [stdout]. *)
Theorem single_main_exit (w : world) (c : Z) (w' : world) :
  single_main SIZE_MAX float_bytes opus_decoder_create opus_decode_float w = Some (c, w') →
  (c = 0 ∧ w_stderr w' = w_stderr w) ∨
  (c = 1 ∧ ∃ msg, w_stderr w' = w_stderr w ++ [msg] ∧
            (msg ≠ FailedToWriteOutput → w_stdout w' = w_stdout w)).
Proof.
  unfold single_main, status. intros Hrun.
  destruct ((single_decode _ _ _ ≫= _) w) as [[r w1]|] eqn:Hmain; [|done].
  assert (match r with Return c' | Next c' => c' = c end ∧ w1 = w') as [Hc ->]
    by (by destruct r; simplify_eq).
  apply stmt_bind_inv in Hmain as [(c' & Hd & ->) | (d & w2 & Hd & Ho)].
  - destruct (stmt_quiet_single_decode SIZE_MAX opus_decoder_create opus_decode_float
                w _ w' Hd) as (Hout & _ & -> & msg & Hmsg & Herr).
    right. split; [done|]. exists msg. by split.
  - destruct (stmt_quiet_single_decode SIZE_MAX opus_decoder_create opus_decode_float
                w _ w2 Hd) as (Hout & _ & Herr).
    apply single_output_inv in Ho as [(-> & He & _) | (-> & He)].
    + left. split; [done | congruence].
    + right. split; [done|]. exists FailedToWriteOutput. split; [congruence | done].
Qed.


(** X15.  An input that does not begin with the four bytes [GOSI] is
    rejected: [main] exits with [1] after the message "invalid input
    magic", having taken the four bytes (or what there was of them) and
    nothing else, written nothing and allocated nothing. *)
Theorem single_main_rejects_magic (w : world) :
  take 4 (w_stdin w) ≠ GOSI_MAGIC →
  single_main SIZE_MAX float_bytes opus_decoder_create opus_decode_float w
  = Some (1, add_stderr (set_stdin w (drop 4 (w_stdin w))) InvalidInputMagic).
Proof.
  intros Hmagic. unfold single_main, status, single_decode.
  set (magic := if decide (Z.of_nat (length (take 4 (w_stdin w))) = 4)
                then Some (take 4 (w_stdin w)) else None).
  rewrite (stmt_bind_return _ _ _ 1
             (add_stderr (set_stdin w (drop 4 (w_stdin w))) InvalidInputMagic)); [done|].
  rewrite (stmt_bind_next _ _ w magic (set_stdin w (drop 4 (w_stdin w)))) by done.
  rewrite (stmt_bind_return _ _ _ 1
             (add_stderr (set_stdin w (drop 4 (w_stdin w))) InvalidInputMagic)); [done|].
  assert (match magic with Some m => memcmp_eq m GOSI_MAGIC | None => false end = false)
    as ->; [|done].
  unfold magic. case_decide; [|done].
  destruct (memcmp_eq _ _) eqn:E; [|done]. by apply memcmp_eq_true in E.
Qed.

(** X16.  A header with the magic and the version but with no channel, more
    than two channels or a frame size of [0] is rejected: [main] exits with
    [1] after the message "invalid decoder dimensions", having read the
    header and nothing else, written nothing and allocated nothing;
    libopus is not called. *)
Theorem single_main_rejects_dimensions (w : world)
    (channels frame_size packet_count : Z) (rest : list Byte.byte) :
  0 ≤ channels ≤ UINT32_MAX → 0 ≤ frame_size ≤ UINT32_MAX →
  0 ≤ packet_count ≤ UINT32_MAX →
  w_stdin w = GOSI_MAGIC ++ u32_bytes 1 ++ u32_bytes channels ++ u32_bytes frame_size ++
              u32_bytes packet_count ++ rest →
  channels = 0 ∨ channels > 2 ∨ frame_size = 0 →
  single_main SIZE_MAX float_bytes opus_decoder_create opus_decode_float w
  = Some (1, add_stderr (set_stdin w rest) InvalidDecoderDimensions).
Proof.
  intros Hch Hfs Hpc Hin Hdims. destruct w as [i o r e h]. simpl in Hin. subst i.
  unfold single_main, status, single_decode.
  erewrite stmt_bind_return; [done|].
  erewrite stmt_bind_next by (apply eval_run, (read_exact_run GOSI_MAGIC)).
  cbv beta iota. rewrite memcmp_eq_refl. erewrite stmt_bind_next by done.
  erewrite stmt_bind_next by (apply require_some, read_u32_run; unfold UINT32_MAX; lia).
  erewrite stmt_bind_next by done.
  erewrite stmt_bind_next by (by apply require_some, read_u32_run).
  erewrite stmt_bind_next by (by apply require_some, read_u32_run).
  erewrite stmt_bind_next by (by apply require_some, read_u32_run).
  erewrite stmt_bind_return; [done|].
  by rewrite bool_decide_eq_false_2 by tauto.
Qed.

Lemma single_decode_run (channels frame_size : Z) (pkts : list (list Byte.byte))
    (rest : list Byte.byte) (dec : Dec) (samples : list F) o r e :
  8 * UINT32_MAX ≤ SIZE_MAX →
  1 ≤ channels ≤ 2 → 1 ≤ frame_size ≤ UINT32_MAX →
  Z.of_nat (length pkts) ≤ UINT32_MAX →
  Forall (λ p, Z.of_nat (length p) ≤ UINT32_MAX) pkts →
  opus_decoder_create 48000 channels = (Some dec, OPUS_OK) →
  decode_stream opus_decode_float channels frame_size dec pkts = Some samples →
  Z.of_nat (length samples) ≤ UINT32_MAX →
  ∃ v, single_decode SIZE_MAX opus_decoder_create opus_decode_float
         (World (GOSI_MAGIC ++ u32_bytes 1 ++ u32_bytes channels ++ u32_bytes frame_size ++
                 u32_bytes (Z.of_nat (length pkts)) ++ packets_bytes pkts ++ rest) o r e [])
       = Some (Next v, World rest o r e []) ∧
       floats_ok v ∧ floats_data v = Some <$> samples.
Proof.
  intros Hmax Hch Hfs Hpc Hp Hcreate Hdec Hlen.
  assert (UINT32_MAX = 4294967295) as HU by done.
  destruct (decode_packets_run SIZE_MAX Opus opus_decode_float channels frame_size pkts
              dec samples rest o r e) as (v & Hv & Hok & Hdata); [lia..|done|done|lia|].
  exists v. split; [|done]. unfold single_decode.
  erewrite stmt_bind_next by (apply eval_run, (read_exact_run GOSI_MAGIC)).
  cbv beta iota. rewrite memcmp_eq_refl. erewrite stmt_bind_next by done.
  erewrite stmt_bind_next by (apply require_some, read_u32_run; lia).
  erewrite stmt_bind_next by done.
  erewrite stmt_bind_next by (apply require_some, read_u32_run; lia).
  erewrite stmt_bind_next by (apply require_some, read_u32_run; lia).
  erewrite stmt_bind_next by (apply require_some, read_u32_run; lia).
  erewrite stmt_bind_next by (by rewrite bool_decide_eq_true_2 by lia).
  erewrite stmt_bind_next by (apply alloc_frame_run; nia).
  assert (to_int channels = channels) as ->
    by (unfold to_int; rewrite decide_True by lia; done).
  by rewrite Hcreate.
Qed.

(** X17.  A well-formed stream is decoded to the end: when the input is a
    header for one or two channels followed by the packets, each one its
    length and its bytes, no allocation fails, the decoder is created, every
    call of [opus_decode_float] succeeds and stores the samples it tells of
    within the frame, there are no more than [UINT32_MAX] samples, and the
    output takes them, then [main] exits with [0]; it has read the input up
    to the end of the last packet, printed nothing on [stderr] and written
    the magic [GOSO], the number of samples and the samples of all the
    packets in their order.  ([size_t] has to hold eight times
    [UINT32_MAX], as it does with 64 bits.) *)
Theorem single_main_decodes (w : world) (channels frame_size : Z)
    (pkts : list (list Byte.byte)) (rest : list Byte.byte) (dec : Dec) (samples : list F) :
  8 * UINT32_MAX ≤ SIZE_MAX →
  1 ≤ channels ≤ 2 → 1 ≤ frame_size ≤ UINT32_MAX →
  Z.of_nat (length pkts) ≤ UINT32_MAX →
  Forall (λ p, Z.of_nat (length p) ≤ UINT32_MAX) pkts →
  w_stdin w = GOSI_MAGIC ++ u32_bytes 1 ++ u32_bytes channels ++ u32_bytes frame_size ++
              u32_bytes (Z.of_nat (length pkts)) ++ packets_bytes pkts ++ rest →
  w_heap w = [] →
  opus_decoder_create 48000 channels = (Some dec, OPUS_OK) →
  decode_stream opus_decode_float channels frame_size dec pkts = Some samples →
  Z.of_nat (length samples) ≤ UINT32_MAX →
  (length (GOSO_MAGIC ++ u32_bytes (Z.of_nat (length samples)) ++ (samples ≫= float_bytes))
   ≤ w_room w)%nat →
  ∃ w', single_main SIZE_MAX float_bytes opus_decoder_create opus_decode_float w
        = Some (0, w') ∧
        w_stdin w' = rest ∧ w_stderr w' = w_stderr w ∧
        w_stdout w' = w_stdout w ++ GOSO_MAGIC ++ u32_bytes (Z.of_nat (length samples)) ++
                      (samples ≫= float_bytes).
Proof.
  intros Hmax Hch Hfs Hpc Hp Hin Hheap Hcreate Hdec Hlen Hroom.
  destruct w as [i o r e h]. simpl in Hin, Hheap, Hroom. subst i h.
  destruct (single_decode_run channels frame_size pkts rest dec samples o r e)
    as (v & Hv & Hok & Hdata); [done..|].
  eexists. unfold single_main, status.
  rewrite (stmt_bind_next _ _ _ _ _ Hv).
  rewrite (single_output_run SIZE_MAX float_bytes v samples rest o r e []);
    [done|done|done|done| |done].
  unfold UINT32_MAX in *. lia.
Qed.
End SingleMain.

Lemma single_main_exit_witness :
  single_main HarnessSamples.SIZE_MAX HarnessSamples.float_bytes HarnessSamples.create
    HarnessSamples.decode (HarnessSamples.empty (take 25 HarnessSamples.single_input) 16)
  = Some (1, World [] [] 16 [FailedToReadPacketPayload] []) ∧
  ((1 = 0 ∧ [FailedToReadPacketPayload] = []) ∨
   (1 = 1 ∧ ∃ msg, [FailedToReadPacketPayload] = [] ++ [msg] ∧
             (msg ≠ FailedToWriteOutput → @nil Byte.byte = []))).
Proof.
  assert (single_main HarnessSamples.SIZE_MAX HarnessSamples.float_bytes
            HarnessSamples.create HarnessSamples.decode
            (HarnessSamples.empty (take 25 HarnessSamples.single_input) 16)
          = Some (1, World [] [] 16 [FailedToReadPacketPayload] [])) as Hrun
    by (vm_compute; reflexivity).
  split; [exact Hrun|].
  exact (single_main_exit HarnessSamples.SIZE_MAX HarnessSamples.float_bytes
           HarnessSamples.create HarnessSamples.decode _ _ _ Hrun).
Defined.


Lemma single_main_rejects_magic_witness :
  take 4 (w_stdin (HarnessSamples.empty HarnessSamples.multistream_input 16)) ≠ GOSI_MAGIC ∧
  single_main HarnessSamples.SIZE_MAX HarnessSamples.float_bytes HarnessSamples.create
    HarnessSamples.decode (HarnessSamples.empty HarnessSamples.multistream_input 16)
  = Some (1, add_stderr
               (set_stdin (HarnessSamples.empty HarnessSamples.multistream_input 16)
                  (drop 4 (w_stdin (HarnessSamples.empty HarnessSamples.multistream_input
                                      16))))
               InvalidInputMagic).
Proof.
  assert (take 4 (w_stdin (HarnessSamples.empty HarnessSamples.multistream_input 16))
          ≠ GOSI_MAGIC) as Hmagic by (vm_compute; discriminate).
  split; [exact Hmagic|].
  exact (single_main_rejects_magic HarnessSamples.SIZE_MAX HarnessSamples.float_bytes
           HarnessSamples.create HarnessSamples.decode _ Hmagic).
Defined.

Lemma single_main_rejects_dimensions_witness :
  0 ≤ 3 ≤ UINT32_MAX ∧ 0 ≤ 960 ≤ UINT32_MAX ∧ 0 ≤ 1 ≤ UINT32_MAX ∧
  w_stdin (HarnessSamples.empty
             (GOSI_MAGIC ++ u32_bytes 1 ++ u32_bytes 3 ++ u32_bytes 960 ++ u32_bytes 1 ++
              HarnessSamples.packet) 16)
  = GOSI_MAGIC ++ u32_bytes 1 ++ u32_bytes 3 ++ u32_bytes 960 ++ u32_bytes 1 ++
    HarnessSamples.packet ∧
  (3 = 0 ∨ 3 > 2 ∨ 960 = 0) ∧
  single_main HarnessSamples.SIZE_MAX HarnessSamples.float_bytes HarnessSamples.create
    HarnessSamples.decode
    (HarnessSamples.empty
       (GOSI_MAGIC ++ u32_bytes 1 ++ u32_bytes 3 ++ u32_bytes 960 ++ u32_bytes 1 ++
        HarnessSamples.packet) 16)
  = Some (1, add_stderr
               (set_stdin
                  (HarnessSamples.empty
                     (GOSI_MAGIC ++ u32_bytes 1 ++ u32_bytes 3 ++ u32_bytes 960 ++
                      u32_bytes 1 ++ HarnessSamples.packet) 16)
                  HarnessSamples.packet)
               InvalidDecoderDimensions).
Proof.
  assert (0 ≤ 3 ≤ UINT32_MAX) as H1 by (unfold UINT32_MAX; lia).
  assert (0 ≤ 960 ≤ UINT32_MAX) as H2 by (unfold UINT32_MAX; lia).
  assert (0 ≤ 1 ≤ UINT32_MAX) as H3 by (unfold UINT32_MAX; lia).
  assert (3 = 0 ∨ 3 > 2 ∨ 960 = 0) as H5 by lia.
  split; [exact H1|]. split; [exact H2|]. split; [exact H3|]. split; [reflexivity|].
  split; [exact H5|].
  exact (single_main_rejects_dimensions HarnessSamples.SIZE_MAX HarnessSamples.float_bytes
           HarnessSamples.create HarnessSamples.decode
           (HarnessSamples.empty
              (GOSI_MAGIC ++ u32_bytes 1 ++ u32_bytes 3 ++ u32_bytes 960 ++ u32_bytes 1 ++
               HarnessSamples.packet) 16)
           3 960 1 HarnessSamples.packet H1 H2 H3 eq_refl H5).
Defined.

Lemma single_main_decodes_witness :
  8 * UINT32_MAX ≤ HarnessSamples.SIZE_MAX ∧ 1 ≤ 2 ≤ 2 ∧ 1 ≤ 960 ≤ UINT32_MAX ∧
  Z.of_nat (length [HarnessSamples.packet]) ≤ UINT32_MAX ∧
  Forall (λ p, Z.of_nat (length p) ≤ UINT32_MAX) [HarnessSamples.packet] ∧
  w_stdin (HarnessSamples.empty HarnessSamples.single_input 16)
  = GOSI_MAGIC ++ u32_bytes 1 ++ u32_bytes 2 ++ u32_bytes 960 ++
    u32_bytes (Z.of_nat (length [HarnessSamples.packet])) ++
    packets_bytes [HarnessSamples.packet] ++ [] ∧
  w_heap (HarnessSamples.empty HarnessSamples.single_input 16) = [] ∧
  HarnessSamples.create 48000 2 = (Some tt, OPUS_OK) ∧
  decode_stream HarnessSamples.decode 2 960 tt [HarnessSamples.packet] = Some HarnessSamples.frame ∧
  Z.of_nat (length HarnessSamples.frame) ≤ UINT32_MAX ∧
  (length (GOSO_MAGIC ++ u32_bytes (Z.of_nat (length HarnessSamples.frame)) ++
           (HarnessSamples.frame ≫= HarnessSamples.float_bytes))
   ≤ w_room (HarnessSamples.empty HarnessSamples.single_input 16))%nat ∧
  ∃ w', single_main HarnessSamples.SIZE_MAX HarnessSamples.float_bytes
          HarnessSamples.create HarnessSamples.decode
          (HarnessSamples.empty HarnessSamples.single_input 16)
        = Some (0, w') ∧
        w_stdin w' = [] ∧
        w_stderr w' = w_stderr (HarnessSamples.empty HarnessSamples.single_input 16) ∧
        w_stdout w' = w_stdout (HarnessSamples.empty HarnessSamples.single_input 16) ++
                      GOSO_MAGIC ++ u32_bytes (Z.of_nat (length HarnessSamples.frame)) ++
                      (HarnessSamples.frame ≫= HarnessSamples.float_bytes).
Proof.
  assert (8 * UINT32_MAX ≤ HarnessSamples.SIZE_MAX) as H1 by (vm_compute; discriminate).
  assert (1 ≤ 2 ≤ 2) as H2 by lia.
  assert (1 ≤ 960 ≤ UINT32_MAX) as H3 by (unfold UINT32_MAX; lia).
  assert (Z.of_nat (length [HarnessSamples.packet]) ≤ UINT32_MAX) as H4
    by (vm_compute; discriminate).
  assert (Forall (λ p, Z.of_nat (length p) ≤ UINT32_MAX) [HarnessSamples.packet]) as H5
    by (constructor; [vm_compute; discriminate | constructor]).
  assert (Z.of_nat (length HarnessSamples.frame) ≤ UINT32_MAX) as H6
    by (vm_compute; discriminate).
  assert (length (GOSO_MAGIC ++ u32_bytes (Z.of_nat (length HarnessSamples.frame)) ++
                  (HarnessSamples.frame ≫= HarnessSamples.float_bytes))
          ≤ w_room (HarnessSamples.empty HarnessSamples.single_input 16))%nat as H7
    by (vm_compute; lia).
  split; [exact H1|]. split; [exact H2|]. split; [exact H3|]. split; [exact H4|].
  split; [exact H5|]. split; [reflexivity|]. split; [reflexivity|]. split; [reflexivity|].
  split; [reflexivity|]. split; [exact H6|]. split; [exact H7|].
  exact (single_main_decodes HarnessSamples.SIZE_MAX HarnessSamples.float_bytes
           HarnessSamples.create HarnessSamples.decode
           (HarnessSamples.empty HarnessSamples.single_input 16) 2 960
           [HarnessSamples.packet] [] tt HarnessSamples.frame H1 H2 H3 H4 H5 eq_refl eq_refl eq_refl
           eq_refl H6 H7).
Defined.

(** *** [main] of [libopus_refdecode_multistream.c] *)

Section MultistreamMain.
Variable SIZE_MAX : Z.
Context {F PDec MDec : Type}.
Variable float_bytes : F → list Byte.byte.
Variable opus_projection_decoder_create :
  Z → Z → Z → Z → option (list Byte.byte) → Z → option PDec * Z.
Variable opus_projection_decode_float :
  PDec → option (list Byte.byte) → Z → Z → Z → PDec * Z * list F.
Variable opus_multistream_decoder_create :
  Z → Z → Z → Z → option (list Byte.byte) → option MDec * Z.
Variable opus_multistream_decode_float :
  MDec → option (list Byte.byte) → Z → Z → Z → MDec * Z * list F.

Local Abbreviation multistream_run :=
  (multistream_main SIZE_MAX float_bytes opus_projection_decoder_create
     opus_projection_decode_float opus_multistream_decoder_create
     opus_multistream_decode_float).



(** X20.  A header with the magic and the version but without channels,
    without streams or with a frame size of [0] is rejected: [main] exits
    with [1] after the message "invalid decoder dimensions", having read the
    header and nothing else (neither the mapping nor the matrix), written
    nothing and allocated nothing; libopus is not called. *)
Theorem multistream_main_rejects_dimensions (w : world)
    (family channels streams coupled frame_size packet_count mapping_len demix_len : Z)
    (rest : list Byte.byte) :
  0 ≤ family ≤ UINT32_MAX → 0 ≤ channels ≤ UINT32_MAX → 0 ≤ streams ≤ UINT32_MAX →
  0 ≤ coupled ≤ UINT32_MAX → 0 ≤ frame_size ≤ UINT32_MAX →
  0 ≤ packet_count ≤ UINT32_MAX → 0 ≤ mapping_len ≤ UINT32_MAX →
  0 ≤ demix_len ≤ UINT32_MAX →
  w_stdin w = multistream_header family channels streams coupled frame_size packet_count
                mapping_len demix_len ++ rest →
  channels = 0 ∨ streams = 0 ∨ frame_size = 0 →
  multistream_run w = Some (1, add_stderr (set_stdin w rest) InvalidDecoderDimensions).
Proof.
  intros Hfa Hch Hst Hco Hfs Hpc Hml Hdl Hin Hdims. destruct w as [i o r e h].
  cbn [w_stdin] in Hin. subst i. unfold multistream_header. rewrite <- !app_assoc.
  unfold multistream_main, status, multistream_decode.
  erewrite stmt_bind_return; [done|].
  erewrite stmt_bind_next by (apply eval_run, (read_exact_run GMSI_MAGIC)).
  cbv beta iota. rewrite memcmp_eq_refl. erewrite stmt_bind_next by done.
  erewrite stmt_bind_next by (apply require_some, read_u32_run; unfold UINT32_MAX; lia).
  erewrite stmt_bind_next by done.
  do 8 (erewrite stmt_bind_next by (by apply require_some, read_u32_run)).
  erewrite stmt_bind_return; [done|].
  by rewrite bool_decide_eq_false_2 by tauto.
Qed.

Lemma multistream_decode_run (family channels streams coupled frame_size : Z)
    (mapping demixing : list Byte.byte) (pkts : list (list Byte.byte))
    (rest : list Byte.byte) (samples : list F) o r e :
  8 * UINT32_MAX ≤ SIZE_MAX →
  0 ≤ family ≤ UINT32_MAX → 1 ≤ channels ≤ UINT32_MAX → 1 ≤ streams ≤ UINT32_MAX →
  0 ≤ coupled ≤ UINT32_MAX → 1 ≤ frame_size ≤ UINT32_MAX →
  4 * (channels * frame_size) ≤ SIZE_MAX →
  Z.of_nat (length mapping) ≤ UINT32_MAX → Z.of_nat (length demixing) ≤ UINT32_MAX →
  Z.of_nat (length pkts) ≤ UINT32_MAX →
  Forall (λ p, Z.of_nat (length p) ≤ UINT32_MAX) pkts →
  (if decide (family = 3)
   then ∃ dec,
     opus_projection_decoder_create 48000 (to_int channels) (to_int streams)
       (to_int coupled) (data_ptr demixing) (to_int (Z.of_nat (length demixing)))
     = (Some dec, OPUS_OK) ∧
     decode_stream opus_projection_decode_float channels frame_size dec pkts = Some samples
   else ∃ dec,
     opus_multistream_decoder_create 48000 (to_int channels) (to_int streams)
       (to_int coupled) (data_ptr mapping)
     = (Some dec, OPUS_OK) ∧
     decode_stream opus_multistream_decode_float channels frame_size dec pkts
     = Some samples) →
  Z.of_nat (length samples) ≤ UINT32_MAX →
  ∃ v, multistream_decode SIZE_MAX opus_projection_decoder_create
         opus_projection_decode_float opus_multistream_decoder_create
         opus_multistream_decode_float
         (World (multistream_header family channels streams coupled frame_size
                   (Z.of_nat (length pkts)) (Z.of_nat (length mapping))
                   (Z.of_nat (length demixing)) ++
                 mapping ++ demixing ++ packets_bytes pkts ++ rest) o r e [])
       = Some (Next v, World rest o r e []) ∧
       floats_ok v ∧ floats_data v = Some <$> samples.
Proof.
  intros Hmax Hfa Hch Hst Hco Hfs Hframe Hml Hdl Hpc Hp Hdec Hlen.
  assert (UINT32_MAX = 4294967295) as HU by done.
  assert (∃ v, (if decide (family = 3) then
                  decode_packets SIZE_MAX OpusProjection opus_projection_decode_float
                    (opus_projection_decoder_create 48000 (to_int channels) (to_int streams)
                       (to_int coupled) (data_ptr demixing)
                       (to_int (Z.of_nat (length demixing))))
                    channels frame_size (Z.of_nat (length pkts))
                    (replicate (Z.to_nat (channels * frame_size)) None)
                else
                  decode_packets SIZE_MAX OpusMultistream opus_multistream_decode_float
                    (opus_multistream_decoder_create 48000 (to_int channels)
                       (to_int streams) (to_int coupled) (data_ptr mapping))
                    channels frame_size (Z.of_nat (length pkts))
                    (replicate (Z.to_nat (channels * frame_size)) None))
                 (World (packets_bytes pkts ++ rest) o r e [])
               = Some (Next v, World rest o r e []) ∧
               floats_ok v ∧ floats_data v = Some <$> samples) as (v & Hv & Hok & Hdata).
  { destruct (decide (family = 3)); destruct Hdec as (dec & -> & Hdec);
      apply decode_packets_run; (done || lia). }
  exists v. split; [|done]. unfold multistream_decode, multistream_header.
  rewrite <- !app_assoc.
  erewrite stmt_bind_next by (apply eval_run, (read_exact_run GMSI_MAGIC)).
  cbv beta iota. rewrite memcmp_eq_refl. erewrite stmt_bind_next by done.
  erewrite stmt_bind_next by (apply require_some, read_u32_run; lia).
  erewrite stmt_bind_next by done.
  do 8 (erewrite stmt_bind_next by (apply require_some, read_u32_run; lia)).
  erewrite stmt_bind_next by (by rewrite bool_decide_eq_true_2 by lia).
  erewrite stmt_bind_next by apply read_bytes_run.
  erewrite stmt_bind_next by apply read_bytes_run.
  erewrite stmt_bind_next by (apply alloc_frame_run; lia).
  exact Hv.
Qed.

(** X21.  A well-formed stream is decoded to the end: when the input is a
    header followed by the mapping, the demixing matrix and the packets,
    each one its length and its bytes, the frame buffer has a size that
    [size_t] holds, no allocation fails, the decoder of the family is
    created, the projection decoder on the matrix for family [3] and the
    multistream decoder on the mapping for any other, every call of its
    decoding function succeeds and stores the samples it tells of within
    the frame, there are no more than [UINT32_MAX] samples, and the output
    takes them, then [main] exits with [0]; it has read the input up to the
    end of the last packet, printed nothing on [stderr] and written the
    magic [GMSO], the number of samples and the samples of all the packets
    in their order.  ([size_t] has to hold eight times [UINT32_MAX].) *)
Theorem multistream_main_decodes (w : world) (family channels streams coupled frame_size : Z)
    (mapping demixing : list Byte.byte) (pkts : list (list Byte.byte))
    (rest : list Byte.byte) (samples : list F) :
  8 * UINT32_MAX ≤ SIZE_MAX →
  0 ≤ family ≤ UINT32_MAX → 1 ≤ channels ≤ UINT32_MAX → 1 ≤ streams ≤ UINT32_MAX →
  0 ≤ coupled ≤ UINT32_MAX → 1 ≤ frame_size ≤ UINT32_MAX →
  4 * (channels * frame_size) ≤ SIZE_MAX →
  Z.of_nat (length mapping) ≤ UINT32_MAX → Z.of_nat (length demixing) ≤ UINT32_MAX →
  Z.of_nat (length pkts) ≤ UINT32_MAX →
  Forall (λ p, Z.of_nat (length p) ≤ UINT32_MAX) pkts →
  w_stdin w = multistream_header family channels streams coupled frame_size
                (Z.of_nat (length pkts)) (Z.of_nat (length mapping))
                (Z.of_nat (length demixing)) ++
              mapping ++ demixing ++ packets_bytes pkts ++ rest →
  w_heap w = [] →
  (if decide (family = 3)
   then ∃ dec,
     opus_projection_decoder_create 48000 (to_int channels) (to_int streams)
       (to_int coupled) (data_ptr demixing) (to_int (Z.of_nat (length demixing)))
     = (Some dec, OPUS_OK) ∧
     decode_stream opus_projection_decode_float channels frame_size dec pkts = Some samples
   else ∃ dec,
     opus_multistream_decoder_create 48000 (to_int channels) (to_int streams)
       (to_int coupled) (data_ptr mapping)
     = (Some dec, OPUS_OK) ∧
     decode_stream opus_multistream_decode_float channels frame_size dec pkts
     = Some samples) →
  Z.of_nat (length samples) ≤ UINT32_MAX →
  (length (GMSO_MAGIC ++ u32_bytes (Z.of_nat (length samples)) ++ (samples ≫= float_bytes))
   ≤ w_room w)%nat →
  ∃ w', multistream_run w = Some (0, w') ∧
        w_stdin w' = rest ∧ w_stderr w' = w_stderr w ∧
        w_stdout w' = w_stdout w ++ GMSO_MAGIC ++ u32_bytes (Z.of_nat (length samples)) ++
                      (samples ≫= float_bytes).
Proof.
  intros Hmax Hfa Hch Hst Hco Hfs Hframe Hml Hdl Hpc Hp Hin Hheap Hdec Hlen Hroom.
  destruct w as [i o r e h]. cbn [w_stdin w_heap w_room] in Hin, Hheap, Hroom. subst i h.
  destruct (multistream_decode_run family channels streams coupled frame_size mapping
              demixing pkts rest samples o r e) as (v & Hv & Hok & Hdata); [done..|].
  eexists. unfold multistream_main, status.
  rewrite (stmt_bind_next _ _ _ _ _ Hv).
  rewrite (multistream_output_run SIZE_MAX float_bytes v samples rest o r e []);
    [done|done|done|done| |done].
  unfold UINT32_MAX in *. lia.
Qed.
End MultistreamMain.



Lemma multistream_main_rejects_dimensions_witness :
  0 ≤ 1 ≤ UINT32_MAX ∧ 0 ≤ 2 ≤ UINT32_MAX ∧ 0 ≤ 0 ≤ UINT32_MAX ∧ 0 ≤ 1 ≤ UINT32_MAX ∧
  0 ≤ 960 ≤ UINT32_MAX ∧ 0 ≤ 1 ≤ UINT32_MAX ∧ 0 ≤ 2 ≤ UINT32_MAX ∧ 0 ≤ 0 ≤ UINT32_MAX ∧
  w_stdin (HarnessSamples.empty
             (multistream_header 1 2 0 1 960 1 2 0 ++ HarnessSamples.mapping) 16)
  = multistream_header 1 2 0 1 960 1 2 0 ++ HarnessSamples.mapping ∧
  (2 = 0 ∨ 0 = 0 ∨ 960 = 0) ∧
  multistream_main HarnessSamples.SIZE_MAX HarnessSamples.float_bytes
    HarnessSamples.projection_create HarnessSamples.decode
    HarnessSamples.multistream_create HarnessSamples.decode
    (HarnessSamples.empty (multistream_header 1 2 0 1 960 1 2 0 ++ HarnessSamples.mapping)
       16)
  = Some (1, add_stderr
               (set_stdin
                  (HarnessSamples.empty
                     (multistream_header 1 2 0 1 960 1 2 0 ++ HarnessSamples.mapping) 16)
                  HarnessSamples.mapping)
               InvalidDecoderDimensions).
Proof.
  assert (0 ≤ 0 ≤ UINT32_MAX) as H0 by (unfold UINT32_MAX; lia).
  assert (0 ≤ 1 ≤ UINT32_MAX) as H1 by (unfold UINT32_MAX; lia).
  assert (0 ≤ 2 ≤ UINT32_MAX) as H2 by (unfold UINT32_MAX; lia).
  assert (0 ≤ 960 ≤ UINT32_MAX) as H3 by (unfold UINT32_MAX; lia).
  assert (2 = 0 ∨ 0 = 0 ∨ 960 = 0) as H4 by lia.
  split; [exact H1|]. split; [exact H2|]. split; [exact H0|]. split; [exact H1|].
  split; [exact H3|]. split; [exact H1|]. split; [exact H2|]. split; [exact H0|].
  split; [reflexivity|]. split; [exact H4|].
  exact (multistream_main_rejects_dimensions HarnessSamples.SIZE_MAX
           HarnessSamples.float_bytes HarnessSamples.projection_create
           HarnessSamples.decode HarnessSamples.multistream_create HarnessSamples.decode
           (HarnessSamples.empty
              (multistream_header 1 2 0 1 960 1 2 0 ++ HarnessSamples.mapping) 16)
           1 2 0 1 960 1 2 0 HarnessSamples.mapping H1 H2 H0 H1 H3 H1 H2 H0 eq_refl H4).
Defined.

Lemma multistream_main_decodes_witness :
  8 * UINT32_MAX ≤ HarnessSamples.SIZE_MAX ∧
  0 ≤ 1 ≤ UINT32_MAX ∧ 1 ≤ 2 ≤ UINT32_MAX ∧ 1 ≤ 1 ≤ UINT32_MAX ∧ 0 ≤ 1 ≤ UINT32_MAX ∧
  1 ≤ 960 ≤ UINT32_MAX ∧ 4 * (2 * 960) ≤ HarnessSamples.SIZE_MAX ∧
  Z.of_nat (length HarnessSamples.mapping) ≤ UINT32_MAX ∧
  Z.of_nat (length (@nil Byte.byte)) ≤ UINT32_MAX ∧
  Z.of_nat (length [HarnessSamples.packet]) ≤ UINT32_MAX ∧
  Forall (λ p, Z.of_nat (length p) ≤ UINT32_MAX) [HarnessSamples.packet] ∧
  w_stdin (HarnessSamples.empty HarnessSamples.multistream_input 16)
  = multistream_header 1 2 1 1 960 (Z.of_nat (length [HarnessSamples.packet]))
      (Z.of_nat (length HarnessSamples.mapping)) (Z.of_nat (length (@nil Byte.byte))) ++
    HarnessSamples.mapping ++ [] ++ packets_bytes [HarnessSamples.packet] ++ [] ∧
  w_heap (HarnessSamples.empty HarnessSamples.multistream_input 16) = [] ∧
  (∃ dec, HarnessSamples.multistream_create 48000 (to_int 2) (to_int 1) (to_int 1)
            (data_ptr HarnessSamples.mapping) = (Some dec, OPUS_OK) ∧
          decode_stream HarnessSamples.decode 2 960 dec [HarnessSamples.packet]
          = Some HarnessSamples.frame) ∧
  Z.of_nat (length HarnessSamples.frame) ≤ UINT32_MAX ∧
  (length (GMSO_MAGIC ++ u32_bytes (Z.of_nat (length HarnessSamples.frame)) ++
           (HarnessSamples.frame ≫= HarnessSamples.float_bytes))
   ≤ w_room (HarnessSamples.empty HarnessSamples.multistream_input 16))%nat ∧
  ∃ w', multistream_main HarnessSamples.SIZE_MAX HarnessSamples.float_bytes
          HarnessSamples.projection_create HarnessSamples.decode
          HarnessSamples.multistream_create HarnessSamples.decode
          (HarnessSamples.empty HarnessSamples.multistream_input 16)
        = Some (0, w') ∧
        w_stdin w' = [] ∧
        w_stderr w' = w_stderr (HarnessSamples.empty HarnessSamples.multistream_input 16) ∧
        w_stdout w' = w_stdout (HarnessSamples.empty HarnessSamples.multistream_input 16) ++
                      GMSO_MAGIC ++ u32_bytes (Z.of_nat (length HarnessSamples.frame)) ++
                      (HarnessSamples.frame ≫= HarnessSamples.float_bytes).
Proof.
  assert (8 * UINT32_MAX ≤ HarnessSamples.SIZE_MAX) as H1 by (vm_compute; discriminate).
  assert (0 ≤ 1 ≤ UINT32_MAX) as H2 by (unfold UINT32_MAX; lia).
  assert (1 ≤ 2 ≤ UINT32_MAX) as H3 by (unfold UINT32_MAX; lia).
  assert (1 ≤ 1 ≤ UINT32_MAX) as H4 by (unfold UINT32_MAX; lia).
  assert (1 ≤ 960 ≤ UINT32_MAX) as H5 by (unfold UINT32_MAX; lia).
  assert (4 * (2 * 960) ≤ HarnessSamples.SIZE_MAX) as H6 by (vm_compute; discriminate).
  assert (Z.of_nat (length HarnessSamples.mapping) ≤ UINT32_MAX) as H7
    by (vm_compute; discriminate).
  assert (Z.of_nat (length (@nil Byte.byte)) ≤ UINT32_MAX) as H8
    by (vm_compute; discriminate).
  assert (Z.of_nat (length [HarnessSamples.packet]) ≤ UINT32_MAX) as H9
    by (vm_compute; discriminate).
  assert (Forall (λ p, Z.of_nat (length p) ≤ UINT32_MAX) [HarnessSamples.packet]) as H10
    by (constructor; [vm_compute; discriminate | constructor]).
  assert (∃ dec, HarnessSamples.multistream_create 48000 (to_int 2) (to_int 1) (to_int 1)
                   (data_ptr HarnessSamples.mapping) = (Some dec, OPUS_OK) ∧
                 decode_stream HarnessSamples.decode 2 960 dec [HarnessSamples.packet]
                 = Some HarnessSamples.frame) as H11
    by (exists tt; split; reflexivity).
  assert (Z.of_nat (length HarnessSamples.frame) ≤ UINT32_MAX) as H12
    by (vm_compute; discriminate).
  assert (length (GMSO_MAGIC ++ u32_bytes (Z.of_nat (length HarnessSamples.frame)) ++
                  (HarnessSamples.frame ≫= HarnessSamples.float_bytes))
          ≤ w_room (HarnessSamples.empty HarnessSamples.multistream_input 16))%nat as H13
    by (vm_compute; lia).
  split; [exact H1|]. split; [exact H2|]. split; [exact H3|]. split; [exact H4|].
  split; [exact H2|]. split; [exact H5|]. split; [exact H6|]. split; [exact H7|].
  split; [exact H8|]. split; [exact H9|]. split; [exact H10|]. split; [reflexivity|].
  split; [reflexivity|]. split; [exact H11|]. split; [exact H12|]. split; [exact H13|].
  exact (multistream_main_decodes HarnessSamples.SIZE_MAX HarnessSamples.float_bytes
           HarnessSamples.projection_create HarnessSamples.decode
           HarnessSamples.multistream_create HarnessSamples.decode
           (HarnessSamples.empty HarnessSamples.multistream_input 16) 1 2 1 1 960
           HarnessSamples.mapping [] [HarnessSamples.packet] [] HarnessSamples.frame
           H1 H2 H3 H4 H2 H5 H6 H7 H8 H9 H10 eq_refl eq_refl H11 H12 H13).
Defined.

(** *** The frame buffer *)

(** X22.  The check of the size of the frame buffer, in [main] of either
    harness, is exact: for a number of channels and a frame size that are
    not [0], with a [size_t] at least as wide as [uint32_t], the message
    "frame buffer overflow" comes exactly when [channels * frame_size *
    sizeof(float)] exceeds [SIZE_MAX]; otherwise [main] goes on with a
    buffer of [channels * frame_size] samples, no product having wrapped,
    or leaves because the allocation failed. *)
Theorem alloc_frame_guard {F : Type} (SIZE_MAX channels frame_size : Z) (w : world)
    (r : step (block F)) (w' : world) :
  UINT32_MAX ≤ SIZE_MAX → 1 ≤ channels ≤ UINT32_MAX → 1 ≤ frame_size ≤ UINT32_MAX →
  alloc_frame SIZE_MAX channels frame_size w = Some (r, w') →
  match r with
  | Next frame =>
      4 * (channels * frame_size) ≤ SIZE_MAX ∧
      frame = replicate (Z.to_nat (channels * frame_size)) None
  | Return c =>
      c = 1 ∧
      (SIZE_MAX < 4 * (channels * frame_size) ∧ w' = add_stderr w FrameBufferOverflow ∨
       4 * (channels * frame_size) ≤ SIZE_MAX ∧
       ∃ w1, alloc w = Some (false, w1) ∧ w' = add_stderr w1 FailedToAllocateFrameBuffer)
  end.
Proof.
  intros Hmax Hch Hfs Hrun. unfold alloc_frame in Hrun.
  assert (UINT32_MAX = 4294967295) as HU by done.
  rewrite (size_t_small _ channels), (size_t_small _ frame_size) in Hrun by lia.
  destruct (decide (channels * frame_size ≤ SIZE_MAX)) as [Hfit|Hover].
  - rewrite (size_t_small _ (channels * frame_size)) in Hrun by nia.
    destruct (decide (4 * (channels * frame_size) ≤ SIZE_MAX)) as [Hfit4|Hover4].
    + rewrite size_t_small in Hrun by lia. rewrite Z.div_mul in Hrun by lia.
      rewrite bool_decide_eq_true_2 in Hrun; last first.
      { intros [Hc|Hc].
        - assert (channels ≤ SIZE_MAX / frame_size); [|lia].
          apply Z.div_le_lower_bound; lia.
        - assert (channels * frame_size ≤ SIZE_MAX / 4); [|lia].
          apply Z.div_le_lower_bound; lia. }
      apply stmt_bind_inv in Hrun as [(c & [[=] _]%next_inv & _) |
                                      ([] & w0 & [_ ->]%next_inv & Hrun)].
      apply stmt_bind_inv in Hrun as [(c & (a & [=] & _)%eval_inv & _) |
                                      (ok & w1 & (? & [= <-] & Ha)%eval_inv & Hrun)].
      apply stmt_bind_inv in Hrun as [(c & Hu & ->) | ([] & w2 & Hu & Hrun)].
      * apply unless_inv in Hu as [(_ & [=] & _) | (-> & [= <-] & ->)].
        split; [done|]. right. split; [done|]. by exists w1.
      * apply next_inv in Hrun as [-> _]. done.
    + rewrite bool_decide_eq_false_2 in Hrun; last first.
      { intros Hc. apply Hc. right.
        assert (SIZE_MAX / 4 < channels * frame_size); [|lia].
        apply Z.div_lt_upper_bound; lia. }
      apply stmt_bind_inv in Hrun as [(c & Hu & ->) | ([] & w0 & [[=] _]%fail_inv & _)].
      apply fail_inv in Hu as [[= <-] ->]. split; [done|]. left. split; [lia | done].
  - rewrite bool_decide_eq_false_2 in Hrun; last first.
    { intros Hc. apply Hc. left.
      assert (SIZE_MAX / frame_size < channels); [|lia].
      apply Z.div_lt_upper_bound; lia. }
    apply stmt_bind_inv in Hrun as [(c & Hu & ->) | ([] & w0 & [[=] _]%fail_inv & _)].
    apply fail_inv in Hu as [[= <-] ->]. split; [done|]. left. split; [nia | done].
Qed.

Lemma alloc_frame_guard_witness :
  UINT32_MAX ≤ UINT32_MAX ∧ 1 ≤ 65536 ≤ UINT32_MAX ∧ 1 ≤ 65536 ≤ UINT32_MAX ∧
  alloc_frame (F := Z) UINT32_MAX 65536 65536 (HarnessSamples.empty [] 0)
  = Some (Return 1, add_stderr (HarnessSamples.empty [] 0) FrameBufferOverflow) ∧
  1 = 1 ∧
  (UINT32_MAX < 4 * (65536 * 65536) ∧
   add_stderr (HarnessSamples.empty [] 0) FrameBufferOverflow
   = add_stderr (HarnessSamples.empty [] 0) FrameBufferOverflow ∨
   4 * (65536 * 65536) ≤ UINT32_MAX ∧
   ∃ w1, alloc (HarnessSamples.empty [] 0) = Some (false, w1) ∧
         add_stderr (HarnessSamples.empty [] 0) FrameBufferOverflow
         = add_stderr w1 FailedToAllocateFrameBuffer).
Proof.
  assert (UINT32_MAX ≤ UINT32_MAX) as H1 by lia.
  assert (1 ≤ 65536 ≤ UINT32_MAX) as H2 by (unfold UINT32_MAX; lia).
  assert (alloc_frame (F := Z) UINT32_MAX 65536 65536 (HarnessSamples.empty [] 0)
          = Some (Return 1, add_stderr (HarnessSamples.empty [] 0) FrameBufferOverflow))
    as Hrun by (vm_compute; reflexivity).
  split; [exact H1|]. split; [exact H2|]. split; [exact H2|]. split; [exact Hrun|].
  exact (alloc_frame_guard UINT32_MAX 65536 65536 (HarnessSamples.empty [] 0) _ _
           H1 H2 H2 Hrun).
Defined.
